(* ===== verification/_CoqProject ===== *)
-Q . S2P
Prelude.v
Words.v
Ordered.v
Types.v
Streams.v
Floats.v
FloatsExact.v
Region.v
RegionInv.v
RegionAlloc.v
RegionFree.v
RegionReloc.v
RegionQuery.v
RegionSpec.v
RegionProps.v
Pressure.v
Request.v
PolicyProps.v
Bytes.v
Persist.v
PersistInv.v
PersistSound.v
PersistProps.v
Governor.v
GovernorInv.v
GovernorOps.v
GovernorSpec.v
GovernorProps.v
GovernorBooks.v
GovernorPolicy.v
PlanSpec.v
GovernorLaws.v
PlanProps.v
Ledger.v
Pages.v
LedgerProps.v
PageProps.v
Concurrent.v
Contents.v
SharedLedger.v
Races.v
GovernorTypes.v
GovernorStore.v
StoreProps.v
Backend.v
HostBackend.v
Cuda.v
CudaBackend.v
BackendProps.v
Kernels.v
KernelProps.v
Programs.v
ProgramProps.v
Text.v
PropertyTest.v
Cli.v
CliProps.v
Protocol.v
UnitTests.v
ConcurrencyTest.v
Net.v
Sockets.v
WireProps.v
Coordinator.v
CoordinatorInv.v
Worker.v
WorkerDeathTest.v
Startup.v
CoordinatorSockets.v
CoordinatorLog.v
StartProps.v
ProcessSpec.v
Service.v
ProcessProps.v
ServiceProps.v
Divergences.v
