(* ===== verification/Prelude.v ===== *)
(** * GPU Memory Service: a verification of the allocator, the governor and the processes

    The service governs the bytes of one GPU memory arena.  A region allocator keeps the byte
    layout (which interval is free, which belongs to which allocation); a governor keeps a
    record per allocation on top of it, checks who may do what, measures pressure, proposes
    reclaim candidates and moves, and saves itself to a file; a backend supplies the physical
    bytes; a coordinator process and a worker process exchange framed messages over
    sockets, the worker owning device memory and the coordinator remembering what it asked
    for; a command line tool drives a governor over host memory.

    ** What models what

    Shared ground.
    - [Prelude] (this file): scopes, hint databases, tactics, lists and sums.
    - [Words]: 64- and 32-bit arithmetic with its wrap-around, [include/.../util.hpp]
      ([checked_add], [align_up]), powers of two.
    - [Ordered]: [std::map] and [std::set] as sorted association lists with the operations
      the code calls ([find], [lower_bound], [emplace], [erase], iteration in key order).
    - [Types]: typed ids and generations ([types.hpp]), the enumerations with the conversion
      from a byte ([enum.hpp]), [Failure] and [Result] ([error.hpp]).
    - [Streams]: the stream operators of [types.hpp] and [enum.hpp], as a class.
    - [Floats]: IEEE doubles as [spec_float] and the laws of their order.  [FloatsExact]:
      integers below 2^53 are doubles, and their differences and comparisons are exact.

    Region allocator ([region_allocator.hpp], [src/region_allocator.cpp]).
    - [Region]: the state ([RegionAllocator]: the region map, the index from allocation id to
      offset, the size-ordered free slots, the counters, the summary cache) and every
      method, statement by statement; what the code would do on an inconsistent map
      (dereference of an end iterator) is [None].
    - [RegionInv]: the invariant [ra_wf] (the regions tile [0, capacity), no two free
      neighbours, index, slots and counters agree), [held] (the current region of a handle)
      and [owner_at] (who owns a byte).  [RegionAlloc], [RegionFree], [RegionReloc] and
      [RegionQuery]: what each operation does, case by case, each keeping the invariant.
    - [RegionSpec]: an abstract arena, a finite map from allocations to intervals, and
      executions; [RegionProps]: the theorems (refinement of the abstract arena, the
      functional behaviour of allocate, free, relocate, pin and unpin, the meaning of the
      runtime self-check [verify] and of the cached largest free region, which [verify]
      accepts in every reachable arena).

    Policies.  [Pressure]: [memory_domain.hpp], [pressure.hpp], [src/pressure.cpp].
    [Request]: [allocation.hpp], [src/allocation.cpp].  [PolicyProps]: hysteresis of the
    pressure classifier and the meaning of the admission check.

    Persistence ([persistence.hpp], [src/persistence.cpp]).  [Bytes]: little-endian fields
    and the CRC-32, shared with the wire.  [Persist]: the writer, the reader, the record and
    domain codecs, [encode], [decode] with its validation, files.  [PersistInv] and
    [PersistSound]: readers on written and on arbitrary bytes, and the only buffers on which
    decoding is undefined; [PersistProps]: the round trip within the limits of the format,
    what an accepted image has been checked for, detection of a changed byte, refusal of an
    incoherent snapshot, and a truncation that is undefined behaviour.

    Governor ([governed_memory.hpp], [src/governed_memory.cpp], [backend.hpp]).
    - [Governor]: the state and every method; the backend is a record of operations.
    - [GovernorInv], [GovernorOps]: the invariant [gov_inv] (records and arena regions are in
      bijection and agree; ids are used once) and every operation case by case.
      [GovernorSpec]: operations as data, the step function, reachable states, what a step
      does to the registry.
    - [Ledger] and [LedgerProps]: the contract of the governor, a ledger of accounts, and its
      refinement.
    - [GovernorProps]: safety, requests, releases, stale handles, moves.  [GovernorBooks],
      [GovernorPolicy] and [GovernorLaws]: the byte accounts, reclaim candidates, compaction
      plans, what a pin protects.  [PlanSpec] and [PlanProps]: which moves the planner
      considers, that it takes the best of them, and what its estimate is worth.
    - [GovernorTypes]: every field keeps its C++ type under every call, offsets, sizes, indexes
      and counters of the arena included.  [GovernorStore] and
      [StoreProps]: which saved governors can be loaded, and what a restart keeps.
      [Pages] and [PageProps]: when all
      allocations are whole pages, free bytes are never broken into smaller pieces.
    - [Concurrent]: threads that share a governor, as a step relation; an interleaving is a
      sequence of calls.  [SharedLedger]: threads and the ledger together, what they get and
      that they finish.  [Races]: the four observers that take no lock, as steps of their own;
      which calls disturb which of them, and that only such pairs race.
    - [Contents]: the bytes of the arena, written and copied by clients, whose moves interleave
      with the calls of others; an allocation is private memory, also across moves, as long as
      clients write nothing that another allocation holds.  Its proofs use the ledger only.

    Backends.  [Backend]: what the governor needs of one ([BackendLaws]) and the life of the
    arena over any.  [HostBackend]: [host_backend.hpp], [src/host_backend.cpp].  [Cuda]: the
    calls of the CUDA runtime.  [CudaBackend]: the methods of
    [cuda/cuda_backend.hpp], [src/cuda/cuda_backend.cu].  [BackendProps]: the arena on either.
    [Kernels] and [KernelProps]: the two kernels of [cuda_backend.cu] with their launch
    wrappers, the threads of a grid in any interleaving.

    The tool.  [Text]: [strtoull], [atoi] and lines of output.  [Cli]: [src/tools/gms.cpp].  [CliProps]: sizes
    on the command line, the tool as a whole.

    The programs that come with the library.  [Programs] and [ProgramProps]:
    [consumer/main.cpp], [examples/basic.cpp], [examples/recovery.cpp] and
    [benchmarks/benchmark.cpp] over any heap.

    Processes.  [Protocol]: [protocol.hpp], [src/protocol.cpp].  [Net]: the loops of
    [src/net.hpp] over a class of Winsock calls.  [Sockets]: its set-up functions.
    [WireProps]: frames and streams.  [Coordinator] and [CoordinatorInv]: the loop of
    [coordinator/coordinator.cpp].  [Worker]: the loop of [worker/worker.cpp].  [Startup]: both
    [main] functions up to their loops.  [CoordinatorSockets] and [StartProps]: what the
    processes print and hold after their start, and which sockets the coordinator has open
    over its whole run.  [CoordinatorLog]: its output announces the worker that is registered.
    [ProcessSpec] and [ProcessProps]: a dead worker's allocations are
    fenced, every request is answered (in full, unless a [send] of the answer fails), an
    allocation and a release end to end, the
    registration handshake, and the worker's device memory.  [Service] and [ServiceProps]: the
    two processes over a whole run, the coordinator's books against the worker's table.

    Tests.  [UnitTests]: six test programs ([tests/test_region.cpp], [test_pressure.cpp],
    [test_governed.cpp], [test_reclaim_compact.cpp], [test_persist.cpp],
    [test_protocol.cpp]) run on the model, all checks passing.  [PropertyTest]: the seeded test
    of the arena against a byte map passes for every seed.  [ConcurrencyTest]: the threaded test
    passes under every schedule.  [WorkerDeathTest]: the process test, with the coordinator and
    the worker of the model running against each other.

    ** Conventions

    Integers are [Z] with the wrap-around of their type written out.  An operation on a state
    returns the new state and a [Result]; [option] around it is [None] when the code would be
    undefined.  The governor's methods hold one mutex from entry to exit: [Concurrent] shows
    that threads then see a sequential execution, which is what all other files reason about.
    Theorems named after the code's promises have their instances next to them, on states
    computed by running the model.

    ** Fuel

    Only the socket loops are given fuel: [send_exact] and [recv_exact] run at most as many
    rounds as there are bytes left, which is enough because every round that does not end
    the loop moves at least one byte ([WireProps.stream_delivery] needs no other bound).
    All other loops of the code are structural in the model: over the regions, the records,
    the free slots, the bytes of a buffer or the arguments.

    ** Parameters and their laws

    - [IBackend]: [allocate_arena] and [free_arena]; the governor's theorems hold for all.
      [BackendLaws] is the contract behind the life of the arena; the two backends of the
      repository are its instances.
    - [AlignedHeap] with [AlignedHeapLaws]: [_aligned_malloc] returns null or a new block and
      [_aligned_free] removes one.
    - [Winsock] with [WinsockLaws]: a call moves a prefix of the stream or fails, and touches
      no other connection.  [send] is given the length cut to an [int], as the code does.
    - [SocketCalls] with [SocketLaws]: which sockets the process has open; [socket] adds one,
      [closesocket] removes one, [bind] and [getsockname] agree on the port.
    - [Cuda] with [CudaLaws]: [cudaMalloc] and [cudaFree], in the same way.
    - [CudaLaunch] with [CudaLaunchLaws]: an empty grid is refused, and a refusal is the last
      error.
    - The file system: a map from paths to contents, with the outcome of a write chosen by
      the environment, a flush that fails after the result has been made included.  How a stream or [printf] renders a [double], and the measured times of
      the benchmark, are arguments of the functions that print.
    Each class has an instance that satisfies its laws, used by the witnesses.

    ** Not modelled

    [WSAPoll] and [accept] beyond their results, which a turn of the coordinator takes as
    arguments; the time a call takes, and that a [recv] waits; [tests/test_cuda_arena.cu], but
    for the way it writes and moves allocations ([Contents]) and the kernels it launches; the
    spawning of processes in [tests/test_worker_death.cpp]; the version header.

    ** What the model showed

    Theorems and examples also record where the code falls short; the small ones are in
    [Divergences], the others next to the theorems of their component: a request that requires a
    pin cannot be released ([GovernorLaws.required_pin_stuck]); [unpin] makes a NONMOVABLE
    region MOVABLE ([RegionProps.pin_unpin]); a move to fewer bytes than requested makes the
    saved file unloadable, and so do more than 2^20 releases ([StoreProps.saved_file_loadable]); a
    save whose stream fails only when it is flushed is reported as done
    ([Divergences.saved_but_cut]); a restore of an older snapshot gives ids out again
    ([Divergences.restored_id_reused]); a restore of an initialised
    governor leaks the arena ([BackendProps.arena_lifetime]); a compaction plan without a gain
    is still made and can shrink the largest free region ([PlanProps.plan_promise]); a
    truncated file can make the reader index past its buffer
    ([PersistProps.truncation_undefined]); a completed RELEASE leaves the coordinator's entry
    current ([ProcessProps.release_end_to_end]); a refused ALLOCATE of an id in use strands
    the allocation ([ServiceProps.failed_allocate_strands]); a fill of no element is an error
    and one of 2^40 elements is cut short ([KernelProps.empty_fill_fails],
    [KernelProps.huge_fill_truncated]); the basic example reads the handle of a refused
    request ([ProgramProps.programs_run]); the observers without a lock race with the calls that
    write what they read ([Races.unlocked_observers]); a plan reserves nothing, so bytes copied
    after another request was granted its target overwrite that allocation
    ([Contents.stale_plan_overwrites]); the length of a frame is not covered by its checksum
    ([WireProps.length_field_unprotected]).

    ** Left to do

    The coordinator serves one worker and one controller at a time, as the model does; if it
    comes to serve several, [turn] becomes a step relation over them.  The contents of an
    allocation under the kernels of [Kernels] (a launch over the extent of a current handle)
    would join [Contents] and [KernelProps]. *)
From Stdlib Require Export ZArith Lia Bool.
From stdpp Require Export base tactics numbers list gmap sorting strings pretty.
#[export] Set Warnings "-clear-no-such-hyp".

Declare Scope gms_scope.
Delimit Scope gms_scope with gms.

(** ** Hint databases

    [gms] holds the lemmas that [eauto] chains (bounds, well-formedness of
    intermediate states); [gms_rw] the equations that [autorewrite] uses to
    normalise list and map projections. *)
Create HintDb gms discriminated.
Create Rewrite HintDb gms_rw.
#[export] Hint Constants Opaque : gms.
#[export] Hint Variables Opaque : gms.

(** ** Proof automation *)

(** [guards] replays the early returns of a translated function: it splits on
    the outermost [if]/[match] of the goal or of a hypothesis, dropping the
    branches whose equations are contradictory. *)
Ltac guard_step :=
  match goal with
  | |- context [if decide ?P then _ else _] => destruct (decide P)
  | |- context [match ?x with _ => _ end] =>
      lazymatch x with
      | context [match _ with _ => _ end] => fail
      | _ => destruct x eqn:?
      end
  end.

Ltac guards := repeat (guard_step; simplify_eq/=; try done).

Ltac guard_step_in H :=
  match type of H with
  | context [match ?x with _ => _ end] =>
      lazymatch x with
      | context [match _ with _ => _ end] => fail
      | _ => destruct x eqn:?
      end
  end.

Ltac guards_in H := repeat (guard_step_in H; simplify_eq/=; try done).

(** [zbool] turns the boolean comparisons of the translated conditions into
    propositions that [lia] reads. *)
Ltac zbool :=
  repeat match goal with
  | H : (_ && _) = true |- _ => apply andb_true_iff in H as [? ?]
  | H : (_ && _) = false |- _ => apply andb_false_iff in H
  | H : (_ || _) = true |- _ => apply orb_true_iff in H
  | H : (_ || _) = false |- _ => apply orb_false_iff in H as [? ?]
  | H : negb _ = true |- _ => apply negb_true_iff in H
  | H : negb _ = false |- _ => apply negb_false_iff in H
  | H : (_ =? _)%Z = true |- _ => apply Z.eqb_eq in H
  | H : (_ =? _)%Z = false |- _ => apply Z.eqb_neq in H
  | H : (_ <? _)%Z = true |- _ => apply Z.ltb_lt in H
  | H : (_ <? _)%Z = false |- _ => apply Z.ltb_ge in H
  | H : (_ <=? _)%Z = true |- _ => apply Z.leb_le in H
  | H : (_ <=? _)%Z = false |- _ => apply Z.leb_gt in H
  | H : (_ >? _)%Z = _ |- _ => rewrite Z.gtb_ltb in H
  | H : (_ >=? _)%Z = _ |- _ => rewrite Z.geb_leb in H
  end.

(** ** Lists *)

Section lists.
Context {A : Type}.
Implicit Types (l : list A) (x : A).

(** The last element of a list seen through its split. *)
Lemma snoc_cases l : l = [] \/ exists l' x, l = l' ++ [x].
Proof. destruct l as [|x l' _] using rev_ind; eauto. Qed.

Lemma sum_list_with_Z_app (f : A -> Z) l1 l2 :
  foldr (fun x acc => (f x + acc)%Z) 0%Z (l1 ++ l2)
  = (foldr (fun x acc => (f x + acc)%Z) 0%Z l1
     + foldr (fun x acc => (f x + acc)%Z) 0%Z l2)%Z.
Proof. induction l1; simpl; lia. Qed.
End lists.

(** Sum of a [Z]-valued measure over a list. *)
Definition zsum {A} (f : A -> Z) (l : list A) : Z :=
  foldr (fun x acc => (f x + acc)%Z) 0%Z l.

Lemma zsum_nil {A} (f : A -> Z) : zsum f [] = 0%Z.
Proof. done. Qed.

Lemma zsum_cons {A} (f : A -> Z) x l : zsum f (x :: l) = (f x + zsum f l)%Z.
Proof. done. Qed.

Lemma zsum_app {A} (f : A -> Z) l1 l2 : zsum f (l1 ++ l2) = (zsum f l1 + zsum f l2)%Z.
Proof. apply sum_list_with_Z_app. Qed.

Lemma zsum_nonneg {A} (f : A -> Z) l :
  (forall x, x ∈ l -> (0 <= f x)%Z) -> (0 <= zsum f l)%Z.
Proof.
  induction l as [|x l IH]; intros Hf; rewrite ?zsum_nil, ?zsum_cons; [lia|].
  pose proof (Hf x ltac:(left)).
  assert (0 <= zsum f l)%Z by (apply IH; intros; apply Hf; by right). lia.
Qed.

Lemma zsum_perm {A} (f : A -> Z) l1 l2 : l1 ≡ₚ l2 -> zsum f l1 = zsum f l2.
Proof. induction 1; rewrite ?zsum_cons; lia. Qed.

#[global] Instance zsum_proper {A} (f : A -> Z) : Proper ((≡ₚ) ==> (=)) (zsum f).
Proof. intros l1 l2. apply zsum_perm. Qed.

Lemma zsum_insert {A} (f : A -> Z) l i x y :
  l !! i = Some x -> (zsum f (<[i := y]> l) = zsum f l - f x + f y)%Z.
Proof.
  revert i. induction l as [|z l IH]; intros [|i] Hi; simplify_eq/=; rewrite ?zsum_cons; [lia|].
  rewrite (IH i Hi). lia.
Qed.

(** The largest of a list of addresses, or 0. *)
Lemma max_nonneg (l : list Z) : (0 <= foldr Z.max 0 l)%Z.
Proof. induction l; simpl; lia. Qed.

Lemma max_bound (l : list Z) x : x ∈ l -> (x <= foldr Z.max 0 l)%Z.
Proof.
  induction l as [|y l IH]; [by intros ?%elem_of_nil|].
  intros [->|Hx]%elem_of_cons; simpl; [lia|]. specialize (IH Hx). lia.
Qed.

#[export] Hint Rewrite @zsum_nil @zsum_cons @zsum_app @app_nil_r @length_app : gms_rw.
