(* ===== verification/Words.v ===== *)
(** Machine words: the 64-bit arithmetic of [include/gpu_memory_service/util.hpp]
    and of the anonymous helpers of [src/region_allocator.cpp].

    A [std::uint64_t] is a [Z]; every operation that can wrap is written with its
    reduction modulo 2^64, so that the theorems about the callers have to show
    that no wrap-around happens.  *)
From S2P Require Import Prelude.
Open Scope Z_scope.

Definition U64 : Z := 2 ^ 64.
Definition U64_MAX : Z := 2 ^ 64 - 1.
Definition U32 : Z := 2 ^ 32.

Definition in_u64 (x : Z) : Prop := 0 <= x < U64.

Definition add64 (a b : Z) : Z := (a + b) mod U64.
Definition sub64 (a b : Z) : Z := (a - b) mod U64.
Definition mul64 (a b : Z) : Z := (a * b) mod U64.
Definition not64 (a : Z) : Z := Z.lxor a U64_MAX.
Definition add32 (a b : Z) : Z := (a + b) mod U32.
Definition sub32 (a b : Z) : Z := (a - b) mod U32.

(** ** [detail] of util.hpp *)

Definition is_pow2 (v : Z) : bool :=
  negb (v =? 0) && (Z.land v (sub64 v 1) =? 0).

(** The out-parameter becomes the payload of the option. *)
Definition checked_add (a b : Z) : option Z :=
  if a >? sub64 U64_MAX b then None else Some (add64 a b).

Definition detail_align_up (v align : Z) : Z :=
  if negb (is_pow2 align) then v
  else
    let mask := sub64 align 1 in
    let r := add64 v mask in
    if r <? v then 0 else Z.land r (not64 mask).

(** [RegionAllocator::align_up]: no power-of-two test, only a zero test. *)
Definition ra_align_up (v align : Z) : Z :=
  if align =? 0 then v
  else
    let mask := sub64 align 1 in
    let r := add64 v mask in
    if r <? v then 0 else Z.land r (not64 mask).

(** [sub] of src/governed_memory.cpp: subtraction clamped at zero. *)
Definition sub_sat (a b : Z) : Z := if a >=? b then sub64 a b else 0.

(** ** Lemmas *)

Lemma U64_pos : 0 < U64. Proof. done. Qed.

Lemma add64_small a b : 0 <= a + b < U64 -> add64 a b = a + b.
Proof. intros; by apply Z.mod_small. Qed.

Lemma sub64_small a b : 0 <= a - b < U64 -> sub64 a b = a - b.
Proof. intros; by apply Z.mod_small. Qed.

Lemma add64_range a b : in_u64 (add64 a b).
Proof. apply Z.mod_pos_bound. done. Qed.

Lemma sub64_range a b : in_u64 (sub64 a b).
Proof. apply Z.mod_pos_bound. done. Qed.

Lemma sub64_wrap a b : - U64 <= a - b < 0 -> sub64 a b = a - b + U64.
Proof.
  intros. unfold sub64. rewrite <- (Z.mod_add _ 1) by done.
  apply Z.mod_small. lia.
Qed.

Lemma add64_wrap a b : U64 <= a + b < 2 * U64 -> add64 a b = a + b - U64.
Proof.
  intros. unfold add64. rewrite <- (Z.mod_add _ (-1)) by done.
  rewrite Z.mod_small; lia.
Qed.

Lemma sub_sat_spec a b : in_u64 a -> in_u64 b -> sub_sat a b = Z.max 0 (a - b).
Proof.
  unfold in_u64, sub_sat. intros. destruct (Z.geb_spec a b); [|lia].
  rewrite sub64_small; lia.
Qed.

Lemma land_pred_log2 v : 0 < v -> Z.land v (v - 1) = 0 -> v = 2 ^ Z.log2 v.
Proof.
  intros Hv Hl. destruct (Z.log2_spec v Hv) as [Hlo Hhi].
  destruct (Z.eq_dec v (2 ^ Z.log2 v)) as [|Hne]; [done|exfalso].
  assert (Hl2 : Z.log2 (v - 1) = Z.log2 v).
  { apply Z.log2_unique; [apply Z.log2_nonneg|lia]. }
  assert (Hb : Z.testbit (Z.land v (v - 1)) (Z.log2 v) = true).
  { rewrite Z.land_spec, Z.bit_log2 by lia.
    rewrite <- Hl2, Z.bit_log2; [done|].
    assert (1 <= 2 ^ Z.log2 v) by (pose proof (Z.pow_pos_nonneg 2 (Z.log2 v) ltac:(lia) (Z.log2_nonneg v)); lia).
    lia. }
  rewrite Hl, Z.bits_0 in Hb. done.
Qed.

Lemma land_pow2_pred n : 0 <= n -> Z.land (2 ^ n) (2 ^ n - 1) = 0.
Proof.
  intros. replace (2 ^ n - 1) with (Z.ones n) by (rewrite Z.ones_equiv; lia).
  rewrite Z.land_ones by lia. apply Z_mod_same_full.
Qed.

(** [is_pow2] decides "is a power of two" on 64-bit words. *)
Lemma is_pow2_spec v :
  in_u64 v -> is_pow2 v = true <-> exists n, 0 <= n < 64 /\ v = 2 ^ n.
Proof.
  intros Hv. unfold is_pow2. rewrite andb_true_iff, negb_true_iff, Z.eqb_neq, Z.eqb_eq.
  unfold in_u64, U64 in Hv. split.
  - intros [H0 Hl]. rewrite sub64_small in Hl by (unfold U64; lia).
    apply land_pred_log2 in Hl; [|lia]. exists (Z.log2 v). split; [|done].
    split; [apply Z.log2_nonneg|]. apply Z.log2_lt_pow2; lia.
  - intros (n & Hn & ->). pose proof (Z.pow_pos_nonneg 2 n). split; [lia|].
    rewrite sub64_small by (unfold U64; lia). apply land_pow2_pred. lia.
Qed.

Lemma is_pow2_pos v : in_u64 v -> is_pow2 v = true -> 0 < v.
Proof. intros Hv (n & ? & ->)%is_pow2_spec; [|done]. apply Z.pow_pos_nonneg; lia. Qed.

Lemma land_not64_pow2 r n :
  in_u64 r -> 0 <= n < 64 -> Z.land r (not64 (2 ^ n - 1)) = r / 2 ^ n * 2 ^ n.
Proof.
  intros Hr Hn. transitivity (Z.ldiff r (Z.ones n)).
  - apply Z.bits_inj'. intros i Hi.
    rewrite Z.land_spec, Z.ldiff_spec. unfold not64, U64_MAX.
    replace (2 ^ 64 - 1) with (Z.ones 64) by done.
    replace (2 ^ n - 1) with (Z.ones n) by (rewrite Z.ones_equiv; lia).
    rewrite Z.lxor_spec. destruct (Z.lt_ge_cases i 64).
    + rewrite (Z.ones_spec_low 64) by lia. by destruct (Z.testbit (Z.ones n) i).
    + assert (Z.testbit r i = false) as ->; [|done].
      destruct (Z.eq_dec r 0) as [->|]; [apply Z.bits_0|].
      apply Z.bits_above_log2; [unfold in_u64 in *; lia|].
      enough (Z.log2 r < 64) by lia. unfold in_u64, U64 in Hr. apply Z.log2_lt_pow2; lia.
  - rewrite Z.ldiff_ones_r by lia. rewrite Z.shiftr_div_pow2, Z.shiftl_mul_pow2 by lia. done.
Qed.

(** The two [align_up]s agree on power-of-two alignments ... *)
Lemma align_up_agree v align :
  is_pow2 align = true -> detail_align_up v align = ra_align_up v align.
Proof.
  intros H. unfold detail_align_up, ra_align_up. rewrite H; simpl.
  unfold is_pow2 in H. apply andb_true_iff in H as [->%negb_true_iff _]. done.
Qed.

(** ... where the result is the least multiple of the alignment that is not below
    the argument, or 0 when that multiple is not representable. *)
Lemma ra_align_up_pow2 v n :
  in_u64 v -> 0 <= n < 64 ->
  ra_align_up v (2 ^ n) =
    if v + (2 ^ n - 1) <? U64 then (v + (2 ^ n - 1)) / 2 ^ n * 2 ^ n else 0.
Proof.
  intros Hv Hn. unfold ra_align_up.
  assert (Hp : 0 < 2 ^ n) by (apply Z.pow_pos_nonneg; lia).
  assert (Hp' : 2 ^ n <= 2 ^ 63) by (apply Z.pow_le_mono_r; lia).
  unfold in_u64, U64 in *. rewrite (proj2 (Z.eqb_neq _ _)) by lia.
  rewrite (sub64_small (2 ^ n)) by (unfold U64; lia).
  destruct (Z.ltb_spec (v + (2 ^ n - 1)) (2 ^ 64)).
  - rewrite add64_small by (unfold U64; lia).
    rewrite (proj2 (Z.ltb_ge _ _)) by lia. apply land_not64_pow2; [|lia].
    unfold in_u64, U64; lia.
  - rewrite add64_wrap by (unfold U64; lia).
    rewrite (proj2 (Z.ltb_lt _ _)) by (unfold U64; lia). done.
Qed.

Lemma div_mul_bounds x a : 0 < a -> x < (x + (a - 1)) / a * a + 1 /\ (x + (a - 1)) / a * a < x + a.
Proof. intros. pose proof (Z.div_mod (x + (a - 1)) a). pose proof (Z.mod_pos_bound (x + (a-1)) a). nia. Qed.

(** The properties callers use: either overflow (result 0) or a multiple of the
    alignment in [v, v + align). *)
Lemma ra_align_up_cases v align :
  in_u64 v -> in_u64 align -> is_pow2 align = true ->
  (ra_align_up v align = 0 /\ U64 < v + align) \/
  (v <= ra_align_up v align < v + align /\ ra_align_up v align mod align = 0
   /\ ra_align_up v align < U64 /\ v + align <= U64).
Proof.
  intros Hv Ha (n & Hn & ->)%is_pow2_spec; [|done].
  rewrite ra_align_up_pow2 by done.
  assert (Hp : 0 < 2 ^ n) by (apply Z.pow_pos_nonneg; lia).
  destruct (Z.ltb_spec (v + (2 ^ n - 1)) U64); [right|left; lia].
  pose proof (div_mul_bounds v (2 ^ n) Hp).
  pose proof (Z.div_mod (v + (2 ^ n - 1)) (2 ^ n)).
  pose proof (Z.mod_pos_bound (v + (2 ^ n - 1)) (2 ^ n)).
  repeat split; try lia. by apply Z_mod_mult.
Qed.

(** Minimality: an aligned point at or above [v] is at or above [align_up v]. *)
Lemma ra_align_up_least v align p :
  in_u64 v -> in_u64 align -> is_pow2 align = true ->
  v <= p -> p mod align = 0 -> v + align <= U64 -> ra_align_up v align <= p.
Proof.
  intros Hv Ha Hp2 Hle Hmod Hov.
  destruct (ra_align_up_cases v align) as [[]|(H1 & H2 & _)]; [done..|lia|].
  apply is_pow2_pos in Hp2; [|done].
  apply Z.mod_divide in H2 as [q1 E1]; [|lia].
  apply Z.mod_divide in Hmod as [q2 E2]; [|lia].
  rewrite E1 in *. subst p.
  assert (q1 * align < (q2 + 1) * align) by lia.
  apply Z.mul_le_mono_nonneg_r; [lia|].
  apply Zmult_lt_reg_r in H; lia.
Qed.

(** An aligned value is a fixed point. *)
Lemma ra_align_up_id v align :
  in_u64 v -> in_u64 align -> is_pow2 align = true ->
  v mod align = 0 -> v + align <= U64 -> ra_align_up v align = v.
Proof.
  intros. destruct (ra_align_up_cases v align) as [[]|(H5 & H6 & _)]; [done..|lia|].
  enough (ra_align_up v align <= v) by lia. apply ra_align_up_least; auto; lia.
Qed.

(** ** Rounding up, mathematically *)

Definition round_up (n al : Z) : Z := (n + (al - 1)) / al * al.

Lemma round_up_bounds n al : 0 < al -> n <= round_up n al < n + al.
Proof. intros. pose proof (div_mul_bounds n al). unfold round_up. lia. Qed.

(** [align_up] is [round_up] when the result is representable, and 0 otherwise. *)
Lemma ra_align_up_round v al :
  in_u64 v -> in_u64 al -> is_pow2 al = true ->
  ra_align_up v al = if round_up v al <? U64 then round_up v al else 0.
Proof.
  intros Hv Ha (n & Hn & ->)%is_pow2_spec; [|done]. rewrite ra_align_up_pow2 by done.
  assert (Hp : 0 < 2 ^ n) by (apply Z.pow_pos_nonneg; lia).
  pose proof (round_up_bounds v (2 ^ n) Hp) as Hb. fold (round_up v (2 ^ n)).
  destruct (Z.ltb_spec (v + (2 ^ n - 1)) U64), (Z.ltb_spec (round_up v (2 ^ n)) U64); try lia.
  exfalso. assert (Hdiv : U64 = 2 ^ (64 - n) * 2 ^ n).
  { unfold U64. rewrite <- Z.pow_add_r by lia. f_equal. lia. }
  unfold round_up in *. set (q := (v + (2 ^ n - 1)) / 2 ^ n) in *.
  assert (q < 2 ^ (64 - n)) by (apply (Z.mul_lt_mono_pos_r (2 ^ n)); lia).
  assert (2 ^ (64 - n) <= q) by (apply Z.div_le_lower_bound; lia). lia.
Qed.

(** A loop that adds up what a test selects, at 64 bits. *)
Lemma fold_add64 {A} (p : A -> bool) (f : A -> Z) l x :
  fold_left (fun total a => if p a then add64 total (f a) else total) l (x mod U64)
  = (x + zsum (fun a => if p a then f a else 0) l) mod U64.
Proof.
  revert x. induction l as [|a l IH]; intros x; [by rewrite zsum_nil, Z.add_0_r|].
  cbn [fold_left]. rewrite zsum_cons. destruct (p a).
  - unfold add64 at 2. rewrite Z.add_mod_idemp_l, IH by done. f_equal; lia.
  - rewrite IH. f_equal; lia.
Qed.
