(* ===== verification/Ordered.v ===== *)
(** Ordered containers: the model of [std::map] and [std::set].

    Both are lists kept strictly sorted by key.  An iterator is the suffix of the
    list that starts at the element it points to ([end()] is the empty suffix), so
    [lower_bound] returns a suffix and a [for] loop over a range is a recursion on
    it.  The order is supplied by the class [KeyOrder], the counterpart of the
    [operator<] that the C++ key types define. *)
From S2P Require Import Prelude.
Open Scope Z_scope.

(** A strict total order with decidable comparison: what [std::map] requires of
    its key type. *)
Class KeyOrder (K : Type) := {
  klt : K -> K -> Prop;
  klt_eq_dec : EqDecision K;
  klt_dec : RelDecision klt;
  klt_strict : StrictOrder klt;
  klt_tri : forall a b, klt a b \/ a = b \/ klt b a;
}.
#[export] Hint Mode KeyOrder ! : typeclass_instances.
#[export] Existing Instances klt_eq_dec klt_dec klt_strict.

#[export] Instance Z_KeyOrder : KeyOrder Z.
Proof.
  refine {| klt := Z.lt |}. intros a b. lia.
Defined.

(** The order pulled back along an injection: how [TypedId] and [FreeSlot] get
    theirs. *)
Section orders.
Context {K K' : Type} `{KeyOrder K'} (f : K -> K').

Definition pull_lt (a b : K) : Prop := klt (f a) (f b).

#[local] Instance pull_lt_strict : StrictOrder pull_lt.
Proof.
  split.
  - intros a Ha. by apply (StrictOrder_Irreflexive (f a)).
  - intros a b c H1 H2. unfold pull_lt in *. by etrans.
Qed.

#[local] Instance pull_lt_dec : RelDecision pull_lt.
Proof. intros a b. apply (decide (klt (f a) (f b))). Defined.

Lemma pull_lt_tri (Hf : forall a b, f a = f b -> a = b) a b :
  pull_lt a b \/ a = b \/ pull_lt b a.
Proof. destruct (klt_tri (f a) (f b)) as [|[E|]]; auto. Qed.

Definition inj_KeyOrder `{!EqDecision K} (Hf : forall a b, f a = f b -> a = b) :
    KeyOrder K :=
  {| klt := pull_lt; klt_eq_dec := _; klt_dec := _; klt_strict := _;
     klt_tri := pull_lt_tri Hf |}.

Context {A B : Type} `{KeyOrder A} `{KeyOrder B}.

(** Lexicographic order on pairs. *)
Definition lex_lt (p q : A * B) : Prop := klt p.1 q.1 \/ (p.1 = q.1 /\ klt p.2 q.2).

#[local] Instance lex_lt_strict : StrictOrder lex_lt.
Proof.
  split.
  - intros p [Hp|[_ Hp]]; by apply StrictOrder_Irreflexive in Hp.
  - intros p q r [H1'|[E1 H1']] [H2'|[E2 H2']].
    + left; by etrans.
    + left; by rewrite <- E2.
    + left; by rewrite E1.
    + right; split; [congruence|by etrans].
Qed.

#[local] Instance lex_lt_dec : RelDecision lex_lt.
Proof. intros p q. unfold lex_lt. apply _. Defined.

Lemma lex_lt_tri p q : lex_lt p q \/ p = q \/ lex_lt q p.
Proof.
  destruct p as [a b], q as [a' b']; unfold lex_lt; simpl.
  destruct (klt_tri a a') as [|[->|]]; [auto| |auto].
  destruct (klt_tri b b') as [|[->|]]; auto.
Qed.
End orders.

#[export] Instance pair_KeyOrder {A B} `{KeyOrder A} `{KeyOrder B} : KeyOrder (A * B) :=
  {| klt := lex_lt; klt_eq_dec := _; klt_dec := lex_lt_dec; klt_strict := lex_lt_strict;
     klt_tri := lex_lt_tri |}.

Abbreviation omap K V := (list (K * V)).
Abbreviation oset K := (list K).

(** ** [std::map] *)
Section omap.
Context {K V : Type} `{KeyOrder K}.
Implicit Types (m l : omap K V) (k : K) (v : V).

(** [m.find(k)], as the value it points to. *)
Fixpoint om_find (k : K) (m : omap K V) : option V :=
  match m with
  | [] => None
  | (k', v) :: m' => if decide (k = k') then Some v else om_find k m'
  end.

(** [m.emplace(k, v)]: an existing entry is kept. *)
Fixpoint om_emplace (k : K) (v : V) (m : omap K V) : omap K V :=
  match m with
  | [] => [(k, v)]
  | (k', v') :: m' =>
      if decide (klt k k') then (k, v) :: m
      else if decide (klt k' k) then (k', v') :: om_emplace k v m'
      else m
  end.

(** [m[k] = v]: an existing entry is overwritten. *)
Fixpoint om_set (k : K) (v : V) (m : omap K V) : omap K V :=
  match m with
  | [] => [(k, v)]
  | (k', v') :: m' =>
      if decide (klt k k') then (k, v) :: m
      else if decide (klt k' k) then (k', v') :: om_set k v m'
      else (k, v) :: m'
  end.

(** [m.erase(m.find(k))]. *)
Fixpoint om_erase (k : K) (m : omap K V) : omap K V :=
  match m with
  | [] => []
  | (k', v') :: m' => if decide (k = k') then m' else (k', v') :: om_erase k m'
  end.

(** [m.lower_bound(k)]: the entries from the first key that is not below [k]. *)
Fixpoint om_lower_bound (k : K) (m : omap K V) : omap K V :=
  match m with
  | [] => []
  | e :: m' => if decide (klt e.1 k) then om_lower_bound k m' else m
  end.

(** [*std::prev(m.lower_bound(k))], [None] when the bound is [begin()]. *)
Fixpoint om_prev (k : K) (m : omap K V) : option (K * V) :=
  match m with
  | [] => None
  | e :: m' =>
      if decide (klt e.1 k) then
        match om_prev k m' with Some p => Some p | None => Some e end
      else None
  end.

Definition om_values (m : omap K V) : list V := m.*2.

Definition om_ok (m : omap K V) : Prop := StronglySorted (fun a b => klt a.1 b.1) m.

Definition keys_lt (k : K) (l : omap K V) : Prop := Forall (fun e => klt e.1 k) l.
Definition keys_gt (k : K) (l : omap K V) : Prop := Forall (fun e => klt k e.1) l.

Lemma klt_irrefl k : ~ klt k k.
Proof. apply StrictOrder_Irreflexive. Qed.

Lemma klt_asym k k' : klt k k' -> ~ klt k' k.
Proof. intros ??. apply (klt_irrefl k). by etrans. Qed.

Lemma keys_lt_trans k k' l : keys_lt k l -> klt k k' -> keys_lt k' l.
Proof. intros Hl ?. eapply Forall_impl; [done|]. intros; simpl in *; by etrans. Qed.

Lemma keys_gt_trans k k' l : keys_gt k l -> klt k' k -> keys_gt k' l.
Proof. intros Hl ?. eapply Forall_impl; [done|]. intros; simpl in *; by etrans. Qed.

Lemma om_ok_nil : om_ok [].
Proof. constructor. Qed.

Lemma om_ok_cons k v m : om_ok ((k, v) :: m) <-> keys_gt k m /\ om_ok m.
Proof.
  unfold om_ok, keys_gt. split.
  - intros Hs. by apply StronglySorted_inv in Hs as [??].
  - intros []. by constructor.
Qed.

Lemma om_ok_app l1 l2 :
  om_ok (l1 ++ l2) <->
  om_ok l1 /\ om_ok l2 /\ (forall e1 e2, e1 ∈ l1 -> e2 ∈ l2 -> klt e1.1 e2.1).
Proof.
  induction l1 as [|[k v] l1 IH]; simpl.
  - split; [|naive_solver]. intros ?; repeat split; [constructor|done|].
    intros ?? Hin; by apply not_elem_of_nil in Hin.
  - rewrite !om_ok_cons, IH. unfold keys_gt. rewrite Forall_app, !Forall_forall.
    setoid_rewrite elem_of_cons. naive_solver.
Qed.

Lemma om_ok_mid l1 k v l2 :
  om_ok (l1 ++ (k, v) :: l2) <->
  om_ok (l1 ++ l2) /\ keys_lt k l1 /\ keys_gt k l2.
Proof.
  rewrite !om_ok_app, om_ok_cons. unfold keys_lt, keys_gt. rewrite !Forall_forall.
  setoid_rewrite elem_of_cons. split.
  - intros (? & [??] & Hc). repeat split; auto. intros e ?.
    by apply (Hc e (k, v)); auto.
  - intros ((? & ? & ?) & ? & ?). repeat split; auto.
    intros e1 e2 ? [->|?]; simpl; auto.
Qed.

Lemma om_find_mid l1 k v l2 : keys_lt k l1 -> om_find k (l1 ++ (k, v) :: l2) = Some v.
Proof.
  induction 1 as [|[k' v'] l1 Hk _ IH]; simpl in *.
  - by rewrite decide_True.
  - rewrite decide_False; [done|]. intros ->. by apply klt_irrefl in Hk.
Qed.

Lemma om_erase_mid l1 k v l2 : keys_lt k l1 -> om_erase k (l1 ++ (k, v) :: l2) = l1 ++ l2.
Proof.
  induction 1 as [|[k' v'] l1 Hk _ IH]; simpl in *.
  - by rewrite decide_True.
  - rewrite decide_False; [by rewrite IH|]. intros ->. by apply klt_irrefl in Hk.
Qed.

Lemma om_emplace_mid l1 k v l2 :
  keys_lt k l1 -> keys_gt k l2 -> om_emplace k v (l1 ++ l2) = l1 ++ (k, v) :: l2.
Proof.
  induction 1 as [|[k' v'] l1 Hk _ IH]; simpl in *; intros Hgt.
  - destruct Hgt as [|[k' v'] l2 Hk _]; simpl in *; [done|]. by rewrite decide_True.
  - rewrite decide_False by (by apply klt_asym). rewrite decide_True by done.
    by rewrite IH.
Qed.

Lemma om_set_mid l1 k v l2 :
  keys_lt k l1 -> keys_gt k l2 -> om_set k v (l1 ++ l2) = l1 ++ (k, v) :: l2.
Proof.
  induction 1 as [|[k' v'] l1 Hk _ IH]; simpl in *; intros Hgt.
  - destruct Hgt as [|[k' v'] l2 Hk _]; simpl in *; [done|]. by rewrite decide_True.
  - rewrite decide_False by (by apply klt_asym). rewrite decide_True by done.
    by rewrite IH.
Qed.

Lemma om_set_at l1 k v w l2 :
  keys_lt k l1 -> om_set k w (l1 ++ (k, v) :: l2) = l1 ++ (k, w) :: l2.
Proof.
  induction 1 as [|[k' v'] l1 Hk _ IH]; simpl in *.
  - by rewrite !decide_False by apply klt_irrefl.
  - rewrite decide_False by (by apply klt_asym). rewrite decide_True by done.
    by rewrite IH.
Qed.

Lemma om_lower_bound_split k l1 l2 :
  keys_lt k l1 -> Forall (fun e => ~ klt e.1 k) l2 -> om_lower_bound k (l1 ++ l2) = l2.
Proof.
  induction 1 as [|[k' v'] l1 Hk _ IH]; simpl in *; intros Hge.
  - destruct Hge as [|[k' v'] l2 Hk _]; simpl in *; [done|]. by rewrite decide_False.
  - rewrite decide_True by done. auto.
Qed.

Lemma om_prev_split k l1 l2 :
  keys_lt k l1 -> Forall (fun e => ~ klt e.1 k) l2 -> om_prev k (l1 ++ l2) = last l1.
Proof.
  induction 1 as [|[k' v'] l1 Hk _ IH]; simpl in *; intros Hge.
  - destruct Hge as [|[k' v'] l2 Hk _]; simpl in *; [done|]. by rewrite decide_False.
  - rewrite decide_True by done. rewrite IH by done.
    destruct l1 as [|e l1 _] using rev_ind; [done|]. by rewrite app_comm_cons, !last_snoc.
Qed.

Lemma keys_gt_not_lt k l : keys_gt k l -> Forall (fun e => ~ klt e.1 k) l.
Proof. intros Hl. eapply Forall_impl; [done|]. intros ??; by apply klt_asym. Qed.

Lemma om_find_split m k v :
  om_find k m = Some v -> exists l1 l2, m = l1 ++ (k, v) :: l2.
Proof.
  induction m as [|[k' v'] m IH]; simpl; [done|]. case_decide; intros.
  - simplify_eq. by exists [], m.
  - destruct IH as (l1 & l2 & ->); [done|]. by exists ((k', v') :: l1), l2.
Qed.

(** Everything a lookup gives on a sorted map, at once. *)
Lemma om_find_inv m k v :
  om_ok m -> om_find k m = Some v ->
  exists l1 l2, m = l1 ++ (k, v) :: l2 /\ keys_lt k l1 /\ keys_gt k l2.
Proof.
  intros Hok (l1 & l2 & ->)%om_find_split. exists l1, l2.
  apply om_ok_mid in Hok as (_ & ? & ?). done.
Qed.

Lemma om_find_elem m k v : om_ok m -> om_find k m = Some v <-> (k, v) ∈ m.
Proof.
  intros Hok. split.
  - intros (l1 & l2 & ->)%om_find_split. set_solver.
  - intros (l1 & l2 & ->)%list_elem_of_split.
    apply om_ok_mid in Hok as (_ & ? & _). by apply om_find_mid.
Qed.

Lemma om_ok_NoDup m : om_ok m -> NoDup m.
Proof.
  unfold om_ok. induction 1 as [|e m _ IH Hall]; constructor; [|done].
  intros Hin. apply (proj1 (Forall_forall _ _) Hall) in Hin. by apply klt_irrefl in Hin.
Qed.

Lemma om_find_None m k : om_find k m = None <-> k ∉ m.*1.
Proof.
  induction m as [|[k' v'] m IH]; simpl; [set_solver|].
  rewrite not_elem_of_cons. case_decide; [naive_solver|]. rewrite IH. naive_solver.
Qed.

Lemma om_find_emplace_ne k k' v m :
  k <> k' -> om_find k (om_emplace k' v m) = om_find k m.
Proof.
  intros Hne. induction m as [|[k0 v0] m IH]; simpl.
  - by rewrite decide_False.
  - repeat case_decide; simpl; repeat case_decide; simplify_eq; try done.
Qed.

Lemma om_find_set_eq k v m : om_find k (om_set k v m) = Some v.
Proof.
  induction m as [|[k0 v0] m IH]; simpl.
  - by rewrite decide_True.
  - repeat case_decide; simpl; repeat case_decide; simplify_eq; done.
Qed.

Lemma om_find_set_ne k k' v m : k <> k' -> om_find k (om_set k' v m) = om_find k m.
Proof.
  intros Hne. induction m as [|[k0 v0] m IH]; simpl.
  - by rewrite decide_False.
  - repeat case_decide; simpl; repeat case_decide; simplify_eq; try done.
    destruct (klt_tri k' k0) as [|[->|]]; naive_solver.
Qed.

Lemma om_find_erase_eq k m : om_ok m -> om_find k (om_erase k m) = None.
Proof.
  induction m as [|[k0 v0] m IH]; simpl; [done|]. intros [Hgt Hok]%om_ok_cons.
  case_decide; simpl; [|rewrite decide_False by done; auto]. subst.
  apply om_find_None. intros ([k' v'] & -> & Hin)%list_elem_of_fmap.
  eapply Forall_forall in Hgt; [|done]. by apply klt_irrefl in Hgt.
Qed.

Lemma om_find_erase_ne k k' m : k <> k' -> om_find k (om_erase k' m) = om_find k m.
Proof.
  intros Hne. induction m as [|[k0 v0] m IH]; simpl; [done|].
  repeat case_decide; simpl; repeat case_decide; simplify_eq; try done.
Qed.

Lemma om_set_keys k v m e : e ∈ om_set k v m -> e = (k, v) \/ e ∈ m.
Proof.
  induction m as [|[k0 v0] m IH]; simpl; [set_solver|].
  repeat case_decide; rewrite !elem_of_cons; naive_solver.
Qed.

Lemma om_ok_set k v m : om_ok m -> om_ok (om_set k v m).
Proof.
  induction m as [|[k0 v0] m IH]; simpl; intros Hok.
  - apply om_ok_cons; split; [constructor|done].
  - pose proof Hok as [Hgt Hok']%om_ok_cons. repeat case_decide.
    + apply om_ok_cons; split; [|done]. constructor; [done|by eapply keys_gt_trans].
    + apply om_ok_cons; split; [|auto]. apply Forall_forall.
      intros e [->|He]%om_set_keys; [done|]. eapply Forall_forall in Hgt; done.
    + destruct (klt_tri k k0) as [|[->|]]; [done| |done]. by apply om_ok_cons.
Qed.

Lemma om_erase_sub k m e : e ∈ om_erase k m -> e ∈ m.
Proof.
  induction m as [|[k0 v0] m IH]; simpl; [done|].
  repeat case_decide; rewrite ?elem_of_cons; naive_solver.
Qed.

Lemma om_ok_erase k m : om_ok m -> om_ok (om_erase k m).
Proof.
  induction m as [|[k0 v0] m IH]; simpl; [done|]. intros [Hgt Hok]%om_ok_cons.
  case_decide; [done|]. apply om_ok_cons; split; [|auto].
  apply Forall_forall. intros e He%om_erase_sub. eapply Forall_forall in Hgt; done.
Qed.

(** Two sorted maps with the same lookups are equal. *)
Lemma om_ext m1 m2 :
  om_ok m1 -> om_ok m2 -> (forall k, om_find k m1 = om_find k m2) -> m1 = m2.
Proof.
  revert m2. induction m1 as [|[k v] m1 IH]; intros [|[k' v'] m2] Hok1 Hok2 Hf.
  - done.
  - specialize (Hf k'); simpl in Hf. by rewrite decide_True in Hf.
  - specialize (Hf k); simpl in Hf. by rewrite decide_True in Hf.
  - pose proof Hok1 as [Hgt1 Ho1]%om_ok_cons. pose proof Hok2 as [Hgt2 Ho2]%om_ok_cons.
    assert (Hout : forall (m : omap K V) k0, keys_gt k0 m -> om_find k0 m = None).
    { intros m k0 Hg. apply om_find_None. intros ([k1 v1] & -> & Hin)%list_elem_of_fmap.
      eapply Forall_forall in Hg; [|done]. by apply klt_irrefl in Hg. }
    assert (k = k') as <-.
    { destruct (klt_tri k k') as [Hlt|[|Hlt]]; [|done|]; exfalso.
      - pose proof (Hf k) as Hk; simpl in Hk. rewrite decide_True in Hk by done.
        rewrite decide_False in Hk by (intros ->; by apply klt_irrefl in Hlt).
        rewrite Hout in Hk by (by eapply keys_gt_trans). done.
      - pose proof (Hf k') as Hk; simpl in Hk.
        rewrite decide_False in Hk by (intros ->; by apply klt_irrefl in Hlt).
        rewrite decide_True in Hk by done.
        rewrite Hout in Hk by (by eapply keys_gt_trans). done. }
    pose proof (Hf k) as Hk; simpl in Hk. rewrite !decide_True in Hk by done.
    simplify_eq. f_equal. apply IH; [done..|]. intros k0.
    specialize (Hf k0); simpl in Hf. case_decide; [subst|done].
    by rewrite !Hout.
Qed.

(** Removing a found entry, and setting one, up to the order of the entries. *)
Lemma om_erase_perm k v m : om_find k m = Some v -> m ≡ₚ (k, v) :: om_erase k m.
Proof.
  induction m as [|[k0 v0] m IH]; simpl; [done|]. case_decide; intros Hf.
  - by simplify_eq.
  - rewrite (IH Hf) at 1. apply perm_swap.
Qed.

Lemma om_erase_absent k m : om_find k m = None -> om_erase k m = m.
Proof.
  induction m as [|[k0 v0] m IH]; simpl; [done|]. case_decide; intros Hf; [done|].
  by rewrite IH.
Qed.

Lemma om_set_perm k v m : om_ok m -> om_set k v m ≡ₚ (k, v) :: om_erase k m.
Proof.
  induction m as [|[k0 v0] m IH]; simpl; [done|]. intros [Hgt Hok]%om_ok_cons.
  destruct (decide (klt k k0)) as [Hlt|Hnlt].
  - rewrite decide_False by (intros ->; by apply klt_irrefl in Hlt). rewrite om_erase_absent; [done|].
    apply om_find_None. intros ([k1 v1] & -> & Hin)%list_elem_of_fmap.
    eapply Forall_forall in Hgt; [|done]. by apply (klt_asym _ _ Hgt) in Hlt.
  - destruct (decide (klt k0 k)) as [Hgt'|].
    + rewrite decide_False by (intros ->; by apply klt_irrefl in Hgt').
      rewrite (IH Hok). apply perm_swap.
    + destruct (klt_tri k k0) as [|[->|]]; [done| |done]. by rewrite decide_True.
Qed.
End omap.

(** ** [std::set] *)
Section oset.
Context {K : Type} `{KeyOrder K}.
Implicit Types (s : oset K) (k : K).

Fixpoint os_insert (k : K) (s : oset K) : oset K :=
  match s with
  | [] => [k]
  | k' :: s' =>
      if decide (klt k k') then k :: s
      else if decide (klt k' k) then k' :: os_insert k s'
      else s
  end.

Fixpoint os_erase (k : K) (s : oset K) : oset K :=
  match s with
  | [] => []
  | k' :: s' => if decide (k = k') then s' else k' :: os_erase k s'
  end.

Fixpoint os_lower_bound (k : K) (s : oset K) : oset K :=
  match s with
  | [] => []
  | k' :: s' => if decide (klt k' k) then os_lower_bound k s' else s
  end.

Definition os_ok (s : oset K) : Prop := StronglySorted klt s.

Lemma os_insert_perm k s : k ∉ s -> os_insert k s ≡ₚ k :: s.
Proof.
  induction s as [|k' s IH]; simpl; [done|]. intros [Hne Hni]%not_elem_of_cons.
  repeat case_decide; [done| |].
  - rewrite IH by done. by rewrite Permutation_swap.
  - destruct (klt_tri k k') as [|[|]]; naive_solver.
Qed.

Lemma os_erase_perm k s : k ∈ s -> k :: os_erase k s ≡ₚ s.
Proof.
  induction s as [|k' s IH]; simpl; [by intros ?%not_elem_of_nil|].
  intros Hin. case_decide; [by subst|].
  apply elem_of_cons in Hin as [|Hin]; [done|].
  rewrite Permutation_swap. by rewrite IH.
Qed.

Lemma os_insert_elem k k' s : k' ∈ os_insert k s -> k' = k \/ k' ∈ s.
Proof.
  induction s as [|k0 s IH]; simpl; [set_solver|].
  repeat case_decide; rewrite !elem_of_cons; naive_solver.
Qed.

Lemma os_ok_insert k s : os_ok s -> os_ok (os_insert k s).
Proof.
  unfold os_ok. induction 1 as [|k0 s Hs IH Hall]; simpl.
  - repeat constructor.
  - repeat case_decide.
    + constructor; [by constructor|]. constructor; [done|].
      eapply Forall_impl; [done|]. intros; by etrans.
    + constructor; [done|]. apply Forall_forall.
      intros e [->|He]%os_insert_elem; [done|]. by eapply Forall_forall in Hall.
    + by constructor.
Qed.

Lemma os_erase_elem k k' s : k' ∈ os_erase k s -> k' ∈ s.
Proof.
  induction s as [|k0 s IH]; simpl; [done|].
  repeat case_decide; rewrite ?elem_of_cons; naive_solver.
Qed.

Lemma os_ok_erase k s : os_ok s -> os_ok (os_erase k s).
Proof.
  unfold os_ok. induction 1 as [|k0 s Hs IH Hall]; simpl; [constructor|].
  case_decide; [done|]. constructor; [done|]. apply Forall_forall.
  intros e He%os_erase_elem. by eapply Forall_forall in Hall.
Qed.

Lemma os_lower_bound_split k s :
  os_ok s ->
  exists s1, s = s1 ++ os_lower_bound k s /\ Forall (fun x => klt x k) s1
    /\ Forall (fun x => ~ klt x k) (os_lower_bound k s).
Proof.
  unfold os_ok. induction 1 as [|k0 s Hs IH Hall]; simpl.
  - exists []. repeat constructor.
  - case_decide as Hlt.
    + destruct IH as (s1 & E & H1 & H2). exists (k0 :: s1). simpl. rewrite <- E.
      auto using Forall_cons.
    + exists []. repeat split; [constructor|]. constructor; [done|].
      eapply Forall_impl; [done|]. intros x Hx Hxk. apply Hlt. by etrans.
Qed.

Lemma os_ok_NoDup s : os_ok s -> NoDup s.
Proof.
  unfold os_ok. induction 1 as [|k0 s Hs IH Hall]; constructor; [|done].
  intros Hin. eapply Forall_forall in Hall; [|done]. by apply StrictOrder_Irreflexive in Hall.
Qed.

(** [*s.rbegin()] is a maximum. *)
Lemma os_last_max s k : os_ok s -> k ∈ s ->
  exists m, last s = Some m /\ m ∈ s /\ (k = m \/ klt k m).
Proof.
  unfold os_ok. intros Hs Hk. destruct (snoc_cases s) as [->|(s' & m & ->)].
  { by apply not_elem_of_nil in Hk. }
  exists m. rewrite last_snoc. split; [done|]. split; [set_solver|].
  apply elem_of_app in Hk as [Hk|Hk]; [right|left; set_solver].
  apply (StronglySorted_app_1_elem_of _ s' [m]); [done|done|set_solver].
Qed.
End oset.
