(* ===== verification/Types.v ===== *)
(** Data types shared by every component: the typed identities and generations of
    include/gpu_memory_service/types.hpp, the enumerations of enum.hpp and the
    result types of error.hpp.

    Each C++ [enum class] is an inductive type in a module of the same name, so
    that [LifecycleState::PINNED] reads [LifecycleState.PINNED].  The underlying
    type is [std::uint8_t] and the persistence and protocol code produce
    enumeration values by [static_cast] from a byte; a value that no enumerator
    names is the constructor [RAW].  ([RejectReason] and [AllocationStrategy] are
    never cast, so they have none.)  [to_string] is the code's [switch]; its
    trailing [return "UNKNOWN"] is what a [RAW] value gets. *)
From S2P Require Import Prelude Ordered.
Open Scope Z_scope.

(** ** Typed identities and generations (types.hpp) *)

(** The empty tag structs of [GMS_ID_TAG]. *)
Inductive IdTag : Set :=
| GpuMemoryDomainIdTag
| DeviceIdTag
| MemoryRegionIdTag
| AllocationIdTag
| AllocationRequestIdTag
| AllocationLeaseIdTag
| ResidencyIdTag
| ReclaimPlanIdTag
| EvictionPlanIdTag
| CompactionPlanIdTag
| RelocationIdTag
| StagingPlanIdTag
| WorkloadIdTag
| ExecutionIdTag
| WorkerIdTag
| SourceIdTag.

(** The empty tag structs of [GMS_GEN_TAG]. *)
Inductive GenTag : Set :=
| GpuMemoryDomainGenerationGenTag
| DeviceGenerationGenTag
| MemoryRegionGenerationGenTag
| AllocationGenerationGenTag
| AllocationRequestGenerationGenTag
| AllocationLeaseGenerationGenTag
| ResidencyGenerationGenTag
| ReclaimPlanGenerationGenTag
| EvictionPlanGenerationGenTag
| CompactionPlanGenerationGenTag
| RelocationGenerationGenTag
| StagingPlanGenerationGenTag
| PressureGenerationGenTag
| WatermarkGenerationGenTag
| CapacityGenerationGenTag
| ReservationGenerationGenTag
| ResourceClaimGenerationGenTag
| PlacementGenerationGenTag
| WorkloadGenerationGenTag
| ExecutionGenerationGenTag
| WorkerBootIdGenTag
| SourceBootIdGenTag
| CoordinatorEpochGenTag
| AuthorityGenerationGenTag
| RecoveryGenerationGenTag
| RevalidationGenerationGenTag
| CheckpointGenerationGenTag
| ModelResidencyGenerationGenTag
| AdapterGenerationGenTag
| StateGenerationGenTag
| PolicyGenerationGenTag.

(** [TypedId<Tag>]: the tag is a phantom index, so identities of different
    domains have different types. *)
Record TypedId (tag : IdTag) : Set := mk_id { id_value : Z }.
Arguments mk_id {tag} _.
Arguments id_value {tag} _.

Definition id_invalid {tag} : TypedId tag := mk_id 0.
Definition id_is_valid {tag} (i : TypedId tag) : bool := negb (id_value i =? 0).

(** [TypedGeneration<Tag>]. *)
Record TypedGeneration (tag : GenTag) : Set := mk_gen { gen_value : Z }.
Arguments mk_gen {tag} _.
Arguments gen_value {tag} _.

Definition gen_none {tag} : TypedGeneration tag := mk_gen 0.
Definition gen_first {tag} : TypedGeneration tag := mk_gen 1.
Definition gen_is_set {tag} (g : TypedGeneration tag) : bool := negb (gen_value g =? 0).
Definition gen_is_first {tag} (g : TypedGeneration tag) : bool := gen_value g =? 1.

(** [next]: the successor, or [none] when the counter is exhausted. *)
Definition gen_next {tag} (g : TypedGeneration tag) : TypedGeneration tag :=
  if gen_value g =? 2 ^ 64 - 1 then gen_none else mk_gen (gen_value g + 1).

Definition gen_is_current {tag} (g o : TypedGeneration tag) : bool :=
  gen_is_set g && (gen_value g =? gen_value o).

Definition gen_ltb {tag} (g o : TypedGeneration tag) : bool := gen_value g <? gen_value o.
Definition gen_leb {tag} (g o : TypedGeneration tag) : bool := gen_value g <=? gen_value o.

#[export] Instance TypedId_eq_dec tag : EqDecision (TypedId tag).
Proof. solve_decision. Defined.
#[export] Instance TypedGeneration_eq_dec tag : EqDecision (TypedGeneration tag).
Proof. solve_decision. Defined.

#[export] Instance TypedId_countable tag : Countable (TypedId tag).
Proof. refine (inj_countable' id_value mk_id _). by intros []. Defined.

Lemma id_value_inj {tag} (a b : TypedId tag) : id_value a = id_value b -> a = b.
Proof. destruct a, b; simpl; congruence. Qed.

Lemma gen_value_inj {tag} (a b : TypedGeneration tag) : gen_value a = gen_value b -> a = b.
Proof. destruct a, b; simpl; congruence. Qed.

(** [operator<] of [TypedId], which orders every [std::map] keyed by an id. *)
#[export] Instance TypedId_KeyOrder tag : KeyOrder (TypedId tag) :=
  inj_KeyOrder id_value id_value_inj.

Lemma id_klt {tag} (a b : TypedId tag) : klt a b <-> id_value a < id_value b.
Proof. done. Qed.

Abbreviation GpuMemoryDomainId := (TypedId GpuMemoryDomainIdTag).
Abbreviation DeviceId := (TypedId DeviceIdTag).
Abbreviation MemoryRegionId := (TypedId MemoryRegionIdTag).
Abbreviation AllocationId := (TypedId AllocationIdTag).
Abbreviation AllocationRequestId := (TypedId AllocationRequestIdTag).
Abbreviation AllocationLeaseId := (TypedId AllocationLeaseIdTag).
Abbreviation ResidencyId := (TypedId ResidencyIdTag).
Abbreviation ReclaimPlanId := (TypedId ReclaimPlanIdTag).
Abbreviation EvictionPlanId := (TypedId EvictionPlanIdTag).
Abbreviation CompactionPlanId := (TypedId CompactionPlanIdTag).
Abbreviation RelocationId := (TypedId RelocationIdTag).
Abbreviation StagingPlanId := (TypedId StagingPlanIdTag).
Abbreviation WorkloadId := (TypedId WorkloadIdTag).
Abbreviation ExecutionId := (TypedId ExecutionIdTag).
Abbreviation WorkerId := (TypedId WorkerIdTag).
Abbreviation SourceId := (TypedId SourceIdTag).
Abbreviation GpuMemoryDomainGeneration := (TypedGeneration GpuMemoryDomainGenerationGenTag).
Abbreviation DeviceGeneration := (TypedGeneration DeviceGenerationGenTag).
Abbreviation MemoryRegionGeneration := (TypedGeneration MemoryRegionGenerationGenTag).
Abbreviation AllocationGeneration := (TypedGeneration AllocationGenerationGenTag).
Abbreviation AllocationRequestGeneration := (TypedGeneration AllocationRequestGenerationGenTag).
Abbreviation AllocationLeaseGeneration := (TypedGeneration AllocationLeaseGenerationGenTag).
Abbreviation ResidencyGeneration := (TypedGeneration ResidencyGenerationGenTag).
Abbreviation ReclaimPlanGeneration := (TypedGeneration ReclaimPlanGenerationGenTag).
Abbreviation EvictionPlanGeneration := (TypedGeneration EvictionPlanGenerationGenTag).
Abbreviation CompactionPlanGeneration := (TypedGeneration CompactionPlanGenerationGenTag).
Abbreviation RelocationGeneration := (TypedGeneration RelocationGenerationGenTag).
Abbreviation StagingPlanGeneration := (TypedGeneration StagingPlanGenerationGenTag).
Abbreviation PressureGeneration := (TypedGeneration PressureGenerationGenTag).
Abbreviation WatermarkGeneration := (TypedGeneration WatermarkGenerationGenTag).
Abbreviation CapacityGeneration := (TypedGeneration CapacityGenerationGenTag).
Abbreviation ReservationGeneration := (TypedGeneration ReservationGenerationGenTag).
Abbreviation ResourceClaimGeneration := (TypedGeneration ResourceClaimGenerationGenTag).
Abbreviation PlacementGeneration := (TypedGeneration PlacementGenerationGenTag).
Abbreviation WorkloadGeneration := (TypedGeneration WorkloadGenerationGenTag).
Abbreviation ExecutionGeneration := (TypedGeneration ExecutionGenerationGenTag).
Abbreviation WorkerBootId := (TypedGeneration WorkerBootIdGenTag).
Abbreviation SourceBootId := (TypedGeneration SourceBootIdGenTag).
Abbreviation CoordinatorEpoch := (TypedGeneration CoordinatorEpochGenTag).
Abbreviation AuthorityGeneration := (TypedGeneration AuthorityGenerationGenTag).
Abbreviation RecoveryGeneration := (TypedGeneration RecoveryGenerationGenTag).
Abbreviation RevalidationGeneration := (TypedGeneration RevalidationGenerationGenTag).
Abbreviation CheckpointGeneration := (TypedGeneration CheckpointGenerationGenTag).
Abbreviation ModelResidencyGeneration := (TypedGeneration ModelResidencyGenerationGenTag).
Abbreviation AdapterGeneration := (TypedGeneration AdapterGenerationGenTag).
Abbreviation StateGeneration := (TypedGeneration StateGenerationGenTag).
Abbreviation PolicyGeneration := (TypedGeneration PolicyGenerationGenTag).

(** ** Enumerations (enum.hpp) *)

(** What [static_cast] between an [enum class E : std::uint8_t] and its underlying
    type relies on.  [cenum_named] lists the enumerators in declaration order. *)
Class CEnum (E : Type) := {
  cenum_named : list E;
  cenum_raw : Z -> E;
  cenum_to_u8 : E -> Z;
  cenum_named_seq : cenum_to_u8 <$> cenum_named = seqZ 0 (Z.of_nat (length cenum_named));
  cenum_raw_u8 : forall n, cenum_to_u8 (cenum_raw n) = n;
  cenum_cases : forall e, e ∈ cenum_named \/ exists n, e = cenum_raw n;
}.
#[export] Hint Mode CEnum ! : typeclass_instances.

(** [static_cast<E>(n)]. *)
Definition cenum_of_u8 {E} `{CEnum E} (n : Z) : E :=
  match cenum_named !! Z.to_nat n with Some e => e | None => cenum_raw n end.

(** [enum_ok(e, max)] of persistence.cpp, for [max] the last enumerator. *)
Definition cenum_max (E : Type) `{CEnum E} : Z := Z.of_nat (length (cenum_named (E := E))) - 1.

(** A value that some byte denotes. *)
Definition cenum_canon {E} `{CEnum E} (e : E) : Prop :=
  e ∈ cenum_named (E := E) \/ exists n, e = cenum_raw n /\ cenum_max E < n < 256.

Module Provenance.

Inductive t : Set :=
| UNKNOWN
| MEASURED
| REPORTED
| DERIVED
| ESTIMATED
| SYNTHETIC
| RECONSTRUCTED
| RAW (value : Z).

#[global] Instance t_eq_dec : EqDecision t.
Proof. solve_decision. Defined.

Definition to_string (x : t) : string :=
  match x with
  | UNKNOWN => "UNKNOWN"
  | MEASURED => "MEASURED"
  | REPORTED => "REPORTED"
  | DERIVED => "DERIVED"
  | ESTIMATED => "ESTIMATED"
  | SYNTHETIC => "SYNTHETIC"
  | RECONSTRUCTED => "RECONSTRUCTED"
  | RAW _ => "UNKNOWN"
  end.

Definition named : list t :=
  [UNKNOWN; MEASURED; REPORTED; DERIVED; ESTIMATED; SYNTHETIC; RECONSTRUCTED].

Definition to_u8 (x : t) : Z :=
  match x with
  | UNKNOWN => 0
  | MEASURED => 1
  | REPORTED => 2
  | DERIVED => 3
  | ESTIMATED => 4
  | SYNTHETIC => 5
  | RECONSTRUCTED => 6
  | RAW n => n
  end.

#[global] Instance t_cenum : CEnum t.
Proof.
  refine {| cenum_named := named; cenum_raw := RAW; cenum_to_u8 := to_u8 |}.
  - done.
  - done.
  - intros []; first [by right; eexists | left; by apply (bool_decide_unpack _)].
Defined.

End Provenance.

Module MemoryClass.

Inductive t : Set :=
| UNKNOWN
| MODEL_WEIGHTS
| ADAPTER_WEIGHTS
| KV_CACHE
| ACTIVATION
| TEMP_WORKSPACE
| COMMUNICATION_BUFFER
| COLLECTIVE_BUFFER
| CHECKPOINT_STAGING
| STATE_CACHE
| COMPILATION_ARTIFACT
| USER_BUFFER
| INTERNAL
| RAW (value : Z).

#[global] Instance t_eq_dec : EqDecision t.
Proof. solve_decision. Defined.

Definition to_string (x : t) : string :=
  match x with
  | UNKNOWN => "UNKNOWN"
  | MODEL_WEIGHTS => "MODEL_WEIGHTS"
  | ADAPTER_WEIGHTS => "ADAPTER_WEIGHTS"
  | KV_CACHE => "KV_CACHE"
  | ACTIVATION => "ACTIVATION"
  | TEMP_WORKSPACE => "TEMP_WORKSPACE"
  | COMMUNICATION_BUFFER => "COMMUNICATION_BUFFER"
  | COLLECTIVE_BUFFER => "COLLECTIVE_BUFFER"
  | CHECKPOINT_STAGING => "CHECKPOINT_STAGING"
  | STATE_CACHE => "STATE_CACHE"
  | COMPILATION_ARTIFACT => "COMPILATION_ARTIFACT"
  | USER_BUFFER => "USER_BUFFER"
  | INTERNAL => "INTERNAL"
  | RAW _ => "UNKNOWN"
  end.

Definition named : list t :=
  [UNKNOWN; MODEL_WEIGHTS; ADAPTER_WEIGHTS; KV_CACHE; ACTIVATION; TEMP_WORKSPACE; COMMUNICATION_BUFFER; COLLECTIVE_BUFFER; CHECKPOINT_STAGING; STATE_CACHE; COMPILATION_ARTIFACT; USER_BUFFER; INTERNAL].

Definition to_u8 (x : t) : Z :=
  match x with
  | UNKNOWN => 0
  | MODEL_WEIGHTS => 1
  | ADAPTER_WEIGHTS => 2
  | KV_CACHE => 3
  | ACTIVATION => 4
  | TEMP_WORKSPACE => 5
  | COMMUNICATION_BUFFER => 6
  | COLLECTIVE_BUFFER => 7
  | CHECKPOINT_STAGING => 8
  | STATE_CACHE => 9
  | COMPILATION_ARTIFACT => 10
  | USER_BUFFER => 11
  | INTERNAL => 12
  | RAW n => n
  end.

#[global] Instance t_cenum : CEnum t.
Proof.
  refine {| cenum_named := named; cenum_raw := RAW; cenum_to_u8 := to_u8 |}.
  - done.
  - done.
  - intros []; first [by right; eexists | left; by apply (bool_decide_unpack _)].
Defined.

End MemoryClass.

Module Reclaimability.

Inductive t : Set :=
| UNKNOWN
| NEVER_RECLAIM
| RECLAIM_AFTER_COMPLETION
| RECLAIM_IF_COLD
| RECLAIM_IF_RELOADABLE
| RECLAIM_IF_CHECKPOINTED
| BEST_EFFORT
| RAW (value : Z).

#[global] Instance t_eq_dec : EqDecision t.
Proof. solve_decision. Defined.

Definition to_string (x : t) : string :=
  match x with
  | UNKNOWN => "UNKNOWN"
  | NEVER_RECLAIM => "NEVER_RECLAIM"
  | RECLAIM_AFTER_COMPLETION => "RECLAIM_AFTER_COMPLETION"
  | RECLAIM_IF_COLD => "RECLAIM_IF_COLD"
  | RECLAIM_IF_RELOADABLE => "RECLAIM_IF_RELOADABLE"
  | RECLAIM_IF_CHECKPOINTED => "RECLAIM_IF_CHECKPOINTED"
  | BEST_EFFORT => "BEST_EFFORT"
  | RAW _ => "UNKNOWN"
  end.

Definition named : list t :=
  [UNKNOWN; NEVER_RECLAIM; RECLAIM_AFTER_COMPLETION; RECLAIM_IF_COLD; RECLAIM_IF_RELOADABLE; RECLAIM_IF_CHECKPOINTED; BEST_EFFORT].

Definition to_u8 (x : t) : Z :=
  match x with
  | UNKNOWN => 0
  | NEVER_RECLAIM => 1
  | RECLAIM_AFTER_COMPLETION => 2
  | RECLAIM_IF_COLD => 3
  | RECLAIM_IF_RELOADABLE => 4
  | RECLAIM_IF_CHECKPOINTED => 5
  | BEST_EFFORT => 6
  | RAW n => n
  end.

#[global] Instance t_cenum : CEnum t.
Proof.
  refine {| cenum_named := named; cenum_raw := RAW; cenum_to_u8 := to_u8 |}.
  - done.
  - done.
  - intros []; first [by right; eexists | left; by apply (bool_decide_unpack _)].
Defined.

End Reclaimability.

Module LifecycleState.

Inductive t : Set :=
| REQUESTED
| VALIDATING
| RESERVED
| ALLOCATING
| ALLOCATED
| RESIDENT
| PINNED
| RECLAIMABLE
| EVICTION_PENDING
| EVICTING
| RELOCATION_PENDING
| RELOCATING
| RELEASE_PENDING
| RELEASED
| FAILED
| STALE
| REVALIDATION_REQUIRED
| SUPERSEDED
| RETIRED
| RAW (value : Z).

#[global] Instance t_eq_dec : EqDecision t.
Proof. solve_decision. Defined.

Definition to_string (x : t) : string :=
  match x with
  | REQUESTED => "REQUESTED"
  | VALIDATING => "VALIDATING"
  | RESERVED => "RESERVED"
  | ALLOCATING => "ALLOCATING"
  | ALLOCATED => "ALLOCATED"
  | RESIDENT => "RESIDENT"
  | PINNED => "PINNED"
  | RECLAIMABLE => "RECLAIMABLE"
  | EVICTION_PENDING => "EVICTION_PENDING"
  | EVICTING => "EVICTING"
  | RELOCATION_PENDING => "RELOCATION_PENDING"
  | RELOCATING => "RELOCATING"
  | RELEASE_PENDING => "RELEASE_PENDING"
  | RELEASED => "RELEASED"
  | FAILED => "FAILED"
  | STALE => "STALE"
  | REVALIDATION_REQUIRED => "REVALIDATION_REQUIRED"
  | SUPERSEDED => "SUPERSEDED"
  | RETIRED => "RETIRED"
  | RAW _ => "UNKNOWN"
  end.

Definition named : list t :=
  [REQUESTED; VALIDATING; RESERVED; ALLOCATING; ALLOCATED; RESIDENT; PINNED; RECLAIMABLE; EVICTION_PENDING; EVICTING; RELOCATION_PENDING; RELOCATING; RELEASE_PENDING; RELEASED; FAILED; STALE; REVALIDATION_REQUIRED; SUPERSEDED; RETIRED].

Definition to_u8 (x : t) : Z :=
  match x with
  | REQUESTED => 0
  | VALIDATING => 1
  | RESERVED => 2
  | ALLOCATING => 3
  | ALLOCATED => 4
  | RESIDENT => 5
  | PINNED => 6
  | RECLAIMABLE => 7
  | EVICTION_PENDING => 8
  | EVICTING => 9
  | RELOCATION_PENDING => 10
  | RELOCATING => 11
  | RELEASE_PENDING => 12
  | RELEASED => 13
  | FAILED => 14
  | STALE => 15
  | REVALIDATION_REQUIRED => 16
  | SUPERSEDED => 17
  | RETIRED => 18
  | RAW n => n
  end.

#[global] Instance t_cenum : CEnum t.
Proof.
  refine {| cenum_named := named; cenum_raw := RAW; cenum_to_u8 := to_u8 |}.
  - done.
  - done.
  - intros []; first [by right; eexists | left; by apply (bool_decide_unpack _)].
Defined.

End LifecycleState.

Module ResidencyState.

Inductive t : Set :=
| UNKNOWN
| NONRESIDENT
| STAGING
| RESIDENT
| ACTIVE
| COLD
| EVICTABLE
| EVICTING
| RELOADING
| STALE
| REVALIDATION_REQUIRED
| RAW (value : Z).

#[global] Instance t_eq_dec : EqDecision t.
Proof. solve_decision. Defined.

Definition to_string (x : t) : string :=
  match x with
  | UNKNOWN => "UNKNOWN"
  | NONRESIDENT => "NONRESIDENT"
  | STAGING => "STAGING"
  | RESIDENT => "RESIDENT"
  | ACTIVE => "ACTIVE"
  | COLD => "COLD"
  | EVICTABLE => "EVICTABLE"
  | EVICTING => "EVICTING"
  | RELOADING => "RELOADING"
  | STALE => "STALE"
  | REVALIDATION_REQUIRED => "REVALIDATION_REQUIRED"
  | RAW _ => "UNKNOWN"
  end.

Definition named : list t :=
  [UNKNOWN; NONRESIDENT; STAGING; RESIDENT; ACTIVE; COLD; EVICTABLE; EVICTING; RELOADING; STALE; REVALIDATION_REQUIRED].

Definition to_u8 (x : t) : Z :=
  match x with
  | UNKNOWN => 0
  | NONRESIDENT => 1
  | STAGING => 2
  | RESIDENT => 3
  | ACTIVE => 4
  | COLD => 5
  | EVICTABLE => 6
  | EVICTING => 7
  | RELOADING => 8
  | STALE => 9
  | REVALIDATION_REQUIRED => 10
  | RAW n => n
  end.

#[global] Instance t_cenum : CEnum t.
Proof.
  refine {| cenum_named := named; cenum_raw := RAW; cenum_to_u8 := to_u8 |}.
  - done.
  - done.
  - intros []; first [by right; eexists | left; by apply (bool_decide_unpack _)].
Defined.

End ResidencyState.

Module PressureState.

Inductive t : Set :=
| UNKNOWN
| LOW
| NORMAL
| ELEVATED
| HIGH
| CRITICAL
| RECLAIMING
| RECOVERING
| STALE
| REVALIDATION_REQUIRED
| RAW (value : Z).

#[global] Instance t_eq_dec : EqDecision t.
Proof. solve_decision. Defined.

Definition to_string (x : t) : string :=
  match x with
  | UNKNOWN => "UNKNOWN"
  | LOW => "LOW"
  | NORMAL => "NORMAL"
  | ELEVATED => "ELEVATED"
  | HIGH => "HIGH"
  | CRITICAL => "CRITICAL"
  | RECLAIMING => "RECLAIMING"
  | RECOVERING => "RECOVERING"
  | STALE => "STALE"
  | REVALIDATION_REQUIRED => "REVALIDATION_REQUIRED"
  | RAW _ => "UNKNOWN"
  end.

Definition named : list t :=
  [UNKNOWN; LOW; NORMAL; ELEVATED; HIGH; CRITICAL; RECLAIMING; RECOVERING; STALE; REVALIDATION_REQUIRED].

Definition to_u8 (x : t) : Z :=
  match x with
  | UNKNOWN => 0
  | LOW => 1
  | NORMAL => 2
  | ELEVATED => 3
  | HIGH => 4
  | CRITICAL => 5
  | RECLAIMING => 6
  | RECOVERING => 7
  | STALE => 8
  | REVALIDATION_REQUIRED => 9
  | RAW n => n
  end.

#[global] Instance t_cenum : CEnum t.
Proof.
  refine {| cenum_named := named; cenum_raw := RAW; cenum_to_u8 := to_u8 |}.
  - done.
  - done.
  - intros []; first [by right; eexists | left; by apply (bool_decide_unpack _)].
Defined.

End PressureState.

Module DeviceHealth.

Inductive t : Set :=
| UNKNOWN
| HEALTHY
| DEGRADED
| UNRESPONSIVE
| LOST
| RAW (value : Z).

#[global] Instance t_eq_dec : EqDecision t.
Proof. solve_decision. Defined.

Definition to_string (x : t) : string :=
  match x with
  | UNKNOWN => "UNKNOWN"
  | HEALTHY => "HEALTHY"
  | DEGRADED => "DEGRADED"
  | UNRESPONSIVE => "UNRESPONSIVE"
  | LOST => "LOST"
  | RAW _ => "UNKNOWN"
  end.

Definition named : list t :=
  [UNKNOWN; HEALTHY; DEGRADED; UNRESPONSIVE; LOST].

Definition to_u8 (x : t) : Z :=
  match x with
  | UNKNOWN => 0
  | HEALTHY => 1
  | DEGRADED => 2
  | UNRESPONSIVE => 3
  | LOST => 4
  | RAW n => n
  end.

#[global] Instance t_cenum : CEnum t.
Proof.
  refine {| cenum_named := named; cenum_raw := RAW; cenum_to_u8 := to_u8 |}.
  - done.
  - done.
  - intros []; first [by right; eexists | left; by apply (bool_decide_unpack _)].
Defined.

End DeviceHealth.

Module Movability.

Inductive t : Set :=
| MOVABLE
| PINNED
| NONMOVABLE
| RAW (value : Z).

#[global] Instance t_eq_dec : EqDecision t.
Proof. solve_decision. Defined.

Definition to_string (x : t) : string :=
  match x with
  | MOVABLE => "MOVABLE"
  | PINNED => "PINNED"
  | NONMOVABLE => "NONMOVABLE"
  | RAW _ => "UNKNOWN"
  end.

Definition named : list t :=
  [MOVABLE; PINNED; NONMOVABLE].

Definition to_u8 (x : t) : Z :=
  match x with
  | MOVABLE => 0
  | PINNED => 1
  | NONMOVABLE => 2
  | RAW n => n
  end.

#[global] Instance t_cenum : CEnum t.
Proof.
  refine {| cenum_named := named; cenum_raw := RAW; cenum_to_u8 := to_u8 |}.
  - done.
  - done.
  - intros []; first [by right; eexists | left; by apply (bool_decide_unpack _)].
Defined.

End Movability.

Module RejectReason.

Inductive t : Set :=
| NONE
| INVALID_REQUEST
| ZERO_BYTES
| SIZE_OVERFLOW
| IMPOSSIBLE_ALIGNMENT
| NON_POWER_OF_TWO_ALIGNMENT
| REQUEST_EXCEEDS_CAPACITY
| INVALID_OWNER
| STALE_RESERVATION
| STALE_RESOURCE_CLAIM
| MALFORMED_LIFETIME
| CONTRADICTORY_MOVABILITY
| UNSUPPORTED_MEMORY_CLASS
| INSUFFICIENT_TOTAL_CAPACITY
| INSUFFICIENT_CONTIGUOUS_CAPACITY
| BLOCKED_BY_PINNED
| BLOCKED_BY_NONMOVABLE
| RESERVATION_CONFLICT
| REVALIDATION_REQUIRED
| PHYSICAL_OOM
| GOVERNED_CAPACITY_EXCEEDED
| CONTIGUOUS_CAPACITY_UNAVAILABLE
| FRAGMENTATION
| PINNED_BLOCKERS
| RESERVATION_PROTECTED
| RECLAIM_INSUFFICIENT
| EVICTION_NOT_SAFE
| DEVICE_UNAVAILABLE
| STALE_AUTHORITY
| STALE_GENERATION
| WRONG_OWNER
| CROSS_DEVICE
| DOUBLE_FREE
| FREE_OF_ACTIVE_OR_PINNED
| ILLEGAL_TRANSITION
| INTERNAL_ERROR
| UNKNOWN.

#[global] Instance t_eq_dec : EqDecision t.
Proof. solve_decision. Defined.

Definition to_string (x : t) : string :=
  match x with
  | NONE => "NONE"
  | INVALID_REQUEST => "INVALID_REQUEST"
  | ZERO_BYTES => "ZERO_BYTES"
  | SIZE_OVERFLOW => "SIZE_OVERFLOW"
  | IMPOSSIBLE_ALIGNMENT => "IMPOSSIBLE_ALIGNMENT"
  | NON_POWER_OF_TWO_ALIGNMENT => "NON_POWER_OF_TWO_ALIGNMENT"
  | REQUEST_EXCEEDS_CAPACITY => "REQUEST_EXCEEDS_CAPACITY"
  | INVALID_OWNER => "INVALID_OWNER"
  | STALE_RESERVATION => "STALE_RESERVATION"
  | STALE_RESOURCE_CLAIM => "STALE_RESOURCE_CLAIM"
  | MALFORMED_LIFETIME => "MALFORMED_LIFETIME"
  | CONTRADICTORY_MOVABILITY => "CONTRADICTORY_MOVABILITY"
  | UNSUPPORTED_MEMORY_CLASS => "UNSUPPORTED_MEMORY_CLASS"
  | INSUFFICIENT_TOTAL_CAPACITY => "INSUFFICIENT_TOTAL_CAPACITY"
  | INSUFFICIENT_CONTIGUOUS_CAPACITY => "INSUFFICIENT_CONTIGUOUS_CAPACITY"
  | BLOCKED_BY_PINNED => "BLOCKED_BY_PINNED"
  | BLOCKED_BY_NONMOVABLE => "BLOCKED_BY_NONMOVABLE"
  | RESERVATION_CONFLICT => "RESERVATION_CONFLICT"
  | REVALIDATION_REQUIRED => "REVALIDATION_REQUIRED"
  | PHYSICAL_OOM => "PHYSICAL_OOM"
  | GOVERNED_CAPACITY_EXCEEDED => "GOVERNED_CAPACITY_EXCEEDED"
  | CONTIGUOUS_CAPACITY_UNAVAILABLE => "CONTIGUOUS_CAPACITY_UNAVAILABLE"
  | FRAGMENTATION => "FRAGMENTATION"
  | PINNED_BLOCKERS => "PINNED_BLOCKERS"
  | RESERVATION_PROTECTED => "RESERVATION_PROTECTED"
  | RECLAIM_INSUFFICIENT => "RECLAIM_INSUFFICIENT"
  | EVICTION_NOT_SAFE => "EVICTION_NOT_SAFE"
  | DEVICE_UNAVAILABLE => "DEVICE_UNAVAILABLE"
  | STALE_AUTHORITY => "STALE_AUTHORITY"
  | STALE_GENERATION => "STALE_GENERATION"
  | WRONG_OWNER => "WRONG_OWNER"
  | CROSS_DEVICE => "CROSS_DEVICE"
  | DOUBLE_FREE => "DOUBLE_FREE"
  | FREE_OF_ACTIVE_OR_PINNED => "FREE_OF_ACTIVE_OR_PINNED"
  | ILLEGAL_TRANSITION => "ILLEGAL_TRANSITION"
  | INTERNAL_ERROR => "INTERNAL_ERROR"
  | UNKNOWN => "UNKNOWN"
  end.

End RejectReason.

(** [enum class AllocationStrategy] of region_allocator.hpp. *)
Module AllocationStrategy.

Inductive t : Set := FIRST_FIT | BEST_FIT.

End AllocationStrategy.

(** ** Failures and results (error.hpp) *)

Record Failure : Set := mk_failure { reason : RejectReason.t; message : string }.

Definition no_failure : Failure := mk_failure RejectReason.NONE "".
Definition failure_ok (f : Failure) : bool := bool_decide (reason f = RejectReason.NONE).

(** [Result<T>]: a value or a failure. *)
Inductive Result (A : Type) : Type :=
| Ok (value : A)
| Err (failure : Failure).
Arguments Ok {A} _.
Arguments Err {A} _.

Definition result_ok {A} (r : Result A) : bool :=
  match r with Ok _ => true | Err _ => false end.

(** [return Failure(r, msg)] in a function that returns [Result<T>]. *)
Definition fail {A} (r : RejectReason.t) (msg : string) : Result A := Err (mk_failure r msg).

(** ** Lemmas *)

Section cenum.
Context {E : Type} `{CEnum E}.
Implicit Types (e : E).

Lemma cenum_named_u8 i e : cenum_named !! i = Some e -> cenum_to_u8 e = Z.of_nat i.
Proof.
  intros Hi. pose proof (f_equal (.!! i) (cenum_named_seq (E := E))) as Hs; simpl in Hs.
  rewrite list_lookup_fmap, Hi in Hs; simpl in Hs.
  rewrite lookup_seqZ_lt in Hs by (apply lookup_lt_Some in Hi; lia).
  simplify_eq. lia.
Qed.

Lemma cenum_to_u8_of_u8 n : 0 <= n -> cenum_to_u8 (cenum_of_u8 (E := E) n) = n.
Proof.
  intros. unfold cenum_of_u8. destruct (cenum_named !! Z.to_nat n) eqn:E1.
  - apply cenum_named_u8 in E1. lia.
  - apply cenum_raw_u8.
Qed.

Lemma cenum_of_u8_to_u8 e : cenum_canon e -> cenum_of_u8 (cenum_to_u8 e) = e.
Proof.
  unfold cenum_of_u8. intros [(i & Hi)%list_elem_of_lookup|(n & -> & Hn)].
  - rewrite (cenum_named_u8 i e) by done. by rewrite Nat2Z.id, Hi.
  - rewrite cenum_raw_u8. unfold cenum_max in Hn.
    rewrite lookup_ge_None_2 by lia. done.
Qed.

Lemma cenum_canon_of_u8 n : 0 <= n < 256 -> cenum_canon (cenum_of_u8 (E := E) n).
Proof.
  intros. unfold cenum_of_u8, cenum_canon.
  destruct (cenum_named !! Z.to_nat n) eqn:E1.
  - left. by apply list_elem_of_lookup_2 in E1.
  - right. exists n. split; [done|]. apply lookup_ge_None in E1. unfold cenum_max. lia.
Qed.

Lemma cenum_canon_u8 e : cenum_canon e -> cenum_max E < 256 -> 0 <= cenum_to_u8 e < 256.
Proof.
  unfold cenum_canon, cenum_max. intros [(i & Hi)%list_elem_of_lookup|(n & -> & Hn)] ?.
  - rewrite (cenum_named_u8 i e) by done. apply lookup_lt_Some in Hi. lia.
  - rewrite cenum_raw_u8. lia.
Qed.

(** The range test of persistence.cpp accepts exactly the enumerators. *)
Lemma cenum_ok_named e :
  cenum_canon e -> cenum_to_u8 e <= cenum_max E <-> e ∈ cenum_named (E := E).
Proof.
  unfold cenum_max. intros Hc. split.
  - intros Hle. destruct Hc as [|(n & -> & Hn)]; [done|].
    rewrite cenum_raw_u8 in Hle. unfold cenum_max in Hn. lia.
  - intros (i & Hi)%list_elem_of_lookup. rewrite (cenum_named_u8 i e) by done.
    apply lookup_lt_Some in Hi. lia.
Qed.
End cenum.

Lemma gen_next_value {tag} (g : TypedGeneration tag) :
  0 <= gen_value g < 2 ^ 64 - 1 -> gen_value (gen_next g) = gen_value g + 1.
Proof. unfold gen_next. destruct (Z.eqb_spec (gen_value g) (2 ^ 64 - 1)); simpl; lia. Qed.

Lemma gen_next_ne {tag} (g : TypedGeneration tag) :
  0 <= gen_value g < 2 ^ 64 -> gen_next g <> g.
Proof.
  unfold gen_next. destruct (Z.eqb_spec (gen_value g) (2 ^ 64 - 1)); destruct g as [v]; simpl in *.
  - subst. intros _ [=].
  - intros _ [= ?]. lia.
Qed.
