(* ===== verification/Streams.v ===== *)
(** Output streams: the [operator<<] of types.hpp and enum.hpp, as text appended to an
    [std::ostringstream].  A number is printed in decimal, a typed id or generation as its value,
    an enumerator by its name. *)
From S2P Require Import Prelude Words Ordered Types.
Open Scope Z_scope.

(** What [os << x] appends. *)
Class Streamed (A : Type) := shown : A -> string.
#[export] Hint Mode Streamed ! : typeclass_instances.

Definition put_shown {A} `{Streamed A} (os : string) (x : A) : string := os +:+ shown x.

Declare Scope stream_scope.
Delimit Scope stream_scope with stream.
Notation "os << x" := (put_shown os x) (at level 50, left associativity) : stream_scope.

#[export] Instance string_streamed : Streamed string := fun s => s.
#[export] Instance number_streamed : Streamed Z := pretty.

#[export] Instance TypedId_streamed {tag} : Streamed (TypedId tag) := fun id => shown (id_value id).
#[export] Instance TypedGeneration_streamed {tag} : Streamed (TypedGeneration tag) :=
  fun g => shown (gen_value g).

#[export] Instance Provenance_streamed : Streamed Provenance.t := Provenance.to_string.
#[export] Instance MemoryClass_streamed : Streamed MemoryClass.t := MemoryClass.to_string.
#[export] Instance Reclaimability_streamed : Streamed Reclaimability.t := Reclaimability.to_string.
#[export] Instance LifecycleState_streamed : Streamed LifecycleState.t := LifecycleState.to_string.
#[export] Instance ResidencyState_streamed : Streamed ResidencyState.t := ResidencyState.to_string.
#[export] Instance PressureState_streamed : Streamed PressureState.t := PressureState.to_string.
#[export] Instance DeviceHealth_streamed : Streamed DeviceHealth.t := DeviceHealth.to_string.
#[export] Instance Movability_streamed : Streamed Movability.t := Movability.to_string.
#[export] Instance RejectReason_streamed : Streamed RejectReason.t := RejectReason.to_string.

(** The enumerators of a type have different names. *)
Definition tells_apart (E : Type) `{CEnum E, Streamed E} : Prop := NoDup (shown <$> cenum_named (E := E)).

#[local] Ltac by_names := unfold tells_apart; apply (bool_decide_unpack _); vm_compute; exact I.

Lemma names_tell_apart :
  tells_apart Provenance.t /\ tells_apart MemoryClass.t /\ tells_apart Reclaimability.t
  /\ tells_apart LifecycleState.t /\ tells_apart ResidencyState.t /\ tells_apart PressureState.t
  /\ tells_apart DeviceHealth.t /\ tells_apart Movability.t.
Proof. split_and!; by_names. Qed.
