(* ===== verification/Floats.v ===== *)
(** IEEE-754 binary64 values: what the code's [double]s mean.

    A [double] held in memory is its 64-bit pattern, so [std::bit_cast] between
    [double] and [std::uint64_t] (src/persistence.cpp) is the identity, NaN payloads
    included.  Arithmetic and comparison go through the Standard Library's
    specification of IEEE-754 ([SpecFloat], precision 53, exponent bound 1024, round
    to nearest even), which computes and uses no axiom. *)
From S2P Require Import Prelude.
From Stdlib Require Export SpecFloat.
Open Scope Z_scope.

Definition f64_prec : Z := 53.
Definition f64_emax : Z := 1024.

Record double : Set := mk_double { d_bits : Z }.

#[export] Instance double_eq_dec : EqDecision double.
Proof. solve_decision. Defined.

(** The value of a bit pattern: sign bit, 11 exponent bits, 52 fraction bits. *)
Definition d_val (d : double) : spec_float :=
  let s := Z.testbit (d_bits d) 63 in
  let e := Z.land (Z.shiftr (d_bits d) 52) 2047 in
  let m := Z.land (d_bits d) (2 ^ 52 - 1) in
  if e =? 0 then
    match m with Zpos p => S754_finite s p (-1074) | _ => S754_zero s end
  else if e =? 2047 then
    if m =? 0 then S754_infinity s else S754_nan
  else
    match m + 2 ^ 52 with Zpos p => S754_finite s p (e - 1075) | _ => S754_nan end.

(** [static_cast<double>(n)] of a [std::uint64_t]. *)
Definition f64_of_u64 (n : Z) : spec_float := binary_normalize f64_prec f64_emax n 0 false.

Definition f64_add := SFadd f64_prec f64_emax.
Definition f64_sub := SFsub f64_prec f64_emax.
Definition f64_mul := SFmul f64_prec f64_emax.
Definition f64_div := SFdiv f64_prec f64_emax.

Definition f64_isnan (x : spec_float) : bool := match x with S754_nan => true | _ => false end.
Definition f64_isinf (x : spec_float) : bool :=
  match x with S754_infinity _ => true | _ => false end.

(** The literals of the code. *)
Definition d_zero : double := mk_double 0.
Definition d_half : double := mk_double 0x3FE0000000000000.
Definition d_one : double := mk_double 0x3FF0000000000000.
Definition d_minus_one : double := mk_double 0xBFF0000000000000.
Definition d_0_70 : double := mk_double 0x3FE6666666666666.
Definition d_0_90 : double := mk_double 0x3FECCCCCCCCCCCCD.
Definition d_0_97 : double := mk_double 0x3FEF0A3D70A3D70A.

(** ** Order

    On non-NaN values [SFcompare] is the lexicographic comparison of (sign,
    exponent, mantissa); it is embedded here in a tuple of integers so that its
    order laws come from those of [Z]. *)
Definition f64_key (x : spec_float) : Z * Z * Z :=
  match x with
  | S754_infinity true => (-2, 0, 0)
  | S754_finite true m e => (-1, - e, - Zpos m)
  | S754_zero _ | S754_nan => (0, 0, 0)
  | S754_finite false m e => (1, e, Zpos m)
  | S754_infinity false => (2, 0, 0)
  end.

Definition key_lt (a b : Z * Z * Z) : Prop :=
  let '(a1, a2, a3) := a in let '(b1, b2, b3) := b in
  a1 < b1 \/ (a1 = b1 /\ (a2 < b2 \/ (a2 = b2 /\ a3 < b3))).

Lemma SFcompare_key x y :
  f64_isnan x = false -> f64_isnan y = false ->
  match SFcompare x y with
  | Some Lt => key_lt (f64_key x) (f64_key y)
  | Some Eq => f64_key x = f64_key y
  | Some Gt => key_lt (f64_key y) (f64_key x)
  | None => False
  end.
Proof.
  destruct x as [[]|[]| |[] mx ex], y as [[]|[]| |[] my ey]; intros Hx Hy;
    try discriminate; simpl; try (by left); try done.
  all: try (left; lia).
  all: destruct (Z.compare_spec ex ey); subst; simpl; try (right; split; [done|left; lia]).
  all: change (Pos.compare_cont Eq mx my) with (Pos.compare mx my).
  all: destruct (Pos.compare_spec mx my); subst; simpl; try done.
  all: right; split; [done|right; split; [done|lia]].
Qed.

Lemma key_lt_trans a b c : key_lt a b -> key_lt b c -> key_lt a c.
Proof. destruct a as [[a1 a2] a3], b as [[b1 b2] b3], c as [[c1 c2] c3]. simpl. lia. Qed.

Lemma key_lt_irrefl a : ~ key_lt a a.
Proof. destruct a as [[a1 a2] a3]. simpl. lia. Qed.

Lemma SFltb_key x y :
  f64_isnan x = false -> f64_isnan y = false ->
  SFltb x y = true <-> key_lt (f64_key x) (f64_key y).
Proof.
  intros Hx Hy. pose proof (SFcompare_key x y Hx Hy) as Hc. unfold SFltb.
  destruct (SFcompare x y) as [[]|]; try done.
  - rewrite Hc. split; [done|]. by intros ?%key_lt_irrefl.
  - split; [done|]. intros Hlt. exfalso. eapply key_lt_irrefl, key_lt_trans; eauto.
Qed.

Lemma SFleb_key x y :
  f64_isnan x = false -> f64_isnan y = false ->
  SFleb x y = true <-> ~ key_lt (f64_key y) (f64_key x).
Proof.
  intros Hx Hy. pose proof (SFcompare_key x y Hx Hy) as Hc. unfold SFleb.
  destruct (SFcompare x y) as [[]|]; try done.
  - rewrite Hc. split; [|done]. intros _. apply key_lt_irrefl.
  - split; [|done]. intros _ Hlt. eapply key_lt_irrefl, key_lt_trans; eauto.
Qed.

Lemma SFltb_nan_l x y : f64_isnan x = true -> SFltb x y = false.
Proof. destruct x; try done. Qed.

Lemma SFltb_nan_r x y : f64_isnan y = true -> SFltb x y = false.
Proof. destruct y; try done. by destruct x. Qed.

Lemma SFleb_nan_l x y : f64_isnan x = true -> SFleb x y = false.
Proof. destruct x; try done. Qed.

(** [>=] is the complement of [<] exactly when no NaN is involved. *)
Lemma SFleb_not_SFltb x y :
  f64_isnan x = false -> f64_isnan y = false -> SFleb x y = negb (SFltb y x).
Proof.
  intros Hx Hy. apply eq_true_iff_eq.
  rewrite negb_true_iff, <- not_true_iff_false, SFleb_key, SFltb_key; done.
Qed.

Lemma SFleb_trans x y z :
  f64_isnan y = false -> SFleb x y = true -> SFleb y z = true -> SFleb x z = true.
Proof.
  intros Hy Hxy Hyz.
  assert (f64_isnan x = false) as Hx by (destruct x; done).
  assert (f64_isnan z = false) as Hz by (destruct z, y; done).
  rewrite SFleb_key in * by done. intros Hzx. apply Hxy.
  destruct (f64_key x) as [[a1 a2] a3], (f64_key y) as [[b1 b2] b3], (f64_key z) as [[c1 c2] c3].
  simpl in *. lia.
Qed.
