(* ===== verification/FloatsExact.v ===== *)
(** Small integers as doubles: below 2^53 the conversion from an integer, the difference and
    the comparison of doubles are exact. *)
From S2P Require Import Prelude Floats.
Open Scope Z_scope.

(** ** Digits and shifts *)

Lemma digits2_log2 p : Zpos (digits2_pos p) = Z.log2 (Zpos p) + 1.
Proof.
  induction p as [p IH|p IH|]; [| |done]; cbn [digits2_pos]; rewrite Pos2Z.inj_succ, IH.
  - rewrite (Pos2Z.inj_xI p), Z.log2_succ_double by lia. lia.
  - rewrite (Pos2Z.inj_xO p), Z.log2_double by lia. lia.
Qed.

Lemma iter_xO p d : Zpos (Pos.iter xO p d) = Zpos p * 2 ^ Zpos d.
Proof.
  revert p. induction d as [|d IH] using Pos.peano_ind; intros p; [simpl; lia|].
  rewrite Pos.iter_succ, Pos2Z.inj_xO, IH, Pos2Z.inj_succ, Z.pow_succ_r by lia. lia.
Qed.

(** Shifting out zeros loses nothing. *)
Lemma shr_exact q j :
  0 < q -> iter_pos shr_1 j (Build_shr_record (q * 2 ^ Zpos j) false false) = Build_shr_record q false false.
Proof.
  assert (H1 : forall v, 0 < v -> shr_1 (Build_shr_record (v * 2) false false) = Build_shr_record v false false).
  { intros [|v|v] Hv; try lia. rewrite Z.mul_comm, <- Pos2Z.inj_xO. done. }
  revert q. induction j as [j IH|j IH|]; intros q Hq; cbn [iter_pos].
  - replace (2 ^ Zpos j~1) with (2 ^ Zpos j * 2 ^ Zpos j * 2)
      by (rewrite <- Z.pow_add_r, (Z.mul_comm _ 2), <- Z.pow_succ_r by lia; f_equal; lia).
    pose proof (Z.pow_pos_nonneg 2 (Zpos j)). rewrite !Z.mul_assoc, H1 by nia. by rewrite !IH by nia.
  - replace (2 ^ Zpos j~0) with (2 ^ Zpos j * 2 ^ Zpos j) by (rewrite <- Z.pow_add_r by lia; f_equal; lia).
    pose proof (Z.pow_pos_nonneg 2 (Zpos j)). rewrite Z.mul_assoc. by rewrite !IH by nia.
  - change (2 ^ 1) with 2. by apply H1.
Qed.

(** ** Exact integers *)

(** The double with the value [n], for 0 < [n] < 2^53. *)
Definition f64_int (n : Z) : spec_float :=
  S754_finite false (Z.to_pos (n * 2 ^ (52 - Z.log2 n))) (Z.log2 n - 52).

Lemma fexp_value e : -1000 <= e <= 1000 -> fexp f64_prec f64_emax e = e - 53.
Proof. unfold fexp, emin, f64_prec, f64_emax. lia. Qed.

Lemma log2_53 n : 0 < n < 2 ^ 53 -> 0 <= Z.log2 n <= 52.
Proof.
  intros Hn. split; [apply Z.log2_nonneg|]. enough (Z.log2 n < 53) by lia. apply Z.log2_lt_pow2; lia.
Qed.

(** A mantissa that is [n] shifted to the left, in whatever place, is rounded to [n]. *)
Lemma shr_fexp_exact n k (m : positive) :
  0 < n < 2 ^ 53 -> 52 - Z.log2 n <= k -> k <= 200 -> Zpos m = n * 2 ^ k ->
  shr_fexp f64_prec f64_emax (Zpos m) (- k) loc_Exact
  = (Build_shr_record (n * 2 ^ (52 - Z.log2 n)) false false, Z.log2 n - 52).
Proof.
  intros Hn Hk Hk2 Em. pose proof (log2_53 n Hn) as Hl. unfold shr_fexp.
  change (Zdigits2 (Zpos m)) with (Zpos (digits2_pos m)).
  rewrite digits2_log2, Em, Z.log2_mul_pow2 by lia.
  replace (k + Z.log2 n + 1 + - k) with (Z.log2 n + 1) by lia. rewrite fexp_value by lia.
  cbn [shr_record_of_loc]. destruct (Z.log2 n + 1 - 53 - - k) as [|j|j] eqn:Ej; [| |lia].
  - unfold shr. replace (52 - Z.log2 n) with k by lia. f_equal; lia.
  - unfold shr. replace (n * 2 ^ k) with (n * 2 ^ (52 - Z.log2 n) * 2 ^ Zpos j).
    + rewrite shr_exact; [f_equal; lia|]. pose proof (Z.pow_pos_nonneg 2 (52 - Z.log2 n)). nia.
    + rewrite <- Z.mul_assoc, <- Z.pow_add_r by lia. do 2 f_equal. lia.
Qed.

Lemma binary_round_exact n k (m : positive) :
  0 < n < 2 ^ 53 -> 0 <= k <= 100 -> Zpos m = n * 2 ^ k ->
  binary_round f64_prec f64_emax false m (- k) = f64_int n.
Proof.
  intros Hn Hk Em. pose proof (log2_53 n Hn) as Hl. unfold binary_round.
  rewrite digits2_log2, Em, Z.log2_mul_pow2 by lia.
  replace (k + Z.log2 n + 1 + - k) with (Z.log2 n + 1) by lia. rewrite fexp_value by lia.
  assert (Hs : exists (mz : positive) k', shl_align m (- k) (Z.log2 n + 1 - 53) = (mz, - k')
             /\ 52 - Z.log2 n <= k' <= 200 /\ Zpos mz = n * 2 ^ k').
  { unfold shl_align. destruct (Z.log2 n + 1 - 53 - - k) as [|d|d] eqn:Ed.
    - exists m, k. split; [done|]. split; [lia|done].
    - exists m, k. split; [done|]. split; [lia|done].
    - exists (Pos.iter xO m d), (52 - Z.log2 n). split; [f_equal; lia|]. split; [lia|].
      rewrite iter_xO, Em, <- Z.mul_assoc, <- Z.pow_add_r by lia. do 2 f_equal. lia. }
  destruct Hs as (mz & k' & -> & Hk' & Emz). unfold binary_round_aux.
  rewrite (shr_fexp_exact n k') by (try done; lia). cbn [shr_m loc_of_shr_record round_nearest_even].
  pose proof (Z.pow_pos_nonneg 2 (52 - Z.log2 n) ltac:(lia) ltac:(lia)) as Hp.
  set (q := n * 2 ^ (52 - Z.log2 n)) in *. assert (Hq : 0 < q) by nia.
  replace q with (Zpos (Z.to_pos q)) by (apply Z2Pos.id; lia).
  replace (Z.log2 n - 52) with (- (52 - Z.log2 n)) by lia.
  rewrite (shr_fexp_exact n (52 - Z.log2 n)) by (try done; try lia; rewrite Z2Pos.id by lia; done).
  cbn [shr_m]. fold q. replace q with (Zpos (Z.to_pos q)) by (apply Z2Pos.id; lia).
  rewrite (proj2 (Z.leb_le _ _)) by (unfold f64_emax, f64_prec; lia).
  unfold f64_int. fold q. f_equal; lia.
Qed.

Lemma f64_of_u64_pos n : 0 < n < 2 ^ 53 -> f64_of_u64 n = f64_int n.
Proof.
  intros Hn. unfold f64_of_u64, binary_normalize. destruct n as [|p|p]; [lia| |lia].
  change 0 with (- 0). apply binary_round_exact; [done|lia|lia].
Qed.

Lemma f64_of_u64_0 : f64_of_u64 0 = S754_zero false.
Proof. done. Qed.

(** ** Difference *)

(** The mantissa of [f64_int a], moved to a smaller exponent. *)
Lemma shl_int a ez :
  0 < a < 2 ^ 53 -> ez <= Z.log2 a - 52 ->
  Zpos (fst (shl_align (Z.to_pos (a * 2 ^ (52 - Z.log2 a))) (Z.log2 a - 52) ez)) = a * 2 ^ (- ez).
Proof.
  intros Ha He. pose proof (log2_53 a Ha) as Hl.
  pose proof (Z.pow_pos_nonneg 2 (52 - Z.log2 a) ltac:(lia) ltac:(lia)).
  unfold shl_align. destruct (ez - (Z.log2 a - 52)) as [|d|d] eqn:Ed; cbn [fst].
  - rewrite Z2Pos.id by nia. do 2 f_equal. lia.
  - lia.
  - rewrite iter_xO, Z2Pos.id by nia. rewrite <- Z.mul_assoc, <- Z.pow_add_r by lia. do 2 f_equal. lia.
Qed.

Lemma f64_sub_int a b : 0 <= b <= a -> a < 2 ^ 53 -> f64_sub (f64_of_u64 a) (f64_of_u64 b) = f64_of_u64 (a - b).
Proof.
  intros Hb Ha. destruct (Z.eq_dec b 0) as [->|Hb0].
  { rewrite Z.sub_0_r, f64_of_u64_0. destruct (Z.eq_dec a 0) as [->|]; [done|].
    by rewrite f64_of_u64_pos by lia. }
  rewrite (f64_of_u64_pos a), (f64_of_u64_pos b) by lia. unfold f64_sub, f64_int, SFsub.
  pose proof (log2_53 a ltac:(lia)) as Hla. pose proof (log2_53 b ltac:(lia)) as Hlb.
  cbn [cond_Zopp]. set (ez := Z.min _ _).
  rewrite (shl_int a), (shl_int b) by lia. rewrite <- Z.mul_sub_distr_r.
  destruct (Z.eq_dec (a - b) 0) as [E|Hne]; [by rewrite E|].
  pose proof (Z.pow_pos_nonneg 2 (- ez) ltac:(lia) ltac:(lia)).
  rewrite f64_of_u64_pos by lia. unfold binary_normalize.
  destruct ((a - b) * 2 ^ (- ez)) as [|p|p] eqn:Ep; [nia| |nia].
  replace ez with (- - ez) at 1 by lia. apply binary_round_exact; lia.
Qed.

(** ** Comparison *)

Lemma f64_int_key n : 0 < n < 2 ^ 53 -> f64_key (f64_of_u64 n) = (1, Z.log2 n - 52, n * 2 ^ (52 - Z.log2 n)).
Proof.
  intros Hn. rewrite f64_of_u64_pos by done. unfold f64_int, f64_key. f_equal.
  pose proof (log2_53 n Hn). pose proof (Z.pow_pos_nonneg 2 (52 - Z.log2 n) ltac:(lia) ltac:(lia)).
  apply Z2Pos.id. nia.
Qed.

Lemma f64_int_notnan n : 0 <= n < 2 ^ 53 -> f64_isnan (f64_of_u64 n) = false.
Proof. intros Hn. destruct (Z.eq_dec n 0) as [->|]; [done|]. by rewrite f64_of_u64_pos by lia. Qed.

Lemma f64_int_key_lt x y : 0 <= x < y -> y < 2 ^ 53 -> key_lt (f64_key (f64_of_u64 x)) (f64_key (f64_of_u64 y)).
Proof.
  intros Hx Hy. rewrite (f64_int_key y) by lia. destruct (Z.eq_dec x 0) as [->|]; [left; lia|].
  rewrite (f64_int_key x) by lia. right. split; [done|].
  pose proof (Z.log2_le_mono x y ltac:(lia)). destruct (Z.eq_dec (Z.log2 x) (Z.log2 y)) as [E|]; [|left; lia].
  right. rewrite E. split; [done|]. pose proof (log2_53 y ltac:(lia)).
  pose proof (Z.pow_pos_nonneg 2 (52 - Z.log2 y) ltac:(lia) ltac:(lia)). nia.
Qed.

Lemma f64_lt_int x y : 0 <= x < 2 ^ 53 -> 0 <= y < 2 ^ 53 -> SFltb (f64_of_u64 x) (f64_of_u64 y) = (x <? y).
Proof.
  intros Hx Hy. apply eq_true_iff_eq. rewrite SFltb_key, Z.ltb_lt by (by apply f64_int_notnan).
  split; [|intros; apply f64_int_key_lt; lia]. intros Hk.
  destruct (Z.lt_trichotomy x y) as [|[->|Hgt]]; [done| |]; exfalso; eapply key_lt_irrefl; [exact Hk|].
  eapply key_lt_trans; [exact Hk|]. apply f64_int_key_lt; lia.
Qed.

(** Below every integer. *)
Lemma f64_minus_one_lt x : 0 <= x < 2 ^ 53 -> SFltb (d_val d_minus_one) (f64_of_u64 x) = true.
Proof.
  intros Hx. apply SFltb_key; [done|by apply f64_int_notnan|].
  destruct (Z.eq_dec x 0) as [->|]; [left; simpl; lia|]. rewrite f64_int_key by lia. left; simpl; lia.
Qed.
