(* ===== verification/Region.v ===== *)
(** [RegionAllocator]: include/gpu_memory_service/region_allocator.hpp and
    src/region_allocator.cpp, operation by operation.

    The state is the record of the class' members.  [regions_] and [free_slots_]
    are traversed in order, so they are the ordered containers of [Ordered];
    [alloc_offset_] is only looked up by key, so it is a [gmap].

    Every operation returns the new state with its [Result].  Operations that
    dereference an iterator without comparing it to [end()] ([allocate]) or call
    [map::at] ([pin], [unpin]) return an [option]: [None] is the undefined behaviour,
    or the [std::out_of_range], of a missing entry. *)
From S2P Require Import Prelude Words Ordered Types Streams Floats.
Open Scope Z_scope.

(** ** Data *)

Record RegionInfo : Set := mk_region {
  ri_region_id : MemoryRegionId;
  ri_region_generation : MemoryRegionGeneration;
  ri_offset : Z;
  ri_size : Z;
  ri_alignment : Z;
  ri_live : bool;
  ri_alloc_id : AllocationId;
  ri_alloc_generation : AllocationGeneration;
  ri_movability : Movability.t;
  ri_pin_count : Z;
  ri_mem_class : MemoryClass.t;
  ri_reclaimability : Reclaimability.t;
  ri_residency : ResidencyState.t;
  ri_lifecycle : LifecycleState.t;
  ri_provenance : Provenance.t;
  ri_worker_boot : WorkerBootId;
}.

Record AllocRequest : Set := mk_alloc_request {
  aq_bytes : Z;
  aq_alignment : Z;
  aq_movability : Movability.t;
  aq_mem_class : MemoryClass.t;
  aq_reclaimability : Reclaimability.t;
  aq_alloc_id : AllocationId;
  aq_alloc_generation : AllocationGeneration;
  aq_worker_boot : WorkerBootId;
  aq_provenance : Provenance.t;
}.

(** [FreeSlot] with its [operator<]: by size, then by offset. *)
Record FreeSlot : Set := mk_slot { fs_size : Z; fs_offset : Z }.

#[export] Instance FreeSlot_eq_dec : EqDecision FreeSlot.
Proof. solve_decision. Defined.

Definition slot_key (s : FreeSlot) : Z * Z := (fs_size s, fs_offset s).

Lemma slot_key_inj a b : slot_key a = slot_key b -> a = b.
Proof. destruct a, b; unfold slot_key; simpl; congruence. Qed.

#[export] Instance FreeSlot_KeyOrder : KeyOrder FreeSlot := inj_KeyOrder slot_key slot_key_inj.

Record RegionAllocator : Set := mk_ra {
  ra_capacity : Z;
  ra_live_bytes : Z;
  ra_live_count : Z;
  ra_next_region_id : Z;
  ra_strategy : AllocationStrategy.t;
  ra_regions : omap Z RegionInfo;
  ra_alloc_offset : gmap AllocationId Z;
  ra_free_slots : oset FreeSlot;
  ra_summary_dirty : bool;
  ra_free_count : Z;
  ra_largest_free : Z;
}.

(** ** Field updates *)

Definition ra_with_regions (m : omap Z RegionInfo) (a : RegionAllocator) : RegionAllocator :=
  mk_ra (ra_capacity a) (ra_live_bytes a) (ra_live_count a) (ra_next_region_id a)
    (ra_strategy a) m (ra_alloc_offset a) (ra_free_slots a) (ra_summary_dirty a)
    (ra_free_count a) (ra_largest_free a).

Definition ra_with_slots (s : oset FreeSlot) (a : RegionAllocator) : RegionAllocator :=
  mk_ra (ra_capacity a) (ra_live_bytes a) (ra_live_count a) (ra_next_region_id a)
    (ra_strategy a) (ra_regions a) (ra_alloc_offset a) s (ra_summary_dirty a)
    (ra_free_count a) (ra_largest_free a).

Definition ra_with_offsets (o : gmap AllocationId Z) (a : RegionAllocator) : RegionAllocator :=
  mk_ra (ra_capacity a) (ra_live_bytes a) (ra_live_count a) (ra_next_region_id a)
    (ra_strategy a) (ra_regions a) o (ra_free_slots a) (ra_summary_dirty a)
    (ra_free_count a) (ra_largest_free a).

Definition ra_with_live (bytes count : Z) (a : RegionAllocator) : RegionAllocator :=
  mk_ra (ra_capacity a) bytes count (ra_next_region_id a)
    (ra_strategy a) (ra_regions a) (ra_alloc_offset a) (ra_free_slots a) (ra_summary_dirty a)
    (ra_free_count a) (ra_largest_free a).

Definition ra_with_next_region_id (n : Z) (a : RegionAllocator) : RegionAllocator :=
  mk_ra (ra_capacity a) (ra_live_bytes a) (ra_live_count a) n
    (ra_strategy a) (ra_regions a) (ra_alloc_offset a) (ra_free_slots a) (ra_summary_dirty a)
    (ra_free_count a) (ra_largest_free a).

Definition ra_with_summary (dirty : bool) (count largest : Z) (a : RegionAllocator) :
    RegionAllocator :=
  mk_ra (ra_capacity a) (ra_live_bytes a) (ra_live_count a) (ra_next_region_id a)
    (ra_strategy a) (ra_regions a) (ra_alloc_offset a) (ra_free_slots a) dirty count largest.

(** [summary_dirty_ = true]. *)
Definition ra_dirty (a : RegionAllocator) : RegionAllocator :=
  ra_with_summary true (ra_free_count a) (ra_largest_free a) a.

Definition set_strategy (s : AllocationStrategy.t) (a : RegionAllocator) : RegionAllocator :=
  mk_ra (ra_capacity a) (ra_live_bytes a) (ra_live_count a) (ra_next_region_id a)
    s (ra_regions a) (ra_alloc_offset a) (ra_free_slots a) (ra_summary_dirty a)
    (ra_free_count a) (ra_largest_free a).

(** A default-constructed [RegionInfo] with the members the code then assigns to a
    free region. *)
Definition free_region (off size id : Z) (prov : Provenance.t) : RegionInfo :=
  mk_region (mk_id id) (mk_gen 1) off size 1 false id_invalid gen_none Movability.MOVABLE 0
    MemoryClass.UNKNOWN Reclaimability.UNKNOWN ResidencyState.UNKNOWN LifecycleState.REQUESTED
    prov gen_none.

(** A copy of [r] with its interval changed (the carving loop of [relocate]). *)
Definition ri_with_span (off size : Z) (r : RegionInfo) : RegionInfo :=
  mk_region (ri_region_id r) (ri_region_generation r) off size (ri_alignment r) (ri_live r)
    (ri_alloc_id r) (ri_alloc_generation r) (ri_movability r) (ri_pin_count r) (ri_mem_class r)
    (ri_reclaimability r) (ri_residency r) (ri_lifecycle r) (ri_provenance r) (ri_worker_boot r).

Definition ri_with_pin (m : Movability.t) (pins : Z) (r : RegionInfo) : RegionInfo :=
  mk_region (ri_region_id r) (ri_region_generation r) (ri_offset r) (ri_size r) (ri_alignment r)
    (ri_live r) (ri_alloc_id r) (ri_alloc_generation r) m pins (ri_mem_class r)
    (ri_reclaimability r) (ri_residency r) (ri_lifecycle r) (ri_provenance r) (ri_worker_boot r).

(** ** Private helpers *)

Definition index_free (off size : Z) (a : RegionAllocator) : RegionAllocator :=
  ra_with_slots (os_insert (mk_slot size off) (ra_free_slots a)) a.

(** [equal_range] of a set holds at most one element: the slot itself. *)
Definition unindex_free (off size : Z) (a : RegionAllocator) : RegionAllocator :=
  ra_with_slots (os_erase (mk_slot size off) (ra_free_slots a)) a.

(** The five statements that create a free region: build it with the next region
    id, emplace it and index it. *)
Definition add_free (off size : Z) (prov : Provenance.t) (a : RegionAllocator) : RegionAllocator :=
  let f := free_region off size (ra_next_region_id a) prov in
  let a := ra_with_next_region_id (add64 (ra_next_region_id a) 1) a in
  let a := ra_with_regions (om_emplace off f (ra_regions a)) a in
  index_free off size a.

(** ** Constructor *)

Definition RegionAllocator_new (capacity : Z) : RegionAllocator :=
  let a := mk_ra capacity 0 0 1 AllocationStrategy.BEST_FIT
             (om_emplace 0 (free_region 0 capacity 1 Provenance.DERIVED) []) ∅ [] true 0 0 in
  if capacity >? 0 then index_free 0 capacity a else a.

(** ** Summary cache *)

Definition ensure_summary (a : RegionAllocator) : RegionAllocator :=
  if negb (ra_summary_dirty a) then a
  else
    let count := Z.of_nat (length (ra_free_slots a)) in
    let largest := match last (ra_free_slots a) with Some s => fs_size s | None => 0 end in
    ra_with_summary false count largest a.

Definition free_bytes (a : RegionAllocator) : Z := sub64 (ra_capacity a) (ra_live_bytes a).

(** The query methods are [const]; what they return is read off the refreshed
    cache, which the [mutable] members keep. *)
Definition free_region_count (a : RegionAllocator) : Z := ra_free_count (ensure_summary a).
Definition largest_free_region (a : RegionAllocator) : Z := ra_largest_free (ensure_summary a).

Definition external_fragmentation (a : RegionAllocator) : spec_float :=
  if free_bytes a =? 0 then d_val d_zero
  else f64_sub (d_val d_one)
         (f64_div (f64_of_u64 (largest_free_region a)) (f64_of_u64 (free_bytes a))).

Definition sum_live (sel : RegionInfo -> bool) (a : RegionAllocator) : Z :=
  fold_left (fun s kv => if ri_live kv.2 && sel kv.2 then add64 s (ri_size kv.2) else s)
    (ra_regions a) 0.

Definition movable_bytes : RegionAllocator -> Z :=
  sum_live (fun r => bool_decide (ri_movability r = Movability.MOVABLE)).

Definition pinned_bytes : RegionAllocator -> Z :=
  sum_live (fun r => bool_decide (ri_movability r = Movability.PINNED)).

Definition snapshot_live (a : RegionAllocator) : list RegionInfo :=
  List.filter ri_live (om_values (ra_regions a)).

Definition snapshot_free (a : RegionAllocator) : list RegionInfo :=
  List.filter (fun r => negb (ri_live r)) (om_values (ra_regions a)).

(** ** allocate *)

(** The search loop, from [lower_bound] to [end()]: the first slot whose aligned
    remainder holds the request, with the front padding. *)
Fixpoint find_slot (aligned alignment : Z) (slots : list FreeSlot) : option (FreeSlot * Z) :=
  match slots with
  | [] => None
  | s :: slots' =>
      let front := sub64 (ra_align_up (fs_offset s) alignment) (fs_offset s) in
      if (front >? fs_size s) || (aligned >? sub64 (fs_size s) front)
      then find_slot aligned alignment slots'
      else Some (s, front)
  end.

Definition live_region (off aligned id : Z) (req : AllocRequest) : RegionInfo :=
  mk_region (mk_id id) (mk_gen 1) off aligned (aq_alignment req) true (aq_alloc_id req)
    (aq_alloc_generation req) (aq_movability req) 0 (aq_mem_class req) (aq_reclaimability req)
    ResidencyState.RESIDENT LifecycleState.ALLOCATED (aq_provenance req) (aq_worker_boot req).

(** The body of the loop once a slot is chosen. *)
Definition place (req : AllocRequest) (aligned : Z) (slot : FreeSlot) (front : Z)
    (a : RegionAllocator) : option (RegionAllocator * Result RegionInfo) :=
  let foff := fs_offset slot in
  let fsize := fs_size slot in
  let alloc_off := add64 foff front in
  let tail := sub64 (sub64 fsize front) aligned in
  match om_find foff (ra_regions a) with
  | None => None
  | Some frec =>
      let a := ra_with_regions (om_erase foff (ra_regions a)) a in
      let a := ra_with_slots (os_erase slot (ra_free_slots a)) a in
      let a := if front >? 0 then add_free foff front (ri_provenance frec) a else a in
      let live := live_region alloc_off aligned (ra_next_region_id a) req in
      let a := ra_with_next_region_id (add64 (ra_next_region_id a) 1) a in
      let a := ra_with_regions (om_emplace alloc_off live (ra_regions a)) a in
      let a := if tail >? 0
               then add_free (add64 alloc_off aligned) tail (ri_provenance frec) a else a in
      let a := ra_with_live (add64 (ra_live_bytes a) aligned) (add64 (ra_live_count a) 1) a in
      let a := ra_with_offsets (<[aq_alloc_id req := alloc_off]> (ra_alloc_offset a)) a in
      Some (ra_dirty a, Ok live)
  end.

Definition allocate (req : AllocRequest) (a : RegionAllocator) :
    option (RegionAllocator * Result RegionInfo) :=
  if aq_bytes req =? 0 then Some (a, fail RejectReason.ZERO_BYTES "allocation of zero bytes")
  else if (aq_alignment req =? 0) || negb (is_pow2 (aq_alignment req)) then
    Some (a, fail (if aq_alignment req =? 0 then RejectReason.IMPOSSIBLE_ALIGNMENT
                   else RejectReason.NON_POWER_OF_TWO_ALIGNMENT) "invalid alignment")
  else if aq_bytes req >? ra_capacity a then
    Some (a, fail RejectReason.INSUFFICIENT_TOTAL_CAPACITY "request exceeds capacity")
  else
    let aligned := ra_align_up (aq_bytes req) (aq_alignment req) in
    if (aligned =? 0) || (aligned <? aq_bytes req) then
      Some (a, fail RejectReason.SIZE_OVERFLOW "aligned size overflow")
    else if aligned >? ra_capacity a then
      Some (a, fail RejectReason.INSUFFICIENT_TOTAL_CAPACITY "aligned request exceeds capacity")
    else
      match find_slot aligned (aq_alignment req)
              (os_lower_bound (mk_slot aligned 0) (ra_free_slots a)) with
      | Some (slot, front) => place req aligned slot front a
      | None =>
          if free_bytes a <? aligned then
            Some (a, fail RejectReason.INSUFFICIENT_TOTAL_CAPACITY
                       "total managed free bytes insufficient")
          else
            Some (a, fail RejectReason.INSUFFICIENT_CONTIGUOUS_CAPACITY
                       "no contiguous free region of sufficient size")
      end.

(** ** free *)

(** The merge with the free region that ends at [off], if any: the new lower end
    and the state without that region. *)
Definition merge_prev (off : Z) (a : RegionAllocator) : Z * RegionAllocator :=
  match om_prev off (ra_regions a) with
  | Some (pk, pr) =>
      if negb (ri_live pr) && (add64 pk (ri_size pr) =? off) then
        let a := unindex_free pk (ri_size pr) a in
        (pk, ra_with_regions (om_erase pk (ra_regions a)) a)
      else (off, a)
  | None => (off, a)
  end.

(** The merge with the free region that starts at [hi], if any. *)
Definition merge_next (off hi : Z) (a : RegionAllocator) : Z * RegionAllocator :=
  match om_lower_bound off (ra_regions a) with
  | (nk, nr) :: _ =>
      if negb (ri_live nr) && (nk =? hi) then
        let a := unindex_free nk (ri_size nr) a in
        (add64 nk (ri_size nr), ra_with_regions (om_erase nk (ra_regions a)) a)
      else (hi, a)
  | [] => (hi, a)
  end.

Definition canonicalize_free (off size : Z) (a : RegionAllocator) :
    RegionAllocator * Result RegionInfo :=
  if size =? 0 then (a, fail RejectReason.ZERO_BYTES "zero-size free interval")
  else if (off >? ra_capacity a) || (size >? sub64 (ra_capacity a) off) then
    (a, fail RejectReason.SIZE_OVERFLOW "free interval out of bounds")
  else
    let '(lo, a) := merge_prev off a in
    let '(hi, a) := merge_next off (add64 off size) a in
    let f := free_region lo (sub64 hi lo) (ra_next_region_id a) Provenance.DERIVED in
    (ra_dirty (add_free lo (sub64 hi lo) Provenance.DERIVED a), Ok f).

Definition free (id : AllocationId) (gen : AllocationGeneration) (a : RegionAllocator) :
    RegionAllocator * Result RegionInfo :=
  match ra_alloc_offset a !! id with
  | None => (a, fail RejectReason.STALE_GENERATION "unknown or already-freed allocation")
  | Some off =>
      match om_find off (ra_regions a) with
      | None => (a, fail RejectReason.STALE_GENERATION "allocation region is not live")
      | Some r =>
          if negb (ri_live r) then
            (a, fail RejectReason.STALE_GENERATION "allocation region is not live")
          else if negb (bool_decide (ri_alloc_generation r = gen)) then
            (a, fail RejectReason.STALE_GENERATION "stale allocation generation on free")
          else
            let a := ra_with_regions (om_erase off (ra_regions a)) a in
            let a := ra_with_offsets (delete id (ra_alloc_offset a)) a in
            let a := ra_with_live (sub64 (ra_live_bytes a) (ri_size r))
                       (sub64 (ra_live_count a) 1) a in
            canonicalize_free off (ri_size r) a
      end
  end.

(** ** relocate *)

(** Does a live region overlap [new_offset, new_hi)?  The check before mutation. *)
Fixpoint live_in_range (new_hi : Z) (c : omap Z RegionInfo) : bool :=
  match c with
  | [] => false
  | (k, r) :: c' => if negb (k <? new_hi) then false
                    else if ri_live r then true else live_in_range new_hi c'
  end.

Definition target_blocked (new_offset new_hi : Z) (a : RegionAllocator) : bool :=
  match om_prev new_offset (ra_regions a) with
  | Some (pk, pr) => ri_live pr && (add64 pk (ri_size pr) >? new_offset)
  | None => false
  end || live_in_range new_hi (om_lower_bound new_offset (ra_regions a)).

(** One iteration of the carving loop: the regions rebuilt so far and the state
    whose [free_slots_] is being updated. *)
Definition carve_step (new_offset new_hi : Z) (acc : omap Z RegionInfo * RegionAllocator)
    (kv : Z * RegionInfo) : omap Z RegionInfo * RegionAllocator :=
  let '(next, a) := acc in
  let '(s, r) := kv in
  let e := add64 s (ri_size r) in
  if ri_live r then (om_set s r next, a)
  else
    let ov_s := Z.max s new_offset in
    let ov_e := Z.min e new_hi in
    if ov_s >=? ov_e then (om_set s r next, a)
    else
      let a := unindex_free s (sub64 e s) a in
      let '(next, a) :=
        if s <? ov_s then
          (om_set s (ri_with_span s (sub64 ov_s s) r) next, index_free s (sub64 ov_s s) a)
        else (next, a) in
      if ov_e <? e then
        (om_set ov_e (ri_with_span ov_e (sub64 e ov_e) r) next, index_free ov_e (sub64 e ov_e) a)
      else (next, a).

Definition carve (new_offset new_hi : Z) (a : RegionAllocator) : RegionAllocator :=
  let '(next, a) := fold_left (carve_step new_offset new_hi) (ra_regions a) ([], a) in
  ra_with_regions next a.

Definition moved_region (new_offset new_size new_alignment : Z) (gen : AllocationGeneration)
    (old : RegionInfo) : RegionInfo :=
  mk_region (ri_region_id old) (gen_next (ri_region_generation old)) new_offset new_size
    new_alignment (ri_live old) (ri_alloc_id old) (gen_next gen) (ri_movability old)
    (ri_pin_count old) (ri_mem_class old) (ri_reclaimability old) (ri_residency old)
    LifecycleState.RESIDENT (ri_provenance old) (ri_worker_boot old).

(** The mutation of [relocate], once every check has passed. *)
Definition do_relocate (id : AllocationId) (gen : AllocationGeneration)
    (old_off new_offset new_size new_alignment : Z) (old : RegionInfo) (a : RegionAllocator) :
    RegionAllocator * Result RegionInfo :=
  let a := ra_with_regions (om_erase old_off (ra_regions a)) a in
  let a := ra_with_offsets (delete id (ra_alloc_offset a)) a in
  let a := carve new_offset (add64 new_offset new_size) a in
  match canonicalize_free old_off (ri_size old) a with
  | (a, Err f) => (a, Err f)
  | (a, Ok _) =>
      let moved := moved_region new_offset new_size new_alignment gen old in
      let a := ra_with_regions (om_emplace new_offset moved (ra_regions a)) a in
      let a := ra_with_offsets (<[id := new_offset]> (ra_alloc_offset a)) a in
      let bytes := if new_size >=? ri_size old
                   then add64 (ra_live_bytes a) (sub64 new_size (ri_size old))
                   else sub64 (ra_live_bytes a) (sub64 (ri_size old) new_size) in
      (ra_dirty (ra_with_live bytes (ra_live_count a) a), Ok moved)
  end.

Definition relocate (id : AllocationId) (gen : AllocationGeneration)
    (new_offset new_size new_alignment : Z) (a : RegionAllocator) :
    RegionAllocator * Result RegionInfo :=
  match ra_alloc_offset a !! id with
  | None => (a, fail RejectReason.STALE_GENERATION "unknown allocation")
  | Some old_off =>
      match om_find old_off (ra_regions a) with
      | None => (a, fail RejectReason.STALE_GENERATION "allocation region is not live")
      | Some r =>
          if negb (ri_live r) then
            (a, fail RejectReason.STALE_GENERATION "allocation region is not live")
          else if negb (bool_decide (ri_alloc_generation r = gen)) then
            (a, fail RejectReason.STALE_GENERATION "stale generation on relocate")
          else if (new_alignment =? 0) || negb (is_pow2 new_alignment) then
            (a, fail RejectReason.IMPOSSIBLE_ALIGNMENT "invalid relocation alignment")
          else if (new_size =? 0) || negb (new_offset mod new_alignment =? 0) then
            (a, fail RejectReason.INVALID_REQUEST "invalid relocation target")
          else if (new_offset >? ra_capacity a) || (new_size >? sub64 (ra_capacity a) new_offset)
          then (a, fail RejectReason.SIZE_OVERFLOW "relocation target out of bounds")
          else
            let new_hi := add64 new_offset new_size in
            let old_end := add64 old_off (ri_size r) in
            if (new_offset <? old_end) && (old_off <? new_hi) then
              (a, fail RejectReason.INVALID_REQUEST "relocation target overlaps current region")
            else if target_blocked new_offset new_hi a then
              (a, fail RejectReason.INVALID_REQUEST "relocation target overlaps a live region")
            else do_relocate id gen old_off new_offset new_size new_alignment r a
      end
  end.

(** ** pin, unpin, get *)

Definition pin (id : AllocationId) (gen : AllocationGeneration) (a : RegionAllocator) :
    option (RegionAllocator * Result RegionInfo) :=
  match ra_alloc_offset a !! id with
  | None => Some (a, fail RejectReason.STALE_GENERATION "unknown allocation")
  | Some off =>
      match om_find off (ra_regions a) with
      | None => None
      | Some r =>
          if negb (ri_live r) then
            Some (a, fail RejectReason.STALE_GENERATION "allocation not live")
          else if negb (bool_decide (ri_alloc_generation r = gen)) then
            Some (a, fail RejectReason.STALE_GENERATION "stale generation on pin")
          else
            let r := ri_with_pin Movability.PINNED (add32 (ri_pin_count r) 1) r in
            Some (ra_with_regions (om_set off r (ra_regions a)) a, Ok r)
      end
  end.

Definition unpin (id : AllocationId) (gen : AllocationGeneration) (a : RegionAllocator) :
    option (RegionAllocator * Result RegionInfo) :=
  match ra_alloc_offset a !! id with
  | None => Some (a, fail RejectReason.STALE_GENERATION "unknown allocation")
  | Some off =>
      match om_find off (ra_regions a) with
      | None => None
      | Some r =>
          if negb (ri_live r) then
            Some (a, fail RejectReason.STALE_GENERATION "allocation not live")
          else if negb (bool_decide (ri_alloc_generation r = gen)) then
            Some (a, fail RejectReason.STALE_GENERATION "stale generation on unpin")
          else if ri_pin_count r =? 0 then
            Some (a, fail RejectReason.INVALID_REQUEST "unpin of non-pinned allocation")
          else
            let pins := sub32 (ri_pin_count r) 1 in
            let mov := if pins =? 0 then Movability.MOVABLE else ri_movability r in
            let r := ri_with_pin mov pins r in
            Some (ra_with_regions (om_set off r (ra_regions a)) a, Ok r)
      end
  end.

Definition get (id : AllocationId) (gen : AllocationGeneration) (a : RegionAllocator) :
    Result RegionInfo :=
  match ra_alloc_offset a !! id with
  | None => fail RejectReason.STALE_GENERATION "unknown allocation"
  | Some off =>
      match om_find off (ra_regions a) with
      | None => fail RejectReason.STALE_GENERATION "allocation not live"
      | Some r =>
          if negb (ri_live r) then fail RejectReason.STALE_GENERATION "allocation not live"
          else if negb (bool_decide (ri_alloc_generation r = gen)) then
            fail RejectReason.STALE_GENERATION "stale generation on query"
          else Ok r
      end
  end.

(** ** verify and dump *)

Definition nl : string := String (Ascii.ascii_of_nat 10) EmptyString.

(** The local variables of [verify]'s loop. *)
Record VerifyState : Set := mk_vs {
  vs_expected : Z;
  vs_live_sum : Z;
  vs_prev_free : bool;
  vs_have_prev : bool;
  vs_prev_end : Z;
  vs_free_count : Z;
}.

(** The loop: [inl] is an early return with its message. *)
Fixpoint verify_loop (m : omap Z RegionInfo) (v : VerifyState) : string + VerifyState :=
  match m with
  | [] => inr v
  | (k, r) :: m' =>
      if negb (k =? vs_expected v) then
        inl ("gap/overlap at " ++ pretty k ++ " expected " ++ pretty (vs_expected v) ++ nl)%string
      else if vs_have_prev v && (vs_prev_end v >? k) then
        inl ("overlap at " ++ pretty k ++ nl)%string
      else if vs_have_prev v && (vs_prev_free v && negb (ri_live r) && (vs_prev_end v =? k)) then
        inl ("adjacent free not merged at " ++ pretty k ++ nl)%string
      else if ri_live r && ((ri_alignment r =? 0)
                || negb (Z.land (ri_alignment r) (sub64 (ri_alignment r) 1) =? 0)) then
        inl ("bad alignment at " ++ pretty k ++ nl)%string
      else if ri_live r && negb (k mod ri_alignment r =? 0) then
        inl ("misaligned at " ++ pretty k ++ nl)%string
      else
        let e := add64 k (ri_size r) in
        verify_loop m'
          (mk_vs e
             (if ri_live r then add64 (vs_live_sum v) (ri_size r) else vs_live_sum v)
             (negb (ri_live r)) true e
             (if ri_live r then vs_free_count v else add64 (vs_free_count v) 1))
  end.

Definition verify (a : RegionAllocator) : string :=
  match verify_loop (ra_regions a) (mk_vs 0 0 false false 0 0) with
  | inl msg => msg
  | inr v =>
      if negb (vs_expected v =? ra_capacity a) then
        ("arena does not cover capacity" ++ nl)%string
      else if negb (vs_live_sum v =? ra_live_bytes a) then ("live byte sum mismatch" ++ nl)%string
      else if negb (vs_free_count v =? Z.of_nat (length (ra_free_slots a))) then
        ("free-slot index drift" ++ nl)%string
      else ""%string
  end.

Section dump.
#[local] Open Scope string_scope.
#[local] Open Scope stream_scope.

(** One line of [dump]. *)
Definition dump_region (os : string) (r : RegionInfo) : string :=
  let os := os << "  [" << ri_offset r << ", " << add64 (ri_offset r) (ri_size r) << ") "
               << (if ri_live r then "LIVE" else "free")
               << " id=" << ri_alloc_id r << " gen=" << ri_alloc_generation r in
  let os := if ri_live r
            then os << " mov=" << ri_movability r << " pin=" << ri_pin_count r << " class=" << ri_mem_class r
            else os in
  os << nl.

Definition dump (a : RegionAllocator) : string :=
  let os := "" << "arena capacity=" << ra_capacity a << " live=" << ra_live_bytes a
               << " free=" << free_bytes a << " live_count=" << ra_live_count a << nl in
  fold_left dump_region (om_values (ra_regions a)) os.
End dump.
