(* ===== verification/RegionInv.v ===== *)
(** The layout invariant of [RegionAllocator] and its algebra.

    [tiled] says that a list of regions covers an interval without gap or overlap,
    that no two free regions touch and that live regions are aligned: it is stated
    with the two loop variables of the code's own [verify] (the expected offset and
    whether the previous region was free), which makes it compositional over list
    concatenation.  [indexed] ties [free_slots_] to the free regions, [offsets_ok]
    ties [alloc_offset_] to the live ones, [owner_at] is the byte-ownership view that
    the refinement theorems are stated in. *)
From S2P Require Import Prelude Words Ordered Types Floats Region.
Open Scope Z_scope.

(** ** Tiling *)

Definition aligned_ok (k : Z) (r : RegionInfo) : Prop :=
  ri_live r = true ->
  in_u64 (ri_alignment r) /\ is_pow2 (ri_alignment r) = true /\ k mod ri_alignment r = 0.

Fixpoint tiled (lo : Z) (prev_free : bool) (l : omap Z RegionInfo) : Prop :=
  match l with
  | [] => True
  | (k, r) :: l' =>
      k = lo /\ ri_offset r = k /\ 0 < ri_size r
      /\ (prev_free = true -> ri_live r = true) /\ aligned_ok k r
      /\ tiled (lo + ri_size r) (negb (ri_live r)) l'
  end.

(** Where a tiling that starts at [lo] ends, and whether it ends with a free region. *)
Fixpoint tend (lo : Z) (l : omap Z RegionInfo) : Z :=
  match l with [] => lo | (_, r) :: l' => tend (lo + ri_size r) l' end.

Fixpoint pend (pf : bool) (l : omap Z RegionInfo) : bool :=
  match l with [] => pf | (_, r) :: l' => pend (negb (ri_live r)) l' end.

Lemma tend_app lo l1 l2 : tend lo (l1 ++ l2) = tend (tend lo l1) l2.
Proof. revert lo. induction l1 as [|[k r] l1 IH]; intros lo; simpl; auto. Qed.

Lemma pend_app pf l1 l2 : pend pf (l1 ++ l2) = pend (pend pf l1) l2.
Proof. revert pf. induction l1 as [|[k r] l1 IH]; intros pf; simpl; auto. Qed.

Lemma tiled_app lo pf l1 l2 :
  tiled lo pf (l1 ++ l2) <-> tiled lo pf l1 /\ tiled (tend lo l1) (pend pf l1) l2.
Proof.
  revert lo pf. induction l1 as [|[k r] l1 IH]; intros lo pf; simpl; [tauto|].
  rewrite IH. tauto.
Qed.

#[export] Hint Rewrite tend_app pend_app tiled_app : gms_rw.

Lemma tend_ge lo pf l : tiled lo pf l -> lo <= tend lo l.
Proof.
  revert lo pf. induction l as [|[k r] l IH]; intros lo pf; simpl; [lia|].
  intros (-> & _ & Hs & _ & _ & Hl%IH). lia.
Qed.

(** Every region of a tiling lies inside it. *)
Lemma tiled_bounds lo pf l k r :
  tiled lo pf l -> (k, r) ∈ l ->
  ri_offset r = k /\ lo <= k /\ 0 < ri_size r /\ k + ri_size r <= tend lo l.
Proof.
  revert lo pf. induction l as [|[k' r'] l IH]; intros lo pf; simpl.
  { by intros _ ?%not_elem_of_nil. }
  intros (-> & Ho & Hs & _ & _ & Hl) [Heq|Hin]%elem_of_cons.
  - simplify_eq. apply tend_ge in Hl. lia.
  - destruct (IH _ _ Hl Hin) as (? & ? & ? & ?). lia.
Qed.

Lemma tiled_keys_lt lo pf l k : tiled lo pf l -> tend lo l <= k -> keys_lt k l.
Proof.
  intros Hl Hk. apply Forall_forall. intros [k' r] Hin; simpl.
  destruct (tiled_bounds _ _ _ _ _ Hl Hin) as (? & ? & ? & ?).
  change (k' < k). lia.
Qed.

Lemma tiled_keys_gt lo pf l k : tiled lo pf l -> k < lo -> keys_gt k l.
Proof.
  intros Hl Hk. apply Forall_forall. intros [k' r] Hin; simpl.
  destruct (tiled_bounds _ _ _ _ _ Hl Hin) as (? & ? & ? & ?).
  change (k < k'). lia.
Qed.

Lemma tiled_om_ok lo pf l : tiled lo pf l -> om_ok l.
Proof.
  revert lo pf. induction l as [|[k r] l IH]; intros lo pf; simpl; [constructor|].
  intros (-> & _ & Hs & _ & _ & Hl). apply om_ok_cons. split; [|by eapply IH].
  eapply tiled_keys_gt; [done|lia].
Qed.

(** Forgetting that the previous region was free. *)
Lemma tiled_weaken lo pf l : tiled lo pf l -> tiled lo false l.
Proof. destruct l as [|[k r] l]; simpl; naive_solver. Qed.

(** A live region in front of a tiling lifts the no-adjacent-free condition. *)
Lemma tiled_pf lo pf l :
  tiled lo false l -> (pf = true -> forall k r l', l = (k, r) :: l' -> ri_live r = true) ->
  tiled lo pf l.
Proof. destruct l as [|[k r] l]; simpl; [done|]. naive_solver. Qed.

Lemma pend_snoc pf l k r : pend pf (l ++ [(k, r)]) = negb (ri_live r).
Proof. by rewrite pend_app. Qed.

Lemma tend_snoc lo l k r : tend lo (l ++ [(k, r)]) = tend lo l + ri_size r.
Proof. by rewrite tend_app. Qed.

(** ** Permutation-invariant measures *)

Definition live_sum (l : omap Z RegionInfo) : Z :=
  zsum (fun kv => if ri_live kv.2 then ri_size kv.2 else 0) l.

Definition live_cnt (l : omap Z RegionInfo) : Z :=
  zsum (fun kv => if ri_live kv.2 then 1 else 0) l.

Fixpoint free_slots_of (l : omap Z RegionInfo) : list FreeSlot :=
  match l with
  | [] => []
  | (k, r) :: l' =>
      if ri_live r then free_slots_of l' else mk_slot (ri_size r) k :: free_slots_of l'
  end.

Definition indexed (l : omap Z RegionInfo) (s : oset FreeSlot) : Prop :=
  os_ok s /\ s ≡ₚ free_slots_of l.

Definition offsets_ok (o : gmap AllocationId Z) (l : omap Z RegionInfo) : Prop :=
  forall id off, o !! id = Some off <->
    exists r, (off, r) ∈ l /\ ri_live r = true /\ ri_alloc_id r = id.

Lemma free_slots_of_app l1 l2 : free_slots_of (l1 ++ l2) = free_slots_of l1 ++ free_slots_of l2.
Proof. induction l1 as [|[k r] l1 IH]; simpl; [done|]. rewrite IH. by destruct (ri_live r). Qed.

#[export] Instance free_slots_of_proper : Proper ((≡ₚ) ==> (≡ₚ)) free_slots_of.
Proof.
  intros l1 l2. induction 1 as [|[k r] l1 l2 _ IH|[k r] [k' r'] l|l1 l2 l3 _ IH1 _ IH2]; simpl.
  - done.
  - destruct (ri_live r); [done|]. by f_equiv.
  - destruct (ri_live r), (ri_live r'); try done. apply Permutation_swap.
  - by etrans.
Qed.

Lemma free_slots_of_elem s l :
  s ∈ free_slots_of l <->
  exists r, (fs_offset s, r) ∈ l /\ ri_live r = false /\ ri_size r = fs_size s.
Proof.
  induction l as [|[k r] l IH]; simpl.
  - split; [by intros ?%not_elem_of_nil|]. by intros (? & ?%not_elem_of_nil & _).
  - destruct (ri_live r) eqn:Hr.
    + rewrite IH. split; intros (r' & Hin & ? & ?); exists r'; rewrite elem_of_cons in *;
        [auto|naive_solver congruence].
    + rewrite elem_of_cons, IH. split.
      * intros [->|(r' & Hin & ? & ?)]; simpl.
        -- exists r. rewrite elem_of_cons. auto.
        -- exists r'. rewrite elem_of_cons. auto.
      * intros (r' & [Heq|Hin]%elem_of_cons & ? & ?).
        -- left. destruct s; simpl in *; congruence.
        -- right. eauto.
Qed.

Lemma indexed_perm l l' s : l ≡ₚ l' -> indexed l s -> indexed l' s.
Proof. unfold indexed. intros Hp [? Hs]. split; [done|]. by rewrite <- Hp. Qed.

(** Indexing a new free region. *)
Lemma indexed_insert l l' s k r :
  indexed l s -> ri_live r = false -> k ∉ l.*1 -> l' ≡ₚ (k, r) :: l ->
  indexed l' (os_insert (mk_slot (ri_size r) k) s).
Proof.
  intros [Hok Hs] Hr Hk Hl. split; [by apply os_ok_insert|].
  rewrite os_insert_perm.
  - rewrite Hl; simpl. by rewrite Hr, Hs.
  - rewrite Hs. intros (r' & Hin & _)%free_slots_of_elem. apply Hk.
    apply list_elem_of_fmap. by exists (k, r').
Qed.

(** Dropping a free region from the index. *)
Lemma indexed_erase l l' s k r :
  indexed l s -> ri_live r = false -> l ≡ₚ (k, r) :: l' ->
  indexed l' (os_erase (mk_slot (ri_size r) k) s).
Proof.
  intros [Hok Hs] Hr Hl. split; [by apply os_ok_erase|].
  rewrite Hl in Hs; simpl in Hs. rewrite Hr in Hs.
  apply (Permutation_cons_inv (a := mk_slot (ri_size r) k)).
  rewrite os_erase_perm; [done|]. rewrite Hs. set_solver.
Qed.

Lemma indexed_add_live l l' s k r :
  indexed l s -> ri_live r = true -> l' ≡ₚ (k, r) :: l -> indexed l' s.
Proof. intros [Hok Hs] Hr Hl. split; [done|]. by rewrite Hl; simpl; rewrite Hr. Qed.

Lemma indexed_del_live l l' s k r :
  indexed l s -> ri_live r = true -> l ≡ₚ (k, r) :: l' -> indexed l' s.
Proof. intros [Hok Hs] Hr Hl. split; [done|]. rewrite Hl in Hs; simpl in Hs. by rewrite Hr in Hs. Qed.

Lemma live_sum_app l1 l2 : live_sum (l1 ++ l2) = live_sum l1 + live_sum l2.
Proof. apply zsum_app. Qed.

Lemma live_cnt_app l1 l2 : live_cnt (l1 ++ l2) = live_cnt l1 + live_cnt l2.
Proof. apply zsum_app. Qed.

Lemma live_sum_cons k r l : live_sum ((k, r) :: l) = (if ri_live r then ri_size r else 0) + live_sum l.
Proof. done. Qed.

Lemma live_cnt_cons k r l : live_cnt ((k, r) :: l) = (if ri_live r then 1 else 0) + live_cnt l.
Proof. done. Qed.

Lemma live_sum_nil : live_sum [] = 0. Proof. done. Qed.
Lemma live_cnt_nil : live_cnt [] = 0. Proof. done. Qed.

#[export] Hint Rewrite live_sum_app live_cnt_app live_sum_cons live_cnt_cons live_sum_nil
  live_cnt_nil free_slots_of_app : gms_rw.

(** The live bytes of a tiling fit in it, and there are at most as many live
    regions as live bytes. *)
Lemma live_sum_bounds lo pf l :
  tiled lo pf l -> 0 <= live_cnt l <= live_sum l /\ live_sum l <= tend lo l - lo.
Proof.
  revert lo pf. induction l as [|[k r] l IH]; intros lo pf; simpl.
  { autorewrite with gms_rw. lia. }
  intros (-> & _ & Hs & _ & _ & Hl%IH). autorewrite with gms_rw.
  destruct (ri_live r); lia.
Qed.

Lemma offsets_ok_perm o l l' : l ≡ₚ l' -> offsets_ok o l -> offsets_ok o l'.
Proof. unfold offsets_ok. intros Hp Ho id off. rewrite Ho. by setoid_rewrite Hp. Qed.

(** Free regions do not matter to [alloc_offset_]. *)
Lemma offsets_ok_free o k r l : ri_live r = false -> offsets_ok o ((k, r) :: l) <-> offsets_ok o l.
Proof.
  intros Hr. unfold offsets_ok. split; intros Ho id off; rewrite Ho; split;
    intros (r' & Hin & ? & ?); exists r'; rewrite elem_of_cons in *; naive_solver congruence.
Qed.

(** Only the live regions matter. *)
Lemma offsets_ok_live_ext o l l' :
  (forall k r, ri_live r = true -> (k, r) ∈ l <-> (k, r) ∈ l') -> offsets_ok o l -> offsets_ok o l'.
Proof.
  unfold offsets_ok. intros Hl Ho id off. rewrite Ho.
  split; intros (r & Hin & Hr & Hid); exists r; (split; [|done]); by apply Hl.
Qed.

Lemma offsets_ok_insert o l id k r :
  offsets_ok o l -> ri_live r = true -> ri_alloc_id r = id -> o !! id = None ->
  offsets_ok (<[id := k]> o) ((k, r) :: l).
Proof.
  intros Ho Hr Hid Hnone id' off. rewrite lookup_insert_Some. setoid_rewrite elem_of_cons. split.
  - intros [[<- <-]|[Hne Hlk]].
    + exists r. split_and!; auto.
    + apply Ho in Hlk as (r' & ? & ? & ?). exists r'. split_and!; auto.
  - intros (r' & [Heq|Hin] & Hr' & Hid').
    + simplify_eq. auto.
    + assert (o !! id' = Some off) as Hlk by (apply Ho; eauto). right.
      split; [|done]. intros ->. congruence.
Qed.

Lemma offsets_ok_delete o l id k r :
  offsets_ok o ((k, r) :: l) -> ri_live r = true -> ri_alloc_id r = id -> k ∉ l.*1 ->
  offsets_ok (delete id o) l.
Proof.
  intros Ho Hr Hid Hk id' off. rewrite lookup_delete_Some. split.
  - intros [Hne (r' & Hin & ? & ?)%Ho]. exists r'. split; [|done].
    apply elem_of_cons in Hin as [Heq|]; [|done]. simplify_eq.
  - intros (r' & Hin & Hr' & Hid'). split.
    + intros <-. assert (o !! id = Some off) as E1 by (apply Ho; exists r'; set_solver).
      assert (o !! id = Some k) as E2 by (apply Ho; exists r; set_solver).
      assert (off = k) as -> by congruence. apply Hk. apply list_elem_of_fmap. by exists (k, r').
    + apply Ho. exists r'. set_solver.
Qed.

(** ** Byte ownership *)

Definition covers (k : Z) (r : RegionInfo) (b : Z) : bool :=
  ri_live r && (k <=? b) && (b <? k + ri_size r).

(** The allocation, with its generation, that owns byte [b]. *)
Fixpoint owner_at (l : omap Z RegionInfo) (b : Z) : option (AllocationId * AllocationGeneration) :=
  match l with
  | [] => None
  | (k, r) :: l' =>
      if covers k r b then Some (ri_alloc_id r, ri_alloc_generation r) else owner_at l' b
  end.

Lemma owner_at_app l1 l2 b :
  owner_at (l1 ++ l2) b = match owner_at l1 b with Some o => Some o | None => owner_at l2 b end.
Proof. induction l1 as [|[k r] l1 IH]; simpl; [done|]. by destruct (covers k r b). Qed.

Lemma covers_free k r b : ri_live r = false -> covers k r b = false.
Proof. unfold covers. by intros ->. Qed.

Lemma owner_at_outside lo pf l b :
  tiled lo pf l -> b < lo \/ tend lo l <= b -> owner_at l b = None.
Proof.
  revert lo pf. induction l as [|[k r] l IH]; intros lo pf; simpl; [done|].
  intros (-> & _ & Hs & _ & _ & Hl) Hb. pose proof (tend_ge _ _ _ Hl).
  assert (covers lo r b = false) as ->.
  { unfold covers. destruct (ri_live r), (Z.leb_spec lo b), (Z.ltb_spec b (lo + ri_size r)); simpl; lia. }
  eapply IH; [done|]. lia.
Qed.

Lemma owner_at_None l b :
  owner_at l b = None <-> forall k r, (k, r) ∈ l -> covers k r b = false.
Proof.
  induction l as [|[k r] l IH]; simpl.
  - split; [by intros _ ?? ?%not_elem_of_nil|done].
  - setoid_rewrite elem_of_cons. destruct (covers k r b) eqn:Hc.
    + split; [done|]. intros Hall. rewrite (Hall k r) in Hc by auto. done.
    + rewrite IH. split; [|auto]. intros Hall k' r' [?|?]; [congruence|auto].
Qed.

(** A run of unowned bytes lies in a single free region: this is where merging
    adjacent free regions matters. *)
Lemma free_run_in_region lo pf l o n :
  tiled lo pf l -> lo <= o -> 0 < n -> o + n <= tend lo l ->
  (forall b, o <= b < o + n -> owner_at l b = None) ->
  exists pre k r post, l = pre ++ (k, r) :: post /\ ri_live r = false
    /\ k <= o /\ o + n <= k + ri_size r.
Proof.
  revert lo pf. induction l as [|[k r] l IH]; intros lo pf; simpl; [lia|].
  intros (-> & Ho & Hs & _ & _ & Hl) Hlo Hn Hend Hfree.
  assert (Hcov : forall b, o <= b < o + n -> covers lo r b = false /\ owner_at l b = None).
  { intros b Hb. specialize (Hfree b Hb). by destruct (covers lo r b). }
  destruct (Z.le_gt_cases (lo + ri_size r) o) as [Hge|Hlt].
  - destruct (IH _ _ Hl) as (pre & k' & r' & post & -> & ? & ? & ?); [lia..| |].
    { intros b Hb. by apply Hcov. }
    exists ((lo, r) :: pre), k', r', post. auto.
  - assert (Hr : ri_live r = false).
    { destruct (Hcov o) as [Hc _]; [lia|]. unfold covers in Hc.
      destruct (ri_live r); [|done].
      rewrite (proj2 (Z.leb_le _ _)), (proj2 (Z.ltb_lt _ _)) in Hc by lia. done. }
    destruct (Z.le_gt_cases (o + n) (lo + ri_size r)) as [Hin|Hout].
    { exists [], lo, r, l. auto. }
    exfalso. destruct l as [|[k' r'] l]; simpl in *; [lia|].
    destruct Hl as (-> & _ & Hs' & Hlive & _). rewrite Hr in Hlive.
    destruct (Hcov (lo + ri_size r)) as [_ Hc]; [lia|]. unfold covers in Hc.
    rewrite Hlive, (proj2 (Z.leb_le _ _)), (proj2 (Z.ltb_lt _ _)) in Hc by (done || lia). done.
Qed.

(** ** The invariant *)

Definition summary_ok (a : RegionAllocator) : Prop :=
  ra_summary_dirty a = false ->
  ra_free_count a = Z.of_nat (length (ra_free_slots a))
  /\ ra_largest_free a = match last (ra_free_slots a) with Some s => fs_size s | None => 0 end.

Record ra_wf (a : RegionAllocator) : Prop := {
  wf_cap : 0 < ra_capacity a < U64;
  wf_tiled : tiled 0 false (ra_regions a);
  wf_end : tend 0 (ra_regions a) = ra_capacity a;
  wf_live_bytes : ra_live_bytes a = live_sum (ra_regions a);
  wf_live_count : ra_live_count a = live_cnt (ra_regions a);
  wf_indexed : indexed (ra_regions a) (ra_free_slots a);
  wf_offsets : offsets_ok (ra_alloc_offset a) (ra_regions a);
  wf_summary : summary_ok a;
}.

Lemma ra_wf_om_ok a : ra_wf a -> om_ok (ra_regions a).
Proof. intros H. eapply tiled_om_ok, wf_tiled, H. Qed.

#[export] Hint Resolve ra_wf_om_ok wf_tiled wf_indexed wf_offsets : gms.

(** Bounds of a region of a well-formed arena: no offset computation on it wraps. *)
Lemma ra_wf_bounds a k r :
  ra_wf a -> (k, r) ∈ ra_regions a ->
  ri_offset r = k /\ 0 <= k /\ 0 < ri_size r /\ k + ri_size r <= ra_capacity a /\ ra_capacity a < U64.
Proof.
  intros Hwf Hin. destruct (tiled_bounds _ _ _ _ _ (wf_tiled _ Hwf) Hin) as (? & ? & ? & ?).
  pose proof (wf_end _ Hwf). pose proof (wf_cap _ Hwf). lia.
Qed.

Lemma ra_wf_live_bytes a : ra_wf a -> 0 <= ra_live_bytes a <= ra_capacity a.
Proof.
  intros Hwf. rewrite (wf_live_bytes _ Hwf), <- (wf_end _ Hwf).
  pose proof (live_sum_bounds _ _ _ (wf_tiled _ Hwf)). lia.
Qed.

Lemma ra_wf_free_bytes a : ra_wf a -> free_bytes a = ra_capacity a - ra_live_bytes a.
Proof.
  intros Hwf. pose proof (ra_wf_live_bytes _ Hwf). pose proof (wf_cap _ Hwf).
  apply sub64_small. lia.
Qed.

(** Splitting a well-formed arena at one of its regions. *)
Lemma ra_wf_split a k r :
  ra_wf a -> (k, r) ∈ ra_regions a ->
  exists pre post, ra_regions a = pre ++ (k, r) :: post
    /\ tiled 0 false pre /\ tend 0 pre = k /\ ri_offset r = k /\ 0 < ri_size r
    /\ (pend false pre = true -> ri_live r = true) /\ aligned_ok k r
    /\ tiled (k + ri_size r) (negb (ri_live r)) post
    /\ tend (k + ri_size r) post = ra_capacity a
    /\ keys_lt k pre /\ keys_gt k post.
Proof.
  intros Hwf (pre & post & Heq)%list_elem_of_split. exists pre, post.
  pose proof (wf_tiled _ Hwf) as Ht. pose proof (wf_end _ Hwf) as He.
  rewrite Heq in Ht, He. apply tiled_app in Ht as [Hpre Hp]. rewrite tend_app in He.
  simpl in Hp, He. destruct Hp as (Hk & Ho & Hs & Hl & Ha & Hp).
  rewrite <- Hk in *. split_and!; auto.
  - eapply tiled_keys_lt; [done|lia].
  - eapply tiled_keys_gt; [done|lia].
Qed.

(** The live region an allocation id maps to. *)
Lemma ra_wf_lookup a id off :
  ra_wf a -> ra_alloc_offset a !! id = Some off ->
  exists r, (off, r) ∈ ra_regions a /\ om_find off (ra_regions a) = Some r
    /\ ri_live r = true /\ ri_alloc_id r = id.
Proof.
  intros Hwf Hlk. apply (wf_offsets _ Hwf) in Hlk as (r & Hin & Hl & Hid).
  exists r. split_and!; auto. apply om_find_elem; eauto with gms.
Qed.

(** A live region is part of the live bytes. *)
Lemma live_region_bytes a k r :
  ra_wf a -> (k, r) ∈ ra_regions a -> ri_live r = true -> 0 < ri_size r <= ra_live_bytes a.
Proof.
  intros Hwf Hin Hl. destruct (ra_wf_split _ _ _ Hwf Hin) as
    (pre & post & E & Tpre & _ & _ & Hr & _ & _ & Tpost & _).
  rewrite (wf_live_bytes _ Hwf), E. autorewrite with gms_rw. rewrite Hl.
  pose proof (live_sum_bounds _ _ _ Tpre). pose proof (live_sum_bounds _ _ _ Tpost). lia.
Qed.
