(* ===== verification/RegionAlloc.v ===== *)
(** [RegionAllocator::allocate]: invariant, functional behaviour, completeness of the
    search, and what the call does to byte ownership. *)
From S2P Require Import Prelude Words Ordered Types Floats Region RegionInv.
Open Scope Z_scope.

(** ** Free segments *)

(** The region list that [if (size > 0) { ... }] adds. *)
Definition free_seg (off size id : Z) (prov : Provenance.t) : omap Z RegionInfo :=
  if size >? 0 then [(off, free_region off size id prov)] else [].

Lemma tiled_seg lo pf size id prov :
  (0 < size -> pf = false) -> tiled lo pf (free_seg lo size id prov).
Proof.
  intros Hpf. unfold free_seg. rewrite Z.gtb_ltb. destruct (Z.ltb_spec 0 size); [|done].
  simpl. split_and!; try done. intros ->. by specialize (Hpf ltac:(lia)).
Qed.

Lemma tend_seg lo size id prov : 0 <= size -> tend lo (free_seg lo size id prov) = lo + size.
Proof. intros. unfold free_seg. rewrite Z.gtb_ltb. destruct (Z.ltb_spec 0 size); simpl; lia. Qed.

Lemma owner_at_seg off size id prov b : owner_at (free_seg off size id prov) b = None.
Proof. unfold free_seg. by destruct (size >? 0). Qed.

Lemma live_sum_seg off size id prov : live_sum (free_seg off size id prov) = 0.
Proof. unfold free_seg. by destruct (size >? 0). Qed.

Lemma live_cnt_seg off size id prov : live_cnt (free_seg off size id prov) = 0.
Proof. unfold free_seg. by destruct (size >? 0). Qed.

Lemma seg_elem k r off size id prov :
  (k, r) ∈ free_seg off size id prov -> ri_live r = false.
Proof. unfold free_seg. destruct (size >? 0); [|by intros ?%not_elem_of_nil]. by intros ?%list_elem_of_singleton; simplify_eq. Qed.

(** The members that building a free region leaves alone. *)
Definition same_books (a a' : RegionAllocator) : Prop :=
  ra_capacity a' = ra_capacity a /\ ra_live_bytes a' = ra_live_bytes a
  /\ ra_live_count a' = ra_live_count a /\ ra_alloc_offset a' = ra_alloc_offset a.

#[export] Instance same_books_trans : Transitive same_books.
Proof. unfold same_books. intros ???. naive_solver congruence. Qed.

Lemma keys_split_not_elem (k : Z) (l1 l2 : omap Z RegionInfo) :
  keys_lt k l1 -> keys_gt k l2 -> k ∉ (l1 ++ l2).*1.
Proof.
  intros H1 H2 ([k' r] & -> & [Hin|Hin]%elem_of_app)%list_elem_of_fmap.
  - eapply Forall_forall in H1; [|done]. by apply klt_irrefl in H1.
  - eapply Forall_forall in H2; [|done]. by apply klt_irrefl in H2.
Qed.

Lemma add_free_spec a off size prov pre post :
  ra_regions a = pre ++ post -> keys_lt off pre -> keys_gt off post ->
  indexed (ra_regions a) (ra_free_slots a) ->
  let a' := add_free off size prov a in
  ra_regions a' = pre ++ (off, free_region off size (ra_next_region_id a) prov) :: post
  /\ indexed (ra_regions a') (ra_free_slots a') /\ same_books a a'.
Proof.
  intros E Hlt Hgt Hix a'.
  assert (E' : ra_regions a' = pre ++ (off, free_region off size (ra_next_region_id a) prov) :: post).
  { unfold a', add_free, index_free; simpl. rewrite E. by apply om_emplace_mid. }
  split; [done|]. split; [|done]. rewrite E'.
  apply (indexed_insert (ra_regions a) _ _ off
           (free_region off size (ra_next_region_id a) prov)); [done..| |].
  - rewrite E. by apply keys_split_not_elem.
  - rewrite E. solve_Permutation.
Qed.

Lemma maybe_add_free_spec a off size prov pre post :
  ra_regions a = pre ++ post -> (0 < size -> keys_lt off pre /\ keys_gt off post) ->
  indexed (ra_regions a) (ra_free_slots a) ->
  let a' := if size >? 0 then add_free off size prov a else a in
  ra_regions a' = pre ++ free_seg off size (ra_next_region_id a) prov ++ post
  /\ indexed (ra_regions a') (ra_free_slots a') /\ same_books a a'.
Proof.
  intros E Hk Hix. unfold free_seg. destruct (Z.gtb_spec size 0); simpl.
  - destruct Hk; [lia|]. by apply add_free_spec.
  - done.
Qed.

(** ** A list of regions with a live one put into a free one *)

Section placed.
Context (pre post : omap Z RegionInfo) (k : Z) (f : RegionInfo) (prov : Provenance.t).
Context (req : AllocRequest) (front aligned n1 n2 n3 : Z).
Let off := k + front.
Let before := pre ++ (k, f) :: post.
Let live := live_region off aligned n2 req.
Let after := (pre ++ free_seg k front n1 prov)
               ++ (off, live) :: free_seg (off + aligned) (ri_size f - front - aligned) n3 prov ++ post.
Context (HT : tiled 0 false before) (Hf : ri_live f = false).
Context (Hfront : 0 <= front) (Haligned : 0 < aligned) (Hfit : front + aligned <= ri_size f).

Lemma placed_split :
  tiled 0 false pre /\ tend 0 pre = k /\ pend false pre = false /\ tiled (k + ri_size f) true post.
Proof.
  apply tiled_app in HT as [Tpre (Hk & _ & _ & Hp & _ & Tpost)].
  rewrite Hk, Hf in *. split_and!; try done. destruct (pend false pre); [by rewrite Hp in *|done].
Qed.

Lemma placed_tiled :
  in_u64 (aq_alignment req) -> is_pow2 (aq_alignment req) = true -> off mod aq_alignment req = 0 ->
  tiled 0 false after.
Proof.
  destruct placed_split as (Tpre & Hk & Hpf & Tpost). intros Hal Hp2 Hmod. unfold after.
  rewrite !tiled_app, tend_app, Hk, tend_seg, Hpf by lia. simpl. rewrite tiled_app, tend_seg by lia.
  fold off. split_and!; auto; try (by apply tiled_seg); try lia.
  - intros _. done.
  - unfold off. replace (k + front + aligned + (ri_size f - front - aligned)) with (k + ri_size f) by lia.
    apply tiled_pf; [by eapply tiled_weaken|]. intros _ k' r' l' El. rewrite El in Tpost.
    simpl in Tpost. naive_solver.
Qed.

Lemma placed_end : tend 0 after = tend 0 before.
Proof.
  destruct placed_split as (_ & Hk & _ & _). unfold after, before. rewrite !tend_app. simpl.
  rewrite tend_app, Hk, !tend_seg by lia. unfold off. f_equal. lia.
Qed.

Lemma placed_sums : live_sum after = live_sum before + aligned /\ live_cnt after = live_cnt before + 1.
Proof.
  unfold after, before. autorewrite with gms_rw. rewrite !live_sum_seg, !live_cnt_seg, Hf. simpl. lia.
Qed.

Lemma placed_live k' r' :
  ri_live r' = true -> (k', r') ∈ after <-> (k', r') ∈ before \/ (k', r') = (off, live).
Proof.
  intros Hr'. unfold after, before. rewrite !elem_of_app, !elem_of_cons, elem_of_app. split.
  - intros [[|?%seg_elem]|[|[?%seg_elem|]]]; simplify_eq; auto; congruence.
  - intros [[|[|]]|]; simplify_eq; auto. congruence.
Qed.

Lemma placed_vacant b : off <= b < off + aligned -> owner_at before b = None.
Proof.
  destruct placed_split as (Tpre & Hk & _ & Tpost). intros Hb. unfold off in Hb. unfold before.
  rewrite owner_at_app. simpl. rewrite (covers_free _ f) by done.
  rewrite (owner_at_outside 0 false pre) by (done || lia). apply (owner_at_outside _ _ _ _ Tpost). lia.
Qed.

Lemma placed_owner b :
  owner_at after b = if (off <=? b) && (b <? off + aligned)
                     then Some (aq_alloc_id req, aq_alloc_generation req) else owner_at before b.
Proof.
  destruct placed_split as (Tpre & Hk & _ & _). unfold after, before.
  rewrite !owner_at_app, owner_at_seg. simpl. rewrite (covers_free _ f) by done. unfold covers. simpl.
  rewrite owner_at_app, owner_at_seg.
  destruct ((off <=? b) && (b <? off + aligned)) eqn:Hb; [|by destruct (owner_at pre b)].
  zbool. unfold off in *. rewrite (owner_at_outside 0 false pre) by (done || lia). done.
Qed.
End placed.

(** ** The chosen slot *)

Section place.
Context (a : RegionAllocator) (req : AllocRequest) (aligned front : Z) (slot : FreeSlot).
Context (Hwf : ra_wf a) (Hslot : slot ∈ ra_free_slots a).
Context (Hfront : 0 <= front) (Haligned : 0 < aligned) (Hfit : front + aligned <= fs_size slot).
Let off := fs_offset slot + front.
Context (Halign : in_u64 (aq_alignment req) /\ is_pow2 (aq_alignment req) = true
                  /\ off mod aq_alignment req = 0).
Context (Hid : ra_alloc_offset a !! aq_alloc_id req = None).

(** The region list and the index around the slot; nothing overflows. *)
Lemma slot_split :
  exists pre frec post,
    ra_regions a = pre ++ (fs_offset slot, frec) :: post
    /\ ri_live frec = false /\ ri_size frec = fs_size slot
    /\ (tiled 0 false pre /\ tend 0 pre = fs_offset slot /\ pend false pre = false)
    /\ tiled (fs_offset slot + fs_size slot) true post
    /\ (keys_lt (fs_offset slot) pre /\ keys_gt (fs_offset slot) post)
    /\ indexed (pre ++ post) (os_erase slot (ra_free_slots a))
    /\ (0 <= fs_offset slot /\ fs_offset slot + fs_size slot < U64)
    /\ (0 <= ra_live_bytes a /\ ra_live_bytes a + aligned < U64)
    /\ 0 <= ra_live_count a /\ ra_live_count a + 1 < U64.
Proof.
  pose proof Hslot as Hin. destruct (wf_indexed _ Hwf) as [_ Hperm].
  rewrite Hperm in Hin. apply free_slots_of_elem in Hin as (frec & Hin & Hfree & Hsize).
  destruct (ra_wf_split _ _ _ Hwf Hin) as
    (pre & post & E & Tpre & Epre & _ & _ & Hp & _ & Tpost & _ & Klt & Kgt).
  destruct (ra_wf_bounds _ _ _ Hwf Hin) as (_ & Hk0 & _ & Hkc & Hc).
  pose proof (ra_wf_live_bytes _ Hwf) as Hlb. pose proof (wf_live_count _ Hwf) as Hlc.
  pose proof (wf_live_bytes _ Hwf) as Hls. rewrite E in Hlc, Hls. autorewrite with gms_rw in Hlc, Hls.
  pose proof (live_sum_bounds _ _ _ Tpre). pose proof (live_sum_bounds _ _ _ Tpost).
  pose proof (proj2 (wf_cap _ Hwf)). pose proof (wf_end _ Hwf) as Te. rewrite E, tend_app, Epre in Te. simpl in Te.
  rewrite Hfree, Hsize in *. exists pre, frec, post. split_and!; try done; try lia.
  - destruct (pend false pre); [by rewrite Hp in *|done].
  - replace slot with (mk_slot (ri_size frec) (fs_offset slot)) by (destruct slot; simpl in *; congruence).
    eapply indexed_erase; [by apply (wf_indexed _ Hwf)|done|]. rewrite E. simpl. solve_Permutation.
Qed.

(** Everything [place] does, stated on the split of the region list at the slot. *)
Lemma place_layout :
  exists pre frec post n1 n2 n3 prov a',
    ra_regions a = pre ++ (fs_offset slot, frec) :: post
    /\ ri_live frec = false /\ ri_size frec = fs_size slot
    /\ place req aligned slot front a = Some (a', Ok (live_region off aligned n2 req))
    /\ ra_regions a' = (pre ++ free_seg (fs_offset slot) front n1 prov)
         ++ (off, live_region off aligned n2 req)
         :: free_seg (off + aligned) (fs_size slot - front - aligned) n3 prov ++ post
    /\ indexed (ra_regions a') (ra_free_slots a')
    /\ ra_capacity a' = ra_capacity a
    /\ ra_live_bytes a' = ra_live_bytes a + aligned
    /\ ra_live_count a' = ra_live_count a + 1
    /\ ra_alloc_offset a' = <[aq_alloc_id req := off]> (ra_alloc_offset a)
    /\ ra_summary_dirty a' = true.
Proof.
  destruct slot_split as (pre & frec & post & E & Hfree & Hsize & (Tpre & Epre & Hpf) & Tpost & [Klt Kgt]
    & Hix & [Hk0 Hkc] & [Hl0 Hlb] & Hn0 & Hlc).
  assert (Hoff : add64 (fs_offset slot) front = off) by (apply add64_small; lia).
  assert (Hend : add64 off aligned = off + aligned) by (apply add64_small; unfold off; lia).
  unfold place. rewrite Hoff, Hend.
  rewrite (sub64_small (fs_size slot) front) by lia.
  rewrite (sub64_small (fs_size slot - front) aligned) by lia.
  rewrite E, om_find_mid, om_erase_mid by done. cbv zeta.
  set (a1 := ra_with_slots _ _).
  destruct (maybe_add_free_spec a1 (fs_offset slot) front (ri_provenance frec) pre post)
    as (E2 & I2 & B2); [done..|].
  set (a2 := if front >? 0 then _ else _) in *. clearbody a2.
  set (a4 := ra_with_regions _ (ra_with_next_region_id _ a2)).
  set (n2 := ra_next_region_id a2) in *.
  assert (Klt2 : keys_lt off (pre ++ free_seg (fs_offset slot) front (ra_next_region_id a1)
                                       (ri_provenance frec))).
  { eapply (tiled_keys_lt 0 false).
    - rewrite tiled_app, Epre. split; [done|]. by apply tiled_seg.
    - rewrite tend_app, Epre, tend_seg by lia. unfold off. lia. }
  assert (Kgt2 : keys_gt off post) by (eapply tiled_keys_gt; [done|lia]).
  assert (E4 : ra_regions a4 = (pre ++ free_seg (fs_offset slot) front (ra_next_region_id a1)
                                        (ri_provenance frec))
                 ++ (off, live_region off aligned n2 req) :: post).
  { unfold a4; simpl. rewrite E2, app_assoc. by apply om_emplace_mid. }
  assert (I4 : indexed (ra_regions a4) (ra_free_slots a4)).
  { rewrite E4. apply (indexed_add_live (ra_regions a2) _ _ off (live_region off aligned n2 req));
      [done..|].
    rewrite E2. solve_Permutation. }
  destruct (maybe_add_free_spec a4 (off + aligned) (fs_size slot - front - aligned)
              (ri_provenance frec)
              ((pre ++ free_seg (fs_offset slot) front (ra_next_region_id a1) (ri_provenance frec))
                 ++ [(off, live_region off aligned n2 req)]) post) as (E5 & I5 & B5).
  { rewrite E4. by rewrite <- !app_assoc. }
  { intros Htail. split; [|eapply tiled_keys_gt; [done|lia]].
    unfold keys_lt. rewrite Forall_app. split.
    - eapply keys_lt_trans; [done|]. change (off < off + aligned). lia.
    - repeat constructor. change (off < off + aligned). lia. }
  { done. }
  set (a5 := if _ >? 0 then _ else _) in *. clearbody a5.
  destruct B2 as (C2 & L2 & N2 & O2), B5 as (C5 & L5 & N5 & O5). simpl in C5, L5, N5, O5.
  eexists pre, frec, post, _, n2, _, (ri_provenance frec), _.
  split_and!; try done; simpl.
  - rewrite E5. by rewrite <- !app_assoc.
  - by rewrite C5, C2.
  - rewrite L5, L2. apply add64_small. simpl. lia.
  - rewrite N5, N2. apply add64_small. simpl. lia.
  - by rewrite O5, O2.
Qed.

(** The result is well formed, and the allocation owns exactly its interval. *)
Lemma place_ok :
  exists a' r,
    place req aligned slot front a = Some (a', Ok r)
    /\ ra_wf a' /\ ra_capacity a' = ra_capacity a
    /\ ri_offset r = off /\ ri_size r = aligned /\ (off, r) ∈ ra_regions a'
    /\ r = live_region off aligned (id_value (ri_region_id r)) req
    /\ ra_alloc_offset a' = <[aq_alloc_id req := off]> (ra_alloc_offset a)
    /\ (forall k r', ri_live r' = true ->
          (k, r') ∈ ra_regions a' <-> (k, r') ∈ ra_regions a \/ (k, r') = (off, r))
    /\ (forall b, owner_at (ra_regions a') b =
          if (off <=? b) && (b <? off + aligned)
          then Some (aq_alloc_id req, aq_alloc_generation req) else owner_at (ra_regions a) b)
    /\ (forall b, off <= b < off + aligned -> owner_at (ra_regions a) b = None)
    /\ ra_live_bytes a' = ra_live_bytes a + aligned.
Proof.
  destruct place_layout as (pre & frec & post & n1 & n2 & n3 & prov & a' & E & Hfree & Hsize
    & Hplace & E' & Hix & Hcap & Hlb & Hlc & Ho' & Hdirty).
  exists a', (live_region off aligned n2 req). rewrite <- Hsize in E', Hfit.
  pose proof (wf_tiled _ Hwf) as T. rewrite E in T. destruct Halign as (Hal & Hp2 & Hmod).
  pose proof (placed_tiled pre post _ frec prov req front aligned n1 n2 n3 T Hfree Hfront Haligned Hfit
    Hal Hp2 Hmod) as Tnew.
  pose proof (placed_end pre post _ frec prov req front aligned n1 n2 n3 T Hfree Hfront Hfit) as Tend.
  destruct (placed_sums pre post (fs_offset slot) frec prov req front aligned n1 n2 n3 Hfree) as [Ss Sc].
  pose proof (fun b => placed_owner pre post _ frec prov req front aligned n1 n2 n3 T Hfree Hfront b) as Hown.
  pose proof (fun k r' => placed_live pre post (fs_offset slot) frec prov req front aligned n1 n2 n3 Hfree k r') as Hlive.
  pose proof (placed_vacant pre post _ frec front aligned T Hfree Hfront Hfit) as Hvac.
  fold off in Tnew, Tend, Ss, Sc, Hown, Hlive, Hvac. rewrite <- E' in Tnew, Tend, Ss, Sc, Hown, Hlive.
  rewrite <- E in Tend, Ss, Sc, Hown, Hlive, Hvac.
  split_and!; try done; [|apply Hlive; auto].
  constructor; rewrite ?Hcap, ?Hlb, ?Hlc; try done.
  - apply (wf_cap _ Hwf).
  - by rewrite Tend, (wf_end _ Hwf).
  - by rewrite Ss, (wf_live_bytes _ Hwf).
  - by rewrite Sc, (wf_live_count _ Hwf).
  - rewrite Ho'. eapply offsets_ok_live_ext;
      [|by apply (offsets_ok_insert _ _ _ off (live_region off aligned n2 req) (wf_offsets _ Hwf))].
    intros k r' Hr'. rewrite Hlive, elem_of_cons by done. tauto.
  - unfold summary_ok. by rewrite Hdirty.
Qed.
End place.

(** ** The search *)

Definition slot_in (cap : Z) (s : FreeSlot) : Prop :=
  0 <= fs_offset s /\ 0 < fs_size s /\ fs_offset s + fs_size s <= cap.

(** [p] is an aligned placement of [n] bytes in slot [s]. *)
Definition fits (n alignment : Z) (s : FreeSlot) (p : Z) : Prop :=
  fs_offset s <= p /\ p mod alignment = 0 /\ p + n <= fs_offset s + fs_size s.

Lemma ra_wf_slot_in a s : ra_wf a -> s ∈ ra_free_slots a -> slot_in (ra_capacity a) s.
Proof.
  intros Hwf Hin. destruct (wf_indexed _ Hwf) as [_ Hperm]. rewrite Hperm in Hin.
  apply free_slots_of_elem in Hin as (r & Hin & _ & Hs).
  destruct (ra_wf_bounds _ _ _ Hwf Hin) as (_ & ? & ? & ? & ?). unfold slot_in. lia.
Qed.

(** The loop's test is exact: a skipped slot has no aligned placement, a chosen one
    is used at its first. *)
Lemma slot_test cap aligned alignment s :
  slot_in cap s -> cap < U64 -> 0 < aligned -> in_u64 alignment -> is_pow2 alignment = true ->
  let front := sub64 (ra_align_up (fs_offset s) alignment) (fs_offset s) in
  if (front >? fs_size s) || (aligned >? sub64 (fs_size s) front)
  then forall p, ~ fits aligned alignment s p
  else 0 <= front /\ front + aligned <= fs_size s
       /\ (fs_offset s + front) mod alignment = 0
       /\ forall p, fits aligned alignment s p -> fs_offset s + front <= p.
Proof.
  intros (H0 & Hs & Hc) Hcap Ha Hal Hp2 front.
  assert (Hu : in_u64 (fs_offset s)) by (unfold in_u64; lia).
  destruct (ra_align_up_cases (fs_offset s) alignment Hu Hal Hp2) as [[E Hov]|(Hb & Hm & Hlt & Hov)].
  - (* the aligned offset is not representable: no aligned point below 2^64 *)
    assert (Hnofit : forall p, ~ fits aligned alignment s p).
    { intros p (Hp1 & Hp & Hp3). apply is_pow2_spec in Hp2 as (n & Hn & ->); [|done].
      apply Z.mod_divide in Hp as [q Hq]; [|apply Z.pow_nonzero; lia].
      assert (Hdiv : U64 = 2 ^ (64 - n) * 2 ^ n).
      { unfold U64. rewrite <- Z.pow_add_r by lia. f_equal. lia. }
      assert (Hpow : 0 < 2 ^ n) by (apply Z.pow_pos_nonneg; lia). subst p.
      assert (q < 2 ^ (64 - n)) by (apply (Z.mul_lt_mono_pos_r (2 ^ n)); lia).
      assert (2 ^ (64 - n) - 1 < q) by (apply (Z.mul_lt_mono_pos_r (2 ^ n)); lia). lia. }
    assert (0 < fs_offset s) by (unfold in_u64 in Hal; destruct (Z.eq_dec (fs_offset s) 0); lia).
    assert (Hf : front = U64 - fs_offset s).
    { unfold front. rewrite E. rewrite sub64_wrap by lia. lia. }
    assert ((front >? fs_size s) = true) as ->.
    { rewrite Z.gtb_ltb. apply Z.ltb_lt. lia. }
    done.
  - assert (Hf : front = ra_align_up (fs_offset s) alignment - fs_offset s).
    { unfold front. apply sub64_small. unfold in_u64 in *. lia. }
    assert (Hleast : forall p, fits aligned alignment s p -> fs_offset s + front <= p).
    { intros p (Hp1 & Hp & _). rewrite Hf.
      pose proof (ra_align_up_least _ _ p Hu Hal Hp2 Hp1 Hp Hov). lia. }
    destruct (Z.gtb_spec front (fs_size s)); simpl.
    { intros p Hp. pose proof (Hleast p Hp). destruct Hp as (_ & _ & Hp). lia. }
    rewrite sub64_small by (unfold in_u64 in *; lia).
    destruct (Z.gtb_spec aligned (fs_size s - front)).
    { intros p Hp. pose proof (Hleast p Hp). destruct Hp as (_ & _ & Hp). lia. }
    split_and!; [lia..| |done]. rewrite Hf. by replace (fs_offset s + _) with
      (ra_align_up (fs_offset s) alignment) by lia.
Qed.

Section search.
Context (cap aligned alignment : Z).
Context (Hcap : cap < U64) (Haligned : 0 < aligned).
Context (Hal : in_u64 alignment) (Hp2 : is_pow2 alignment = true).

Lemma find_slot_Some slots s front :
  Forall (slot_in cap) slots -> find_slot aligned alignment slots = Some (s, front) ->
  0 <= front /\ front + aligned <= fs_size s /\ (fs_offset s + front) mod alignment = 0
  /\ exists skipped rest, slots = skipped ++ s :: rest
       /\ Forall (fun x => forall p, ~ fits aligned alignment x p) skipped.
Proof.
  induction 1 as [|x slots Hx _ IH]; simpl; [done|].
  pose proof (slot_test cap aligned alignment x Hx Hcap Haligned Hal Hp2) as Ht. simpl in Ht.
  destruct ((_ >? fs_size x) || _).
  - intros (? & ? & ? & skipped & rest & -> & Hall)%IH. split_and!; auto.
    exists (x :: skipped), rest. split; [done|]. by constructor.
  - intros [= <- <-]. destruct Ht as (? & ? & ? & _). split_and!; auto.
    exists [], slots. split; [done|constructor].
Qed.

Lemma find_slot_None slots s p :
  Forall (slot_in cap) slots -> find_slot aligned alignment slots = None ->
  s ∈ slots -> ~ fits aligned alignment s p.
Proof.
  induction 1 as [|x slots Hx _ IH]; simpl; [by intros _ ?%not_elem_of_nil|].
  pose proof (slot_test cap aligned alignment x Hx Hcap Haligned Hal Hp2) as Ht. simpl in Ht.
  destruct ((_ >? fs_size x) || _); [|done].
  intros Hn [->|Hin]%elem_of_cons; [apply Ht|by apply IH].
Qed.

(** Slots before [lower_bound(FreeSlot{aligned, 0})] are too small. *)
Lemma lower_bound_fits slots s p :
  os_ok slots -> Forall (slot_in cap) slots -> s ∈ slots -> fits aligned alignment s p ->
  s ∈ os_lower_bound (mk_slot aligned 0) slots.
Proof.
  intros Hok Hin Hs Hfit. destruct (os_lower_bound_split (mk_slot aligned 0) slots Hok)
    as (small & E & Hsmall & _). rewrite E in Hs. apply elem_of_app in Hs as [Hs|]; [|done].
  exfalso. eapply Forall_forall in Hsmall; [|done].
  assert (Hsin : slot_in cap s).
  { eapply Forall_forall; [done|]. rewrite E. set_solver. }
  destruct Hfit as (? & _ & ?), Hsin as (? & ? & ?).
  change (fs_size s < aligned \/ fs_size s = aligned /\ fs_offset s < 0) in Hsmall. lia.
Qed.

(** The slot chosen is a best fit: no smaller free region could hold the request. *)
Lemma find_slot_best slots s front x p :
  os_ok slots -> Forall (slot_in cap) slots ->
  find_slot aligned alignment (os_lower_bound (mk_slot aligned 0) slots) = Some (s, front) ->
  x ∈ slots -> fits aligned alignment x p -> fs_size s <= fs_size x.
Proof.
  intros Hok Hin Hf Hx Hfit. pose proof (lower_bound_fits _ _ _ Hok Hin Hx Hfit) as Hx'.
  destruct (os_lower_bound_split (mk_slot aligned 0) slots Hok) as (small & E & _ & _).
  assert (Hok' : os_ok (os_lower_bound (mk_slot aligned 0) slots)).
  { unfold os_ok in *. rewrite E in Hok. by apply StronglySorted_app in Hok as (_ & _ & ?). }
  apply find_slot_Some in Hf as (_ & _ & _ & skipped & rest & E' & Hskip).
  2: { rewrite E in Hin. by apply Forall_app in Hin as [_ ?]. }
  rewrite E' in Hx', Hok'. apply elem_of_app in Hx' as [Hx'|[->|Hx']%elem_of_cons].
  - eapply Forall_forall in Hskip; [|done]. by apply Hskip in Hfit.
  - lia.
  - apply StronglySorted_app in Hok' as (_ & _ & Hr). apply StronglySorted_inv in Hr as [_ Hr].
    eapply Forall_forall in Hr; [|done].
    change (fs_size s < fs_size x \/ fs_size s = fs_size x /\ fs_offset s < fs_offset x) in Hr. lia.
Qed.
End search.

(** ** The whole call *)

(** The bytes a request occupies. *)
Definition footprint (req : AllocRequest) : Z := round_up (aq_bytes req) (aq_alignment req).

(** Some aligned interval of unowned bytes can hold the request: what a byte-level
    specification of the arena can offer. *)
Definition placeable (req : AllocRequest) (a : RegionAllocator) : Prop :=
  exists p, 0 <= p /\ p mod aq_alignment req = 0 /\ p + footprint req <= ra_capacity a
    /\ forall b, p <= b < p + footprint req -> owner_at (ra_regions a) b = None.

(** The reason a refused request gets. *)
Definition refusal (req : AllocRequest) (a : RegionAllocator) : RejectReason.t :=
  if aq_bytes req =? 0 then RejectReason.ZERO_BYTES
  else if aq_alignment req =? 0 then RejectReason.IMPOSSIBLE_ALIGNMENT
  else if negb (is_pow2 (aq_alignment req)) then RejectReason.NON_POWER_OF_TWO_ALIGNMENT
  else if (aq_bytes req <=? ra_capacity a) && (U64 <=? footprint req) then RejectReason.SIZE_OVERFLOW
  else if free_bytes a <? footprint req then RejectReason.INSUFFICIENT_TOTAL_CAPACITY
  else RejectReason.INSUFFICIENT_CONTIGUOUS_CAPACITY.

Definition request_ok (req : AllocRequest) (a : RegionAllocator) : Prop :=
  in_u64 (aq_bytes req) /\ in_u64 (aq_alignment req)
  /\ ra_alloc_offset a !! aq_alloc_id req = None.

Section allocate.
Context (a : RegionAllocator) (req : AllocRequest).
Context (Hwf : ra_wf a) (Hreq : request_ok req a).

Lemma slots_in : Forall (slot_in (ra_capacity a)) (ra_free_slots a).
Proof. apply Forall_forall. intros s. by apply ra_wf_slot_in. Qed.

Lemma slots_in_lower_bound s : Forall (slot_in (ra_capacity a)) (os_lower_bound s (ra_free_slots a)).
Proof.
  pose proof slots_in as Hin. destruct (os_lower_bound_split s _ (proj1 (wf_indexed _ Hwf)))
    as (s1 & E & _). rewrite E in Hin. by apply Forall_app in Hin as [_ ?].
Qed.

(** When the search fails there is no aligned run of unowned bytes. *)
Lemma search_complete :
  0 < footprint req -> is_pow2 (aq_alignment req) = true ->
  find_slot (footprint req) (aq_alignment req)
    (os_lower_bound (mk_slot (footprint req) 0) (ra_free_slots a)) = None ->
  ~ placeable req a.
Proof.
  intros Hfp Hp2 Hnone (p & Hp0 & Hpm & Hpc & Hfree).
  destruct Hreq as (_ & Hal & _).
  destruct (free_run_in_region 0 false (ra_regions a) p (footprint req)) as
    (pre & k & r & post & E & Hr & Hk & Hkr); auto.
  { apply (wf_tiled _ Hwf). }
  { by rewrite (wf_end _ Hwf). }
  pose (s := mk_slot (ri_size r) k).
  assert (Hs : s ∈ ra_free_slots a).
  { destruct (wf_indexed _ Hwf) as [_ ->]. apply free_slots_of_elem. exists r.
    split_and!; [rewrite E; set_solver|done..]. }
  assert (Hfit : fits (footprint req) (aq_alignment req) s p) by done.
  pose proof (proj2 (wf_cap _ Hwf)) as Hcap.
  pose proof (lower_bound_fits (ra_capacity a) _ _ Hcap Hfp Hal Hp2 _ s p (proj1 (wf_indexed _ Hwf)) slots_in Hs Hfit)
    as Hlb.
  by apply (find_slot_None (ra_capacity a) _ _ Hcap Hfp Hal Hp2 _ s p
              (slots_in_lower_bound _) Hnone Hlb).
Qed.

Lemma not_placeable_large : ra_capacity a < footprint req -> ~ placeable req a.
Proof. intros ? (p & ? & _ & ? & _). lia. Qed.

Lemma no_room_not_placeable : free_bytes a < footprint req -> 0 < footprint req -> ~ placeable req a.
Proof.
  intros Hlt Hfp (p & Hp0 & Hpm & Hpc & Hfree).
  destruct (free_run_in_region 0 false (ra_regions a) p (footprint req)) as
    (pre & k & r & post & E & Hr & Hk & Hkr); auto.
  { apply (wf_tiled _ Hwf). }
  { by rewrite (wf_end _ Hwf). }
  rewrite ra_wf_free_bytes, (wf_live_bytes _ Hwf) in Hlt by done.
  pose proof (wf_tiled _ Hwf) as T. pose proof (wf_end _ Hwf) as Te. rewrite E in T, Te, Hlt.
  rewrite tend_app in Te. apply tiled_app in T as [Tpre (Hk' & _ & _ & _ & _ & Tpost)].
  simpl in Te. autorewrite with gms_rw in Hlt. rewrite Hr in Hlt.
  pose proof (live_sum_bounds _ _ _ Tpre). pose proof (live_sum_bounds _ _ _ Tpost). lia.
Qed.

(** What an region_granted request leaves behind: the region returned, where it lies, and the books of the arena
    with it in. *)
Definition region_granted (a' : RegionAllocator) (r : RegionInfo) : Prop :=
  0 < aq_bytes req /\ is_pow2 (aq_alignment req) = true /\ placeable req a
  /\ ra_wf a' /\ ra_capacity a' = ra_capacity a
  /\ 0 <= ri_offset r /\ ri_offset r mod aq_alignment req = 0
  /\ ri_size r = footprint req /\ ri_offset r + ri_size r <= ra_capacity a
  /\ (ri_offset r, r) ∈ ra_regions a'
  /\ r = live_region (ri_offset r) (ri_size r) (id_value (ri_region_id r)) req
  /\ ra_alloc_offset a' = <[aq_alloc_id req := ri_offset r]> (ra_alloc_offset a)
  /\ (forall k r', ri_live r' = true ->
        (k, r') ∈ ra_regions a' <-> (k, r') ∈ ra_regions a \/ (k, r') = (ri_offset r, r))
  /\ (forall b, owner_at (ra_regions a') b =
        if (ri_offset r <=? b) && (b <? ri_offset r + ri_size r)
        then Some (aq_alloc_id req, aq_alloc_generation req) else owner_at (ra_regions a) b)
  /\ (forall b, ri_offset r <= b < ri_offset r + ri_size r -> owner_at (ra_regions a) b = None)
  /\ (forall s p, s ∈ ra_free_slots a -> fits (footprint req) (aq_alignment req) s p ->
        exists s', s' ∈ ra_free_slots a /\ fs_size s' <= fs_size s
          /\ fs_offset s' <= ri_offset r
          /\ ri_offset r + ri_size r <= fs_offset s' + fs_size s')
  /\ ra_live_bytes a' = ra_live_bytes a + ri_size r.

(** The slot the search finds takes the request, and is the best that could. *)
Lemma found_slot_granted slot front :
  0 < aq_bytes req -> is_pow2 (aq_alignment req) = true ->
  aq_bytes req <= footprint req <= ra_capacity a ->
  find_slot (footprint req) (aq_alignment req)
    (os_lower_bound (mk_slot (footprint req) 0) (ra_free_slots a)) = Some (slot, front) ->
  exists a' r, place req (footprint req) slot front a = Some (a', Ok r) /\ region_granted a' r.
Proof.
  intros Hbpos Hp2 [Hfp Hcapf] Hfind. destruct Hreq as (Hb & Hal & Hid). pose proof (wf_cap _ Hwf) as Hcap.
  assert (Hf0 : 0 < footprint req) by lia.
  destruct (find_slot_Some (ra_capacity a) (footprint req) (aq_alignment req) (proj2 Hcap) Hf0
              Hal Hp2 _ _ _ (slots_in_lower_bound _) Hfind)
    as (Hfr0 & Hfit & Hmod & skipped & rest & Hsk & _).
  assert (Hslot : slot ∈ ra_free_slots a).
  { destruct (os_lower_bound_split (mk_slot (footprint req) 0) _ (proj1 (wf_indexed _ Hwf)))
      as (s1 & E & _). rewrite E, Hsk. set_solver. }
  pose proof (ra_wf_slot_in _ _ Hwf Hslot) as (Hs0 & _ & Hsc).
  destruct (place_ok a req (footprint req) front slot Hwf Hslot Hfr0 Hf0 Hfit
              (conj Hal (conj Hp2 Hmod)) Hid)
    as (a' & r & E & Hwf' & Hc' & Ho & Hs & Hin & Hr & Hoff & Hlive & Hown & Hfree & Hlb').
  exists a', r. unfold region_granted. rewrite <- Ho, <- Hs in *. split; [done|].
  split_and!; auto; try lia; try congruence.
  - exists (ri_offset r). rewrite <- Hs in *. split_and!; auto; lia.
  - intros s p Hin' Hp. exists slot. split_and!; auto; try lia.
    apply (find_slot_best (ra_capacity a) (ri_size r) (aq_alignment req) (proj2 Hcap) Hf0
             Hal Hp2 _ _ _ _ _ (proj1 (wf_indexed _ Hwf)) slots_in Hfind Hin' Hp).
Qed.

(** The result of the call: success with everything [place_ok] gives, or a refusal
    that changes nothing, when no placement exists. *)
Lemma allocate_cases :
  exists a' res, allocate req a = Some (a', res) /\
  match res with
  | Err f => a' = a /\ reason f = refusal req a
      /\ (0 < aq_bytes req -> is_pow2 (aq_alignment req) = true -> ~ placeable req a)
  | Ok r => region_granted a' r
  end.
Proof.
  destruct Hreq as (Hb & Hal & Hid). pose proof (wf_cap _ Hwf) as Hcap.
  pose proof (ra_wf_live_bytes _ Hwf) as Hlb. pose proof (ra_wf_free_bytes _ Hwf) as Hfb.
  unfold allocate, refusal.
  destruct (Z.eqb_spec (aq_bytes req) 0) as [E0|Hb0].
  { eexists _, _. split; [done|]. simpl. split_and!; [done..|lia]. }
  destruct (Z.eqb_spec (aq_alignment req) 0) as [E0|Ha0]; simpl.
  { eexists _, _. split; [done|]. simpl. split_and!; [done..|]. by rewrite E0. }
  destruct (is_pow2 (aq_alignment req)) eqn:Hp2; simpl.
  2: { eexists _, _. split; [done|]. by simpl. }
  pose proof (is_pow2_pos _ Hal Hp2) as Hapos.
  pose proof (round_up_bounds (aq_bytes req) _ Hapos) as Hfp. fold (footprint req) in Hfp.
  assert (Hbpos : 0 < aq_bytes req) by (unfold in_u64 in Hb; lia).
  rewrite (ra_align_up_round _ _ Hb Hal Hp2). fold (footprint req).
  destruct (Z.gtb_spec (aq_bytes req) (ra_capacity a)) as [Hbig|Hbig].
  { eexists _, _. split; [done|]. simpl. split_and!; [done| |].
    - rewrite (proj2 (Z.leb_gt _ _)) by lia. simpl. by rewrite (proj2 (Z.ltb_lt _ _)) by lia.
    - intros _ _. apply not_placeable_large. lia. }
  rewrite (proj2 (Z.leb_le (aq_bytes req) _)) by lia. simpl.
  destruct (Z.ltb_spec (footprint req) U64) as [Hov|Hov]; simpl.
  2: { eexists _, _. split; [done|]. simpl. split_and!; [done| |].
       - by rewrite (proj2 (Z.leb_le U64 _)) by lia.
       - intros _ _. apply not_placeable_large. lia. }
  rewrite (proj2 (Z.leb_gt U64 _)), (proj2 (Z.eqb_neq (footprint req) 0)),
    (proj2 (Z.ltb_ge (footprint req) (aq_bytes req))) by lia. simpl.
  destruct (Z.gtb_spec (footprint req) (ra_capacity a)) as [Hcapf|Hcapf].
  { eexists _, _. split; [done|]. simpl. split_and!; [done| |].
    - by rewrite (proj2 (Z.ltb_lt _ _)) by lia.
    - intros _ _. by apply not_placeable_large. }
  destruct (find_slot _ _ _) as [[slot front]|] eqn:Hfind.
  - destruct (found_slot_granted slot front) as (a' & r & -> & Hg); [done|done|lia|done|].
    by exists a', (Ok r).
  - destruct (Z.ltb_spec (free_bytes a) (footprint req)).
    + eexists _, _. split; [done|]. simpl. split_and!; [done..|]. intros _ _.
      apply no_room_not_placeable; lia.
    + eexists _, _. split; [done|]. simpl. split_and!; [done..|]. intros _ _.
      apply search_complete; auto; lia.
Qed.
End allocate.
