(* ===== verification/RegionFree.v ===== *)
(** [RegionAllocator::free] and [canonicalize_free]: the merge with the free
    neighbours, the invariant, and what the call does to byte ownership. *)
From S2P Require Import Prelude Words Ordered Types Floats Region RegionInv RegionAlloc.
Open Scope Z_scope.

(** ** The two merges, on lists *)

(** [merged_left pre off lo pre']: the free region of [pre] that ends at [off], if
    any, has been taken off [pre], and [lo] is the lower end of the merged interval. *)
Definition merged_left (pre : omap Z RegionInfo) (off lo : Z) (pre' : omap Z RegionInfo) : Prop :=
  (pre' = pre /\ lo = off
   /\ forall l k r, pre = l ++ [(k, r)] -> ri_live r = false -> k + ri_size r <> off)
  \/ exists r, pre = pre' ++ [(lo, r)] /\ ri_live r = false /\ lo + ri_size r = off.

(** [merged_right post hi0 hi post']: likewise for the free region that starts at [hi0]. *)
Definition merged_right (post : omap Z RegionInfo) (hi0 hi : Z) (post' : omap Z RegionInfo) : Prop :=
  (post' = post /\ hi = hi0
   /\ forall l k r, post = (k, r) :: l -> ri_live r = false -> k <> hi0)
  \/ exists r, post = (hi0, r) :: post' /\ ri_live r = false /\ hi = hi0 + ri_size r.

Lemma merged_left_owner pre off lo pre' b :
  merged_left pre off lo pre' -> owner_at pre' b = owner_at pre b.
Proof.
  intros [(-> & _)|(r & -> & Hr & _)]; [done|]. rewrite owner_at_app; simpl.
  rewrite covers_free by done. by destruct (owner_at pre' b).
Qed.

Lemma merged_right_owner post hi0 hi post' b :
  merged_right post hi0 hi post' -> owner_at post' b = owner_at post b.
Proof.
  intros [(-> & _)|(r & -> & Hr & _)]; [done|]. simpl. by rewrite covers_free.
Qed.

Lemma merged_left_live pre off lo pre' k r :
  merged_left pre off lo pre' -> ri_live r = true -> (k, r) ∈ pre' <-> (k, r) ∈ pre.
Proof.
  intros [(-> & _)|(r0 & -> & Hr & _)] Hl; [done|]. rewrite elem_of_app, list_elem_of_singleton.
  naive_solver congruence.
Qed.

Lemma merged_right_live post hi0 hi post' k r :
  merged_right post hi0 hi post' -> ri_live r = true -> (k, r) ∈ post' <-> (k, r) ∈ post.
Proof.
  intros [(-> & _)|(r0 & -> & Hr & _)] Hl; [done|]. rewrite elem_of_cons.
  naive_solver congruence.
Qed.

Lemma merged_left_sums pre off lo pre' :
  merged_left pre off lo pre' -> live_sum pre' = live_sum pre /\ live_cnt pre' = live_cnt pre.
Proof.
  intros [(-> & _)|(r & -> & Hr & _)]; [done|]. autorewrite with gms_rw. rewrite Hr. lia.
Qed.

Lemma merged_right_sums post hi0 hi post' :
  merged_right post hi0 hi post' -> live_sum post' = live_sum post /\ live_cnt post' = live_cnt post.
Proof.
  intros [(-> & _)|(r & -> & Hr & _)]; [done|]. autorewrite with gms_rw. rewrite Hr. lia.
Qed.

(** The merged lists still tile, and no free region is left next to the interval. *)
Lemma merged_left_tiled pre off lo pre' :
  merged_left pre off lo pre' -> tiled 0 false pre -> tend 0 pre = off ->
  tiled 0 false pre' /\ tend 0 pre' = lo /\ pend false pre' = false /\ lo <= off.
Proof.
  intros [(-> & -> & Hno)|(r & -> & Hr & Hlo)] T E.
  - split_and!; auto; [|lia]. destruct (snoc_cases pre) as [->|(l & [k r] & ->)]; [done|].
    rewrite pend_snoc. destruct (ri_live r) eqn:Hr; [done|]. exfalso.
    apply (Hno l k r); auto. apply tiled_app in T as [_ (Hk & _)].
    rewrite tend_snoc in E. lia.
  - apply tiled_app in T as [T (Hk & _ & Hs & Hp & _)]. rewrite tend_snoc in E.
    split_and!; auto; [|lia]. destruct (pend false pre'); [|done]. by rewrite Hp in Hr.
Qed.

Lemma merged_right_tiled post hi0 hi post' :
  merged_right post hi0 hi post' -> tiled hi0 false post ->
  tiled hi true post' /\ tend hi post' = tend hi0 post /\ hi0 <= hi.
Proof.
  intros [(-> & -> & Hno)|(r & -> & Hr & ->)] T.
  - split_and!; [|done|lia]. apply tiled_pf; [done|]. intros _ k r l' ->.
    destruct (ri_live r) eqn:Hr; [done|]. destruct T as (Hk & _).
    by destruct (Hno l' k r).
  - simpl in T. destruct T as (_ & _ & Hs & _ & _ & T). rewrite Hr in T.
    split_and!; [done|done|lia].
Qed.

(** The layout after a live region [r] at [off] has been replaced by the merged free
    region: everything the callers need to know about it. *)
Section merged_layout.
Context (pre post pre' post' : omap Z RegionInfo) (off lo hi id : Z) (r : RegionInfo).
Context (prov : Provenance.t).
Let l := pre ++ (off, r) :: post.
Let l' := pre' ++ (lo, free_region lo (hi - lo) id prov) :: post'.
Context (HL : merged_left pre off lo pre') (HR : merged_right post (off + ri_size r) hi post').
Context (T : tiled 0 false l) (Hr : ri_live r = true).

Lemma layout_split :
  tiled 0 false pre /\ tend 0 pre = off /\ 0 < ri_size r /\ tiled (off + ri_size r) false post
  /\ keys_lt off pre /\ keys_gt off post.
Proof.
  pose proof (tiled_om_ok _ _ _ T) as (_ & Hlt & Hgt)%om_ok_mid.
  apply tiled_app in T as [Tpre (Hk & _ & Hs & _ & _ & Tpost)]. rewrite Hr in Tpost.
  rewrite <- Hk in Tpost. done.
Qed.

Lemma merged_layout_tiled : tiled 0 false l' /\ tend 0 l' = tend 0 l.
Proof.
  destruct layout_split as (Tpre & Epre & Hs & Tpost & _).
  destruct (merged_left_tiled _ _ _ _ HL Tpre Epre) as (T1' & E1' & P1 & Hlo).
  destruct (merged_right_tiled _ _ _ _ HR Tpost) as (T2' & E2' & Hhi). unfold l, l'.
  rewrite tiled_app, !tend_app, E1', P1; simpl. rewrite Epre.
  replace (lo + (hi - lo)) with hi by lia. split_and!; auto; try done; lia.
Qed.

Lemma merged_layout_sums :
  live_sum l' = live_sum l - ri_size r /\ live_cnt l' = live_cnt l - 1.
Proof.
  destruct (merged_left_sums _ _ _ _ HL), (merged_right_sums _ _ _ _ HR). unfold l, l'.
  autorewrite with gms_rw. rewrite Hr; simpl. lia.
Qed.

Lemma merged_layout_live k r' :
  ri_live r' = true -> (k, r') ∈ l' <-> ((k, r') ∈ l /\ k <> off).
Proof.
  intros Hr'. destruct layout_split as (_ & _ & _ & _ & Klt & Kgt).
  assert (Hne : ((off, r') ∉ pre) /\ ((off, r') ∉ post)).
  { split; intros Hin; [eapply Forall_forall in Klt|eapply Forall_forall in Kgt];
      try exact Hin; [by apply klt_irrefl in Klt|by apply klt_irrefl in Kgt]. }
  unfold l, l'. rewrite !elem_of_app, !elem_of_cons.
  rewrite (merged_left_live _ _ _ _ k r' HL Hr'), (merged_right_live _ _ _ _ k r' HR Hr').
  split.
  - intros [Hi|[?|Hi]]; [|simplify_eq|]; (split; [by auto|]); naive_solver.
  - naive_solver.
Qed.

Lemma merged_layout_owner b :
  owner_at l' b = if (off <=? b) && (b <? off + ri_size r) then None else owner_at l b.
Proof.
  destruct layout_split as (Tpre & Epre & Hs & Tpost & _).
  unfold l, l'. rewrite !owner_at_app; simpl.
  rewrite (merged_left_owner _ _ _ _ b HL), (merged_right_owner _ _ _ _ b HR).
  unfold covers. rewrite Hr; simpl.
  destruct ((off <=? b) && (b <? off + ri_size r)) eqn:Hb; [|done]. zbool.
  rewrite (owner_at_outside 0 false pre) by (done || lia).
  apply (owner_at_outside _ _ _ _ Tpost). lia.
Qed.

Lemma merged_layout_offsets o :
  offsets_ok o l -> offsets_ok (delete (ri_alloc_id r) o) l'.
Proof.
  intros Ho. destruct layout_split as (_ & _ & _ & _ & Klt & Kgt).
  eapply (offsets_ok_live_ext _ (pre ++ post)).
  { intros k r' Hr'. rewrite merged_layout_live by done. unfold l.
    rewrite !elem_of_app, elem_of_cons. split.
    - intros [Hi|Hi]; (split; [by auto|]); intros ->.
      + eapply Forall_forall in Klt; [|done]. by apply klt_irrefl in Klt.
      + eapply Forall_forall in Kgt; [|done]. by apply klt_irrefl in Kgt.
    - naive_solver. }
  apply (offsets_ok_delete _ _ _ off r); auto.
  - eapply offsets_ok_perm; [|done]. unfold l. solve_Permutation.
  - by apply keys_split_not_elem.
Qed.
End merged_layout.

(** ** canonicalize_free *)

Section canonicalize.
Context (off size : Z).

(** The regions around the interval [off, off + size) being freed. *)
Definition around (a : RegionAllocator) (pre post : omap Z RegionInfo) : Prop :=
  ra_regions a = pre ++ post /\ om_ok (pre ++ post) /\ keys_lt off pre /\ keys_gt off post
  /\ indexed (ra_regions a) (ra_free_slots a)
  /\ (forall k r, (k, r) ∈ pre -> 0 <= k /\ 0 < ri_size r /\ k + ri_size r <= off)
  /\ (forall k r, (k, r) ∈ post ->
        off + size <= k /\ 0 < ri_size r /\ k + ri_size r <= ra_capacity a)
  /\ 0 <= off /\ 0 < size /\ off + size <= ra_capacity a /\ ra_capacity a < U64.

Lemma drop_free_spec a k r l1 l2 :
  ra_regions a = l1 ++ (k, r) :: l2 -> keys_lt k l1 -> ri_live r = false ->
  indexed (ra_regions a) (ra_free_slots a) ->
  let a' := ra_with_regions (om_erase k (ra_regions a)) (unindex_free k (ri_size r) a) in
  ra_regions a' = l1 ++ l2 /\ indexed (ra_regions a') (ra_free_slots a') /\ same_books a a'.
Proof.
  intros E Hk Hr Hix a'. assert (E' : ra_regions a' = l1 ++ l2).
  { unfold a'; simpl. rewrite E. by apply om_erase_mid. }
  split; [done|]. split; [|done]. rewrite E'. unfold a'; simpl.
  eapply indexed_erase; [done..|]. rewrite E. solve_Permutation.
Qed.

Lemma merge_prev_spec a pre post :
  around a pre post ->
  exists lo a' pre', merge_prev off a = (lo, a') /\ merged_left pre off lo pre'
    /\ around a' pre' post /\ same_books a a' /\ keys_lt lo pre' /\ 0 <= lo <= off.
Proof.
  intros Har. pose proof Har as (E & Hok & Hlt & Hgt & Hix & Hpre & Hpost & H0 & Hs & Hc & Hcap).
  pose proof (om_prev_split off pre post Hlt (keys_gt_not_lt _ _ Hgt)) as Hp.
  unfold merge_prev. rewrite E, Hp.
  assert (Hsame : (forall l k r, pre = l ++ [(k, r)] -> ri_live r = false -> k + ri_size r <> off) ->
    exists lo a' pre', (off, a) = (lo, a') /\ merged_left pre off lo pre'
    /\ around a' pre' post /\ same_books a a' /\ keys_lt lo pre' /\ 0 <= lo <= off).
  { intros Hno. exists off, a, pre. split_and!; try done; try lia. left. auto. }
  destruct (snoc_cases pre) as [->|(l & [k r] & ->)]; simpl.
  { apply Hsame. intros [] ??; done. }
  rewrite last_snoc. destruct (Hpre k r ltac:(set_solver)) as (Hk & Hrs & Hend).
  rewrite add64_small by lia.
  destruct (ri_live r) eqn:Hr; simpl.
  { apply Hsame. intros ??? [_ [= <- <-]]%app_inj_tail ?. congruence. }
  destruct (Z.eqb_spec (k + ri_size r) off) as [Heq|Hne].
  2: { apply Hsame. intros ??? [_ [= <- <-]]%app_inj_tail ?. done. }
  rewrite <- app_assoc in E, Hok. simpl in E, Hok.
  pose proof Hok as [Hok' [Hkl Hkg]]%om_ok_mid.
  destruct (drop_free_spec a k r l post E Hkl Hr Hix) as (E' & Hix' & B).
  eexists k, _, l. split; [done|]. split_and!; try done; try lia.
  - right. eauto.
  - unfold around. rewrite (proj1 B). split_and!; try done.
    + unfold keys_lt in *. rewrite Forall_app in Hlt. naive_solver.
    + intros ???. apply Hpre. set_solver.
Qed.

Lemma merge_next_spec a pre post :
  around a pre post ->
  exists hi a' post', merge_next off (off + size) a = (hi, a')
    /\ merged_right post (off + size) hi post'
    /\ around a' pre post' /\ same_books a a' /\ off + size <= hi <= ra_capacity a.
Proof.
  intros Har. pose proof Har as (E & Hok & Hlt & Hgt & Hix & Hpre & Hpost & H0 & Hs & Hc & Hcap).
  pose proof (om_lower_bound_split off pre post Hlt (keys_gt_not_lt _ _ Hgt)) as Hp.
  unfold merge_next. rewrite E, Hp.
  assert (Hsame : (forall l k r, post = (k, r) :: l -> ri_live r = false -> k <> off + size) ->
    exists hi a' post', (off + size, a) = (hi, a') /\ merged_right post (off + size) hi post'
    /\ around a' pre post' /\ same_books a a' /\ off + size <= hi <= ra_capacity a).
  { intros Hno. exists (off + size), a, post. split_and!; try done; try lia. left. auto. }
  destruct post as [|[k r] l]; simpl; [by apply Hsame|].
  destruct (Hpost k r ltac:(set_solver)) as (Hk & Hrs & Hend).
  rewrite add64_small by lia.
  destruct (ri_live r) eqn:Hr; simpl.
  { apply Hsame. intros ??? [= <- <-] ?. congruence. }
  destruct (Z.eqb_spec k (off + size)) as [->|Hne].
  2: { apply Hsame. intros ??? [= <- <-] ?. done. }
  pose proof Hok as [Hok' [Hkl Hkg]]%om_ok_mid.
  destruct (drop_free_spec a (off + size) r pre l E Hkl Hr Hix) as (E' & Hix' & B).
  eexists _, _, l. split; [done|]. split_and!; try done; try lia.
  - right. eauto.
  - unfold around. rewrite (proj1 B). split_and!; try done.
    + unfold keys_gt in *. by apply Forall_cons in Hgt as [_ ?].
    + intros ???. apply Hpost. set_solver.
Qed.

Lemma canonicalize_spec a pre post :
  around a pre post ->
  exists lo hi id pre' post' a',
    canonicalize_free off size a = (a', Ok (free_region lo (hi - lo) id Provenance.DERIVED))
    /\ merged_left pre off lo pre' /\ merged_right post (off + size) hi post'
    /\ ra_regions a' = pre' ++ (lo, free_region lo (hi - lo) id Provenance.DERIVED) :: post'
    /\ indexed (ra_regions a') (ra_free_slots a') /\ same_books a a'
    /\ ra_summary_dirty a' = true /\ lo <= off /\ off + size <= hi.
Proof.
  intros Har. pose proof Har as (_ & _ & _ & _ & _ & _ & _ & H0 & Hs & Hc & Hcap).
  unfold canonicalize_free. rewrite (proj2 (Z.eqb_neq _ _)) by lia.
  rewrite (sub64_small (ra_capacity a)) by lia. rewrite !Z.gtb_ltb.
  rewrite !(proj2 (Z.ltb_ge _ _)) by lia. simpl. rewrite add64_small by lia.
  destruct (merge_prev_spec a pre post Har)
    as (lo & a1 & pre' & -> & HL & Har1 & B1 & Hlo & Hlb).
  destruct (merge_next_spec a1 pre' post Har1) as (hi & a2 & post' & -> & HR & Har2 & B2 & Hhb).
  destruct Har2 as (E2 & Hok2 & Hlt2 & Hgt2 & Hix2 & _).
  pose proof (proj1 B1) as Bc1. rewrite Bc1 in Hhb.
  rewrite (sub64_small hi lo) by lia.
  assert (Hgt : keys_gt lo post').
  { destruct (Z.eq_dec lo off) as [->|]; [done|]. eapply keys_gt_trans; [done|].
    change (lo < off). lia. }
  destruct (add_free_spec a2 lo (hi - lo) Provenance.DERIVED pre' post' E2 Hlo Hgt Hix2)
    as (E3 & Hix3 & B3).
  eexists lo, hi, _, pre', post', _. split; [done|].
  split_and!; try done; try lia. etrans; [exact B1|]. etrans; [exact B2|]. done.
Qed.
End canonicalize.

(** ** Current handles *)

(** [r] is the live region that the handle ([id], [gen]) designates. *)
Definition held (a : RegionAllocator) (id : AllocationId) (gen : AllocationGeneration)
    (r : RegionInfo) : Prop :=
  (ri_offset r, r) ∈ ra_regions a /\ ri_live r = true
  /\ ri_alloc_id r = id /\ ri_alloc_generation r = gen.

Lemma held_lookup a id gen r :
  ra_wf a -> held a id gen r ->
  ra_alloc_offset a !! id = Some (ri_offset r) /\ om_find (ri_offset r) (ra_regions a) = Some r.
Proof.
  intros Hwf (Hin & Hl & Hid & Hg). split.
  - apply (wf_offsets _ Hwf). eauto.
  - apply om_find_elem; eauto with gms.
Qed.

Lemma held_unique a id gen gen' r r' :
  ra_wf a -> held a id gen r -> held a id gen' r' -> r = r'.
Proof.
  intros Hwf [H1 H2]%held_lookup [H3 H4]%held_lookup; [|done..].
  rewrite H1 in H3. simplify_eq. rewrite H3 in *. congruence.
Qed.

(** The common prefix of [free], [relocate], [pin], [unpin] and [get]: look the id up,
    check liveness, check the generation. *)
Lemma handle_cases a id gen :
  ra_wf a ->
  (exists r, held a id gen r /\ ra_alloc_offset a !! id = Some (ri_offset r)
     /\ om_find (ri_offset r) (ra_regions a) = Some r)
  \/ (forall r, ~ held a id gen r) /\
     (ra_alloc_offset a !! id = None \/
      exists off r, ra_alloc_offset a !! id = Some off /\ om_find off (ra_regions a) = Some r
        /\ ri_live r = true /\ ri_alloc_generation r <> gen).
Proof.
  intros Hwf. destruct (ra_alloc_offset a !! id) as [off|] eqn:Hlk.
  - destruct (ra_wf_lookup _ _ _ Hwf Hlk) as (r & Hin & Hf & Hl & Hid).
    destruct (ra_wf_bounds _ _ _ Hwf Hin) as (<- & _).
    destruct (decide (ri_alloc_generation r = gen)) as [Hg|Hg].
    + left. exists r. by split_and!.
    + right. split; [|right; eauto 10]. intros r' Hr'.
      assert (Hr : held a id (ri_alloc_generation r) r) by done.
      rewrite (held_unique _ _ _ _ _ _ Hwf Hr Hr') in Hg. by apply Hg, Hr'.
  - right. split; [|auto]. intros r Hr. destruct (held_lookup _ _ _ _ Hwf Hr). congruence.
Qed.

Lemma get_cases a id gen :
  ra_wf a ->
  match get id gen a with
  | Ok r => held a id gen r
  | Err f => reason f = RejectReason.STALE_GENERATION /\ forall r, ~ held a id gen r
  end.
Proof.
  intros Hwf. unfold get.
  destruct (handle_cases a id gen Hwf) as [(r & Hh & -> & ->)|[Hno [->|(off & r & -> & -> & -> & Hg)]]].
  - destruct Hh as (? & Hl & ? & Hg). rewrite Hl. rewrite bool_decide_true by done. by simpl.
  - by simpl.
  - rewrite bool_decide_false by done. by simpl.
Qed.

(** ** free *)

Lemma free_cases a id gen :
  ra_wf a ->
  let '(a', res) := free id gen a in
  match res with
  | Err f => a' = a /\ reason f = RejectReason.STALE_GENERATION /\ forall r, ~ held a id gen r
  | Ok f =>
      exists r, held a id gen r
      /\ ra_wf a' /\ ra_capacity a' = ra_capacity a
      /\ ra_live_bytes a' = ra_live_bytes a - ri_size r
      /\ ra_alloc_offset a' = delete id (ra_alloc_offset a)
      /\ ri_live f = false /\ (ri_offset f, f) ∈ ra_regions a'
      /\ ri_offset f <= ri_offset r /\ ri_offset r + ri_size r <= ri_offset f + ri_size f
      /\ (forall k r', ri_live r' = true ->
            (k, r') ∈ ra_regions a' <-> (k, r') ∈ ra_regions a /\ k <> ri_offset r)
      /\ (forall b, owner_at (ra_regions a') b =
            if (ri_offset r <=? b) && (b <? ri_offset r + ri_size r)
            then None else owner_at (ra_regions a) b)
  end.
Proof.
  intros Hwf. unfold free.
  destruct (handle_cases a id gen Hwf) as [(r & Hh & -> & Hf)|[Hno [->|(off & r & -> & -> & Hl & Hg)]]].
  2: by simpl.
  2: { rewrite Hl, bool_decide_false by done. by simpl. }
  rewrite Hf. pose proof Hh as (Hin & Hl & Hid & Hg).
  rewrite Hl, bool_decide_true by done; simpl.
  destruct (ra_wf_split _ _ _ Hwf Hin) as
    (pre & post & E & Tpre & Epre & Ho & Hs & Hp & _ & Tpost & Epost & Klt & Kgt).
  rewrite Hl in Tpost; simpl in Tpost.
  destruct (ra_wf_bounds _ _ _ Hwf Hin) as (_ & Hk0 & _ & Hkc & Hc).
  pose proof (ra_wf_om_ok _ Hwf) as Hok. pose proof (wf_tiled _ Hwf) as T. rewrite E in Hok, T.
  pose proof Hok as [Hok' _]%om_ok_mid.
  assert (Hsum : 0 <= ra_live_bytes a - ri_size r < U64 /\ 0 <= ra_live_count a - 1 < U64).
  { rewrite (wf_live_bytes _ Hwf), (wf_live_count _ Hwf), E. autorewrite with gms_rw.
    rewrite Hl. pose proof (live_sum_bounds _ _ _ Tpre). pose proof (live_sum_bounds _ _ _ Tpost).
    lia. }
  rewrite !sub64_small by lia.
  assert (Eer : om_erase (ri_offset r) (ra_regions a) = pre ++ post) by (rewrite E; by apply om_erase_mid).
  set (a1 := ra_with_live _ _ _).
  assert (Har : around (ri_offset r) (ri_size r) a1 pre post).
  { unfold around, a1; simpl. rewrite Eer. split_and!; auto.
    - eapply indexed_del_live; [apply (wf_indexed _ Hwf)|exact Hl|]. rewrite E. solve_Permutation.
    - intros k r' Hin'. destruct (tiled_bounds _ _ _ _ _ Tpre Hin') as (? & ? & ? & ?). lia.
    - intros k r' Hin'. destruct (tiled_bounds _ _ _ _ _ Tpost Hin') as (? & ? & ? & ?). lia. }
  destruct (canonicalize_spec _ _ a1 pre post Har) as
    (lo & hi & nid & pre' & post' & a' & -> & HL & HR & E' & Hix & B & Hd & Hlo & Hhi).
  exists r. destruct B as (Bc & Bl & Bn & Bo). simpl in Bc, Bl, Bn, Bo.
  destruct (merged_layout_tiled _ _ _ _ _ _ _ nid r Provenance.DERIVED HL HR T Hl) as [Tn En].
  destruct (merged_layout_sums _ _ _ _ _ _ _ nid r Provenance.DERIVED HL HR Hl) as [Sn Cn].
  pose proof (merged_layout_offsets _ _ _ _ _ _ _ nid r Provenance.DERIVED HL HR T Hl
                (ra_alloc_offset a)) as On. rewrite <- E in On. specialize (On (wf_offsets _ Hwf)).
  rewrite <- E' in Tn, En, Sn, Cn, On. rewrite <- E in En, Sn, Cn. rewrite Hid in On.
  split_and!; auto; simpl; try lia.
  - constructor; rewrite ?Bc, ?Bl, ?Bn, ?Bo; auto.
    + apply (wf_cap _ Hwf).
    + rewrite En. apply (wf_end _ Hwf).
    + rewrite Sn, (wf_live_bytes _ Hwf). done.
    + rewrite Cn, (wf_live_count _ Hwf). done.
    + unfold summary_ok. by rewrite Hd.
  - rewrite E'. set_solver.
  - intros k r' Hr'. rewrite E, E'. by apply merged_layout_live.
  - intros b. rewrite E, E'. by apply merged_layout_owner.
Qed.
