(* ===== verification/RegionReloc.v ===== *)
(** [RegionAllocator::relocate]: the overlap check, the carving loop, the move
    itself, and what the call does to byte ownership. *)
From S2P Require Import Prelude Words Ordered Types Floats Region RegionInv RegionAlloc.
From S2P Require Import RegionFree.
Open Scope Z_scope.

(** ** The overlap check *)

Lemma om_split_at (l : omap Z RegionInfo) (t : Z) :
  om_ok l -> exists s1 s2, l = s1 ++ s2 /\ keys_lt t s1 /\ Forall (fun e => t <= e.1) s2.
Proof.
  induction l as [|[k r] l IH]; [intros _; exists [], []; repeat constructor|].
  intros [Hg Hok]%om_ok_cons. destruct (Z.lt_ge_cases k t) as [Hlt|Hge].
  - destruct (IH Hok) as (s1 & s2 & -> & H1 & H2). exists ((k, r) :: s1), s2.
    split_and!; auto. by constructor.
  - exists [], ((k, r) :: l). split_and!; [done|constructor|]. constructor; [done|].
    eapply Forall_impl; [exact Hg|]. intros [k' r'] Hk. simpl in *.
    change (k < k') in Hk. lia.
Qed.

Lemma live_in_range_spec hi l :
  om_ok l -> live_in_range hi l = true <-> exists k r, (k, r) ∈ l /\ ri_live r = true /\ k < hi.
Proof.
  induction l as [|[k r] l IH]; intros Hok; simpl.
  { split; [done|]. by intros (? & ? & ?%not_elem_of_nil & _). }
  apply om_ok_cons in Hok as [Hg Hok]. destruct (Z.ltb_spec k hi) as [Hlt|Hge]; simpl.
  - destruct (ri_live r) eqn:Hr.
    + split; [|done]. intros _. exists k, r. set_solver.
    + rewrite (IH Hok). setoid_rewrite elem_of_cons. split; [naive_solver|].
      intros (k' & r' & [?|?] & ? & ?); [simplify_eq; congruence|eauto].
  - split; [done|]. intros (k' & r' & [?|Hin]%elem_of_cons & ? & ?); [simplify_eq; lia|].
    eapply Forall_forall in Hg; [|done]. change (k < k') in Hg. lia.
Qed.

(** The check is exact: it fires when some byte of the target is owned. *)
Lemma target_blocked_spec a t n :
  ra_wf a -> 0 <= t -> 0 < n -> t + n <= ra_capacity a ->
  target_blocked t (t + n) a = false <->
  forall b, t <= b < t + n -> owner_at (ra_regions a) b = None.
Proof.
  intros Hwf Ht Hn Hc. pose proof (ra_wf_om_ok _ Hwf) as Hok.
  destruct (om_split_at _ t Hok) as (s1 & s2 & E & H1 & H2).
  assert (H2' : Forall (fun e : Z * RegionInfo => ~ klt e.1 t) s2).
  { eapply Forall_impl; [exact H2|]. intros e He Hlt. simpl in He. change (e.1 < t) in Hlt. lia. }
  unfold target_blocked. rewrite E, om_prev_split, om_lower_bound_split, <- E by done.
  rewrite orb_false_iff. setoid_rewrite owner_at_None.
  assert (Hok2 : om_ok s2) by (rewrite E in Hok; by apply om_ok_app in Hok as (_ & ? & _)).
  rewrite <- (not_true_iff_false (live_in_range _ _)), (live_in_range_spec _ _ Hok2).
  assert (Hcov : forall k r b, covers k r b = true <-> ri_live r = true /\ k <= b < k + ri_size r).
  { intros k r b. unfold covers. rewrite !andb_true_iff, Z.leb_le, Z.ltb_lt. tauto. }
  assert (Hlast : forall k r, (k, r) ∈ s1 -> last s1 = Some (k, r) \/ k + ri_size r <= t).
  { intros k r Hin. destruct (snoc_cases s1) as [->|(l & [k' r'] & ->)]; [by apply not_elem_of_nil in Hin|].
    apply elem_of_app in Hin as [Hin|Hin%list_elem_of_singleton].
    - right. pose proof (wf_tiled _ Hwf) as T. rewrite E, <- app_assoc in T.
      apply tiled_app in T as [T (Hk' & _)].
      destruct (tiled_bounds _ _ _ _ _ T Hin) as (_ & _ & _ & ?).
      unfold keys_lt in H1. rewrite Forall_app, Forall_cons in H1. destruct H1 as (_ & Hk & _).
      simpl in Hk. change (k' < t) in Hk. lia.
    - left. rewrite last_snoc. congruence. }
  split.
  - intros [Hp Hno] b Hb k r Hin. apply not_true_iff_false. intros (Hl & Hkb)%Hcov.
    rewrite E in Hin. apply elem_of_app in Hin as [Hin|Hin].
    + destruct (Hlast _ _ Hin) as [Hls|]; [|lia]. rewrite Hls, Hl in Hp. simpl in Hp.
      destruct (ra_wf_bounds a k r Hwf) as (_ & ? & ? & ? & ?); [rewrite E; set_solver|].
      rewrite add64_small, Z.gtb_ltb in Hp by lia. apply Z.ltb_ge in Hp. lia.
    + apply Hno. exists k, r. split_and!; auto. lia.
  - intros Hfree. split.
    + destruct (last s1) as [[k r]|] eqn:Hls; [|done].
      apply last_Some_elem_of in Hls.
      destruct (ra_wf_bounds a k r Hwf) as (_ & ? & ? & ? & ?); [rewrite E; set_solver|].
      rewrite add64_small by lia. destruct (ri_live r) eqn:Hl; [|done]. simpl.
      rewrite Z.gtb_ltb. apply Z.ltb_ge. apply Z.le_ngt. intros Hgt.
      assert (Hk : k < t) by (eapply Forall_forall in H1; [|done]; exact H1).
      specialize (Hfree t ltac:(lia) k r ltac:(rewrite E; set_solver)).
      rewrite (proj2 (Hcov k r t)) in Hfree; [done|]. split; [done|lia].
    + intros (k & r & Hin & Hl & Hk). assert (t <= k) by (eapply Forall_forall in H2; [|done]; done).
      destruct (ra_wf_bounds a k r Hwf) as (_ & ? & ? & ? & ?); [rewrite E; set_solver|].
      specialize (Hfree k ltac:(lia) k r ltac:(rewrite E; set_solver)).
      rewrite (proj2 (Hcov k r k)) in Hfree; [done|]. split; [done|lia].
Qed.

(** ** The carving loop *)

(** What is left of the free region [f] on one side of the target. *)
Definition piece (off size : Z) (f : RegionInfo) : omap Z RegionInfo :=
  if off <? off + size then [(off, ri_with_span off size f)] else [].

Section piece.
Context (f : RegionInfo) (Hf : ri_live f = false).

Lemma piece_elem k r off size : (k, r) ∈ piece off size f -> ri_live r = false /\ k = off /\ 0 < size /\ ri_size r = size.
Proof.
  unfold piece. destruct (Z.ltb_spec off (off + size)); [|by intros ?%not_elem_of_nil].
  intros ?%list_elem_of_singleton; simplify_eq. simpl. split_and!; auto. lia.
Qed.

Lemma tiled_piece lo pf size : (0 < size -> pf = false) -> tiled lo pf (piece lo size f).
Proof.
  intros Hpf. unfold piece. destruct (Z.ltb_spec lo (lo + size)); [|done].
  simpl. unfold aligned_ok; simpl. rewrite Hf. split_and!; try done; [lia|].
  intros ->. by specialize (Hpf ltac:(lia)).
Qed.

Lemma tend_piece lo size : 0 <= size -> tend lo (piece lo size f) = lo + size.
Proof. intros. unfold piece. destruct (Z.ltb_spec lo (lo + size)); simpl; lia. Qed.

Lemma owner_at_piece off size b : owner_at (piece off size f) b = None.
Proof. unfold piece. destruct (_ <? _); [|done]. simpl. by rewrite covers_free. Qed.

Lemma live_sum_piece off size : live_sum (piece off size f) = 0.
Proof. unfold piece. destruct (_ <? _); [|done]. unfold live_sum; simpl. by rewrite Hf. Qed.

Lemma live_cnt_piece off size : live_cnt (piece off size f) = 0.
Proof. unfold piece. destruct (_ <? _); [|done]. unfold live_cnt; simpl. by rewrite Hf. Qed.
End piece.

(** Regions that the target does not touch are copied. *)
Lemma carve_skip t th l next a :
  om_ok (next ++ l) ->
  (forall k r, (k, r) ∈ l -> 0 <= k /\ 0 < ri_size r /\ k + ri_size r < U64
     /\ (ri_live r = true \/ k + ri_size r <= t \/ th <= k)) ->
  fold_left (carve_step t th) l (next, a) = (next ++ l, a).
Proof.
  revert next. induction l as [|[k r] l IH]; intros next Hok Hl; [by rewrite app_nil_r|].
  pose proof Hok as (_ & Hlt & _)%om_ok_mid.
  destruct (Hl k r ltac:(set_solver)) as (Hk & Hs & Hku & Hc).
  assert (Hset : om_set k r next = next ++ [(k, r)]).
  { rewrite <- (app_nil_r next) at 1. apply om_set_mid; [done|constructor]. }
  assert (Hstep : carve_step t th (next, a) (k, r) = (next ++ [(k, r)], a)).
  { unfold carve_step. rewrite Hset. destruct (ri_live r); [done|].
    destruct Hc as [?|Hc]; [done|]. rewrite add64_small by lia.
    rewrite (proj2 (Z.geb_le _ _)) by lia. done. }
  change ((k, r) :: l) with ([(k, r)] ++ l). rewrite fold_left_app.
  cbn [fold_left]. rewrite Hstep, IH.
  - by rewrite <- app_assoc.
  - by rewrite <- app_assoc.
  - intros k' r' Hin. apply Hl. set_solver.
Qed.

(** The two conditional re-insertions of the loop body. *)
Lemma carve_piece next a off size f l2 :
  om_ok (next ++ l2) -> keys_lt off next -> (0 < size -> keys_gt off l2) -> ri_live f = false ->
  indexed (next ++ l2) (ra_free_slots a) ->
  exists a',
    (if off <? off + size
     then (om_set off (ri_with_span off size f) next, index_free off size a) else (next, a))
    = (next ++ piece off size f, a')
    /\ indexed ((next ++ piece off size f) ++ l2) (ra_free_slots a') /\ same_books a a'
    /\ om_ok ((next ++ piece off size f) ++ l2).
Proof.
  intros Hok Hlt Hgt Hf Hix. unfold piece. destruct (Z.ltb_spec off (off + size)) as [Hs|Hs].
  - exists (index_free off size a). specialize (Hgt ltac:(lia)).
    rewrite <- app_assoc; simpl. split_and!; [| |done|].
    + rewrite <- (app_nil_r next) at 1. rewrite om_set_mid; [reflexivity|done|constructor].
    + apply (indexed_insert (next ++ l2) _ _ off (ri_with_span off size f)); [done..| |].
      * by apply keys_split_not_elem.
      * solve_Permutation.
    + by apply om_ok_mid.
  - exists a. by rewrite app_nil_r.
Qed.

Lemma carve_overlap a t th l1 k f l2 :
  om_ok (l1 ++ l2) -> keys_lt k l1 -> (forall e, e ∈ l2 -> k + ri_size f <= e.1) ->
  indexed (l1 ++ (k, f) :: l2) (ra_free_slots a) ->
  0 <= k -> 0 < ri_size f -> k + ri_size f < U64 ->
  ri_live f = false -> k <= t -> t < th -> th <= k + ri_size f ->
  let l := (l1 ++ piece k (t - k) f) ++ piece th (k + ri_size f - th) f in
  exists a', carve_step t th (l1, a) (k, f) = (l, a')
    /\ indexed (l ++ l2) (ra_free_slots a') /\ same_books a a' /\ om_ok (l ++ l2).
Proof.
  intros Hok Hlt H2 Hix Hk Hs Hku Hf Hkt Htt Hth l. unfold carve_step. rewrite Hf, add64_small by lia.
  assert (Hgt : forall x, x < k + ri_size f -> keys_gt x l2).
  { intros x Hx. apply Forall_forall. intros e He. specialize (H2 e He). change (x < e.1). lia. }
  rewrite Z.max_r, Z.min_r by lia. rewrite Z.geb_leb, (proj2 (Z.leb_gt _ _)) by lia.
  rewrite !sub64_small by lia. replace (k + ri_size f - k) with (ri_size f) by lia.
  destruct (carve_piece l1 (unindex_free k (ri_size f) a) k (t - k) f l2)
    as (a1 & E1 & I1 & B1 & O1); auto.
  { intros _. apply Hgt. lia. }
  { eapply indexed_erase; [exact Hix|done|]. solve_Permutation. }
  replace (k + (t - k)) with t in E1 by lia. rewrite E1.
  destruct (carve_piece (l1 ++ piece k (t - k) f) a1 th (k + ri_size f - th) f l2)
    as (a2 & E2 & I2 & B2 & O2); auto.
  - apply Forall_app. split.
    + eapply keys_lt_trans; [exact Hlt|]. change (k < th). lia.
    + apply Forall_forall. intros [k' r'] (_ & -> & _)%(piece_elem _ Hf). change (k < th). lia.
  - intros Hpos. apply Hgt. lia.
  - replace (th + (k + ri_size f - th)) with (k + ri_size f) in E2 by lia. rewrite E2.
    exists a2. split_and!; auto. etrans; [|exact B2]. etrans; [|exact B1]. done.
Qed.

Lemma carve_spec a t th l1 k f l2 :
  ra_regions a = l1 ++ (k, f) :: l2 -> om_ok (ra_regions a) ->
  indexed (ra_regions a) (ra_free_slots a) ->
  (forall k' r', (k', r') ∈ ra_regions a -> 0 <= k' /\ 0 < ri_size r' /\ k' + ri_size r' < U64) ->
  (forall k' r', (k', r') ∈ l1 -> k' + ri_size r' <= k) ->
  (forall k' r', (k', r') ∈ l2 -> k + ri_size f <= k') ->
  ri_live f = false -> k <= t -> t < th -> th <= k + ri_size f ->
  let a' := carve t th a in
  ra_regions a' = ((l1 ++ piece k (t - k) f) ++ piece th (k + ri_size f - th) f) ++ l2
  /\ indexed (ra_regions a') (ra_free_slots a') /\ same_books a a'
  /\ om_ok (ra_regions a').
Proof.
  intros E Hok Hix Hb H1 H2 Hf Hkt Htt Hth a'. rewrite E in Hok, Hix, Hb.
  pose proof Hok as (Hok12 & Hlt & Hgt)%om_ok_mid.
  destruct (Hb k f ltac:(set_solver)) as (Hk & Hs & Hku).
  destruct (carve_overlap a t th l1 k f l2) as (a1 & E1 & I1 & B1 & O1); auto.
  { intros [k' r'] Hin. by apply (H2 k' r'). }
  assert (Hfold : fold_left (carve_step t th) (l1 ++ (k, f) :: l2) ([], a)
            = (((l1 ++ piece k (t - k) f) ++ piece th (k + ri_size f - th) f) ++ l2, a1)).
  { rewrite fold_left_app, (carve_skip t th l1 [] a).
    - cbn [fold_left app]. rewrite E1. apply carve_skip; [done|].
      intros k' r' Hin. pose proof (H2 _ _ Hin). destruct (Hb k' r' ltac:(set_solver)) as (? & ? & ?).
      split_and!; auto. right. right. lia.
    - by apply om_ok_app in Hok12 as (? & _ & _).
    - intros k' r' Hin. pose proof (H1 _ _ Hin). destruct (Hb k' r' ltac:(set_solver)) as (? & ? & ?).
      split_and!; auto. right. left. lia. }
  unfold a', carve. rewrite E, Hfold. simpl. by split_and!.
Qed.

(** ** The new copy in place *)

(** The layout with the target carved out of the free region [f] and the moved region
    in it, the old copy still being there. *)
Section split_layout.
Context (A B : omap Z RegionInfo) (k t : Z) (f m : RegionInfo).
Let th := t + ri_size m.
Let L := A ++ (k, f) :: B.
Let M := (A ++ piece k (t - k) f) ++ (t, m) :: piece th (k + ri_size f - th) f ++ B.
Context (T : tiled 0 false L) (Hf : ri_live f = false) (Hm : ri_live m = true).
Context (Ho : ri_offset m = t) (Hs : 0 < ri_size m) (Hal : aligned_ok t m).
Context (Hkt : k <= t) (Hth : th <= k + ri_size f).

Lemma split_layout_parts :
  tiled 0 false A /\ tend 0 A = k /\ pend false A = false /\ tiled (k + ri_size f) true B.
Proof.
  apply tiled_app in T as [TA (Hk & _ & _ & Hp & _ & TB)]. rewrite Hf in *.
  rewrite <- Hk in TB. split_and!; auto. destruct (pend false A); [|done].
  by specialize (Hp eq_refl).
Qed.

Lemma split_layout_tiled : tiled 0 false M /\ tend 0 M = tend 0 L.
Proof.
  destruct split_layout_parts as (TA & EA & PA & TB). unfold M, L.
  rewrite !tiled_app, !tend_app, EA, PA, (tend_piece f) by lia. simpl.
  rewrite tiled_app, tend_app. fold th.
  replace (k + (t - k)) with t by lia. fold th. rewrite (tend_piece f) by lia.
  replace (th + (k + ri_size f - th)) with (k + ri_size f) by lia.
  rewrite Hm. simpl. split; [|done]. split_and!; auto.
  - by apply (tiled_piece f Hf).
  - by apply (tiled_piece f Hf).
  - apply tiled_pf; [by eapply tiled_weaken|]. intros _ k' r' l' ->.
    simpl in TB. naive_solver.
Qed.

Lemma split_layout_sums :
  live_sum M = live_sum L + ri_size m /\ live_cnt M = live_cnt L + 1.
Proof.
  unfold M, L. autorewrite with gms_rw.
  rewrite !(live_sum_piece f Hf), !(live_cnt_piece f Hf), Hm, Hf. simpl. lia.
Qed.

Lemma split_layout_live k' r :
  ri_live r = true -> (k', r) ∈ M <-> (k', r) ∈ L \/ (k', r) = (t, m).
Proof.
  intros Hr. unfold M, L. rewrite !elem_of_app, !elem_of_cons, elem_of_app.
  assert (Hp : forall o n, (k', r) ∈ piece o n f -> False).
  { intros o n (Hl & _)%(piece_elem _ Hf). congruence. }
  split.
  - intros [[|[]%Hp]|[|[[]%Hp|]]]; auto.
  - intros [[|[|]]|]; simplify_eq; auto. congruence.
Qed.

Lemma split_layout_owner b :
  owner_at M b = if (t <=? b) && (b <? t + ri_size m)
                 then Some (ri_alloc_id m, ri_alloc_generation m) else owner_at L b.
Proof.
  destruct split_layout_parts as (TA & EA & _ & TB). unfold M, L.
  rewrite !owner_at_app, (owner_at_piece f Hf); simpl.
  rewrite owner_at_app, (owner_at_piece f Hf), (covers_free k f) by done.
  unfold covers. rewrite Hm; simpl. fold th.
  destruct ((t <=? b) && (b <? th)) eqn:Hb; [|by destruct (owner_at A b)]. zbool.
  by rewrite (owner_at_outside 0 false A) by (done || lia).
Qed.
End split_layout.

(** ** Freeing the old copy *)

(** Freeing the old copy before the new one is emplaced merges as if it were there. *)
Lemma merged_left_insert p1 p2 off lo p' t m :
  merged_left (p1 ++ p2) off lo p' -> ri_live m = true -> t < off ->
  (forall k r, (k, r) ∈ p1 -> k + ri_size r <= t) ->
  exists p2', p' = p1 ++ p2' /\ merged_left (p1 ++ (t, m) :: p2) off lo (p1 ++ (t, m) :: p2').
Proof.
  intros HL Hm Ht Hp1. destruct (snoc_cases p2) as [->|(q & [k r] & ->)].
  - destruct HL as [(-> & -> & Hno)|(r & E & Hr & Hlo)].
    + exists []. split; [done|]. left. split_and!; auto.
      intros l k r [_ ?]%app_inj_tail Hr. simplify_eq. congruence.
    + rewrite app_nil_r in E. specialize (Hp1 lo r ltac:(rewrite E; set_solver)). lia.
  - assert (Ea : forall x, p1 ++ (t, m) :: q ++ [x] = (p1 ++ (t, m) :: q) ++ [x]) by
      (intros x; by rewrite <- app_assoc).
    destruct HL as [(-> & -> & Hno)|(r' & E & Hr & Hlo)].
    + exists (q ++ [(k, r)]). split; [done|]. left. split_and!; auto.
      intros l k' r' E Hr'. rewrite Ea in E. apply app_inj_tail in E as [_ E]. simplify_eq.
      apply (Hno (p1 ++ q) k' r'); [by rewrite <- app_assoc|done].
    + rewrite app_assoc in E. apply app_inj_tail in E as [E1 E2]. simplify_eq.
      exists q. split; [done|]. right. exists r'. rewrite Ea. by split_and!.
Qed.

Lemma merged_right_insert p1 p2 hi0 hi p' t m :
  merged_right (p1 ++ p2) hi0 hi p' -> ri_live m = true -> hi0 <= t ->
  (forall k r, (k, r) ∈ p2 -> t < k) ->
  exists p1', p' = p1' ++ p2 /\ merged_right (p1 ++ (t, m) :: p2) hi0 hi (p1' ++ (t, m) :: p2).
Proof.
  intros HR Hm Ht Hp2. destruct p1 as [|[k r] q]; simpl in *.
  - destruct HR as [(-> & -> & Hno)|(r & -> & Hr & Hhi)].
    + exists []. split; [done|]. left. split_and!; auto. intros l k r E Hr. simplify_eq. congruence.
    + specialize (Hp2 hi0 r ltac:(set_solver)). lia.
  - destruct HR as [(-> & -> & Hno)|(r' & E & Hr & Hhi)].
    + exists ((k, r) :: q). split; [done|]. left. split_and!; auto.
      intros l k' r' E Hr'. simplify_eq. by apply (Hno (q ++ p2) k' r').
    + simplify_eq. exists q. split; [done|]. right. by exists r'.
Qed.

(** The state between the carving and the end of the move, around the old interval. *)
Lemma around_of_tiled a pre o r post pre0 post0 :
  tiled 0 false (pre ++ (o, r) :: post) -> tend 0 (pre ++ (o, r) :: post) = ra_capacity a ->
  ra_capacity a < U64 -> ri_live r = true ->
  ra_regions a = pre0 ++ post0 -> om_ok (pre0 ++ post0) ->
  indexed (ra_regions a) (ra_free_slots a) ->
  pre0 ⊆ pre -> post0 ⊆ post -> around o (ri_size r) a pre0 post0.
Proof.
  intros T E Hc Hr Er Hok Hix Hs1 Hs2.
  destruct (layout_split pre post o r T Hr) as (Tpre & Epre & Hs & Tpost & Klt & Kgt).
  rewrite tend_app, Epre in E; simpl in E.
  pose proof (tend_ge _ _ _ Tpre). pose proof (tend_ge _ _ _ Tpost).
  unfold around. split_and!; auto; try lia.
  - apply Forall_forall. intros e He. apply Hs1 in He. eapply Forall_forall in Klt; done.
  - apply Forall_forall. intros e He. apply Hs2 in He. eapply Forall_forall in Kgt; done.
  - intros k' r' Hin%Hs1. destruct (tiled_bounds _ _ _ _ _ Tpre Hin) as (? & ? & ? & ?). lia.
  - intros k' r' Hin%Hs2. destruct (tiled_bounds _ _ _ _ _ Tpost Hin) as (? & ? & ? & ?). lia.
Qed.

(** The last steps of the move, on a layout [M] in which the new copy [m] and the old
    copy [r] both stand: [a] has neither; freeing the old interval and emplacing the
    new copy gives [M] with [r] merged into the free space. *)
Section move_finish.
Context (a : RegionAllocator) (pre post p1 p2 : omap Z RegionInfo) (o t : Z) (r m : RegionInfo).
Let M := pre ++ (o, r) :: post.
Context (T : tiled 0 false M) (E : tend 0 M = ra_capacity a) (Hc : ra_capacity a < U64).
Context (Hr : ri_live r = true) (Hm : ri_live m = true) (Hs : 0 < ri_size m).
Context (Hix : indexed (ra_regions a) (ra_free_slots a)) (Hok : om_ok (ra_regions a)).

Lemma emplace_moved lo hi id pre' post' a' x1 x2 :
  let l := pre' ++ (lo, free_region lo (hi - lo) id Provenance.DERIVED) :: post' in
  merged_left pre o lo pre' -> merged_right post (o + ri_size r) hi post' ->
  l = x1 ++ (t, m) :: x2 -> ra_regions a' = x1 ++ x2 ->
  indexed (ra_regions a') (ra_free_slots a') ->
  om_emplace t m (ra_regions a') = l /\ indexed l (ra_free_slots a').
Proof.
  intros l HL HR Ex Ea Ia.
  destruct (merged_layout_tiled _ _ _ _ _ _ _ id r Provenance.DERIVED HL HR T Hr) as [Tn _].
  apply tiled_om_ok in Tn. fold l in Tn. rewrite Ex in *. apply om_ok_mid in Tn as (_ & Hlt & Hgt).
  split; [rewrite Ea; by apply om_emplace_mid|].
  eapply (indexed_add_live _ _ _ t m Ia); [done|]. rewrite Ea. solve_Permutation.
Qed.

Lemma move_finish :
  (pre = p1 ++ (t, m) :: p2 /\ ra_regions a = (p1 ++ p2) ++ post
   \/ post = p1 ++ (t, m) :: p2 /\ ra_regions a = pre ++ (p1 ++ p2)) ->
  exists lo hi id pre' post' a',
    let l := pre' ++ (lo, free_region lo (hi - lo) id Provenance.DERIVED) :: post' in
    canonicalize_free o (ri_size r) a = (a', Ok (free_region lo (hi - lo) id Provenance.DERIVED))
    /\ merged_left pre o lo pre' /\ merged_right post (o + ri_size r) hi post'
    /\ om_emplace t m (ra_regions a') = l /\ indexed l (ra_free_slots a') /\ same_books a a'.
Proof.
  destruct (layout_split pre post o r T Hr) as (Tpre & Epre & Hrs & Tpost & _).
  intros [[Ep Ea]|[Ep Ea]]; pose proof Hok as Hok'; rewrite Ea in Hok'.
  - destruct (canonicalize_spec o (ri_size r) a (p1 ++ p2) post) as
      (lo & hi & id & pre0 & post' & a' & Hcan & HL & HR & E' & Ix & Bk & _).
    { apply (around_of_tiled a pre o r post); auto; rewrite Ep; set_solver. }
    rewrite Ep in Tpre, Epre. apply tiled_app in Tpre as [Tp1 (Ht & _ & _ & _ & _ & Tp2)].
    destruct (merged_left_insert p1 p2 o lo pre0 t m HL Hm) as (p2' & -> & HL').
    { rewrite tend_app in Epre; simpl in Epre. apply tend_ge in Tp2. lia. }
    { intros k' r' Hin. destruct (tiled_bounds _ _ _ _ _ Tp1 Hin) as (_ & _ & _ & ?). lia. }
    rewrite <- Ep in HL'. exists lo, hi, id, (p1 ++ (t, m) :: p2'), post', a'.
    destruct (emplace_moved lo hi id _ post' a' p1
                (p2' ++ (lo, free_region lo (hi - lo) id Provenance.DERIVED) :: post') HL' HR)
      as [Eem Iem]; [by rewrite ?E', <- ?app_assoc..|done|].
    cbv zeta. split_and!; try done.
  - destruct (canonicalize_spec o (ri_size r) a pre (p1 ++ p2)) as
      (lo & hi & id & pre' & post0 & a' & Hcan & HL & HR & E' & Ix & Bk & _).
    { apply (around_of_tiled a pre o r post); auto; rewrite Ep; set_solver. }
    rewrite Ep in Tpost. apply tiled_app in Tpost as [Tp1 (Ht & _ & _ & _ & _ & Tp2)].
    destruct (merged_right_insert p1 p2 (o + ri_size r) hi post0 t m HR Hm) as (p1' & -> & HR').
    { rewrite Ht. by eapply tend_ge. }
    { intros k' r' Hin. destruct (tiled_bounds _ _ _ _ _ Tp2 Hin) as (_ & ? & _ & ?). lia. }
    rewrite <- Ep in HR'. exists lo, hi, id, pre', (p1' ++ (t, m) :: p2), a'.
    destruct (emplace_moved lo hi id pre' _ a'
                (pre' ++ (lo, free_region lo (hi - lo) id Provenance.DERIVED) :: p1') p2 HL HR')
      as [Eem Iem]; [by rewrite ?E', <- ?app_assoc..|done|].
    cbv zeta. split_and!; try done.
Qed.
End move_finish.

(** ** The whole call *)

(** [relocate] may move region [r] to [no, no + ns). *)
Definition target_ok (a : RegionAllocator) (no ns na : Z) : Prop :=
  is_pow2 na = true /\ 0 < ns /\ no mod na = 0 /\ no + ns <= ra_capacity a
  /\ forall b, no <= b < no + ns -> owner_at (ra_regions a) b = None.

Section relocate.
Context (a : RegionAllocator) (id : AllocationId) (gen : AllocationGeneration) (no ns na : Z).
Context (Hwf : ra_wf a) (Hno : in_u64 no) (Hns : in_u64 ns) (Hna : in_u64 na).

(** The state in which [relocate] carves: the old copy is gone. *)
Let erased (r : RegionInfo) : RegionAllocator :=
  ra_with_offsets (delete id (ra_alloc_offset a))
    (ra_with_regions (om_erase (ri_offset r) (ra_regions a)) a).

Lemma erased_split r l1 l2 :
  held a id gen r -> ra_regions a = l1 ++ (ri_offset r, r) :: l2 ->
  ra_regions (erased r) = l1 ++ l2 /\ om_ok (l1 ++ l2)
  /\ indexed (l1 ++ l2) (ra_free_slots a).
Proof.
  intros (Hin & Hl & _) E. pose proof (ra_wf_om_ok _ Hwf) as Hok. rewrite E in Hok.
  apply om_ok_mid in Hok as (Hok & Hlt & _). unfold erased; simpl. rewrite E.
  split_and!; [by apply om_erase_mid|done|].
  eapply indexed_del_live; [apply (wf_indexed _ Hwf)|exact Hl|]. rewrite E. solve_Permutation.
Qed.

(** Carving, whichever side of the free region the old copy is on. *)
Lemma carve_around r A k f B m :
  held a id gen r -> ra_regions a = A ++ (k, f) :: B -> ri_live f = false ->
  k <= no -> 0 < ns -> no + ns <= k + ri_size f ->
  let a2 := carve no (no + ns) (erased r) in
  exists q1 q2 p1 p2,
    (A ++ piece k (no - k) f) ++ (no, m) :: piece (no + ns) (k + ri_size f - (no + ns)) f ++ B
      = q1 ++ (ri_offset r, r) :: q2
    /\ (q1 = p1 ++ (no, m) :: p2 /\ ra_regions a2 = (p1 ++ p2) ++ q2
        \/ q2 = p1 ++ (no, m) :: p2 /\ ra_regions a2 = q1 ++ (p1 ++ p2))
    /\ indexed (ra_regions a2) (ra_free_slots a2) /\ om_ok (ra_regions a2)
    /\ same_books (erased r) a2.
Proof.
  intros Hh EL Hf Hk Hs Hkf a2. pose proof Hh as (Hin & Hl & _).
  pose proof (wf_tiled _ Hwf) as T. rewrite EL in T. apply tiled_app in T as [TA (HkA & _ & _ & _ & _ & TB)].
  rewrite <- HkA in TB.
  assert (HA : forall k' r', (k', r') ∈ A -> k' + ri_size r' <= k).
  { intros k' r' Hi. destruct (tiled_bounds _ _ _ _ _ TA Hi) as (_ & _ & _ & ?). lia. }
  assert (HB : forall k' r', (k', r') ∈ B -> k + ri_size f <= k').
  { intros k' r' Hi. destruct (tiled_bounds _ _ _ _ _ TB Hi) as (_ & ? & _). lia. }
  assert (Hspec : forall l1 l2 l1' l2', ra_regions a = l1' ++ (ri_offset r, r) :: l2' ->
    l1' ++ l2' = l1 ++ (k, f) :: l2 -> l1 ⊆ A -> l2 ⊆ B ->
    ra_regions a2 = ((l1 ++ piece k (no - k) f) ++ piece (no + ns) (k + ri_size f - (no + ns)) f) ++ l2
    /\ indexed (ra_regions a2) (ra_free_slots a2) /\ same_books (erased r) a2
    /\ om_ok (ra_regions a2)).
  { intros l1 l2 l1' l2' E E' S1 S2. destruct (erased_split r _ _ Hh E) as (Ee & Oe & Ie).
    rewrite E' in *. apply carve_spec; rewrite ?Ee; auto; try lia.
    - intros k' r' Hi. destruct (ra_wf_bounds a k' r' Hwf); [|lia].
      rewrite E. rewrite <- E' in Hi. set_solver.
    - intros k' r' Hi. by apply (HB k' r'), S2. }
  rewrite EL in Hin. apply elem_of_app in Hin as [Hin|[?|Hin]%elem_of_cons]; [|congruence|];
    apply list_elem_of_split in Hin as (C1 & C2 & EC).
  - destruct (Hspec (C1 ++ C2) B C1 (C2 ++ (k, f) :: B)) as (E2 & I2 & B2 & O2).
    { rewrite EL, EC. by rewrite <- app_assoc. }
    { by rewrite <- app_assoc. }
    { rewrite EC. set_solver. }
    { done. }
    exists C1, (C2 ++ piece k (no - k) f ++ (no, m) :: piece (no + ns) (k + ri_size f - (no + ns)) f ++ B).
    exists (C2 ++ piece k (no - k) f), (piece (no + ns) (k + ri_size f - (no + ns)) f ++ B).
    split_and!; auto.
    + rewrite EC. by rewrite <- !app_assoc.
    + right. rewrite E2. by rewrite <- !app_assoc.
  - destruct (Hspec A (C1 ++ C2) (A ++ (k, f) :: C1) C2) as (E2 & I2 & B2 & O2).
    { rewrite EL, EC. by rewrite <- app_assoc. }
    { by rewrite <- app_assoc. }
    { done. }
    { rewrite EC. set_solver. }
    exists ((A ++ piece k (no - k) f) ++ (no, m) :: piece (no + ns) (k + ri_size f - (no + ns)) f ++ C1), C2.
    exists (A ++ piece k (no - k) f), (piece (no + ns) (k + ri_size f - (no + ns)) f ++ C1).
    split_and!; auto.
    + rewrite EC. rewrite <- !app_assoc; simpl. by rewrite <- !app_assoc.
    + left. rewrite E2. by rewrite <- !app_assoc.
Qed.
(** A free target is off the old copy. *)
Lemma target_off_region r b :
  held a id gen r -> target_ok a no ns na -> no <= b < no + ns ->
  ~ (ri_offset r <= b < ri_offset r + ri_size r).
Proof.
  intros (Hin & Hl & _) (_ & _ & _ & _ & Hfree) Hb Hr.
  specialize (Hfree b Hb). rewrite owner_at_None in Hfree. specialize (Hfree _ _ Hin).
  unfold covers in Hfree. rewrite Hl in Hfree; simpl in Hfree.
  apply andb_false_iff in Hfree as [?%Z.leb_gt|?%Z.ltb_ge]; lia.
Qed.

(** [alloc_offset_] after the move. *)
Lemma moved_offsets r m L' :
  held a id gen r -> ri_live m = true -> ri_alloc_id m = id ->
  (forall k' r', ri_live r' = true -> (k', r') ∈ L' <->
    (k', r') ∈ ra_regions a /\ k' <> ri_offset r \/ (k', r') = (no, m)) ->
  offsets_ok (<[id := no]> (delete id (ra_alloc_offset a))) L'.
Proof.
  intros (Hin & Hl & Hid & _) Hm Hmid Hlive.
  destruct (ra_wf_split _ _ _ Hwf Hin) as (l1 & l2 & E & _ & _ & _ & _ & _ & _ & _ & _ & Klt & Kgt).
  pose proof (keys_split_not_elem _ _ _ Klt Kgt) as Hni.
  eapply (offsets_ok_live_ext _ ((no, m) :: l1 ++ l2)).
  - intros k' r' Hr'. rewrite Hlive, E, elem_of_cons, !elem_of_app, elem_of_cons by done.
    split; [|naive_solver].
    intros [->|Hi]; [auto|]. left. split; [naive_solver|]. intros ->. apply Hni.
    apply list_elem_of_fmap. exists (ri_offset r, r'). by rewrite elem_of_app.
  - apply offsets_ok_insert; auto; [|by rewrite lookup_delete_eq].
    apply (offsets_ok_delete _ _ _ (ri_offset r) r); auto.
    eapply offsets_ok_perm; [|apply (wf_offsets _ Hwf)]. rewrite E. solve_Permutation.
Qed.

(** The counter of live bytes, as the code updates it. *)
Lemma resized_live_bytes n :
  0 <= ra_live_bytes a <= ra_capacity a -> 0 <= n <= ra_live_bytes a -> ra_live_bytes a + ns - n < U64 ->
  (if ns >=? n then add64 (ra_live_bytes a) (sub64 ns n) else sub64 (ra_live_bytes a) (sub64 n ns))
  = ra_live_bytes a + ns - n.
Proof.
  intros Hlb Hn Hlt. pose proof (proj2 (wf_cap _ Hwf)). unfold in_u64 in *. destruct (Z.geb_spec ns n).
  - rewrite (sub64_small ns) by lia. rewrite add64_small; lia.
  - rewrite (sub64_small n) by lia. rewrite sub64_small; lia.
Qed.

(** Whose a byte is after the move, given whose it is with the moved region added. *)
Lemma moved_owner r o b :
  held a id gen r -> target_ok a no ns na ->
  (if (ri_offset r <=? b) && (b <? ri_offset r + ri_size r) then None
   else if (no <=? b) && (b <? no + ns) then Some (id, gen_next gen) else o)
  = if (no <=? b) && (b <? no + ns) then Some (id, gen_next gen)
    else if (ri_offset r <=? b) && (b <? ri_offset r + ri_size r) then None else o.
Proof.
  intros Hh Ht. destruct ((ri_offset r <=? b) && (b <? ri_offset r + ri_size r)) eqn:Hb; [|done].
  destruct ((no <=? b) && (b <? no + ns)) eqn:Hb2; [|done]. zbool. exfalso.
  apply (target_off_region r b); auto; lia.
Qed.

(** The arena between the carving and the new entry: canonicalising the bytes left
    behind succeeds, and emplacing the moved region then gives the layout [L] with the
    region in its new place and nothing else changed. *)
Lemma moved_layout r :
  held a id gen r -> target_ok a no ns na ->
  let m := moved_region no ns na gen r in
  let a2 := carve no (no + ns) (erased r) in
  exists a3 rest L,
    canonicalize_free (ri_offset r) (ri_size r) a2 = (a3, Ok rest)
    /\ om_emplace no m (ra_regions a3) = L /\ indexed L (ra_free_slots a3)
    /\ same_books (erased r) a3
    /\ tiled 0 false L /\ tend 0 L = ra_capacity a
    /\ live_sum L = ra_live_bytes a + ns - ri_size r /\ live_cnt L = ra_live_count a
    /\ no <> ri_offset r
    /\ (forall k r', ri_live r' = true ->
          (k, r') ∈ L <-> (k, r') ∈ ra_regions a /\ k <> ri_offset r \/ (k, r') = (no, m))
    /\ (forall b, owner_at L b =
          if (no <=? b) && (b <? no + ns) then Some (id, gen_next gen)
          else if (ri_offset r <=? b) && (b <? ri_offset r + ri_size r) then None
          else owner_at (ra_regions a) b).
Proof.
  intros Hh (Hp2 & Hs & Hmod & Hcap & Hfree) m a2. pose proof Hh as (Hin & Hl & Hid & Hg).
  unfold in_u64 in *. destruct (wf_cap _ Hwf) as [Hc0 Hc].
  pose proof (wf_tiled _ Hwf) as T. pose proof (wf_end _ Hwf) as Te.
  destruct (free_run_in_region 0 false (ra_regions a) no ns) as
    (A & k & f & B & EL & Hf & Hk & Hkf); auto; try lia.
  pose proof T as TL. rewrite EL in TL.
  assert (Hal : aligned_ok no m) by (intros _; by split_and!).
  destruct (split_layout_tiled A B k no f m TL Hf Hl eq_refl Hs Hal Hk Hkf) as [TM EM].
  destruct (split_layout_sums A B k no f m Hf Hl) as [SM CM].
  pose proof (fun k' r' => split_layout_live A B k no f m Hf k' r') as LM.
  pose proof (split_layout_owner A B k no f m TL Hf Hl) as OM. simpl in TM, EM, SM, CM, OM, LM.
  rewrite <- EL in SM, CM, OM, LM, EM.
  destruct (carve_around r A k f B m Hh EL Hf Hk Hs Hkf)
    as (q1 & q2 & p1 & p2 & EMq & Hcase & I2 & O2 & (Bc & Bl & Bn & Bo)).
  rewrite EMq in *. fold a2 in Hcase, I2, O2, Bc, Bl, Bn, Bo.
  destruct (move_finish a2 q1 q2 p1 p2 (ri_offset r) no r m) as
    (lo & hi & nid & pre' & post' & a3 & Hcan & HL & HR & Eem & Iem & (Cc & Cl & Cn & Co));
    try done.
  { rewrite EM, Te, Bc. done. }
  { by rewrite Bc. }
  destruct (merged_layout_tiled _ _ _ _ _ _ _ nid r Provenance.DERIVED HL HR TM Hl) as [Tn En].
  destruct (merged_layout_sums _ _ _ _ _ _ _ nid r Provenance.DERIVED HL HR Hl) as [Sn Nn].
  rewrite <- (wf_live_bytes _ Hwf) in SM. rewrite <- (wf_live_count _ Hwf) in CM.
  rewrite SM in Sn. rewrite CM in Nn.
  assert (Hne : no <> ri_offset r).
  { intros E0. destruct (ra_wf_bounds _ _ _ Hwf Hin) as (_ & _ & ? & _).
    apply (target_off_region r no); auto; [by split_and!|lia..]. }
  set (L' := pre' ++ (lo, free_region lo (hi - lo) nid Provenance.DERIVED) :: post') in *.
  assert (Hlive : forall k' r', ri_live r' = true -> (k', r') ∈ L' <->
    (k', r') ∈ ra_regions a /\ k' <> ri_offset r \/ (k', r') = (no, m)).
  { intros k' r' Hr'. unfold L'.
    rewrite (merged_layout_live _ _ _ _ _ _ _ nid r _ HL HR TM Hl k' r' Hr'), LM by done.
    split; [tauto|]. intros [?|?]; [tauto|]. split; [auto|]. congruence. }
  assert (Hown : forall b, owner_at L' b =
          if (no <=? b) && (b <? no + ns) then Some (id, gen_next gen)
          else if (ri_offset r <=? b) && (b <? ri_offset r + ri_size r) then None
          else owner_at (ra_regions a) b).
  { intros b. unfold L'. rewrite (merged_layout_owner _ _ _ _ _ _ _ nid r _ HL HR TM Hl), OM, Hid by done.
    apply (moved_owner r _ b Hh). by split_and!. }
  rewrite Bc in Cc. rewrite Bl in Cl. rewrite Bn in Cn. rewrite Bo in Co.
  exists a3, (free_region lo (hi - lo) nid Provenance.DERIVED), L'.
  split_and!; try done; [by rewrite En, EM, Te|lia].
Qed.

(** The mutation, once the target is known to be free. *)
Lemma do_relocate_ok r :
  held a id gen r -> target_ok a no ns na ->
  let m := moved_region no ns na gen r in
  exists a', do_relocate id gen (ri_offset r) no ns na r a = (a', Ok m)
    /\ ra_wf a' /\ ra_capacity a' = ra_capacity a
    /\ ra_live_bytes a' = ra_live_bytes a + ns - ri_size r
    /\ ra_alloc_offset a' = <[id := no]> (delete id (ra_alloc_offset a))
    /\ (forall k r', ri_live r' = true ->
          (k, r') ∈ ra_regions a' <-> (k, r') ∈ ra_regions a /\ k <> ri_offset r \/ (k, r') = (no, m))
    /\ (forall b, owner_at (ra_regions a') b =
          if (no <=? b) && (b <? no + ns) then Some (id, gen_next gen)
          else if (ri_offset r <=? b) && (b <? ri_offset r + ri_size r) then None
          else owner_at (ra_regions a) b).
Proof.
  intros Hh Ht m. pose proof Hh as (Hin & Hl & Hid & _). pose proof Ht as (_ & Hs & _ & Hcap & _).
  unfold in_u64 in *. destruct (wf_cap _ Hwf) as [Hc0 Hc].
  destruct (moved_layout r Hh Ht) as (a3 & rest & L & Hcan & Eem & Iem & (Cc & Cl & Cn & Co)
    & Tn & En & Sn & Nn & Hne & Hlive & Hown).
  fold m in Eem, Hlive. simpl in Cc, Cl, Cn, Co.
  pose proof (live_sum_bounds _ _ _ Tn) as Hlb. pose proof (ra_wf_live_bytes _ Hwf) as Hlb0.
  destruct (ra_wf_bounds _ _ _ Hwf Hin) as (_ & ? & ? & ? & _). rewrite En in Hlb.
  eexists. split.
  { unfold do_relocate. rewrite (add64_small no ns) by lia. cbv zeta.
    change (carve _ _ _) with (carve no (no + ns) (erased r)).
    rewrite Hcan. reflexivity. }
  pose proof (resized_live_bytes (ri_size r) Hlb0 ltac:(pose proof (live_region_bytes a _ r Hwf Hin Hl); lia) ltac:(lia)) as Hlb'.
  fold m. simpl. rewrite Eem, Cl, Cn, Co, Hlb'. split_and!; auto.
  constructor; simpl; rewrite ?Eem, ?Cc, ?Cl, ?Cn, ?Co, ?Hlb'; try done.
  by apply (moved_offsets r m).
Qed.

(** The reason a refused move of a current handle gets. *)
Definition relocate_refusal : RejectReason.t :=
  if negb (is_pow2 na) then RejectReason.IMPOSSIBLE_ALIGNMENT
  else if (0 <? ns) && (no mod na =? 0) && (ra_capacity a <? no + ns)
  then RejectReason.SIZE_OVERFLOW
  else RejectReason.INVALID_REQUEST.

(** The whole call: it moves the region exactly when the handle is current and the
    target is aligned, in bounds and free; otherwise nothing changes. *)
Lemma relocate_cases :
  let '(a', res) := relocate id gen no ns na a in
  match res with
  | Err f => a' = a
      /\ ((forall r, ~ held a id gen r) /\ reason f = RejectReason.STALE_GENERATION
          \/ (exists r, held a id gen r) /\ ~ target_ok a no ns na /\ reason f = relocate_refusal)
  | Ok m => exists r, held a id gen r /\ target_ok a no ns na
      /\ m = moved_region no ns na gen r
      /\ ra_wf a' /\ ra_capacity a' = ra_capacity a
      /\ ra_live_bytes a' = ra_live_bytes a + ns - ri_size r
      /\ ra_alloc_offset a' = <[id := no]> (delete id (ra_alloc_offset a))
      /\ (forall k r', ri_live r' = true -> (k, r') ∈ ra_regions a' <->
            (k, r') ∈ ra_regions a /\ k <> ri_offset r \/ (k, r') = (no, m))
      /\ (forall b, owner_at (ra_regions a') b =
            if (no <=? b) && (b <? no + ns) then Some (id, gen_next gen)
            else if (ri_offset r <=? b) && (b <? ri_offset r + ri_size r) then None
            else owner_at (ra_regions a) b)
  end.
Proof.
  unfold relocate, relocate_refusal. destruct (wf_cap _ Hwf) as [Hc0 Hc].
  destruct (handle_cases a id gen Hwf) as [(r & Hh & -> & ->)|[Hst [->|(off & r & -> & -> & -> & Hg)]]].
  2: by simpl; auto.
  2: { rewrite bool_decide_false by done. by simpl; auto. }
  pose proof Hh as (Hin & Hl & Hid & Hg). rewrite Hl, bool_decide_true by done; simpl.
  assert (E0 : (na =? 0) || negb (is_pow2 na) = negb (is_pow2 na)).
  { unfold is_pow2. by destruct (na =? 0). }
  rewrite E0. unfold in_u64 in *. destruct (is_pow2 na) eqn:Hp2; simpl.
  2: { split; [done|]. right. split_and!; eauto. intros (? & _). congruence. }
  destruct (Z.eqb_spec ns 0) as [->|Hs0]; simpl.
  { split; [done|]. right. split_and!; eauto. intros (_ & ? & _). lia. }
  rewrite (proj2 (Z.ltb_lt 0 ns)) by lia.
  destruct (Z.eqb_spec (no mod na) 0) as [Hm|Hm]; simpl.
  2: { split; [done|]. right. split_and!; eauto. intros (_ & _ & ? & _). done. }
  assert (Eb : (no >? ra_capacity a) || (ns >? sub64 (ra_capacity a) no) = (ra_capacity a <? no + ns)).
  { rewrite !Z.gtb_ltb. destruct (Z.ltb_spec (ra_capacity a) no); simpl.
    - symmetry. apply Z.ltb_lt. lia.
    - rewrite sub64_small by lia.
      destruct (Z.ltb_spec (ra_capacity a - no) ns), (Z.ltb_spec (ra_capacity a) (no + ns)); lia. }
  rewrite Eb. destruct (Z.ltb_spec (ra_capacity a) (no + ns)) as [Hb|Hb].
  { split; [done|]. right. split_and!; eauto. intros (_ & _ & _ & ? & _). lia. }
  destruct (ra_wf_bounds _ _ _ Hwf Hin) as (_ & Hr0 & Hrs & Hre & _).
  rewrite !add64_small by lia.
  destruct ((no <? ri_offset r + ri_size r) && (ri_offset r <? no + ns)) eqn:Hov.
  { split; [done|]. right. split_and!; eauto. intros Ht. zbool.
    apply (target_off_region r (Z.max no (ri_offset r)) Hh Ht); lia. }
  assert (Hs : 0 < ns) by lia. assert (Hno0 : 0 <= no) by lia.
  pose proof (target_blocked_spec a no ns Hwf Hno0 Hs Hb) as Hbl.
  destruct (target_blocked no (no + ns) a).
  { split; [done|]. right. split_and!; eauto. intros (_ & _ & _ & _ & Hf). by apply Hbl in Hf. }
  assert (Ht : target_ok a no ns na) by (split_and!; try done; by apply Hbl).
  destruct (do_relocate_ok r Hh Ht) as (a' & -> & Hrest). exists r. split_and!; try done; apply Hrest.
Qed.
End relocate.
