(* ===== verification/RegionQuery.v ===== *)
(** The remaining operations of [RegionAllocator]: the constructor, [pin], [unpin], the
    cached summary and the counters, and [verify], the code's own invariant check. *)
From S2P Require Import Prelude Words Ordered Types Floats Region RegionInv RegionAlloc.
From S2P Require Import RegionFree.
Open Scope Z_scope.

(** ** Constructor *)

Lemma RegionAllocator_new_wf cap : 0 < cap < U64 -> ra_wf (RegionAllocator_new cap).
Proof.
  intros Hc. unfold RegionAllocator_new. rewrite Z.gtb_ltb, (proj2 (Z.ltb_lt _ _)) by lia.
  constructor; simpl; auto.
  - unfold aligned_ok; simpl. split_and!; auto; lia.
  - unfold indexed, os_ok; simpl. split; [repeat constructor|done].
  - intros id off. rewrite lookup_empty. split; [done|].
    intros (r & Hin%list_elem_of_singleton & Hr & _). by simplify_eq.
  - done.
Qed.

(** ** pin and unpin *)

(** Two regions that the layout cannot tell apart. *)
Definition same_shape (r r' : RegionInfo) : Prop :=
  ri_offset r' = ri_offset r /\ ri_size r' = ri_size r /\ ri_alignment r' = ri_alignment r
  /\ ri_live r' = ri_live r /\ ri_alloc_id r' = ri_alloc_id r
  /\ ri_alloc_generation r' = ri_alloc_generation r.

Lemma same_shape_tiled lo pf k r r' l1 l2 :
  same_shape r r' -> tiled lo pf (l1 ++ (k, r) :: l2) ->
  tiled lo pf (l1 ++ (k, r') :: l2) /\ tend lo (l1 ++ (k, r') :: l2) = tend lo (l1 ++ (k, r) :: l2).
Proof.
  intros (E1 & E2 & E3 & E4 & E5 & E6). rewrite !tiled_app, !tend_app; simpl.
  unfold aligned_ok. rewrite E1, E2, E3, E4. tauto.
Qed.

Lemma set_same_shape a k r r' :
  ra_wf a -> (k, r) ∈ ra_regions a -> ri_live r = true -> same_shape r r' ->
  let a' := ra_with_regions (om_set k r' (ra_regions a)) a in
  ra_wf a' /\ same_books a a' /\ (forall b, owner_at (ra_regions a') b = owner_at (ra_regions a) b)
  /\ (forall k0 r0, ri_live r0 = true -> (k0, r0) ∈ ra_regions a' <->
        (k0, r0) ∈ ra_regions a /\ k0 <> k \/ (k0, r0) = (k, r')).
Proof.
  intros Hwf Hin Hl Hsh a'.
  destruct (ra_wf_split _ _ _ Hwf Hin) as (l1 & l2 & E & _ & _ & _ & _ & _ & _ & _ & _ & Klt & Kgt).
  assert (E' : ra_regions a' = l1 ++ (k, r') :: l2) by (unfold a'; simpl; rewrite E; by apply om_set_at).
  pose proof (wf_tiled _ Hwf) as T. pose proof (wf_end _ Hwf) as Te. rewrite E in T, Te.
  destruct (same_shape_tiled _ _ _ _ _ _ _ Hsh T) as [T' Te'].
  pose proof Hsh as (S1 & S2 & S3 & S4 & S5 & S6).
  assert (Hlive : forall k0 r0, ri_live r0 = true -> (k0, r0) ∈ ra_regions a' <->
        (k0, r0) ∈ ra_regions a /\ k0 <> k \/ (k0, r0) = (k, r')).
  { intros k0 r0 _. rewrite E, E', !elem_of_app, !elem_of_cons. split; [|naive_solver].
    pose proof (keys_split_not_elem _ _ _ Klt Kgt) as Hni.
    assert (Hne : (k0, r0) ∈ l1 \/ (k0, r0) ∈ l2 -> k0 <> k).
    { intros Hi ->. apply Hni. apply list_elem_of_fmap. exists (k, r0). by rewrite elem_of_app. }
    naive_solver. }
  split_and!; try done.
  - constructor; try apply Hwf; rewrite ?E'; auto.
    + by rewrite Te', Te.
    + simpl. rewrite (wf_live_bytes _ Hwf), E. autorewrite with gms_rw. by rewrite S2, S4.
    + simpl. rewrite (wf_live_count _ Hwf), E. autorewrite with gms_rw. by rewrite S4.
    + pose proof (wf_indexed _ Hwf) as [Hok Hp]. split; [done|]. simpl. rewrite Hp, E.
      rewrite !free_slots_of_app; simpl. by rewrite S4, Hl.
    + intros id off. simpl. rewrite (wf_offsets _ Hwf id off), E.
      setoid_rewrite elem_of_app. setoid_rewrite elem_of_cons. split.
      * intros (r0 & [|[|]] & ? & ?); [exists r0; naive_solver| |exists r0; naive_solver].
        simplify_eq. exists r'. rewrite S4, S5. auto.
      * intros (r0 & [|[|]] & ? & ?); [exists r0; naive_solver| |exists r0; naive_solver].
        simplify_eq. exists r. rewrite <- S4, <- S5. auto.
  - intros b. rewrite E, E', !owner_at_app; simpl. unfold covers. by rewrite S2, S4, S5, S6.
Qed.

(** What [pin] and [unpin] make of the region they find. *)
Definition pinned_region (r : RegionInfo) : RegionInfo :=
  ri_with_pin Movability.PINNED (add32 (ri_pin_count r) 1) r.

Definition unpinned_region (r : RegionInfo) : RegionInfo :=
  ri_with_pin (if sub32 (ri_pin_count r) 1 =? 0 then Movability.MOVABLE else ri_movability r)
    (sub32 (ri_pin_count r) 1) r.

(** The state in which only the region of a handle has been replaced. *)
Definition only_region (a : RegionAllocator) (r r' : RegionInfo) (a' : RegionAllocator) : Prop :=
  ra_wf a' /\ same_books a a'
  /\ (forall b, owner_at (ra_regions a') b = owner_at (ra_regions a) b)
  /\ (forall k0 r0, ri_live r0 = true -> (k0, r0) ∈ ra_regions a' <->
        (k0, r0) ∈ ra_regions a /\ k0 <> ri_offset r \/ (k0, r0) = (ri_offset r, r')).

Lemma pin_cases a id gen :
  ra_wf a ->
  exists a' res, pin id gen a = Some (a', res) /\
  match res with
  | Err f => a' = a /\ reason f = RejectReason.STALE_GENERATION /\ forall r, ~ held a id gen r
  | Ok r' => exists r, held a id gen r /\ r' = pinned_region r /\ only_region a r r' a'
  end.
Proof.
  intros Hwf. unfold pin.
  destruct (handle_cases a id gen Hwf) as [(r & Hh & -> & ->)|[Hst [->|(off & r & -> & -> & -> & Hg)]]].
  - pose proof Hh as (Hin & Hl & Hid & Hg). rewrite Hl, bool_decide_true by done; simpl.
    eexists _, _. split; [done|]. exists r. split_and!; auto.
    by apply (set_same_shape a (ri_offset r) r).
  - by eexists _, _.
  - rewrite bool_decide_false by done. by eexists _, _.
Qed.

Lemma unpin_cases a id gen :
  ra_wf a ->
  exists a' res, unpin id gen a = Some (a', res) /\
  match res with
  | Err f => a' = a
      /\ ((forall r, ~ held a id gen r) /\ reason f = RejectReason.STALE_GENERATION
          \/ (exists r, held a id gen r /\ ri_pin_count r = 0) /\ reason f = RejectReason.INVALID_REQUEST)
  | Ok r' => exists r, held a id gen r /\ ri_pin_count r <> 0
      /\ r' = unpinned_region r /\ only_region a r r' a'
  end.
Proof.
  intros Hwf. unfold unpin.
  destruct (handle_cases a id gen Hwf) as [(r & Hh & -> & ->)|[Hst [->|(off & r & -> & -> & -> & Hg)]]].
  - pose proof Hh as (Hin & Hl & Hid & Hg). rewrite Hl, bool_decide_true by done; simpl.
    destruct (Z.eqb_spec (ri_pin_count r) 0).
    { eexists _, _. split; [done|]. simpl. split; [done|]. right. eauto. }
    eexists _, _. split; [done|]. exists r. split_and!; auto.
    by apply (set_same_shape a (ri_offset r) r).
  - eexists _, _. split; [done|]. simpl. auto.
  - rewrite bool_decide_false by done. eexists _, _. split; [done|]. simpl. auto.
Qed.

(** ** The cached summary *)

Lemma ensure_summary_wf a : ra_wf a -> ra_wf (ensure_summary a).
Proof.
  intros Hwf. unfold ensure_summary. destruct (ra_summary_dirty a) eqn:Hd; simpl; [|done].
  constructor; try apply Hwf. done.
Qed.

(** What the accessors return, whatever the state of the cache. *)
Lemma summary_values a :
  ra_wf a ->
  free_region_count a = Z.of_nat (length (ra_free_slots a))
  /\ largest_free_region a = match last (ra_free_slots a) with Some s => fs_size s | None => 0 end.
Proof.
  intros Hwf. unfold free_region_count, largest_free_region, ensure_summary.
  destruct (ra_summary_dirty a) eqn:Hd; simpl; [done|]. by apply (wf_summary _ Hwf).
Qed.

Lemma free_slot_le_largest a s : ra_wf a -> s ∈ ra_free_slots a -> fs_size s <= largest_free_region a.
Proof.
  intros Hwf Hs. rewrite (proj2 (summary_values _ Hwf)).
  destruct (os_last_max _ _ (proj1 (wf_indexed _ Hwf)) Hs) as (m & -> & _ & [->|Hlt]); [done|].
  change (fs_size s < fs_size m \/ fs_size s = fs_size m /\ fs_offset s < fs_offset m) in Hlt. lia.
Qed.

(** [largest_free_region] is the length of the longest run of unowned bytes. *)
Lemma largest_free_run a n :
  ra_wf a -> 0 < n ->
  n <= largest_free_region a <->
  exists o, 0 <= o /\ o + n <= ra_capacity a
    /\ forall b, o <= b < o + n -> owner_at (ra_regions a) b = None.
Proof.
  intros Hwf Hn. pose proof (wf_indexed _ Hwf) as [Hok Hp]. split.
  - rewrite (proj2 (summary_values _ Hwf)). destruct (last (ra_free_slots a)) as [s|] eqn:Hl; [|lia].
    intros Hle. apply last_Some_elem_of in Hl.
    rewrite Hp in Hl. apply free_slots_of_elem in Hl as (r & Hin & Hr & Hs).
    destruct (ra_wf_split _ _ _ Hwf Hin) as
      (pre & post & E & Tpre & Epre & _ & _ & _ & _ & Tpost & _).
    destruct (ra_wf_bounds _ _ _ Hwf Hin) as (_ & ? & ? & ? & _).
    exists (fs_offset s). split_and!; [lia|lia|]. intros b Hb.
    rewrite E, owner_at_app; simpl. rewrite covers_free by done.
    rewrite (owner_at_outside 0 false pre) by (done || lia).
    apply (owner_at_outside _ _ _ _ Tpost). lia.
  - intros (o & Ho & Hc & Hfree).
    destruct (free_run_in_region 0 false (ra_regions a) o n) as (pre & k & r & post & E & Hr & Hk & Hkr);
      auto; [apply (wf_tiled _ Hwf)|by rewrite (wf_end _ Hwf)|].
    enough (ri_size r <= largest_free_region a) by lia.
    apply (free_slot_le_largest a (mk_slot (ri_size r) k) Hwf). rewrite Hp.
    apply free_slots_of_elem. exists r. rewrite E. split_and!; [set_solver|done..].
Qed.

Lemma largest_free_le_free a : ra_wf a -> 0 <= largest_free_region a <= free_bytes a.
Proof.
  intros Hwf. rewrite (ra_wf_free_bytes _ Hwf), (wf_live_bytes _ Hwf).
  rewrite (proj2 (summary_values _ Hwf)). pose proof (ra_wf_live_bytes _ Hwf) as Hb.
  rewrite (wf_live_bytes _ Hwf) in Hb.
  destruct (last (ra_free_slots a)) as [s|] eqn:Hl; [|lia]. apply last_Some_elem_of in Hl.
  rewrite (proj2 (wf_indexed _ Hwf)) in Hl. apply free_slots_of_elem in Hl as (r & Hin & Hr & Hs).
  destruct (ra_wf_split _ _ _ Hwf Hin) as
    (pre & post & E & Tpre & Epre & _ & Hrs & _ & _ & Tpost & Epost & _).
  rewrite E in *. autorewrite with gms_rw in *. rewrite Hr in *.
  pose proof (live_sum_bounds _ _ _ Tpre). pose proof (live_sum_bounds _ _ _ Tpost). lia.
Qed.

(** ** Snapshots and counters *)

Lemma snapshot_live_elem a r :
  ra_wf a -> r ∈ snapshot_live a <-> (ri_offset r, r) ∈ ra_regions a /\ ri_live r = true.
Proof.
  intros Hwf. unfold snapshot_live, om_values. rewrite list_elem_of_In, filter_In, <- list_elem_of_In.
  rewrite list_elem_of_fmap. split.
  - intros [([k r'] & -> & Hin) Hl]. simpl in *. destruct (ra_wf_bounds _ _ _ Hwf Hin) as (-> & _). done.
  - intros [Hin Hl]. split; [|done]. by exists (ri_offset r, r).
Qed.

(** The counting loops of [movable_bytes] and [pinned_bytes] never wrap. *)
Definition sel_sum (sel : RegionInfo -> bool) (l : omap Z RegionInfo) : Z :=
  zsum (fun kv => if ri_live kv.2 && sel kv.2 then ri_size kv.2 else 0) l.

Lemma sum_live_loop sel l s :
  (forall k r, (k, r) ∈ l -> 0 < ri_size r) -> 0 <= s -> s + sel_sum sel l < U64 ->
  fold_left (fun s kv => if ri_live kv.2 && sel kv.2 then add64 s (ri_size kv.2) else s) l s
  = s + sel_sum sel l /\ 0 <= sel_sum sel l.
Proof.
  revert s. induction l as [|[k r] l IH]; intros s Hp Hs Hb; [unfold sel_sum; simpl; lia|].
  unfold sel_sum in *. rewrite zsum_cons in *. simpl in *.
  pose proof (Hp k r ltac:(set_solver)).
  assert (0 <= zsum (fun kv : Z * RegionInfo => if ri_live kv.2 && sel kv.2 then ri_size kv.2 else 0) l).
  { apply zsum_nonneg. intros [k' r'] Hin. simpl. pose proof (Hp k' r' ltac:(set_solver)).
    destruct (ri_live r' && sel r'); lia. }
  assert (Hstep : (if ri_live r && sel r then add64 s (ri_size r) else s)
                  = s + (if ri_live r && sel r then ri_size r else 0)).
  { destruct (ri_live r && sel r); [|lia]. apply add64_small. lia. }
  rewrite Hstep. assert (Hp' : forall k' r', (k', r') ∈ l -> 0 < ri_size r').
  { intros k' r' Hin. apply (Hp k'). set_solver. }
  destruct (ri_live r && sel r); (edestruct IH as [-> ?]; [exact Hp'|..]); lia.
Qed.

Lemma sel_sum_le sel l :
  (forall k r, (k, r) ∈ l -> 0 < ri_size r) -> 0 <= sel_sum sel l <= live_sum l.
Proof.
  unfold sel_sum, live_sum. induction l as [|[k r] l IH]; intros Hp; [simpl; lia|].
  rewrite !zsum_cons; simpl. pose proof (Hp k r ltac:(set_solver)).
  specialize (IH (fun k' r' H => Hp k' r' (list_elem_of_further _ _ _ H))).
  destruct (ri_live r), (sel r); simpl; lia.
Qed.

Lemma sum_live_spec sel a :
  ra_wf a -> sum_live sel a = sel_sum sel (ra_regions a) /\ 0 <= sel_sum sel (ra_regions a) <= ra_live_bytes a.
Proof.
  intros Hwf. assert (Hp : forall k r, (k, r) ∈ ra_regions a -> 0 < ri_size r).
  { intros k r Hin. by destruct (ra_wf_bounds _ _ _ Hwf Hin) as (_ & _ & ? & _). }
  pose proof (sel_sum_le sel _ Hp) as Hle. rewrite <- (wf_live_bytes _ Hwf) in Hle.
  pose proof (ra_wf_live_bytes _ Hwf). pose proof (wf_cap _ Hwf).
  destruct (sum_live_loop sel (ra_regions a) 0 Hp) as [E _]; [lia..|].
  unfold sum_live. rewrite E. lia.
Qed.

(** The movable and the pinned bytes are disjoint parts of the live bytes. *)
Lemma movable_pinned_le a : ra_wf a -> movable_bytes a + pinned_bytes a <= ra_live_bytes a.
Proof.
  intros Hwf. unfold movable_bytes, pinned_bytes. rewrite !(fun s => proj1 (sum_live_spec s a Hwf)).
  assert (Hp : forall k r, (k, r) ∈ ra_regions a -> 0 < ri_size r).
  { intros k r Hin. by destruct (ra_wf_bounds _ _ _ Hwf Hin) as (_ & _ & ? & _). }
  rewrite (wf_live_bytes _ Hwf). unfold sel_sum, live_sum. clear Hwf.
  induction (ra_regions a) as [|[k r] l IH]; [simpl; lia|]. rewrite !zsum_cons; simpl.
  specialize (IH (fun k' r' H => Hp k' r' (list_elem_of_further _ _ _ H))).
  pose proof (Hp k r ltac:(set_solver)).
  destruct (ri_live r); simpl; [|lia]. case_bool_decide as H1; case_bool_decide as H2; try lia.
  congruence.
Qed.

(** ** verify *)

(** What the container and the field types guarantee whatever the operations did. *)
Definition regions_sane (cap : Z) (l : omap Z RegionInfo) : Prop :=
  om_ok l /\ forall k r, (k, r) ∈ l ->
    ri_offset r = k /\ in_u64 k /\ 0 < ri_size r <= cap
    /\ (ri_live r = true -> in_u64 (ri_alignment r)).

Lemma verify_message m v msg : verify_loop m v = inl msg -> msg <> ""%string.
Proof.
  revert v. induction m as [|[k r] m IH]; intros v; simpl; [done|].
  intros H. guards_in H; eauto; intros E; apply (f_equal String.length) in E;
    simpl in E; discriminate E.
Qed.

(** The alignment test of the loop is [is_pow2]. *)
Lemma verify_alignment al :
  (al =? 0) || negb (Z.land al (sub64 al 1) =? 0) = negb (is_pow2 al).
Proof. unfold is_pow2. by destruct (al =? 0), (Z.land al (sub64 al 1) =? 0). Qed.

Lemma tend_shift lo l : tend lo l = lo + tend 0 l.
Proof.
  revert lo. induction l as [|[k r] l IH]; intros lo; simpl; [lia|].
  rewrite IH, (IH (0 + ri_size r)). lia.
Qed.

(** The running end wraps only after the last region, where it does no harm. *)
Lemma tiled_wrap cap lo k r pf l :
  regions_sane cap ((k, r) :: l) -> cap < U64 -> k = lo ->
  tiled (add64 lo (ri_size r)) pf l <-> tiled (lo + ri_size r) pf l.
Proof.
  intros [[Hgt _]%om_ok_cons Hl] Hcap ->. destruct (Hl lo r ltac:(set_solver)) as (_ & Hk & Hs & _).
  unfold in_u64 in Hk. destruct (Z.lt_ge_cases (lo + ri_size r) U64).
  { by rewrite add64_small by lia. }
  rewrite add64_wrap by lia. destruct l as [|[k' r'] l]; simpl; [done|].
  destruct (Hl k' r' ltac:(set_solver)) as (_ & Hk' & _). unfold in_u64 in Hk'.
  apply Forall_cons in Hgt as [Hgt _]. change (lo < k') in Hgt. split; intros (? & _); lia.
Qed.

(** The loop returns early exactly when the regions from [k] on do not tile. *)
Lemma verify_loop_spec cap l lo v :
  regions_sane cap l -> cap < U64 -> in_u64 lo -> vs_expected v = lo ->
  (vs_have_prev v = true -> vs_prev_end v = lo) ->
  in_u64 (vs_live_sum v) -> in_u64 (vs_free_count v) ->
  let pf := vs_have_prev v && vs_prev_free v in
  match verify_loop l v with
  | inl _ => ~ tiled lo pf l
  | inr v' => tiled lo pf l
      /\ vs_expected v' = tend lo l mod U64
      /\ vs_live_sum v' = (vs_live_sum v + live_sum l) mod U64
      /\ vs_free_count v' = (vs_free_count v + Z.of_nat (length (free_slots_of l))) mod U64
  end.
Proof.
  intros Hsane Hcap. revert lo v Hsane.
  induction l as [|[k r] l IH]; intros lo v Hsane Hlo He Hp Hus Huc pf; simpl.
  { change (live_sum []) with 0; rewrite !Z.add_0_r, !Z.mod_small by done. done. }
  pose proof Hsane as [Hok Hl]. destruct (Hl k r ltac:(set_solver)) as (Hro & Hk & Hs & Hal).
  pose proof Hok as [Hgt Hok']%om_ok_cons. rewrite He.
  destruct (Z.eqb_spec k lo) as [E0|Hne]; simpl; [|naive_solver].
  assert (E1 : vs_have_prev v && (vs_prev_end v >? k) = false).
  { destruct (vs_have_prev v); [|done]. rewrite Hp, E0 by done. rewrite Z.gtb_ltb. simpl.
    apply Z.ltb_irrefl. }
  assert (E2 : vs_have_prev v && (vs_prev_free v && negb (ri_live r) && (vs_prev_end v =? k))
               = pf && negb (ri_live r)).
  { unfold pf. destruct (vs_have_prev v); [|done]. rewrite Hp, E0, Z.eqb_refl by done. simpl.
    by rewrite andb_true_r. }
  rewrite E1, E2, verify_alignment.
  destruct (pf && negb (ri_live r)) eqn:Hpf.
  { apply andb_true_iff in Hpf as [-> Hr%negb_true_iff]. intros (_ & _ & _ & H & _).
    by rewrite H in Hr. }
  assert (Hpf' : pf = true -> ri_live r = true).
  { intros E. rewrite E in Hpf. simpl in Hpf. by apply negb_false_iff in Hpf. }
  destruct (ri_live r && negb (is_pow2 (ri_alignment r))) eqn:Hb1.
  { apply andb_true_iff in Hb1 as [Hr Hb1%negb_true_iff]. intros (_ & _ & _ & _ & H & _).
    destruct (H Hr) as (_ & H2 & _). congruence. }
  destruct (ri_live r && negb (k mod ri_alignment r =? 0)) eqn:Hb2.
  { apply andb_true_iff in Hb2 as [Hr Hb2%negb_true_iff%Z.eqb_neq]. intros (_ & _ & _ & _ & H & _).
    by destruct (H Hr) as (_ & _ & H2). }
  assert (Halr : aligned_ok k r).
  { intros Hr. rewrite Hr in Hb1, Hb2. simpl in *. apply negb_false_iff in Hb1, Hb2.
    apply Z.eqb_eq in Hb2. split_and!; auto. }
  assert (Hsane' : regions_sane cap l).
  { split; [done|]. intros k' r' Hin. apply Hl. set_solver. }
  match goal with |- context [verify_loop l ?v0] =>
    specialize (IH (add64 k (ri_size r)) v0 Hsane' (add64_range _ _) eq_refl (fun _ => eq_refl))
  end.
  simpl in IH. specialize (IH ltac:(destruct (ri_live r); [apply add64_range|done])
                              ltac:(destruct (ri_live r); [done|apply add64_range])).
  simpl in IH. rewrite E0 in IH. rewrite E0.
  destruct (verify_loop l _) as [msg|v'].
  { rewrite (tiled_wrap cap lo k r) in IH by done. intros (_ & _ & _ & _ & _ & H). done. }
  rewrite (tiled_wrap cap lo k r) in IH by done.
  destruct IH as (T & Ee & Es & Ec). split_and!; auto; try lia.
  - by rewrite <- E0.
  - rewrite Ee, (tend_shift (add64 _ _)), (tend_shift (lo + _)). unfold add64.
    by rewrite Zplus_mod_idemp_l.
  - rewrite Es. autorewrite with gms_rw. destruct (ri_live r); [|done]. unfold add64.
    rewrite Zplus_mod_idemp_l. f_equal. lia.
  - rewrite Ec. destruct (ri_live r); [done|]. unfold add64. rewrite Zplus_mod_idemp_l.
    simpl length. f_equal. lia.
Qed.

(** No region is empty, so there are at most as many free ones as bytes. *)
Lemma tiled_length lo pf l :
  tiled lo pf l -> Z.of_nat (length (free_slots_of l)) <= tend lo l - lo.
Proof.
  revert lo pf. induction l as [|[k r] l IH]; intros lo pf; simpl; [lia|].
  intros (_ & _ & Hs & _ & _ & T%IH). destruct (ri_live r); simpl; lia.
Qed.

(** The end of a tiling whose last region ends at most at [U64 + cap]. *)
Lemma sane_end cap lo pf l :
  regions_sane cap l -> in_u64 cap -> tiled lo pf l -> in_u64 lo ->
  tend lo l mod U64 = cap -> tend lo l = cap.
Proof.
  intros [_ Hl] Hcap T Hlo He. unfold in_u64 in *.
  destruct (snoc_cases l) as [->|(l' & [k r] & ->)].
  { simpl in *. by rewrite Z.mod_small in He. }
  destruct (Hl k r ltac:(set_solver)) as (_ & Hk & Hs & _). unfold in_u64 in Hk.
  apply tiled_app in T as [_ (Hkt & _)]. rewrite tend_snoc, <- Hkt in *.
  destruct (Z.lt_ge_cases (k + ri_size r) U64).
  - by rewrite Z.mod_small in He by lia.
  - rewrite <- (Z.mod_add _ (-1)), Z.mod_small in He by (done || lia). lia.
Qed.

(** [verify] accepts a state exactly when its regions tile the arena and the books agree
    with them: the runtime check is as strong as the layout invariant. *)
Lemma verify_cases a :
  regions_sane (ra_capacity a) (ra_regions a) -> in_u64 (ra_capacity a) ->
  verify a = ""%string <->
  tiled 0 false (ra_regions a) /\ tend 0 (ra_regions a) = ra_capacity a
  /\ live_sum (ra_regions a) = ra_live_bytes a
  /\ length (free_slots_of (ra_regions a)) = length (ra_free_slots a).
Proof.
  intros Hsane Hcap. pose proof (verify_loop_spec (ra_capacity a) (ra_regions a) 0
    (mk_vs 0 0 false false 0 0) Hsane (proj2 Hcap) ltac:(done) eq_refl
    ltac:(done) ltac:(done) ltac:(done)) as Hloop. simpl in Hloop.
  unfold verify. destruct (verify_loop _ _) as [msg|v] eqn:Hv.
  { split; [intros ->; by apply verify_message in Hv|tauto]. }
  destruct Hloop as (T & Ee & Es & Ec). rewrite Ee.
  pose proof (tiled_length _ _ _ T) as Hn. pose proof (live_sum_bounds _ _ _ T) as Hb.
  destruct (Z.eqb_spec (tend 0 (ra_regions a) mod U64) (ra_capacity a)) as [He|He]; simpl.
  2: { split; [done|]. intros (_ & E & _). rewrite E, Z.mod_small in He; done. }
  apply (sane_end _ _ _ _ Hsane Hcap T) in He; [|done]. unfold in_u64 in Hcap.
  rewrite Es, Z.add_0_l, Z.mod_small by lia.
  destruct (Z.eqb_spec (live_sum (ra_regions a)) (ra_live_bytes a)) as [El|El]; simpl.
  2: { split; [done|]. intros (_ & _ & E & _). done. }
  rewrite Ec, Z.add_0_l, Z.mod_small by lia.
  destruct (Z.eqb_spec (Z.of_nat (length (free_slots_of (ra_regions a))))
              (Z.of_nat (length (ra_free_slots a)))) as [Ef|Ef]; simpl.
  - split; [|done]. intros _. split_and!; auto. lia.
  - split; [done|]. intros (_ & _ & _ & E). by rewrite E in Ef.
Qed.

Lemma ra_wf_sane a : ra_wf a -> regions_sane (ra_capacity a) (ra_regions a).
Proof.
  intros Hwf. split; [by apply ra_wf_om_ok|]. intros k r Hin.
  destruct (ra_wf_bounds _ _ _ Hwf Hin) as (? & ? & ? & ? & ?).
  unfold in_u64. split_and!; auto; try lia.
  destruct (ra_wf_split _ _ _ Hwf Hin) as (? & ? & _ & _ & _ & _ & _ & _ & Hal & _).
  intros Hr. apply (Hal Hr).
  all: intros Hr; apply (Hal Hr).
Qed.

Lemma ra_wf_verify a : ra_wf a -> verify a = ""%string.
Proof.
  intros Hwf. pose proof (wf_cap _ Hwf) as Hc. apply verify_cases.
  - by apply ra_wf_sane.
  - unfold in_u64. lia.
  - split_and!; try apply Hwf.
    + symmetry. apply Hwf.
    + symmetry. by rewrite (proj2 (wf_indexed _ Hwf)).
Qed.
