(* ===== verification/RegionSpec.v ===== *)
(** The contract of the arena and its refinement.

    The specification knows nothing of regions, free lists or merging: its state is
    the finite map from allocation ids to the generation and the byte interval they
    hold, and a request may be placed at any aligned interval nobody holds.
    [ra_step_refines] shows that every operation of [RegionAllocator] is a step of
    it, refusals included: the implementation refuses only what the specification
    cannot grant. *)
From S2P Require Import Prelude Words Ordered Types Floats Region RegionInv RegionAlloc.
From S2P Require Import RegionFree RegionReloc RegionQuery.
Open Scope Z_scope.

(** ** The specification *)

Record extent : Set := mk_extent { ex_gen : AllocationGeneration; ex_off : Z; ex_size : Z }.

Abbreviation arena := (gmap AllocationId extent).

Definition in_extent (e : extent) (b : Z) : Prop := ex_off e <= b < ex_off e + ex_size e.

Definition pow2 (al : Z) : Prop := exists n, 0 <= n < 64 /\ al = 2 ^ n.

(** Nobody holds a byte of [off, off + n), which lies in the arena. *)
Definition vacant (cap : Z) (s : arena) (off n : Z) : Prop :=
  0 <= off /\ off + n <= cap
  /\ forall id e b, s !! id = Some e -> off <= b < off + n -> ~ in_extent e b.

Definition grantable (cap : Z) (s : arena) (n al : Z) : Prop :=
  0 < n /\ pow2 al /\ exists p, p mod al = 0 /\ vacant cap s p (round_up n al).

Inductive ra_op : Set :=
  | OpAllocate (req : AllocRequest)
  | OpFree (id : AllocationId) (gen : AllocationGeneration)
  | OpRelocate (id : AllocationId) (gen : AllocationGeneration) (no ns na : Z)
  | OpPin (id : AllocationId) (gen : AllocationGeneration)
  | OpUnpin (id : AllocationId) (gen : AllocationGeneration)
  | OpSummary.

(** The steps of the specification; the boolean says whether the operation is granted. *)
Inductive arena_step (cap : Z) : ra_op -> arena -> bool -> arena -> Prop :=
  | step_alloc req s p :
      0 < aq_bytes req -> pow2 (aq_alignment req) -> p mod aq_alignment req = 0 ->
      vacant cap s p (round_up (aq_bytes req) (aq_alignment req)) ->
      arena_step cap (OpAllocate req) s true
        (<[aq_alloc_id req := mk_extent (aq_alloc_generation req) p
             (round_up (aq_bytes req) (aq_alignment req))]> s)
  | step_alloc_refused req s :
      ~ grantable cap s (aq_bytes req) (aq_alignment req) ->
      arena_step cap (OpAllocate req) s false s
  | step_free id gen s e :
      s !! id = Some e -> ex_gen e = gen -> arena_step cap (OpFree id gen) s true (delete id s)
  | step_relocate id gen no ns na s e :
      s !! id = Some e -> ex_gen e = gen ->
      pow2 na -> 0 < ns -> no mod na = 0 -> vacant cap s no ns ->
      arena_step cap (OpRelocate id gen no ns na) s true (<[id := mk_extent (gen_next gen) no ns]> s)
  | step_relocate_refused id gen no ns na s :
      ~ (pow2 na /\ 0 < ns /\ no mod na = 0 /\ vacant cap s no ns) ->
      arena_step cap (OpRelocate id gen no ns na) s false s
  | step_pin id gen s e :
      s !! id = Some e -> ex_gen e = gen -> arena_step cap (OpPin id gen) s true s
  | step_unpin id gen s e granted :
      s !! id = Some e -> ex_gen e = gen -> arena_step cap (OpUnpin id gen) s granted s
  | step_stale op id gen s :
      (op = OpFree id gen \/ op = OpPin id gen \/ op = OpUnpin id gen
       \/ exists no ns na, op = OpRelocate id gen no ns na) ->
      (forall e, s !! id = Some e -> ex_gen e <> gen) -> arena_step cap op s false s
  | step_summary s : arena_step cap OpSummary s true s.

(** ** The implementation *)

(** One call on the arena; the [Result] is irrelevant to [OpSummary], which only
    refreshes the cache. *)
Definition ra_step (op : ra_op) (a : RegionAllocator) : option (RegionAllocator * bool) :=
  match op with
  | OpAllocate req => option_map (fun p => (p.1, result_ok p.2)) (allocate req a)
  | OpFree id gen => let p := free id gen a in Some (p.1, result_ok p.2)
  | OpRelocate id gen no ns na => let p := relocate id gen no ns na a in Some (p.1, result_ok p.2)
  | OpPin id gen => option_map (fun p => (p.1, result_ok p.2)) (pin id gen a)
  | OpUnpin id gen => option_map (fun p => (p.1, result_ok p.2)) (unpin id gen a)
  | OpSummary => Some (ensure_summary a, true)
  end.

(** Arguments a caller can pass: 64-bit words, and an allocation id not in use. *)
Definition op_ok (op : ra_op) (a : RegionAllocator) : Prop :=
  match op with
  | OpAllocate req => request_ok req a
  | OpRelocate _ _ no ns na => in_u64 no /\ in_u64 ns /\ in_u64 na
  | _ => True
  end.

(** The abstraction function: what [alloc_offset_] and [regions_] say each id holds. *)
Definition extent_of (a : RegionAllocator) (off : Z) : option extent :=
  r ← om_find off (ra_regions a);
  if ri_live r then Some (mk_extent (ri_alloc_generation r) (ri_offset r) (ri_size r)) else None.

Definition ra_abs (a : RegionAllocator) : arena := base.omap (extent_of a) (ra_alloc_offset a).

Lemma ra_abs_lookup a id e :
  ra_wf a -> ra_abs a !! id = Some e <->
  exists r, held a id (ex_gen e) r /\ ri_offset r = ex_off e /\ ri_size r = ex_size e.
Proof.
  intros Hwf. unfold ra_abs. rewrite lookup_omap. split.
  - intros (off & Hlk & He)%bind_Some. destruct (ra_wf_lookup _ _ _ Hwf Hlk) as (r & Hin & Hf & Hl & Hid).
    unfold extent_of in He. rewrite Hf in He; simpl in He. rewrite Hl in He. simplify_eq; simpl.
    destruct (ra_wf_bounds _ _ _ Hwf Hin) as (<- & _). exists r. by split_and!.
  - intros (r & Hh & Ho & Hs). destruct (held_lookup _ _ _ _ Hwf Hh) as [-> Hf]. simpl.
    unfold extent_of. rewrite Hf; simpl. destruct Hh as (_ & -> & _ & ->).
    destruct e; simpl in *; congruence.
Qed.

(** Two well-formed states with the same live regions have the same abstraction. *)
Lemma ra_abs_ext a a' :
  ra_wf a -> ra_wf a' ->
  (forall id gen r, held a' id gen r <-> held a id gen r) -> ra_abs a' = ra_abs a.
Proof.
  intros Hwf Hwf' Hh. apply map_eq. intros id. apply option_eq. intros e.
  rewrite !ra_abs_lookup by done. by setoid_rewrite Hh.
Qed.

(** The owner of a byte is the id whose extent contains it. *)
Lemma owner_at_held a b id gen :
  ra_wf a -> owner_at (ra_regions a) b = Some (id, gen) <->
  exists r, held a id gen r /\ ri_offset r <= b < ri_offset r + ri_size r.
Proof.
  intros Hwf. split.
  - intros Ho.
    assert (Hex : exists k r, (k, r) ∈ ra_regions a /\ covers k r b = true
              /\ ri_alloc_id r = id /\ ri_alloc_generation r = gen).
    { clear Hwf. induction (ra_regions a) as [|[k r] l IH]; simpl in *; [done|].
      destruct (covers k r b) eqn:Hc; [simplify_eq; exists k, r; set_solver|].
      destruct (IH Ho) as (k' & r' & ? & ?). exists k', r'. set_solver. }
    destruct Hex as (k & r & Hin & Hc & <- & <-). unfold covers in Hc. zbool.
    destruct (ra_wf_bounds _ _ _ Hwf Hin) as (<- & _). exists r. split_and!; done.
  - intros (r & (Hin & Hl & Hid & Hg) & Hb).
    destruct (ra_wf_split _ _ _ Hwf Hin) as (pre & post & E & Tpre & Epre & _).
    rewrite E, owner_at_app. rewrite (owner_at_outside 0 false pre) by (done || lia). simpl.
    unfold covers. rewrite Hl, (proj2 (Z.leb_le _ _)), (proj2 (Z.ltb_lt _ _)) by lia. simpl. congruence.
Qed.

Lemma vacant_owner a off n :
  ra_wf a -> vacant (ra_capacity a) (ra_abs a) off n <->
  0 <= off /\ off + n <= ra_capacity a
  /\ forall b, off <= b < off + n -> owner_at (ra_regions a) b = None.
Proof.
  intros Hwf. unfold vacant. split; intros (H0 & Hc & Hf); split_and!; auto.
  - intros b Hb. destruct (owner_at (ra_regions a) b) as [[id gen]|] eqn:Ho; [|done]. exfalso.
    apply owner_at_held in Ho as (r & Hh & Hr); [|done].
    apply (Hf id (mk_extent gen (ri_offset r) (ri_size r)) b); auto.
    apply ra_abs_lookup; [done|]. by exists r.
  - intros id e b (r & Hh & Ho & Hs)%ra_abs_lookup Hb He; [|done]. unfold in_extent in He.
    specialize (Hf b Hb).
    rewrite (proj2 (owner_at_held a b id (ex_gen e) Hwf)) in Hf; [done|]. exists r. split; [done|lia].
Qed.

(** ** The abstraction of each change of the live regions *)

Lemma held_offset_id a id gen r k r' :
  ra_wf a -> held a id gen r -> (k, r') ∈ ra_regions a -> ri_live r' = true ->
  k = ri_offset r <-> ri_alloc_id r' = id.
Proof.
  intros Hwf Hh Hin' Hl'. pose proof Hh as (Hin & Hl & Hid & Hg).
  destruct (ra_wf_bounds _ _ _ Hwf Hin') as (Hk & _). split.
  - intros ->. destruct (held_lookup _ _ _ _ Hwf Hh) as [_ Hf].
    apply (om_find_elem _ _ _ (ra_wf_om_ok _ Hwf)) in Hin'. congruence.
  - intros Hid'. assert (Hh' : held a id (ri_alloc_generation r') r') by (rewrite <- Hk in Hin'; done).
    by rewrite (held_unique _ _ _ _ _ _ Hwf Hh Hh').
Qed.

Lemma held_iff a id gen r :
  ra_wf a -> held a id gen r <->
  exists k, (k, r) ∈ ra_regions a /\ ri_live r = true /\ ri_alloc_id r = id /\ ri_alloc_generation r = gen.
Proof.
  intros Hwf. split; [intros Hh; by exists (ri_offset r)|].
  intros (k & Hin & ?). destruct (ra_wf_bounds _ _ _ Hwf Hin) as (<- & _). done.
Qed.

Lemma ra_abs_insert a a' id m :
  ra_wf a -> ra_wf a' -> ri_live m = true -> ri_alloc_id m = id ->
  (forall k r, ri_live r = true -> (k, r) ∈ ra_regions a' <->
     (k, r) ∈ ra_regions a /\ ri_alloc_id r <> id \/ (k, r) = (ri_offset m, m)) ->
  ra_abs a' = <[id := mk_extent (ri_alloc_generation m) (ri_offset m) (ri_size m)]> (ra_abs a).
Proof.
  intros Hwf Hwf' Hm Hid Hlive. apply map_eq. intros id'. apply option_eq. intros e.
  rewrite lookup_insert_Some, !ra_abs_lookup by done. split.
  - intros (r & Hh & Ho & Hs). apply held_iff in Hh as (k & Hin & Hl & Hi & Hg); [|done].
    apply Hlive in Hin as [[Hin Hne]|[= -> ->]]; [| |done].
    + right. split; [congruence|]. exists r. split; [|done]. apply held_iff; [done|]. by exists k.
    + left. split; [congruence|]. destruct e; simpl in *; congruence.
  - intros [[<- <-]|(Hne & r & Hh & Ho & Hs)]; simpl.
    + exists m. split; [|done]. apply held_iff; [done|]. exists (ri_offset m).
      split; [|done]. apply Hlive; auto.
    + exists r. split; [|done]. apply held_iff in Hh as (k & Hin & Hl & Hi & Hg); [|done].
      apply held_iff; [done|]. exists k. split; [|done]. apply Hlive; [done|]. left. split; [done|congruence].
Qed.

Lemma ra_abs_delete a a' id :
  ra_wf a -> ra_wf a' ->
  (forall k r, ri_live r = true -> (k, r) ∈ ra_regions a' <->
     (k, r) ∈ ra_regions a /\ ri_alloc_id r <> id) ->
  ra_abs a' = delete id (ra_abs a).
Proof.
  intros Hwf Hwf' Hlive. apply map_eq. intros id'. apply option_eq. intros e.
  rewrite lookup_delete_Some, !ra_abs_lookup by done. split.
  - intros (r & Hh & Ho & Hs). apply held_iff in Hh as (k & Hin & Hl & Hi & Hg); [|done].
    apply Hlive in Hin as [Hin Hne]; [|done]. split; [congruence|].
    exists r. split; [|done]. apply held_iff; [done|]. by exists k.
  - intros (Hne & r & Hh & Ho & Hs). exists r. split; [|done].
    apply held_iff in Hh as (k & Hin & Hl & Hi & Hg); [|done]. apply held_iff; [done|].
    exists k. split; [|done]. apply Hlive; [done|]. split; [done|congruence].
Qed.

(** Replacing a live region by one of the same id, generation and interval. *)
Lemma ra_abs_same a a' r r' id gen :
  ra_wf a -> held a id gen r -> same_shape r r' -> only_region a r r' a' -> ra_abs a' = ra_abs a.
Proof.
  intros Hwf Hh (S1 & S2 & _ & S4 & S5 & S6) (Hwf' & _ & _ & Hlive).
  pose proof Hh as (Hin & Hl & Hid & Hg).
  rewrite (ra_abs_insert a a' id r'); [|done|done|congruence|congruence|].
  - apply insert_id. apply ra_abs_lookup; [done|]. exists r. simpl. by rewrite S1, S2, S6, Hg.
  - intros k0 r0 Hr0. rewrite Hlive, S1 by done. split.
    + intros [[Hin0 Hne]|?]; [left|by right]. split; [done|].
      rewrite <- (held_offset_id a id gen r k0 r0); auto.
    + intros [[Hin0 Hne]|?]; [left|by right]. split; [done|].
      rewrite (held_offset_id a id gen r k0 r0); auto.
Qed.

(** An id without current region is absent from the abstract state. *)
Lemma no_held_stale a id gen :
  ra_wf a -> (forall r, ~ held a id gen r) -> forall e, ra_abs a !! id = Some e -> ex_gen e <> gen.
Proof.
  intros Hwf Hno e (r & Hh & _)%ra_abs_lookup <-; [|done]. by apply (Hno r).
Qed.

(** ** Simulation *)

Section simulation.
Context (a : RegionAllocator) (Hwf : ra_wf a).

Definition simulated (op : ra_op) (a' : RegionAllocator) (granted : bool) : Prop :=
  ra_wf a' /\ ra_capacity a' = ra_capacity a
  /\ arena_step (ra_capacity a) op (ra_abs a) granted (ra_abs a').

Lemma held_abs id gen r :
  held a id gen r -> ra_abs a !! id = Some (mk_extent gen (ri_offset r) (ri_size r)).
Proof. intros Hh. apply ra_abs_lookup; [done|]. by exists r. Qed.

Lemma allocate_refines req :
  request_ok req a ->
  exists a' granted, ra_step (OpAllocate req) a = Some (a', granted) /\ simulated (OpAllocate req) a' granted.
Proof.
  intros Hreq. destruct (allocate_cases a req Hwf Hreq) as (a' & res & E & Hcase).
  simpl. rewrite E. eexists _, _. split; [done|]. destruct res as [r|f]; simpl.
  - destruct Hcase as (Hb & Hp2 & Hpl & Hwf' & Hc & H0 & Hmod & Hs & Hend & Hin & Hr & Hoff & Hlive & Hown & Hfree & _).
    assert (Hf : ri_live r = true /\ ri_alloc_id r = aq_alloc_id req
                 /\ ri_alloc_generation r = aq_alloc_generation req) by (by rewrite Hr).
    destruct Hf as (Hl & Hid & Hg). clear Hr. split_and!; auto.
    rewrite (ra_abs_insert a a' (aq_alloc_id req) r), Hg, Hs; auto.
    + destruct Hreq as (_ & Hal & _). constructor; auto; [by apply is_pow2_spec|].
      apply vacant_owner; [done|]. rewrite Hs in *. done.
    + intros k r0 Hr0. rewrite Hlive by done. split; [|tauto].
      intros [Hi|?]; [left|by right]. split; [done|]. intros Heq.
      destruct (ra_wf_bounds _ _ _ Hwf Hi) as (Hk & _).
      destruct (held_lookup a (aq_alloc_id req) (ri_alloc_generation r0) r0) as [Hlk _]; auto.
      { by rewrite <- Hk in Hi. }
      destruct Hreq as (_ & _ & Hnone). congruence.
  - destruct Hcase as (-> & _ & Hno). split_and!; auto. apply step_alloc_refused.
    intros (Hb & Hp2 & p & Hm & Hv). apply vacant_owner in Hv as (H0 & Hc & Hv); [|done].
    destruct Hreq as (_ & Hal & _). apply Hno; auto; [by apply is_pow2_spec|by exists p].
Qed.

Lemma free_refines id gen :
  exists a' granted, ra_step (OpFree id gen) a = Some (a', granted) /\ simulated (OpFree id gen) a' granted.
Proof.
  pose proof (free_cases a id gen Hwf) as Hcase. simpl. destruct (free id gen a) as [a' res].
  eexists _, _. split; [done|]. destruct res as [f|f]; simpl.
  - destruct Hcase as (r & Hh & Hwf' & Hc & _ & _ & _ & _ & _ & _ & Hlive & _).
    split_and!; auto. rewrite (ra_abs_delete a a' id); auto.
    + eapply step_free; [by apply held_abs|done].
    + intros k r0 Hr0. rewrite Hlive by done.
      split; intros [Hin Hne]; (split; [done|]); by rewrite (held_offset_id a id gen r k r0) in *.
  - destruct Hcase as (-> & _ & Hno). split_and!; auto. apply (step_stale _ _ id gen); [auto|].
    by apply no_held_stale.
Qed.

Lemma relocate_refines id gen no ns na :
  in_u64 no -> in_u64 ns -> in_u64 na ->
  exists a' granted, ra_step (OpRelocate id gen no ns na) a = Some (a', granted)
    /\ simulated (OpRelocate id gen no ns na) a' granted.
Proof.
  intros Hno Hns Hna. pose proof (relocate_cases a id gen no ns na Hwf Hno Hns Hna) as Hcase. simpl.
  destruct (relocate id gen no ns na a) as [a' res]. eexists _, _. split; [done|].
  destruct res as [m|f]; simpl.
  - destruct Hcase as (r & Hh & (Hp2 & Hs & Hm & Hb & Hf) & -> & Hwf' & Hc & _ & _ & Hlive & _).
    pose proof Hh as (Hin & Hl & Hid & Hg).
    split_and!; auto. rewrite (ra_abs_insert a a' id (moved_region no ns na gen r)); auto.
    + simpl. apply is_pow2_spec in Hp2; [|done]. eapply step_relocate; [by apply held_abs|done..|].
      apply vacant_owner; [done|].
      unfold in_u64 in *. split_and!; auto. lia.
    + intros k r0 Hr0. rewrite Hlive by done. simpl. split.
      * intros [[Hi Hne]|?]; [left|by right]. split; [done|].
        by rewrite <- (held_offset_id a id gen r k r0).
      * intros [[Hi Hne]|?]; [left|by right]. split; [done|].
        by rewrite (held_offset_id a id gen r k r0).
  - destruct Hcase as (-> & [[Hst _]|(_ & Hno' & _)]); split_and!; auto.
    + apply (step_stale _ _ id gen); [eauto 10|]. by apply no_held_stale.
    + apply step_relocate_refused. intros (Hp2 & Hs & Hm & Hv).
      apply vacant_owner in Hv as (? & ? & ?); [|done]. apply is_pow2_spec in Hp2; [|done].
      apply Hno'. by split_and!.
Qed.

Lemma pin_refines id gen :
  exists a' granted, ra_step (OpPin id gen) a = Some (a', granted) /\ simulated (OpPin id gen) a' granted.
Proof.
  destruct (pin_cases a id gen Hwf) as (a' & res & E & Hcase). simpl. rewrite E.
  eexists _, _. split; [done|]. destruct res as [r'|f]; simpl.
  - destruct Hcase as (r & Hh & -> & Ho). pose proof Ho as (Hwf' & (Hc & _) & _).
    split_and!; auto. rewrite (ra_abs_same a a' r (pinned_region r) id gen); auto; [|done].
    eapply step_pin; [by apply held_abs|done].
  - destruct Hcase as (-> & _ & Hno). split_and!; auto. apply (step_stale _ _ id gen); [auto|].
    by apply no_held_stale.
Qed.

Lemma unpin_refines id gen :
  exists a' granted, ra_step (OpUnpin id gen) a = Some (a', granted) /\ simulated (OpUnpin id gen) a' granted.
Proof.
  destruct (unpin_cases a id gen Hwf) as (a' & res & E & Hcase). simpl. rewrite E.
  eexists _, _. split; [done|]. destruct res as [r'|f]; simpl.
  - destruct Hcase as (r & Hh & _ & -> & Ho). pose proof Ho as (Hwf' & (Hc & _) & _).
    split_and!; auto. rewrite (ra_abs_same a a' r (unpinned_region r) id gen); auto; [|done].
    eapply step_unpin; [by apply held_abs|done].
  - destruct Hcase as (-> & [[Hno _]|[(r & Hh & _) _]]); split_and!; auto.
    + apply (step_stale _ _ id gen); [auto|]. by apply no_held_stale.
    + eapply step_unpin; [by apply held_abs|done].
Qed.

Lemma summary_refines :
  exists a' granted, ra_step OpSummary a = Some (a', granted) /\ simulated OpSummary a' granted.
Proof.
  eexists _, _. split; [done|]. pose proof (ensure_summary_wf a Hwf) as Hwf'.
  assert (E : ra_regions (ensure_summary a) = ra_regions a
           /\ ra_capacity (ensure_summary a) = ra_capacity a).
  { unfold ensure_summary. by destruct (negb (ra_summary_dirty a)). }
  destruct E as [E Ec]. split_and!; auto. rewrite (ra_abs_ext a (ensure_summary a)); [constructor|done..|].
  intros id gen r. unfold held. by rewrite E.
Qed.
End simulation.

Lemma ra_step_simulated a op :
  ra_wf a -> op_ok op a ->
  exists a' granted, ra_step op a = Some (a', granted) /\ simulated a op a' granted.
Proof.
  intros Hwf Hop. destruct op; simpl in Hop.
  - by apply allocate_refines.
  - by apply free_refines.
  - destruct Hop as (? & ? & ?). by apply relocate_refines.
  - by apply pin_refines.
  - by apply unpin_refines.
  - by apply summary_refines.
Qed.

(** ** Reachable states *)

Inductive reachable (cap : Z) : RegionAllocator -> Prop :=
  | reach_new : reachable cap (RegionAllocator_new cap)
  | reach_step a op a' granted :
      reachable cap a -> op_ok op a -> ra_step op a = Some (a', granted) -> reachable cap a'.

Inductive arena_reachable (cap : Z) : arena -> Prop :=
  | arena_empty : arena_reachable cap ∅
  | arena_reach_step s op granted s' :
      arena_reachable cap s -> arena_step cap op s granted s' -> arena_reachable cap s'.

Lemma reachable_wf cap a :
  0 < cap < U64 -> reachable cap a ->
  ra_wf a /\ ra_capacity a = cap /\ arena_reachable cap (ra_abs a).
Proof.
  intros Hc. induction 1 as [|a op a' granted _ (Hwf & Hcap & Hr) Hop Hst].
  - split_and!; [by apply RegionAllocator_new_wf| |].
    + unfold RegionAllocator_new. by destruct (cap >? 0).
    + assert (E : ra_abs (RegionAllocator_new cap) = ∅).
      { unfold ra_abs, RegionAllocator_new. destruct (cap >? 0); apply omap_empty. }
      rewrite E. constructor.
  - destruct (ra_step_simulated a op Hwf Hop) as (a2 & g2 & E & Hwf' & Hc' & Hs).
    assert (a2 = a' /\ g2 = granted) as [-> ->] by (rewrite E in Hst; by simplify_eq).
    rewrite Hcap in *. split_and!; auto. by eapply arena_reach_step.
Qed.

(** Any two extents of the specification are disjoint: an invariant by rule induction. *)
Definition disjoint_extents (cap : Z) (s : arena) : Prop :=
  forall id e, s !! id = Some e ->
    0 <= ex_off e /\ 0 < ex_size e /\ ex_off e + ex_size e <= cap
    /\ forall id' e' b, s !! id' = Some e' -> in_extent e b -> in_extent e' b -> id' = id.

Lemma disjoint_insert cap s id e :
  disjoint_extents cap s -> 0 < ex_size e -> vacant cap s (ex_off e) (ex_size e) ->
  disjoint_extents cap (<[id := e]> s).
Proof.
  intros Hd Hs (H0 & Hc & Hv) id1 e1 [[<- <-]|[Hne1 He1]]%lookup_insert_Some.
  - split_and!; auto. intros id2 e2 b [[<- <-]|[Hne2 He2]]%lookup_insert_Some Hb1 Hb2; [done|].
    by destruct (Hv id2 e2 b He2 Hb1).
  - destruct (Hd id1 e1 He1) as (? & ? & ? & Hx). split_and!; auto.
    intros id2 e2 b [[<- <-]|[Hne2 He2]]%lookup_insert_Some Hb1 Hb2; [|by apply (Hx id2 e2 b)].
    by destruct (Hv id1 e1 b He1 Hb2).
Qed.

Lemma disjoint_delete cap s id : disjoint_extents cap s -> disjoint_extents cap (delete id s).
Proof.
  intros Hd id1 e1 [_ He1]%lookup_delete_Some. destruct (Hd id1 e1 He1) as (? & ? & ? & Hx).
  split_and!; auto. intros id2 e2 b [_ He2]%lookup_delete_Some. by apply Hx.
Qed.

Lemma pow2_pos al : pow2 al -> 0 < al.
Proof. intros (n & ? & ->). apply Z.pow_pos_nonneg; lia. Qed.

Lemma arena_step_disjoint cap op s granted s' :
  arena_step cap op s granted s' -> disjoint_extents cap s -> disjoint_extents cap s'.
Proof.
  destruct 1; intros Hd; auto using disjoint_delete.
  - apply disjoint_insert; simpl; auto.
    pose proof (round_up_bounds (aq_bytes req) (aq_alignment req)) as Hb.
    match goal with H : pow2 _ |- _ => apply pow2_pos in H; specialize (Hb H) end. lia.
  - by apply disjoint_insert.
Qed.

Lemma disjoint_reachable cap s : arena_reachable cap s -> disjoint_extents cap s.
Proof.
  induction 1 as [|s op granted s' _ IH Hst]; [intros id e; by rewrite lookup_empty|].
  by eapply arena_step_disjoint.
Qed.
