(* ===== verification/RegionProps.v ===== *)
(** The properties of the arena allocator: the theorems about [RegionAllocator] that the
    rest of the service relies on, each with a concrete instance. *)
From S2P Require Import Prelude Words Ordered Types Floats Region RegionInv RegionAlloc.
From S2P Require Import RegionFree RegionReloc RegionQuery RegionSpec.
Open Scope Z_scope.

(** ** A concrete arena for the instances *)

Definition demo_req (id bytes al : Z) : AllocRequest :=
  mk_alloc_request bytes al Movability.MOVABLE MemoryClass.KV_CACHE Reclaimability.RECLAIM_IF_COLD
    (mk_id id) (mk_gen 1) (mk_gen 7) Provenance.REPORTED.

Definition demo0 : RegionAllocator := RegionAllocator_new 4096.

Definition demo_step (op : ra_op) (a : RegionAllocator) : RegionAllocator :=
  match ra_step op a with Some (a', _) => a' | None => a end.

(** Two allocations of 100 bytes, 64-aligned: [0, 128) and [128, 256). *)
Definition demo1 : RegionAllocator := demo_step (OpAllocate (demo_req 1 100 64)) demo0.
Definition demo2 : RegionAllocator := demo_step (OpAllocate (demo_req 2 100 64)) demo1.

Lemma demo1_step : ra_step (OpAllocate (demo_req 1 100 64)) demo0 = Some (demo1, true).
Proof. vm_compute. reflexivity. Defined.

Lemma demo2_step : ra_step (OpAllocate (demo_req 2 100 64)) demo1 = Some (demo2, true).
Proof. vm_compute. reflexivity. Defined.

Lemma demo1_req : request_ok (demo_req 2 100 64) demo1.
Proof. repeat split; vm_compute; congruence. Defined.

Lemma demo_reachable : reachable 4096 demo2.
Proof.
  apply (reach_step _ demo1 (OpAllocate (demo_req 2 100 64)) demo2 true); [|exact demo1_req|exact demo2_step].
  apply (reach_step _ demo0 (OpAllocate (demo_req 1 100 64)) demo1 true); [constructor| |exact demo1_step]. repeat split; vm_compute; congruence.
Defined.

Lemma demo0_wf : ra_wf demo0.
Proof. by apply RegionAllocator_new_wf. Defined.

Lemma demo2_wf : ra_wf demo2.
Proof. apply (reachable_wf 4096); [done|apply demo_reachable]. Defined.

(** ** Refinement and invariants *)

(** C1: the arena implements its byte-level contract.  From the constructor on,
    whatever calls are made with 64-bit arguments and unused allocation ids, the state is
    one the specification can reach, and every further call returns (no undefined
    behaviour, no out_of_range) and is a step of the specification: it is granted only
    when the specification grants it, and refused only when the specification cannot. *)
Theorem arena_refinement cap a op :
  0 < cap < U64 -> reachable cap a -> op_ok op a ->
  arena_reachable cap (ra_abs a)
  /\ exists a' granted, ra_step op a = Some (a', granted)
     /\ reachable cap a' /\ arena_step cap op (ra_abs a) granted (ra_abs a').
Proof.
  intros Hc Hr Hop. destruct (reachable_wf _ _ Hc Hr) as (Hwf & Ecap & Hs). split; [done|].
  destruct (ra_step_simulated a op Hwf Hop) as (a' & g & E & _ & _ & Hst).
  exists a', g. rewrite Ecap in Hst. split_and!; [done| |done]. by eapply reach_step.
Qed.

Lemma arena_refinement_witness :
  reachable 4096 demo2 /\
  exists a' granted, ra_step (OpFree (mk_id 1) (mk_gen 1)) demo2 = Some (a', granted)
     /\ arena_step 4096 (OpFree (mk_id 1) (mk_gen 1)) (ra_abs demo2) granted (ra_abs a').
Proof.
  split; [exact demo_reachable|].
  destruct (arena_refinement 4096 demo2 (OpFree (mk_id 1) (mk_gen 1))) as [_ (a' & g & ? & _ & ?)];
    [done|exact demo_reachable|done|eauto].
Defined.

(** No two allocations ever share a byte.  In a reachable arena the
    intervals of the current handles are inside the capacity, aligned to the requested
    alignment, and a byte in two of them belongs to one and the same handle. *)
Theorem live_regions_disjoint cap a id gen r id' gen' r' b :
  0 < cap < U64 -> reachable cap a -> held a id gen r -> held a id' gen' r' ->
  ri_offset r <= b < ri_offset r + ri_size r -> ri_offset r' <= b < ri_offset r' + ri_size r' ->
  id' = id /\ gen' = gen /\ r' = r
  /\ 0 <= ri_offset r /\ ri_offset r + ri_size r <= cap /\ ri_offset r mod ri_alignment r = 0.
Proof.
  intros Hc Hr Hh Hh' Hb Hb'. destruct (reachable_wf _ _ Hc Hr) as (Hwf & <- & Hs).
  destruct (disjoint_reachable _ _ Hs id _ (held_abs a Hwf id gen r Hh)) as (H0 & _ & He & Hx).
  assert (id' = id) as -> by (by eapply (Hx id' _ b (held_abs a Hwf id' gen' r' Hh'))).
  assert (r' = r) as -> by (by eapply held_unique).
  pose proof Hh as (Hin & Hl & _ & Hg). pose proof Hh' as (_ & _ & _ & Hg').
  destruct (ra_wf_split _ _ _ Hwf Hin) as (? & ? & _ & _ & _ & _ & _ & _ & Hal & _).
  split_and!; auto; [congruence|]. by apply Hal.
Qed.

(** The regions of the two demo allocations. *)
Definition demo_region (id : Z) (a : RegionAllocator) : RegionInfo :=
  match get (mk_id id) (mk_gen 1) a with Ok r => r | Err _ => free_region 0 0 0 Provenance.DERIVED end.

Lemma demo_held : held demo2 (mk_id 1) (mk_gen 1) (demo_region 1 demo2).
Proof.
  pose proof (get_cases demo2 (mk_id 1) (mk_gen 1) demo2_wf) as H.
  unfold demo_region. destruct (get (mk_id 1) (mk_gen 1) demo2) eqn:E; [exact H|].
  vm_compute in E. discriminate E.
Defined.

Lemma live_regions_disjoint_witness :
  (100 < 128 /\ ri_offset (demo_region 1 demo2) mod ri_alignment (demo_region 1 demo2) = 0).
Proof.
  split; [done|].
  apply (live_regions_disjoint 4096 demo2 (mk_id 1) (mk_gen 1) (demo_region 1 demo2)
           (mk_id 1) (mk_gen 1) (demo_region 1 demo2) 100);
    [done|exact demo_reachable|exact demo_held|exact demo_held|by vm_compute|by vm_compute].
Defined.

(** The runtime self-check never fires: in every reachable arena
    [verify] returns the empty string. *)
Theorem verify_always_clean cap a : 0 < cap < U64 -> reachable cap a -> verify a = ""%string.
Proof. intros Hc Hr. apply ra_wf_verify. by eapply reachable_wf. Qed.

Lemma verify_always_clean_witness : reachable 4096 demo2 /\ verify demo2 = ""%string.
Proof. split; [exact demo_reachable|]. apply (verify_always_clean 4096); [done|exact demo_reachable]. Defined.

(** C24: what the self-check decides.  On any arena, corrupted or not, whose map is sorted and has each
    region under its own offset, with 64-bit words and a size between 1 and the capacity, [verify]
    returns the empty string exactly when the regions tile [0, capacity) without gap, overlap or
    adjacent free pair, live regions are aligned to a power of two, the live bytes are the sum of
    the live sizes, and the index has as many free slots as there are free regions.  (It looks at
    the number of the slots only, not at which they are, and at no other counter.) *)
Theorem verify_decides_layout a :
  regions_sane (ra_capacity a) (ra_regions a) -> in_u64 (ra_capacity a) ->
  verify a = ""%string <->
  tiled 0 false (ra_regions a) /\ tend 0 (ra_regions a) = ra_capacity a
  /\ live_sum (ra_regions a) = ra_live_bytes a
  /\ length (free_slots_of (ra_regions a)) = length (ra_free_slots a).
Proof. apply verify_cases. Qed.

(** A corrupted arena: the first region is gone. *)
Definition demo_broken : RegionAllocator := ra_with_regions (om_erase 0 (ra_regions demo2)) demo2.

Lemma verify_decides_layout_witness :
  verify demo_broken <> ""%string /\ ~ (tiled 0 false (ra_regions demo_broken)
    /\ tend 0 (ra_regions demo_broken) = ra_capacity demo_broken
    /\ live_sum (ra_regions demo_broken) = ra_live_bytes demo_broken
    /\ length (free_slots_of (ra_regions demo_broken)) = length (ra_free_slots demo_broken)).
Proof.
  assert (Hne : verify demo_broken <> ""%string) by (intros H; vm_compute in H; discriminate H).
  assert (Hsane : regions_sane (ra_capacity demo_broken) (ra_regions demo_broken)).
  { destruct (ra_wf_sane _ demo2_wf) as [Hok Hl]. split; [exact (om_ok_erase 0 _ Hok)|].
    intros k r Hin. exact (Hl k r (om_erase_sub 0 _ _ Hin)). }
  assert (Hc : in_u64 (ra_capacity demo_broken)) by (split; vm_compute; congruence).
  split; [exact Hne|]. intros H. apply Hne. exact (proj2 (verify_decides_layout demo_broken Hsane Hc) H).
Defined.

(** ** Functional behaviour *)

(** C6: a granted request gets a fresh, aligned, in-bounds interval of its
    rounded-up size that nobody held, taken from a smallest free region that can hold it;
    it becomes the owner of exactly those bytes and nobody else's ownership changes. *)
Theorem allocate_functional a req a' r :
  ra_wf a -> request_ok req a -> allocate req a = Some (a', Ok r) ->
  ra_wf a' /\ held a' (aq_alloc_id req) (aq_alloc_generation req) r
  /\ ri_size r = footprint req /\ aq_bytes req <= ri_size r
  /\ 0 <= ri_offset r /\ ri_offset r mod aq_alignment req = 0
  /\ ri_offset r + ri_size r <= ra_capacity a
  /\ (forall b, ri_offset r <= b < ri_offset r + ri_size r -> owner_at (ra_regions a) b = None)
  /\ (forall b, owner_at (ra_regions a') b =
        if (ri_offset r <=? b) && (b <? ri_offset r + ri_size r)
        then Some (aq_alloc_id req, aq_alloc_generation req) else owner_at (ra_regions a) b)
  /\ (forall s p, s ∈ ra_free_slots a -> fits (footprint req) (aq_alignment req) s p ->
        exists s', s' ∈ ra_free_slots a /\ fs_size s' <= fs_size s
          /\ fs_offset s' <= ri_offset r /\ ri_offset r + ri_size r <= fs_offset s' + fs_size s').
Proof.
  intros Hwf Hreq E. destruct (allocate_cases a req Hwf Hreq) as (a2 & res & E2 & Hcase).
  rewrite E in E2. injection E2 as <- <-.
  destruct Hcase as (Hb & Hp2 & _ & Hwf' & _ & H0 & Hm & Hs & He & Hin & Hr & _ & _ & Hown & Hfree & Hbest & _).
  assert (Hbr : aq_bytes req <= footprint req).
  { apply round_up_bounds. apply is_pow2_pos; [apply Hreq|done]. }
  assert (Hh : held a' (aq_alloc_id req) (aq_alloc_generation req) r).
  { split; [done|]. by rewrite Hr. }
  split_and!; auto. lia.
Qed.

Lemma demo1_eq : allocate (demo_req 1 100 64) demo0 = Some (demo1, Ok (demo_region 1 demo1)).
Proof. vm_compute. reflexivity. Defined.

Lemma demo0_req : request_ok (demo_req 1 100 64) demo0.
Proof. repeat split; done. Defined.

Lemma allocate_functional_witness :
  owner_at (ra_regions demo1) 127 = Some (mk_id 1, mk_gen 1)
  /\ ri_size (demo_region 1 demo1) = footprint (demo_req 1 100 64).
Proof.
  destruct (allocate_functional demo0 (demo_req 1 100 64) demo1 (demo_region 1 demo1)
              demo0_wf demo0_req demo1_eq) as (_ & _ & Hs & _ & _ & _ & _ & _ & Ho & _).
  split; [rewrite Ho; vm_compute; reflexivity|exact Hs].
Defined.

(** C7: a refused request leaves the state untouched, carries the documented
    reason, and (when its size and alignment are legal) there really was no aligned run of
    unowned bytes for it: fragmentation is reported only when it is the cause. *)
Theorem allocate_refusals a req :
  ra_wf a -> request_ok req a ->
  exists a' res, allocate req a = Some (a', res) /\
  forall f, res = Err f ->
    a' = a /\ reason f = refusal req a
    /\ (0 < aq_bytes req -> is_pow2 (aq_alignment req) = true -> ~ placeable req a)
    /\ (reason f = RejectReason.INSUFFICIENT_CONTIGUOUS_CAPACITY -> footprint req <= free_bytes a).
Proof.
  intros Hwf Hreq. destruct (allocate_cases a req Hwf Hreq) as (a' & res & E & Hcase).
  exists a', res. split; [done|]. intros f ->. destruct Hcase as (-> & Hreason & Hno).
  split_and!; auto. rewrite Hreason. unfold refusal.
  repeat (case_match; try discriminate). intros _. by apply Z.ltb_ge.
Qed.

(** 4000 bytes do not fit next to the two demo allocations. *)
Lemma allocate_refusals_witness :
  ra_wf demo2 /\ exists a' res, allocate (demo_req 3 4000 64) demo2 = Some (a', res) /\
    forall f, res = Err f -> a' = demo2 /\ reason f = refusal (demo_req 3 4000 64) demo2.
Proof.
  split; [exact demo2_wf|].
  destruct (allocate_refusals demo2 (demo_req 3 4000 64) demo2_wf) as (a' & res & E & H).
  - repeat split; done.
  - exists a', res. split; [exact E|]. intros f Hf. destruct (H f Hf) as (? & ? & _). auto.
Defined.

(** C7: [free] accepts exactly the current handles: it releases all bytes of the
    allocation and no others, the free space stays coalesced, and from then on the handle
    is refused, so that a double free changes nothing. *)
Theorem free_functional a id gen a' res :
  ra_wf a -> free id gen a = (a', res) ->
  ra_wf a'
  /\ (result_ok res = true <-> exists r, held a id gen r)
  /\ (result_ok res = false -> a' = a)
  /\ (forall r, held a id gen r ->
        ra_live_bytes a' = ra_live_bytes a - ri_size r
        /\ (forall b, owner_at (ra_regions a') b =
              if (ri_offset r <=? b) && (b <? ri_offset r + ri_size r)
              then None else owner_at (ra_regions a) b))
  /\ (forall gen' r, ~ held a' id gen' r \/ result_ok res = false)
  /\ exists f, free id gen a' = (a', Err f) /\ reason f = RejectReason.STALE_GENERATION.
Proof.
  intros Hwf E. pose proof (free_cases a id gen Hwf) as Hcase. rewrite E in Hcase.
  destruct res as [f|f]; simpl.
  - destruct Hcase as (r & Hh & Hwf' & Hc & Hlb & Hoff & _ & _ & _ & _ & Hlive & Hown).
    assert (Hno : forall gen' r', ~ held a' id gen' r').
    { intros gen' r' [Hlk _]%held_lookup; [|done]. rewrite Hoff, lookup_delete_eq in Hlk. done. }
    pose proof (free_cases a' id gen Hwf') as Hcase2.
    destruct (free id gen a') as [a'' [f2|f2]].
    { destruct Hcase2 as (r2 & Hh2 & _). by apply Hno in Hh2. }
    destruct Hcase2 as (-> & Hreason & _). split_and!; eauto; try done.
    + by split; eauto.
    + intros r' Hh'. by rewrite (held_unique _ _ _ _ _ _ Hwf Hh' Hh).
  - destruct Hcase as (-> & Hreason & Hno). split_and!; auto.
    + split; [done|]. intros (r & Hr). by apply Hno in Hr.
    + intros r Hr. by apply Hno in Hr.
    + eauto.
Qed.

Definition demo_freed : RegionAllocator := (free (mk_id 1) (mk_gen 1) demo2).1.

Definition demo_freed_region : RegionInfo := free_region 0 128 5 Provenance.DERIVED.

Lemma demo_freed_eq : free (mk_id 1) (mk_gen 1) demo2 = (demo_freed, Ok demo_freed_region).
Proof. vm_compute. reflexivity. Defined.

Lemma free_functional_witness :
  ra_wf demo_freed /\ (forall gen' r, ~ held demo_freed (mk_id 1) gen' r \/ false = true).
Proof.
  destruct (free_functional demo2 (mk_id 1) (mk_gen 1) demo_freed (Ok demo_freed_region)
              demo2_wf demo_freed_eq) as (Hwf & _ & _ & _ & Hno & _).
  split; [exact Hwf|]. intros gen' r. left. destruct (Hno gen' r) as [H|H]; [exact H|discriminate H].
Defined.

(** What the users of an arena see of its free space depends on the ownership only. *)
Lemma same_owners_largest a a' :
  ra_wf a -> ra_wf a' -> ra_capacity a' = ra_capacity a ->
  (forall b, owner_at (ra_regions a') b = owner_at (ra_regions a) b) ->
  largest_free_region a' = largest_free_region a.
Proof.
  intros Hwf Hwf' Hc Hown.
  assert (Hiff : forall n, 0 < n -> n <= largest_free_region a' <-> n <= largest_free_region a).
  { intros n Hn. rewrite !largest_free_run by done. rewrite Hc. by setoid_rewrite Hown. }
  pose proof (largest_free_le_free a Hwf). pose proof (largest_free_le_free a' Hwf').
  pose proof (Hiff (largest_free_region a)). pose proof (Hiff (largest_free_region a')). lia.
Qed.

(** Allocating and freeing again restores the arena as its users see
    it: byte ownership, id table, free bytes and the largest free run are what they were.
    Splitting for alignment leaves no permanent fragmentation behind. *)
Theorem allocate_free_roundtrip a req a1 r :
  ra_wf a -> request_ok req a -> allocate req a = Some (a1, Ok r) ->
  exists a2 f, free (aq_alloc_id req) (aq_alloc_generation req) a1 = (a2, Ok f)
    /\ (forall b, owner_at (ra_regions a2) b = owner_at (ra_regions a) b)
    /\ ra_alloc_offset a2 = ra_alloc_offset a
    /\ free_bytes a2 = free_bytes a
    /\ largest_free_region a2 = largest_free_region a.
Proof.
  intros Hwf Hreq E. destruct (allocate_cases a req Hwf Hreq) as (x & res & E2 & Hcase).
  rewrite E in E2. injection E2 as <- <-.
  destruct Hcase as (Hb & Hp2 & _ & Hwf1 & Hc1 & H0 & Hm & Hs & He & Hin & Hr & Hoff & _ & Hown & Hfree & _ & Hlb).
  assert (Hh : held a1 (aq_alloc_id req) (aq_alloc_generation req) r) by (split; [done|]; by rewrite Hr).
  pose proof (free_cases a1 (aq_alloc_id req) (aq_alloc_generation req) Hwf1) as Hcase.
  destruct (free _ _ a1) as [a2 [f|f]]; [|by destruct Hcase as (_ & _ & Hno); destruct (Hno r)].
  destruct Hcase as (r' & Hh' & Hwf2 & Hc2 & Hlb2 & Hoff2 & _ & _ & _ & _ & _ & Hown2).
  rewrite (held_unique _ _ _ _ _ _ Hwf1 Hh' Hh) in *.
  assert (Hsame : forall b, owner_at (ra_regions a2) b = owner_at (ra_regions a) b).
  { intros b. rewrite Hown2, Hown. destruct (_ && _) eqn:Hbb; [|done]. zbool. by rewrite Hfree. }
  exists a2, f. split_and!; auto.
  - rewrite Hoff2, Hoff. apply delete_insert_id, Hreq.
  - rewrite !ra_wf_free_bytes by done. rewrite Hlb2, Hc2, Hc1, Hlb. lia.
  - apply same_owners_largest; auto. congruence.
Qed.

Lemma allocate_free_roundtrip_witness :
  exists a2 f, free (mk_id 1) (mk_gen 1) demo1 = (a2, Ok f)
    /\ largest_free_region a2 = largest_free_region demo0.
Proof.
  destruct (allocate_free_roundtrip demo0 (demo_req 1 100 64) demo1 _ demo0_wf demo0_req demo1_eq)
    as (a2 & f & E & _ & _ & _ & Hl).
  exists a2, f. split; [exact E|exact Hl].
Defined.

(** C8: [relocate] is atomic and exact.  It moves the region when the handle
    is current and the target is aligned, in bounds and held by nobody; then the target is
    the only interval the allocation owns, under the next generation, with the free space
    coalesced; in every other case the state is untouched and the reason says why. *)
Theorem relocate_functional a id gen no ns na a' res :
  ra_wf a -> in_u64 no -> in_u64 ns -> in_u64 na -> relocate id gen no ns na a = (a', res) ->
  ra_wf a'
  /\ (result_ok res = true <-> (exists r, held a id gen r) /\ target_ok a no ns na)
  /\ (forall m, res = Ok m -> held a' id (gen_next gen) m
        /\ ri_offset m = no /\ ri_size m = ns /\ ri_alignment m = na
        /\ forall b, (owner_at (ra_regions a') b = Some (id, gen_next gen) <-> no <= b < no + ns)
             /\ (forall id', id' <> id -> forall g, owner_at (ra_regions a') b = Some (id', g)
                    <-> owner_at (ra_regions a) b = Some (id', g)))
  /\ (forall f, res = Err f -> a' = a
        /\ ((forall r, ~ held a id gen r) /\ reason f = RejectReason.STALE_GENERATION
            \/ (exists r, held a id gen r) /\ reason f = relocate_refusal a no ns na)).
Proof.
  intros Hwf Hno Hns Hna E. pose proof (relocate_cases a id gen no ns na Hwf Hno Hns Hna) as Hcase.
  rewrite E in Hcase. destruct res as [m|f]; simpl.
  - destruct Hcase as (r & Hh & Ht & -> & Hwf' & _ & _ & _ & Hlive & Hown). pose proof Hh as (Hin & Hl & Hid & _).
    assert (Hm : held a' id (gen_next gen) (moved_region no ns na gen r)).
    { split; [|done]. apply Hlive; auto. }
    split_and!; auto; [by split; eauto| |done]. intros m [= <-]. split_and!; auto. intros b.
    assert (Hid_own : forall g, owner_at (ra_regions a) b = Some (id, g) ->
              ri_offset r <= b < ri_offset r + ri_size r).
    { intros g (r' & Hh' & Hb)%owner_at_held; [|done].
      by rewrite (held_unique _ _ _ _ _ _ Hwf Hh Hh'). }
    assert (Hr_own : ri_offset r <= b < ri_offset r + ri_size r -> owner_at (ra_regions a) b = Some (id, gen)).
    { intros Hb. apply owner_at_held; eauto. }
    rewrite Hown. destruct ((no <=? b) && (b <? no + ns)) eqn:Hb1.
    { zbool. split; [split; [lia|done]|]. intros id' Hne g. split; [naive_solver|].
      destruct Ht as (_ & _ & _ & _ & Hf). by rewrite Hf by lia. }
    assert (Hnb : ~ (no <= b < no + ns)) by (zbool; lia).
    destruct ((ri_offset r <=? b) && (b <? ri_offset r + ri_size r)) eqn:Hb2.
    { zbool. split; [done|]. intros id' Hne g. rewrite Hr_own by lia. naive_solver. }
    split; [|done]. split; [|done]. intros Ho%Hid_own. zbool. lia.
  - destruct Hcase as (-> & Hcase). split_and!; auto; [|done|].
    + split; [done|]. intros [(r & Hr) Ht]. destruct Hcase as [[Hst _]|(_ & Hnt & _)]; [by apply Hst in Hr|done].
    + intros f' [= <-]. split; [done|]. naive_solver.
Qed.

(** Moving the first demo allocation to [2048, 2176). *)
Definition demo_moved : RegionAllocator := (relocate (mk_id 1) (mk_gen 1) 2048 128 64 demo2).1.

Definition demo_moved_region : RegionInfo := moved_region 2048 128 64 (mk_gen 1) (demo_region 1 demo2).

Lemma demo_moved_eq :
  relocate (mk_id 1) (mk_gen 1) 2048 128 64 demo2 = (demo_moved, Ok demo_moved_region).
Proof. vm_compute. reflexivity. Defined.

Lemma relocate_functional_witness :
  ra_wf demo_moved /\ held demo_moved (mk_id 1) (gen_next (mk_gen 1)) demo_moved_region.
Proof.
  destruct (relocate_functional demo2 (mk_id 1) (mk_gen 1) 2048 128 64 demo_moved (Ok demo_moved_region)
              demo2_wf) as (Hwf & _ & Hok & _); [done..|exact demo_moved_eq|].
  split; [exact Hwf|]. apply (Hok demo_moved_region eq_refl).
Defined.

(** The cached [largest_free_region] is exact whatever the state
    of the cache: an interval of [n] bytes that nobody owns exists exactly when [n] is at
    most the reported value, which never exceeds [free_bytes]; the cached region count is
    the number of free regions. *)
Theorem largest_free_is_longest_run a n :
  ra_wf a -> 0 < n ->
  (n <= largest_free_region a <->
   exists o, 0 <= o /\ o + n <= ra_capacity a
     /\ forall b, o <= b < o + n -> owner_at (ra_regions a) b = None)
  /\ largest_free_region a <= free_bytes a
  /\ free_region_count a = Z.of_nat (length (snapshot_free a)).
Proof.
  intros Hwf Hn. split; [by apply largest_free_run|]. split; [by apply largest_free_le_free|].
  rewrite (proj1 (summary_values _ Hwf)). f_equal.
  rewrite (proj2 (wf_indexed _ Hwf)). unfold snapshot_free, om_values.
  induction (ra_regions a) as [|[k r] l IH]; simpl; [done|]. destruct (ri_live r); simpl; auto.
Qed.

Lemma largest_free_is_longest_run_witness :
  largest_free_region demo2 = 3840 /\ largest_free_region demo2 <= free_bytes demo2.
Proof.
  split; [vm_compute; reflexivity|].
  apply (largest_free_is_longest_run demo2 1 demo2_wf); done.
Defined.

(** The counting loops do not overflow and agree with the regions:
    [movable_bytes] and [pinned_bytes] are the sums over the live regions of each kind, are
    disjoint parts of [live_bytes], and live and free bytes add up to the capacity. *)
Theorem live_byte_counters a :
  ra_wf a ->
  movable_bytes a
    = sel_sum (fun r => bool_decide (ri_movability r = Movability.MOVABLE)) (ra_regions a)
  /\ pinned_bytes a
    = sel_sum (fun r => bool_decide (ri_movability r = Movability.PINNED)) (ra_regions a)
  /\ 0 <= movable_bytes a /\ 0 <= pinned_bytes a
  /\ movable_bytes a + pinned_bytes a <= ra_live_bytes a
  /\ ra_live_bytes a + free_bytes a = ra_capacity a.
Proof.
  intros Hwf.
  destruct (sum_live_spec (fun r => bool_decide (ri_movability r = Movability.MOVABLE)) a Hwf) as [E1 H1].
  destruct (sum_live_spec (fun r => bool_decide (ri_movability r = Movability.PINNED)) a Hwf) as [E2 H2].
  pose proof (movable_pinned_le a Hwf). rewrite (ra_wf_free_bytes a Hwf).
  unfold movable_bytes, pinned_bytes in *. split_and!; lia.
Qed.

Lemma live_byte_counters_witness :
  movable_bytes demo2 = 256 /\ movable_bytes demo2 + pinned_bytes demo2 <= ra_live_bytes demo2.
Proof. split; [vm_compute; reflexivity|]. apply (live_byte_counters demo2 demo2_wf). Defined.

(** C31: [pin] always sets PINNED; [unpin] undoes one [pin] of the pin count (below
    2^32 - 1 pins), leaves the layout alone, and the last unpin makes the region MOVABLE,
    whatever its movability was before it was pinned. *)
Theorem pin_unpin a id gen r :
  ra_wf a -> held a id gen r -> 0 <= ri_pin_count r < 2 ^ 32 - 1 ->
  exists a1 r1 a2 r2,
    pin id gen a = Some (a1, Ok r1) /\ ri_movability r1 = Movability.PINNED
    /\ ri_pin_count r1 = ri_pin_count r + 1
    /\ unpin id gen a1 = Some (a2, Ok r2) /\ ri_pin_count r2 = ri_pin_count r
    /\ ri_movability r2 = (if ri_pin_count r =? 0 then Movability.MOVABLE else Movability.PINNED)
    /\ ra_wf a2 /\ (forall b, owner_at (ra_regions a2) b = owner_at (ra_regions a) b).
Proof.
  intros Hwf Hh Hp. destruct (pin_cases a id gen Hwf) as (a1 & res & E1 & Hcase).
  destruct res as [r1|f]; [|by destruct Hcase as (_ & _ & Hno); destruct (Hno r)].
  destruct Hcase as (r' & Hh' & -> & Hwf1 & _ & Hown1 & Hlive1).
  rewrite (held_unique _ _ _ _ _ _ Hwf Hh' Hh) in *. clear r' Hh'.
  assert (Hpc : add32 (ri_pin_count r) 1 = ri_pin_count r + 1) by (apply Z.mod_small; unfold U32; lia).
  pose proof Hh as (Hin & Hl & Hid & Hg).
  assert (Hh1 : held a1 id gen (pinned_region r)) by (split; [apply Hlive1; auto|done]).
  destruct (unpin_cases a1 id gen Hwf1) as (a2 & res & E2 & Hcase).
  destruct res as [r2|f].
  - destruct Hcase as (r' & Hh' & _ & -> & Hwf2 & _ & Hown2 & _).
    rewrite (held_unique _ _ _ _ _ _ Hwf1 Hh' Hh1) in *.
    assert (Hpc2 : sub32 (ri_pin_count r + 1) 1 = ri_pin_count r).
    { unfold sub32. replace (ri_pin_count r + 1 - 1) with (ri_pin_count r) by lia.
      apply Z.mod_small. unfold U32. lia. }
    exists a1, (pinned_region r), a2, (unpinned_region (pinned_region r)). simpl.
    rewrite Hpc, Hpc2. split_and!; auto. intros b. by rewrite Hown2, Hown1.
  - destruct Hcase as (_ & [[Hno _]|[(r' & Hh' & H0) _]]); [by destruct (Hno (pinned_region r))|].
    rewrite (held_unique _ _ _ _ _ _ Hwf1 Hh' Hh1) in H0. simpl in H0. lia.
Qed.

Lemma pin_unpin_witness :
  ri_pin_count (demo_region 1 demo2) = 0
  /\ exists a1 r1, pin (mk_id 1) (mk_gen 1) demo2 = Some (a1, Ok r1)
       /\ ri_movability r1 = Movability.PINNED.
Proof.
  split; [vm_compute; reflexivity|].
  destruct (pin_unpin demo2 (mk_id 1) (mk_gen 1) (demo_region 1 demo2) demo2_wf demo_held)
    as (a1 & r1 & _ & _ & E & Hm & _); [vm_compute; split; [discriminate|reflexivity]|].
  exists a1, r1. split; [exact E|exact Hm].
Defined.
