(* ===== verification/Pressure.v ===== *)
(** The memory domain (include/gpu_memory_service/memory_domain.hpp) and the pressure
    model (pressure.hpp, src/pressure.cpp): watermarks, hysteresis, and what evidence
    is needed to leave UNKNOWN. *)
From S2P Require Import Prelude Words Ordered Types Floats.
Open Scope Z_scope.

(** ** memory_domain.hpp *)

Record WatermarkConfig : Set := mk_watermarks {
  wm_low : double;
  wm_high : double;
  wm_critical : double;
  wm_generation : WatermarkGeneration;
}.

Definition WatermarkConfig_default : WatermarkConfig :=
  mk_watermarks d_0_70 d_0_90 d_0_97 gen_first.

(** [a >= b] of the code is [SFleb b a]: false as soon as a NaN is involved. *)
Definition f64_ge (a b : spec_float) : bool := SFleb b a.
Definition f64_lt (a b : spec_float) : bool := SFltb a b.

Definition WatermarkConfig_valid (w : WatermarkConfig) : bool :=
  let low := d_val (wm_low w) in
  let high := d_val (wm_high w) in
  let critical := d_val (wm_critical w) in
  negb (f64_isnan low) && negb (f64_isnan high) && negb (f64_isnan critical)
  && negb (f64_isinf low) && negb (f64_isinf high) && negb (f64_isinf critical)
  && f64_ge low (d_val d_zero) && SFleb low (d_val d_one)
  && f64_ge high low && SFleb high (d_val d_one)
  && f64_ge critical high && SFleb critical (d_val d_one).

Record MemoryDomain : Set := mk_domain {
  domain_id : GpuMemoryDomainId;
  domain_generation : GpuMemoryDomainGeneration;
  device_id : DeviceId;
  device_generation : DeviceGeneration;
  total_capacity : Z;
  allocator_visible_capacity : Z;
  reserved_headroom : Z;
  managed_capacity : Z;
  current_committed : Z;
  current_physically_allocated : Z;
  current_resident : Z;
  current_reclaimable : Z;
  current_movable : Z;
  current_pinned : Z;
  dom_external_fragmentation : double;
  dom_pressure : PressureState.t;
  dom_health : DeviceHealth.t;
  dom_watermarks : WatermarkConfig;
  dom_provenance : Provenance.t;
}.

Definition dom_with_counts (committed resident movable pinned : Z) (d : MemoryDomain) : MemoryDomain :=
  mk_domain (domain_id d) (domain_generation d) (device_id d) (device_generation d)
    (total_capacity d) (allocator_visible_capacity d) (reserved_headroom d) (managed_capacity d)
    committed (current_physically_allocated d) resident (current_reclaimable d) movable pinned
    (dom_external_fragmentation d) (dom_pressure d) (dom_health d) (dom_watermarks d)
    (dom_provenance d).

Definition dom_with_status (p : PressureState.t) (h : DeviceHealth.t) (d : MemoryDomain) : MemoryDomain :=
  mk_domain (domain_id d) (domain_generation d) (device_id d) (device_generation d)
    (total_capacity d) (allocator_visible_capacity d) (reserved_headroom d) (managed_capacity d)
    (current_committed d) (current_physically_allocated d) (current_resident d)
    (current_reclaimable d) (current_movable d) (current_pinned d)
    (dom_external_fragmentation d) p h (dom_watermarks d) (dom_provenance d).

(** ** pressure.cpp *)

(** The states that hysteresis holds. *)
Definition is_held (last : PressureState.t) : bool :=
  bool_decide (last = PressureState.HIGH) || bool_decide (last = PressureState.CRITICAL)
  || bool_decide (last = PressureState.RECLAIMING).

Definition classify_pressure (utilization : spec_float) (wm : WatermarkConfig)
    (last : PressureState.t) : PressureState.t :=
  let low := d_val (wm_low wm) in
  let high := d_val (wm_high wm) in
  let critical := d_val (wm_critical wm) in
  let half_low := f64_mul low (d_val d_half) in
  if is_held last then
    if f64_lt utilization low then
      if f64_lt utilization half_low then PressureState.LOW else PressureState.NORMAL
    else if f64_ge utilization critical then PressureState.CRITICAL
    else if f64_ge utilization high then PressureState.HIGH
    else PressureState.HIGH
  else if f64_ge utilization critical then PressureState.CRITICAL
  else if f64_ge utilization high then PressureState.HIGH
  else if f64_ge utilization low then PressureState.NORMAL
  else if f64_lt utilization half_low then PressureState.LOW else PressureState.NORMAL.

Record PressureEvidence : Set := mk_evidence {
  ev_managed_capacity : Z;
  ev_committed : Z;
  ev_free : Z;
  ev_reclaimable : Z;
  ev_largest_free : Z;
  ev_fragmentation : spec_float;
  ev_watermarks : WatermarkConfig;
}.

Definition utilization (ev : PressureEvidence) : spec_float :=
  f64_div (f64_of_u64 (ev_committed ev)) (f64_of_u64 (ev_managed_capacity ev)).

Definition evaluate_pressure (ev : PressureEvidence) (last : PressureState.t) : PressureState.t :=
  if ev_managed_capacity ev =? 0 then PressureState.UNKNOWN
  else classify_pressure (utilization ev) (ev_watermarks ev) last.

(** ** Lemmas *)

(** How severe a classified state is; the states the classifier never returns are
    outside the scale. *)
Definition severity (p : PressureState.t) : Z :=
  match p with
  | PressureState.LOW => 1
  | PressureState.NORMAL => 2
  | PressureState.HIGH => 3
  | PressureState.CRITICAL => 4
  | _ => 0
  end.

Lemma classify_range u wm last :
  1 <= severity (classify_pressure u wm last) <= 4.
Proof. unfold classify_pressure. repeat case_match; simpl; lia. Qed.

(** The consequences of [valid]: three ordered, finite watermarks. *)
Lemma valid_watermarks wm :
  WatermarkConfig_valid wm = true ->
  f64_isnan (d_val (wm_low wm)) = false /\ f64_isnan (d_val (wm_high wm)) = false
  /\ f64_isnan (d_val (wm_critical wm)) = false
  /\ SFleb (d_val (wm_low wm)) (d_val (wm_high wm)) = true
  /\ SFleb (d_val (wm_high wm)) (d_val (wm_critical wm)) = true.
Proof.
  unfold WatermarkConfig_valid, f64_ge. intros Hv. zbool. split_and!; auto.
Qed.

(** Being below a watermark implies being below a higher one. *)
Lemma below_mono u a b :
  f64_isnan u = false -> f64_isnan a = false -> f64_isnan b = false ->
  SFleb a b = true -> f64_ge u a = false -> f64_ge u b = false.
Proof.
  unfold f64_ge. intros Hu Ha Hb Hab Hua. apply not_true_is_false. intros Hub.
  assert (SFleb a u = true) by (by eapply (SFleb_trans a b u)). congruence.
Qed.

Lemma f64_lt_ge u w :
  f64_isnan u = false -> f64_isnan w = false -> f64_lt u w = negb (f64_ge u w).
Proof. unfold f64_lt, f64_ge. intros. rewrite SFleb_not_SFltb by done. by rewrite negb_involutive. Qed.
