(* ===== verification/Request.v ===== *)
(** Allocation requests and records: include/gpu_memory_service/allocation.hpp and
    src/allocation.cpp. *)
From S2P Require Import Prelude Words Ordered Types.
Open Scope Z_scope.

Record AllocationRequest : Set := mk_request {
  rq_bytes : Z;
  rq_min_bytes : Z;
  rq_alignment : Z;
  rq_contiguous : bool;
  rq_mem_class : MemoryClass.t;
  rq_reclaimability : Reclaimability.t;
  rq_movability : Movability.t;
  rq_requires_pin : bool;
  rq_owner : string;
  rq_worker : WorkerId;
  rq_worker_boot : WorkerBootId;
  rq_source_boot : SourceBootId;
  rq_workload : WorkloadId;
  rq_execution : ExecutionId;
  rq_reservation_gen : ReservationGeneration;
  rq_resource_claim_gen : ResourceClaimGeneration;
  rq_placement_gen : PlacementGeneration;
  rq_policy_gen : PolicyGeneration;
  rq_backing_ref : string;
  rq_provenance : Provenance.t;
}.

Record AllocationRecord : Set := mk_record {
  rec_id : AllocationId;
  rec_generation : AllocationGeneration;
  rec_requested_bytes : Z;
  rec_region_size : Z;
  rec_offset : Z;
  rec_alignment : Z;
  rec_region_id : MemoryRegionId;
  rec_region_generation : MemoryRegionGeneration;
  rec_mem_class : MemoryClass.t;
  rec_reclaimability : Reclaimability.t;
  rec_movability : Movability.t;
  rec_pin_count : Z;
  rec_residency : ResidencyState.t;
  rec_lifecycle : LifecycleState.t;
  rec_owner : string;
  rec_worker : WorkerId;
  rec_worker_boot : WorkerBootId;
  rec_source_boot : SourceBootId;
  rec_workload : WorkloadId;
  rec_execution : ExecutionId;
  rec_relocation_generation : RelocationGeneration;
  rec_reservation_gen : ReservationGeneration;
  rec_resource_claim_gen : ResourceClaimGeneration;
  rec_placement_gen : PlacementGeneration;
  rec_policy_gen : PolicyGeneration;
  rec_backing_ref : string;
  rec_provenance : Provenance.t;
  rec_recoverable : bool;
}.

#[export] Instance AllocationRecord_eq_dec : EqDecision AllocationRecord.
Proof. solve_decision. Defined.

(** ** Field updates *)

(** A record whose residency and lifecycle have been assigned. *)
Definition rec_with_state (res : ResidencyState.t) (lc : LifecycleState.t) (r : AllocationRecord) :
    AllocationRecord :=
  mk_record (rec_id r) (rec_generation r) (rec_requested_bytes r) (rec_region_size r)
    (rec_offset r) (rec_alignment r) (rec_region_id r) (rec_region_generation r)
    (rec_mem_class r) (rec_reclaimability r) (rec_movability r) (rec_pin_count r) res lc
    (rec_owner r) (rec_worker r) (rec_worker_boot r) (rec_source_boot r) (rec_workload r)
    (rec_execution r) (rec_relocation_generation r) (rec_reservation_gen r)
    (rec_resource_claim_gen r) (rec_placement_gen r) (rec_policy_gen r) (rec_backing_ref r)
    (rec_provenance r) (rec_recoverable r).

Definition rec_with_pin (m : Movability.t) (pins : Z) (lc : LifecycleState.t)
    (r : AllocationRecord) : AllocationRecord :=
  mk_record (rec_id r) (rec_generation r) (rec_requested_bytes r) (rec_region_size r)
    (rec_offset r) (rec_alignment r) (rec_region_id r) (rec_region_generation r)
    (rec_mem_class r) (rec_reclaimability r) m pins (rec_residency r) lc
    (rec_owner r) (rec_worker r) (rec_worker_boot r) (rec_source_boot r) (rec_workload r)
    (rec_execution r) (rec_relocation_generation r) (rec_reservation_gen r)
    (rec_resource_claim_gen r) (rec_placement_gen r) (rec_policy_gen r) (rec_backing_ref r)
    (rec_provenance r) (rec_recoverable r).

Definition rec_with_place (off size : Z) (rgen : MemoryRegionGeneration) (gen : AllocationGeneration)
    (rel : RelocationGeneration) (lc : LifecycleState.t) (r : AllocationRecord) : AllocationRecord :=
  mk_record (rec_id r) gen (rec_requested_bytes r) size
    off (rec_alignment r) (rec_region_id r) rgen
    (rec_mem_class r) (rec_reclaimability r) (rec_movability r) (rec_pin_count r)
    (rec_residency r) lc
    (rec_owner r) (rec_worker r) (rec_worker_boot r) (rec_source_boot r) (rec_workload r)
    (rec_execution r) rel (rec_reservation_gen r)
    (rec_resource_claim_gen r) (rec_placement_gen r) (rec_policy_gen r) (rec_backing_ref r)
    (rec_provenance r) (rec_recoverable r).

(** ** validate_request *)

(** The two [if]s of the code whose bodies are comments have no effect. *)
Definition validate_request (req : AllocationRequest) (governed_capacity : Z) : Failure :=
  if rq_bytes req =? 0 then mk_failure RejectReason.ZERO_BYTES "zero-byte request"
  else if rq_bytes req >? governed_capacity then
    mk_failure RejectReason.REQUEST_EXCEEDS_CAPACITY "request exceeds governed capacity"
  else if (rq_alignment req =? 0) || negb (is_pow2 (rq_alignment req)) then
    mk_failure (if rq_alignment req =? 0 then RejectReason.IMPOSSIBLE_ALIGNMENT
                else RejectReason.NON_POWER_OF_TWO_ALIGNMENT) "invalid alignment"
  else if rq_min_bytes req >? rq_bytes req then
    mk_failure RejectReason.MALFORMED_LIFETIME "min_bytes exceeds requested bytes"
  else if rq_requires_pin req && bool_decide (rq_movability req = Movability.MOVABLE)
          && bool_decide (rq_reclaimability req = Reclaimability.NEVER_RECLAIM) then
    mk_failure RejectReason.CONTRADICTORY_MOVABILITY
      "pinned and never-reclaim is not contradictory but pins are non-movable"
  else no_failure.

(** What [validate_request] accepts. *)
Lemma validate_request_ok req cap :
  in_u64 (rq_alignment req) -> 0 <= rq_bytes req ->
  failure_ok (validate_request req cap) = true <->
  0 < rq_bytes req <= cap /\ is_pow2 (rq_alignment req) = true
  /\ rq_min_bytes req <= rq_bytes req
  /\ ~ (rq_requires_pin req = true /\ rq_movability req = Movability.MOVABLE
        /\ rq_reclaimability req = Reclaimability.NEVER_RECLAIM).
Proof.
  intros Hal Hb. unfold validate_request, failure_ok.
  destruct (Z.eqb_spec (rq_bytes req) 0) as [E|E]; simpl.
  { split; [done|]. intros (? & _). lia. }
  destruct (Z.gtb_spec (rq_bytes req) cap) as [Hc|Hc]; simpl.
  { split; [done|]. intros (? & _). lia. }
  destruct (Z.eqb_spec (rq_alignment req) 0) as [E0|E0]; simpl.
  { split; [done|]. intros (_ & Hp & _). by rewrite E0 in Hp. }
  destruct (is_pow2 (rq_alignment req)); simpl.
  2: { split; [done|]. by intros (_ & ? & _). }
  destruct (Z.gtb_spec (rq_min_bytes req) (rq_bytes req)) as [Hm|Hm]; simpl.
  { split; [done|]. intros (_ & _ & ? & _). lia. }
  destruct (rq_requires_pin req && bool_decide (rq_movability req = Movability.MOVABLE)
            && bool_decide (rq_reclaimability req = Reclaimability.NEVER_RECLAIM)) eqn:Hx; simpl.
  - split; [done|]. zbool. intros (_ & _ & _ & Hn). exfalso. apply Hn.
    repeat match goal with H : bool_decide _ = true |- _ => apply bool_decide_eq_true in H end. done.
  - split; [|done]. intros _. split_and!; auto; [lia|]. intros (H1 & H2 & H3).
    by rewrite H1, H2, H3 in Hx.
Qed.
