(* ===== verification/PolicyProps.v ===== *)
(** The properties of the admission check and of the pressure classifier. *)
From S2P Require Import Prelude Words Ordered Types Floats Pressure Request.
Open Scope Z_scope.

(** ** Pressure *)

Lemma severity_high p : 3 <= severity p <-> p = PressureState.HIGH \/ p = PressureState.CRITICAL.
Proof. split; [destruct p; simpl; lia || auto|intros [->| ->]; simpl; lia]. Qed.

Lemma severity_inj p q : 1 <= severity p -> p = q <-> severity p = severity q.
Proof. intros Hp. split; [by intros ->|]. destruct p, q; simpl in *; done || lia. Qed.

(** The classifier as thresholds, for ordered watermarks and a utilization that is a number. *)
Lemma classify_thresholds u wm last :
  WatermarkConfig_valid wm = true -> f64_isnan u = false ->
  let s := severity (classify_pressure u wm last) in
  (4 <= s <-> f64_ge u (d_val (wm_critical wm)) = true)
  /\ (3 <= s <-> f64_ge u (d_val (if is_held last then wm_low wm else wm_high wm)) = true)
  /\ (2 <= s <-> f64_ge u (d_val (wm_low wm)) = true
                 \/ f64_lt u (f64_mul (d_val (wm_low wm)) (d_val d_half)) = false).
Proof.
  intros (Hl & Hh & Hc & Hlh & Hhc)%valid_watermarks Hu. unfold classify_pressure.
  rewrite !(f64_lt_ge u (d_val (wm_low wm))) by done.
  assert (B1 := below_mono u _ _ Hu Hl Hh Hlh). assert (B2 := below_mono u _ _ Hu Hh Hc Hhc).
  destruct (f64_ge u (d_val (wm_low wm))) eqn:E1, (f64_ge u (d_val (wm_high wm))) eqn:E2,
    (f64_ge u (d_val (wm_critical wm))) eqn:E3; try (by specialize (B1 eq_refl));
    try (by specialize (B2 eq_refl)); destruct (is_held last), (f64_lt u (f64_mul _ _)); simpl;
    rewrite ?E1, ?E2; split_and!; split; intros; try done; try lia; auto;
    repeat match goal with H : _ \/ _ |- _ => destruct H end; done.
Qed.

(** The states that hysteresis holds, listed. *)
Lemma is_held_spec last :
  is_held last = bool_decide (last ∈ [PressureState.HIGH; PressureState.CRITICAL; PressureState.RECLAIMING]).
Proof. by destruct last. Qed.

(** C23: the classifier, watermark by watermark.  With valid watermarks and a utilization that is a
    number, the answer is CRITICAL exactly at or above the critical watermark, whatever the last
    state was: CRITICAL itself has no hysteresis, and RECLAIMING is never an answer.  HIGH has the
    hysteresis that the header promises: below critical, a last state of HIGH, CRITICAL or
    RECLAIMING gives HIGH exactly at or above the low watermark, so that NORMAL and LOW come back
    only below it, and any other last state gives HIGH exactly at or above the high watermark.  LOW
    is the answer exactly below the low watermark and below half of it; NORMAL is all the rest. *)
Theorem pressure_hysteresis u wm last :
  WatermarkConfig_valid wm = true -> f64_isnan u = false ->
  let p := classify_pressure u wm last in
  let at_least w := f64_ge u (d_val w) = true in
  let held := last ∈ [PressureState.HIGH; PressureState.CRITICAL; PressureState.RECLAIMING] in
  p ∈ [PressureState.LOW; PressureState.NORMAL; PressureState.HIGH; PressureState.CRITICAL]
  /\ (p = PressureState.CRITICAL <-> at_least (wm_critical wm))
  /\ (held -> p = PressureState.HIGH <-> at_least (wm_low wm) /\ ~ at_least (wm_critical wm))
  /\ (~ held -> p = PressureState.HIGH <-> at_least (wm_high wm) /\ ~ at_least (wm_critical wm))
  /\ (p = PressureState.LOW <->
        ~ at_least (wm_low wm) /\ f64_lt u (f64_mul (d_val (wm_low wm)) (d_val d_half)) = true).
Proof.
  intros Hv Hu p at_least held. destruct (classify_thresholds u wm last Hv Hu) as (H4 & H3 & H2).
  fold p in H4, H3, H2. pose proof (classify_range u wm last) as Hr. fold p in Hr.
  rewrite is_held_spec in H3. fold held in H3.
  assert (Hp : p ∈ [PressureState.LOW; PressureState.NORMAL; PressureState.HIGH; PressureState.CRITICAL])
    by (by destruct p; simpl in Hr; try lia; apply (bool_decide_unpack _)).
  assert (Hi : forall q, p = q <-> severity p = severity q) by (intros q; apply severity_inj; lia).
  clearbody p. split; [done|]. split; [|split; [|split]].
  - unfold at_least. rewrite <- H4, Hi. simpl. lia.
  - intros Hh. rewrite bool_decide_true in H3 by done. unfold at_least. rewrite <- H3, <- H4, Hi. simpl.
    lia.
  - intros Hh. rewrite bool_decide_false in H3 by done. unfold at_least. rewrite <- H3, <- H4, Hi. simpl.
    lia.
  - rewrite Hi. change (severity PressureState.LOW) with 1. transitivity (~ 2 <= severity p); [lia|].
    rewrite H2. unfold at_least. destruct (f64_lt u _); intuition done.
Qed.

(** At three quarters, above the low watermark and below the high one. *)
Lemma pressure_hysteresis_witness :
  let u := utilization (mk_evidence 1000 750 250 0 250 (S754_zero false) WatermarkConfig_default) in
  let p last := classify_pressure u WatermarkConfig_default last in
  p PressureState.HIGH = PressureState.HIGH /\ p PressureState.LOW <> PressureState.HIGH.
Proof.
  intros u p.
  assert (Hu : f64_isnan u = false) by (vm_compute; reflexivity).
  assert (Hw : WatermarkConfig_valid WatermarkConfig_default = true) by (vm_compute; reflexivity).
  destruct (pressure_hysteresis u WatermarkConfig_default PressureState.HIGH Hw Hu) as (_ & _ & Hh & _).
  destruct (pressure_hysteresis u WatermarkConfig_default PressureState.LOW Hw Hu) as (_ & _ & _ & Hl & _).
  split.
  - apply Hh; [by left|]. vm_compute. split; [reflexivity|discriminate].
  - intros [Hp _]%Hl; [vm_compute in Hp; discriminate Hp|]. by apply (bool_decide_unpack _).
Defined.

(** More use never looks like less pressure.  With valid watermarks and the
    same previous state, the severity of the classification grows with the utilization. *)
Theorem pressure_monotone u v wm last :
  WatermarkConfig_valid wm = true -> f64_isnan u = false -> f64_isnan v = false ->
  SFleb u v = true ->
  severity (classify_pressure u wm last) <= severity (classify_pressure v wm last).
Proof.
  intros Hw Hu Hv Huv.
  destruct (classify_thresholds u wm last Hw Hu) as (U4 & U3 & U2).
  destruct (classify_thresholds v wm last Hw Hv) as (V4 & V3 & V2).
  pose proof (classify_range u wm last) as Ru. pose proof (classify_range v wm last) as Rv.
  assert (Hge : forall w, f64_ge u w = true -> f64_ge v w = true)
    by (intros w; unfold f64_ge; intros Hw'; by eapply (SFleb_trans w u v)).
  assert (Hlt : forall w, f64_lt u w = false -> f64_lt v w = false).
  { unfold f64_lt. intros w Hw'. destruct (f64_isnan w) eqn:Hn; [by apply SFltb_nan_r|].
    apply negb_true_iff. rewrite <- SFleb_not_SFltb by done.
    eapply (SFleb_trans w u v); [done| |done]. by rewrite SFleb_not_SFltb, Hw'. }
  assert (4 <= severity (classify_pressure u wm last) -> 4 <= severity (classify_pressure v wm last))
    by (rewrite U4, V4; auto).
  assert (3 <= severity (classify_pressure u wm last) -> 3 <= severity (classify_pressure v wm last))
    by (rewrite U3, V3; auto).
  assert (2 <= severity (classify_pressure u wm last) -> 2 <= severity (classify_pressure v wm last))
    by (rewrite U2, V2; intros [?|?]; auto).
  lia.
Qed.

Lemma pressure_monotone_witness :
  severity (classify_pressure (f64_of_u64 0) WatermarkConfig_default PressureState.HIGH)
  <= severity (classify_pressure (f64_of_u64 1) WatermarkConfig_default PressureState.HIGH).
Proof. apply pressure_monotone; vm_compute; reflexivity. Defined.

(** UNKNOWN means no capacity to measure against, and nothing else: with
    capacity the answer is LOW, NORMAL, HIGH or CRITICAL, whatever the prior state,
    the evidence and even the watermarks; in particular ELEVATED is never reported. *)
Theorem pressure_states ev last :
  (evaluate_pressure ev last = PressureState.UNKNOWN <-> ev_managed_capacity ev = 0)
  /\ (ev_managed_capacity ev <> 0 -> 1 <= severity (evaluate_pressure ev last) <= 4)
  /\ evaluate_pressure ev last <> PressureState.ELEVATED.
Proof.
  unfold evaluate_pressure. destruct (Z.eqb_spec (ev_managed_capacity ev) 0) as [E|E].
  - split_and!; done.
  - pose proof (classify_range (utilization ev) (ev_watermarks ev) last) as Hr.
    split_and!; [|done|]; [split; [|done]|]; intros Hx; rewrite Hx in Hr; simpl in Hr; lia.
Qed.

(** ** Admission *)

(** What the admission check accepts.  A request passes exactly when its
    size is positive and within the governed capacity, its alignment is a power of two,
    its minimum does not exceed its size, and it is not a movable never-reclaim request
    that demands a pin.  No memory class and no reclaimability is refused by itself. *)
Theorem request_validation req cap :
  in_u64 (rq_alignment req) -> 0 <= rq_bytes req ->
  failure_ok (validate_request req cap) = true <->
  0 < rq_bytes req <= cap /\ is_pow2 (rq_alignment req) = true
  /\ rq_min_bytes req <= rq_bytes req
  /\ ~ (rq_requires_pin req = true /\ rq_movability req = Movability.MOVABLE
        /\ rq_reclaimability req = Reclaimability.NEVER_RECLAIM).
Proof. apply validate_request_ok. Qed.

Definition demo_request (bytes al : Z) (rc : Reclaimability.t) : AllocationRequest :=
  mk_request bytes 0 al true MemoryClass.KV_CACHE rc Movability.MOVABLE false "engine" (mk_id 3)
    (mk_gen 4) (mk_gen 5) (mk_id 6) (mk_id 7) (mk_gen 8) (mk_gen 9) (mk_gen 10) (mk_gen 11) ""
    Provenance.REPORTED.

Lemma request_validation_witness :
  failure_ok (validate_request (demo_request 100 64 Reclaimability.UNKNOWN) 4096) = true.
Proof.
  apply request_validation; simpl; [unfold in_u64, U64; lia|lia|].
  split_and!; [lia|lia|vm_compute; reflexivity|lia|]. intros (H & _). discriminate H.
Defined.
