(* ===== verification/Bytes.v ===== *)
(** Byte strings: the little-endian codecs and the CRC-32 that src/persistence.cpp
    ([Writer], [Reader], [crc32]) and src/protocol.cpp ([append_*], [take_*], [crc32])
    both spell out.

    A byte is a [Z] between 0 and 255.  A reader is the suffix of the buffer from the
    current position, so [pos + n > size] is a comparison with its length. *)
From S2P Require Import Prelude Words.
Open Scope Z_scope.

Abbreviation bytes := (list Z).

Definition is_byte (b : Z) : Prop := 0 <= b < 256.
Definition bytes_ok (bs : bytes) : Prop := Forall is_byte bs.

(** ** Little-endian words *)

(** [for i < n: buf.push_back((v >> (8 * i)) & 0xFF)], from [i] on. *)
Fixpoint put_le_from (n : nat) (i v : Z) : bytes :=
  match n with
  | O => []
  | S n' => Z.land (Z.shiftr v (8 * i)) 0xFF :: put_le_from n' (i + 1) v
  end.

Definition put_u8 (v : Z) : bytes := [v].
Definition put_u32 (v : Z) : bytes := put_le_from 4 0 v.
Definition put_u64 (v : Z) : bytes := put_le_from 8 0 v.

(** [for i: r |= b[pos++] << (8 * i)]. *)
Fixpoint get_le_from (i r : Z) (bs : bytes) : Z :=
  match bs with
  | [] => r
  | b :: bs' => get_le_from (i + 1) (Z.lor r (Z.shiftl b (8 * i))) bs'
  end.

Definition get_le (bs : bytes) : Z := get_le_from 0 0 bs.

(** The mathematical value. *)
Fixpoint le_value (bs : bytes) : Z :=
  match bs with [] => 0 | b :: bs' => b + 256 * le_value bs' end.

Lemma le_value_bounds bs : bytes_ok bs -> 0 <= le_value bs < 256 ^ Z.of_nat (length bs).
Proof.
  induction 1 as [|b bs Hb _ IH]; [simpl; lia|]. simpl le_value. simpl length.
  rewrite Nat2Z.inj_succ, Z.pow_succ_r by lia. unfold is_byte in Hb. lia.
Qed.

Lemma lor_disjoint r b k : 0 <= r < 2 ^ k -> 0 <= k -> Z.lor r (Z.shiftl b k) = r + b * 2 ^ k.
Proof.
  intros Hr Hk. rewrite Z.shiftl_mul_pow2 by done.
  destruct (Z.eq_dec r 0) as [->|Hne]; [by rewrite Z.lor_0_l|].
  rewrite <- Z.lxor_lor, <- Z.add_nocarry_lxor; [done|..].
  all: apply Z.bits_inj'; intros i Hi; rewrite Z.land_spec, Z.bits_0.
  all: rewrite <- Z.shiftl_mul_pow2, Z.shiftl_spec by done.
  all: destruct (Z.lt_ge_cases i k); [by rewrite (Z.testbit_neg_r b), andb_false_r by lia|].
  all: rewrite (Z.bits_above_log2 r); [done|lia|].
  all: apply Z.lt_le_trans with k; [|done]; apply Z.log2_lt_pow2; lia.
Qed.

Lemma get_le_from_value i r bs :
  bytes_ok bs -> 0 <= i -> 0 <= r < 2 ^ (8 * i) ->
  get_le_from i r bs = r + le_value bs * 2 ^ (8 * i).
Proof.
  intros Hbs. revert i r. induction Hbs as [|b bs Hb _ IH]; intros i r Hi Hr; simpl; [lia|].
  unfold is_byte in Hb. rewrite lor_disjoint by lia.
  assert (Hp : 2 ^ (8 * (i + 1)) = 256 * 2 ^ (8 * i)).
  { rewrite Z.mul_add_distr_l, Z.pow_add_r by lia. lia. }
  rewrite IH; [rewrite Hp; ring|lia|]. rewrite Hp. nia.
Qed.

Lemma get_le_value bs : bytes_ok bs -> get_le bs = le_value bs.
Proof. intros Hbs. unfold get_le. rewrite get_le_from_value; [simpl; lia|done|done|simpl; lia]. Qed.

Lemma put_le_from_length n i v : length (put_le_from n i v) = n.
Proof. revert i. induction n; intros; simpl; auto. Qed.

Lemma land_255 v : Z.land v 0xFF = v mod 256.
Proof. change 0xFF with (Z.ones 8). by rewrite Z.land_ones. Qed.

Lemma put_le_from_ok n i v : bytes_ok (put_le_from n i v).
Proof.
  revert i. induction n as [|n IH]; intros i; simpl; constructor; [|apply IH].
  rewrite land_255. apply Z.mod_pos_bound. done.
Qed.

Lemma put_le_from_value n i v :
  0 <= i -> le_value (put_le_from n i v) = (v / 2 ^ (8 * i)) mod 256 ^ Z.of_nat n.
Proof.
  revert i. induction n as [|n IH]; intros i Hi; [simpl; by rewrite Z.mod_1_r|].
  simpl put_le_from. simpl le_value. rewrite IH, land_255, Z.shiftr_div_pow2 by lia.
  rewrite Nat2Z.inj_succ, Z.pow_succ_r by lia.
  replace (8 * (i + 1)) with (8 * i + 8) by lia. rewrite Z.pow_add_r by lia.
  rewrite <- Z.div_div by (try apply Z.pow_nonzero; lia).
  change (2 ^ 8) with 256. set (x := v / 2 ^ (8 * i)).
  rewrite Z.rem_mul_r by (try apply Z.pow_nonzero; try apply Z.pow_pos_nonneg; lia). done.
Qed.

(** Encode, then decode: a word of [n] bytes comes back. *)
Lemma get_put_le n v : 0 <= v < 256 ^ Z.of_nat n -> get_le (put_le_from n 0 v) = v.
Proof.
  intros Hv. rewrite get_le_value by apply put_le_from_ok.
  rewrite put_le_from_value by done. rewrite Z.div_1_r. by apply Z.mod_small.
Qed.

Lemma le_value_inj l1 l2 :
  bytes_ok l1 -> bytes_ok l2 -> length l1 = length l2 -> le_value l1 = le_value l2 -> l1 = l2.
Proof.
  intros H1. revert l2. induction H1 as [|x l1 Hx H1 IH]; intros [|y l2] H2 Hlen E; try done.
  apply Forall_cons in H2 as [Hy H2]. simpl in E, Hlen. unfold is_byte in *.
  pose proof (le_value_bounds _ H1). pose proof (le_value_bounds _ H2).
  f_equal; [lia|]. apply IH; [done|lia|lia].
Qed.

(** Reading a word and writing it back gives the same bytes. *)
Lemma put_get_le l : bytes_ok l -> put_le_from (length l) 0 (get_le l) = l.
Proof.
  intros Hl. apply le_value_inj; [apply put_le_from_ok|done|apply put_le_from_length|].
  rewrite put_le_from_value, Z.div_1_r, get_le_value by done. apply Z.mod_small.
  by apply le_value_bounds.
Qed.

Lemma bytes_ok_update l1 x y l2 : bytes_ok (l1 ++ x :: l2) -> is_byte y -> bytes_ok (l1 ++ y :: l2).
Proof.
  intros [H1 [_ H2]%Forall_cons]%Forall_app Hy. apply Forall_app. split; [done|]. by constructor.
Qed.

(** ** Strings *)

Fixpoint bytes_of_string (s : string) : bytes :=
  match s with
  | EmptyString => []
  | String c s' => Z.of_N (Ascii.N_of_ascii c) :: bytes_of_string s'
  end.

Fixpoint string_of_bytes (bs : bytes) : string :=
  match bs with
  | [] => EmptyString
  | b :: bs' => String (Ascii.ascii_of_N (Z.to_N b)) (string_of_bytes bs')
  end.

Definition str_size (s : string) : Z := Z.of_nat (String.length s).

(** The size is written modulo 2^32, like the [static_cast] of the code. *)
Definition put_str (s : string) : bytes := put_u32 (str_size s mod U32) ++ bytes_of_string s.

Lemma string_bytes_roundtrip s : string_of_bytes (bytes_of_string s) = s.
Proof. induction s as [|c s IH]; simpl; [done|]. by rewrite N2Z.id, Ascii.ascii_N_embedding, IH. Qed.

Lemma bytes_of_string_length s : Z.of_nat (length (bytes_of_string s)) = str_size s.
Proof. unfold str_size. induction s; simpl; lia. Qed.

Lemma bytes_of_string_ok s : bytes_ok (bytes_of_string s).
Proof.
  induction s as [|c s IH]; simpl; constructor; [|done]. unfold is_byte.
  pose proof (Ascii.N_ascii_bounded c). lia.
Qed.

(** ** CRC-32 *)

Definition crc_poly : Z := 0xEDB88320.

(** [crc = (crc >> 1) ^ (0xEDB88320u & (0u - (crc & 1u)))]. *)
Definition crc_bit (crc : Z) : Z :=
  Z.lxor (Z.shiftr crc 1) (Z.land crc_poly (sub32 0 (Z.land crc 1))).

Definition crc_byte (crc b : Z) : Z := Nat.iter 8 crc_bit (Z.lxor crc b).

Definition crc32 (data : bytes) : Z :=
  Z.lxor (fold_left crc_byte data 0xFFFFFFFF) 0xFFFFFFFF.

(** The equations the proofs rewrite with: [crc_byte] is never unfolded by conversion,
    which would compute with symbolic words. *)
Lemma crc_byte_eq crc b : crc_byte crc b = Nat.iter 8 crc_bit (Z.lxor crc b).
Proof. reflexivity. Qed.

Lemma fold_left_cons {A B} (f : B -> A -> B) x l a : fold_left f (x :: l) a = fold_left f l (f a x).
Proof. reflexivity. Qed.

Definition in_u32 (x : Z) : Prop := 0 <= x < 2 ^ 32.

Lemma lxor_u32 a b : in_u32 a -> in_u32 b -> in_u32 (Z.lxor a b).
Proof.
  unfold in_u32. intros Ha Hb. assert (0 <= Z.lxor a b) by (apply Z.lxor_nonneg; lia).
  split; [done|]. destruct (Z.eq_dec (Z.lxor a b) 0) as [->|Hne]; [done|].
  apply Z.log2_lt_pow2; [lia|]. eapply Z.le_lt_trans; [apply Z.log2_lxor; lia|].
  apply Z.max_lub_lt.
  - destruct (Z.eq_dec a 0) as [->|]; [done|]. apply Z.log2_lt_pow2; lia.
  - destruct (Z.eq_dec b 0) as [->|]; [done|]. apply Z.log2_lt_pow2; lia.
Qed.

Lemma lxor_inj_l a b c : Z.lxor a c = Z.lxor b c -> a = b.
Proof. intros H. apply (f_equal (fun x => Z.lxor x c)) in H. by rewrite !Z.lxor_assoc, !Z.lxor_nilpotent, !Z.lxor_0_r in H. Qed.

(** The branch-free form of the code is the usual conditional one. *)
Lemma crc_bit_cases c :
  in_u32 c -> crc_bit c = Z.lxor (c / 2) (if Z.odd c then crc_poly else 0).
Proof.
  intros Hc. unfold crc_bit. rewrite Z.shiftr_div_pow2 by done. change (2 ^ 1) with 2. f_equal.
  change 1 with (Z.ones 1) at 1. rewrite Z.land_ones by done. change (2 ^ 1) with 2.
  rewrite Zmod_odd. by destruct (Z.odd c).
Qed.

Lemma crc_bit_u32 c : in_u32 c -> in_u32 (crc_bit c).
Proof.
  intros Hc. rewrite crc_bit_cases by done. unfold in_u32 in Hc. apply lxor_u32.
  - split; [apply Z.div_pos; lia|]. apply Z.div_lt_upper_bound; lia.
  - unfold in_u32, crc_poly. destruct (Z.odd c); lia.
Qed.

(** One shift step loses nothing: the top bit of the result tells which branch ran. *)
Lemma crc_bit_inj a b : in_u32 a -> in_u32 b -> crc_bit a = crc_bit b -> a = b.
Proof.
  intros Ha Hb E. rewrite !crc_bit_cases in E by done. unfold in_u32 in *.
  assert (Hhalf : forall c, 0 <= c < 2 ^ 32 -> Z.testbit (c / 2) 31 = false).
  { intros c Hc. destruct (Z.eq_dec (c / 2) 0) as [->|Hne]; [done|].
    assert (0 <= c / 2 < 2 ^ 31) by (split; [apply Z.div_pos|apply Z.div_lt_upper_bound]; lia).
    apply Z.bits_above_log2; [lia|]. apply Z.log2_lt_pow2; lia. }
  assert (Hodd : Z.odd a = Z.odd b).
  { apply (f_equal (fun x => Z.testbit x 31)) in E. rewrite !Z.lxor_spec, !Hhalf in E by done.
    destruct (Z.odd a), (Z.odd b); done. }
  rewrite Hodd in E. apply lxor_inj_l in E.
  rewrite (Z.div_mod a 2), (Z.div_mod b 2) by done. rewrite !Zmod_odd, E, Hodd. done.
Qed.

Lemma crc_iter_inj n a b :
  in_u32 a -> in_u32 b -> Nat.iter n crc_bit a = Nat.iter n crc_bit b -> a = b.
Proof.
  intros Ha Hb. assert (Hu : forall n c, in_u32 c -> in_u32 (Nat.iter n crc_bit c)).
  { intros m c Hc. induction m; simpl; [done|]. by apply crc_bit_u32. }
  induction n as [|n IH]; simpl; [done|]. intros E%crc_bit_inj; auto.
Qed.

Lemma byte_u32 b : is_byte b -> in_u32 b.
Proof. unfold is_byte, in_u32. lia. Qed.

Lemma crc_byte_u32 c b : in_u32 c -> is_byte b -> in_u32 (crc_byte c b).
Proof.
  intros Hc Hb. rewrite crc_byte_eq. pose proof (lxor_u32 _ _ Hc (byte_u32 _ Hb)) as Hx.
  generalize (Z.lxor c b) Hx. clear. intros x Hx. generalize 8%nat. intros n.
  induction n; simpl; [done|]. by apply crc_bit_u32.
Qed.

(** [crc_byte] is injective in the state and in the byte. *)
Lemma crc_byte_inj_state a b x :
  in_u32 a -> in_u32 b -> is_byte x -> crc_byte a x = crc_byte b x -> a = b.
Proof.
  intros Ha Hb Hx%byte_u32 E. rewrite !crc_byte_eq in E.
  apply crc_iter_inj in E; auto using lxor_u32. by eapply lxor_inj_l.
Qed.

Lemma crc_byte_inj_byte a x y :
  in_u32 a -> is_byte x -> is_byte y -> crc_byte a x = crc_byte a y -> x = y.
Proof.
  intros Ha Hx%byte_u32 Hy%byte_u32 E. rewrite !crc_byte_eq in E.
  apply crc_iter_inj in E; auto using lxor_u32. rewrite !(Z.lxor_comm a) in E. by eapply lxor_inj_l.
Qed.

Lemma crc_fold_u32 l c : in_u32 c -> bytes_ok l -> in_u32 (fold_left crc_byte l c).
Proof.
  intros Hc Hl. revert c Hc. induction Hl as [|b l Hb _ IH]; intros c Hc; [done|].
  rewrite fold_left_cons. apply IH. by apply crc_byte_u32.
Qed.

Lemma crc_fold_inj l a b :
  in_u32 a -> in_u32 b -> bytes_ok l -> fold_left crc_byte l a = fold_left crc_byte l b -> a = b.
Proof.
  intros Ha Hb Hl. revert a b Ha Hb. induction Hl as [|x l Hx Hl IH]; intros a b Ha Hb; [done|].
  rewrite !fold_left_cons. intros E%IH; auto using crc_byte_u32. by eapply crc_byte_inj_state.
Qed.

Lemma crc32_u32 l : bytes_ok l -> in_u32 (crc32 l).
Proof. intros Hl. apply lxor_u32; [|done]. by apply crc_fold_u32. Qed.

(** A single corrupted byte always changes the checksum. *)
Lemma crc32_detects l1 x y l2 :
  bytes_ok (l1 ++ x :: l2) -> is_byte y -> crc32 (l1 ++ x :: l2) = crc32 (l1 ++ y :: l2) -> x = y.
Proof.
  intros Hok Hy E. apply Forall_app in Hok as [H1 [Hx H2]%Forall_cons].
  unfold crc32 in E. apply lxor_inj_l in E. rewrite !fold_left_app, !fold_left_cons in E.
  assert (Hs : in_u32 (fold_left crc_byte l1 0xFFFFFFFF)) by (by apply crc_fold_u32).
  apply crc_fold_inj in E; auto using crc_byte_u32. by eapply crc_byte_inj_byte.
Qed.

(** A buffer that ends with the checksum of the rest. *)
Definition sealed (b : bytes) : Prop := exists body, b = body ++ put_u32 (crc32 body).

Lemma sealed_corrupted l1 x y l2 :
  bytes_ok (l1 ++ x :: l2) -> is_byte y -> x <> y ->
  sealed (l1 ++ x :: l2) -> ~ sealed (l1 ++ y :: l2).
Proof.
  intros Hok Hy Hne [body E] [body' E'].
  assert (Hl4 : forall v, length (put_u32 v) = 4%nat) by done.
  assert (Hlen : length body = length body').
  { apply (f_equal length) in E, E'. rewrite !length_app, Hl4 in *. simpl in *. lia. }
  destruct (decide (length l1 < length body)%nat) as [Hlt|Hge].
  - assert (Hb : body = take (length body) (l1 ++ x :: l2)) by (by rewrite E, take_app_length).
    assert (Hb' : body' = take (length body) (l1 ++ y :: l2))
      by (by rewrite E', Hlen, take_app_length).
    assert (Ht : put_u32 (crc32 body) = drop (length body) (l1 ++ x :: l2))
      by (by rewrite E, drop_app_length).
    assert (Ht' : put_u32 (crc32 body') = drop (length body) (l1 ++ y :: l2))
      by (by rewrite E', Hlen, drop_app_length).
    rewrite take_app_ge, drop_app_ge in * by lia.
    destruct (length body - length l1)%nat as [|n] eqn:En; [lia|]. simpl in *.
    assert (Hc : crc32 body = crc32 body').
    { assert (bytes_ok body /\ bytes_ok body') as [Hok1 Hok2].
      { rewrite Hb, Hb'. apply Forall_app in Hok as [? [? ?]%Forall_cons].
        split; apply Forall_app; (split; [done|]); constructor; try done; by apply Forall_take. }
      rewrite <- (get_put_le 4 (crc32 body)), <- (get_put_le 4 (crc32 body')) by (by apply crc32_u32).
      f_equal. unfold put_u32 in *. by rewrite Ht, Ht'. }
    rewrite Hb, Hb' in Hc. apply Hne. eapply crc32_detects; [|exact Hy|exact Hc].
    apply Forall_app in Hok as [? [? ?]%Forall_cons].
    apply Forall_app. split; [done|]. constructor; [done|]. by apply Forall_take.
  - assert (body = body') as <-.
    { rewrite <- (take_app_length body (put_u32 (crc32 body))), <- E.
      rewrite <- (take_app_length body' (put_u32 (crc32 body'))), <- E', <- Hlen.
      by rewrite !take_app_le by lia. }
    assert (Exy : l1 ++ x :: l2 = l1 ++ y :: l2) by congruence.
    by apply app_inv_head in Exy as [= ->].
Qed.

(** The standard check value of CRC-32/ISO-HDLC. *)
Example crc32_check_value : crc32 (bytes_of_string "123456789") = 0xCBF43926.
Proof. reflexivity. Qed.
