(* ===== verification/Persist.v ===== *)
(** Durable snapshots: include/gpu_memory_service/persistence.hpp and
    src/persistence.cpp.

    [Writer] only appends, so a writer function is the byte string it appends.
    [Reader] is a state machine over the rest of the buffer; besides failing, its
    [str] has undefined behaviour (it indexes the vector at its size) when an empty
    string ends the buffer, which [RUB] records. *)
From S2P Require Import Prelude Words Ordered Types Floats Pressure Request Bytes.
Open Scope Z_scope.

(** ** Reader *)

Inductive Read (A : Type) : Type :=
  | RFail
  | RUB
  | ROk (value : A) (rest : bytes).
Arguments RFail {A}.
Arguments RUB {A}.
Arguments ROk {A} _ _.

Definition reader (A : Type) : Type := bytes -> Read A.

Definition rret {A} (a : A) : reader A := fun bs => ROk a bs.

Definition rbind {A B} (r : reader A) (k : A -> reader B) : reader B :=
  fun bs => match r bs with RFail => RFail | RUB => RUB | ROk a rest => k a rest end.

Notation "x <-- r ;;; k" := (rbind r (fun x => k))
  (at level 100, r at next level, right associativity) : gms_scope.
Open Scope gms_scope.

Definition rd_u8 : reader Z :=
  fun bs => match bs with [] => RFail | b :: rest => ROk b rest end.

(** [u32] and [u64]: [n] little-endian bytes. *)
Definition rd_le (n : nat) : reader Z :=
  fun bs => if (length bs <? n)%nat then RFail else ROk (get_le (take n bs)) (drop n bs).

Definition rd_u32 : reader Z := rd_le 4.
Definition rd_u64 : reader Z := rd_le 8.

Definition rd_str_body (n : Z) : reader string :=
  fun bs =>
    if n >? 2 ^ 20 then RFail
    else if Z.of_nat (length bs) <? n then RFail
    else match bs with
         | [] => RUB
         | _ => ROk (string_of_bytes (take (Z.to_nat n) bs)) (drop (Z.to_nat n) bs)
         end.

Definition rd_str : reader string := n <-- rd_u32;;; rd_str_body n.

Definition rd_enum (E : Type) `{CEnum E} : reader E := e <-- rd_u8;;; rret (cenum_of_u8 e).

Definition rd_id (tag : IdTag) : reader (TypedId tag) := t <-- rd_u64;;; rret (mk_id t).
Definition rd_gen (tag : GenTag) : reader (TypedGeneration tag) := t <-- rd_u64;;; rret (mk_gen t).
Definition rd_double : reader double := t <-- rd_u64;;; rret (mk_double t).

(** ** Records *)

Definition put_enum {E} `{CEnum E} (e : E) : bytes := put_u8 (cenum_to_u8 e).

Definition write_record (r : AllocationRecord) : bytes :=
  put_u64 (id_value (rec_id r)) ++ put_u64 (gen_value (rec_generation r))
  ++ put_u64 (rec_requested_bytes r) ++ put_u64 (rec_region_size r)
  ++ put_u64 (rec_offset r) ++ put_u64 (rec_alignment r)
  ++ put_u64 (id_value (rec_region_id r)) ++ put_u64 (gen_value (rec_region_generation r))
  ++ put_enum (rec_mem_class r) ++ put_enum (rec_reclaimability r)
  ++ put_enum (rec_movability r) ++ put_u32 (rec_pin_count r)
  ++ put_enum (rec_residency r) ++ put_enum (rec_lifecycle r)
  ++ put_str (rec_owner r)
  ++ put_u64 (id_value (rec_worker r)) ++ put_u64 (gen_value (rec_worker_boot r))
  ++ put_u64 (gen_value (rec_source_boot r)) ++ put_u64 (id_value (rec_workload r))
  ++ put_u64 (id_value (rec_execution r)) ++ put_u64 (gen_value (rec_relocation_generation r))
  ++ put_u64 (gen_value (rec_reservation_gen r)) ++ put_u64 (gen_value (rec_resource_claim_gen r))
  ++ put_u64 (gen_value (rec_placement_gen r)) ++ put_u64 (gen_value (rec_policy_gen r))
  ++ put_str (rec_backing_ref r) ++ put_enum (rec_provenance r)
  ++ put_u8 (if rec_recoverable r then 1 else 0).

Definition read_record : reader AllocationRecord :=
  id <-- rd_id AllocationIdTag;;; generation <-- rd_gen AllocationGenerationGenTag;;;
  requested <-- rd_u64;;; region_size <-- rd_u64;;; offset <-- rd_u64;;; alignment <-- rd_u64;;;
  region_id <-- rd_id MemoryRegionIdTag;;; region_gen <-- rd_gen MemoryRegionGenerationGenTag;;;
  mem_class <-- rd_enum MemoryClass.t;;; reclaim <-- rd_enum Reclaimability.t;;;
  movability <-- rd_enum Movability.t;;; pins <-- rd_u32;;;
  residency <-- rd_enum ResidencyState.t;;; lifecycle <-- rd_enum LifecycleState.t;;;
  owner <-- rd_str;;;
  worker <-- rd_id WorkerIdTag;;; wboot <-- rd_gen WorkerBootIdGenTag;;;
  sboot <-- rd_gen SourceBootIdGenTag;;; workload <-- rd_id WorkloadIdTag;;;
  execution <-- rd_id ExecutionIdTag;;; reloc <-- rd_gen RelocationGenerationGenTag;;;
  reservation <-- rd_gen ReservationGenerationGenTag;;;
  claim <-- rd_gen ResourceClaimGenerationGenTag;;;
  placement <-- rd_gen PlacementGenerationGenTag;;; policy <-- rd_gen PolicyGenerationGenTag;;;
  backing <-- rd_str;;; prov <-- rd_enum Provenance.t;;; rec <-- rd_u8;;;
  rret (mk_record id generation requested region_size offset alignment region_id region_gen
          mem_class reclaim movability pins residency lifecycle owner worker wboot sboot workload
          execution reloc reservation claim placement policy backing prov (rec =? 1)).

Definition write_domain (d : MemoryDomain) : bytes :=
  put_u64 (id_value (domain_id d)) ++ put_u64 (gen_value (domain_generation d))
  ++ put_u64 (id_value (device_id d)) ++ put_u64 (gen_value (device_generation d))
  ++ put_u64 (total_capacity d) ++ put_u64 (allocator_visible_capacity d)
  ++ put_u64 (reserved_headroom d) ++ put_u64 (managed_capacity d)
  ++ put_u64 (current_committed d) ++ put_u64 (current_physically_allocated d)
  ++ put_u64 (current_resident d) ++ put_u64 (current_reclaimable d)
  ++ put_u64 (current_movable d) ++ put_u64 (current_pinned d)
  ++ put_u64 (d_bits (dom_external_fragmentation d))
  ++ put_enum (dom_pressure d) ++ put_enum (dom_health d) ++ put_enum (dom_provenance d)
  ++ put_u64 (gen_value (wm_generation (dom_watermarks d)))
  ++ put_u64 (d_bits (wm_low (dom_watermarks d))) ++ put_u64 (d_bits (wm_high (dom_watermarks d)))
  ++ put_u64 (d_bits (wm_critical (dom_watermarks d))).

Definition read_domain : reader MemoryDomain :=
  did <-- rd_id GpuMemoryDomainIdTag;;; dgen <-- rd_gen GpuMemoryDomainGenerationGenTag;;;
  dev <-- rd_id DeviceIdTag;;; devgen <-- rd_gen DeviceGenerationGenTag;;;
  total <-- rd_u64;;; visible <-- rd_u64;;; headroom <-- rd_u64;;; managed <-- rd_u64;;;
  committed <-- rd_u64;;; phys <-- rd_u64;;; resident <-- rd_u64;;; reclaimable <-- rd_u64;;;
  movable <-- rd_u64;;; pinned <-- rd_u64;;; frag <-- rd_double;;;
  pressure <-- rd_enum PressureState.t;;; health <-- rd_enum DeviceHealth.t;;;
  prov <-- rd_enum Provenance.t;;; wgen <-- rd_gen WatermarkGenerationGenTag;;;
  low <-- rd_double;;; high <-- rd_double;;; critical <-- rd_double;;;
  rret (mk_domain did dgen dev devgen total visible headroom managed committed phys resident
          reclaimable movable pinned frag pressure health
          (mk_watermarks low high critical wgen) prov).

(** [enum_ok(e, max)] with [max] the last enumerator of the type. *)
Definition enum_ok {E} `{CEnum E} (e : E) : bool := cenum_to_u8 e <=? cenum_max E.

Definition validate_record (r : AllocationRecord) (managed : Z) : bool :=
  if rec_requested_bytes r =? 0 then false
  else if (rec_alignment r =? 0)
          || negb (Z.land (rec_alignment r) (sub64 (rec_alignment r) 1) =? 0) then false
  else if rec_region_size r <? rec_requested_bytes r then false
  else if (rec_offset r >? managed) || (rec_region_size r >? sub64 managed (rec_offset r)) then false
  else if negb (rec_offset r mod rec_alignment r =? 0) then false
  else if negb (enum_ok (rec_mem_class r)) then false
  else if negb (enum_ok (rec_reclaimability r)) then false
  else if negb (enum_ok (rec_movability r)) then false
  else if negb (enum_ok (rec_residency r)) then false
  else if negb (enum_ok (rec_lifecycle r)) then false
  else if negb (enum_ok (rec_provenance r)) then false
  else negb (gen_value (rec_generation r) =? 0).

(** ** Snapshots *)

Definition kMagic : Z := 0x47534d53.
Definition kVersion : Z := 1.
Definition kMaxRecords : Z := 2 ^ 20.

(** [magic] and [version] are constants that [encode] and [decode] never read from the
    struct; they are kept because the struct has them. *)
Record PersistSnapshot : Set := mk_snapshot {
  ps_magic : Z;
  ps_version : Z;
  ps_domain : MemoryDomain;
  ps_records : list AllocationRecord;
  ps_retired : list AllocationRecord;
  ps_next_alloc_id : Z;
  ps_history_count : Z;
}.

Definition write_records (l : list AllocationRecord) : bytes :=
  put_u32 (Z.of_nat (length l) mod U32) ++ concat (write_record <$> l).

(** Everything but the checksum. *)
Definition encode_body (s : PersistSnapshot) : bytes :=
  put_u32 kMagic ++ put_u32 kVersion ++ write_domain (ps_domain s)
  ++ write_records (ps_records s) ++ write_records (ps_retired s)
  ++ put_u64 (ps_next_alloc_id s) ++ put_u64 (ps_history_count s).

Definition encode (s : PersistSnapshot) : bytes :=
  encode_body s ++ put_u32 (crc32 (encode_body s)).

(** The [for] loop that reads [n] records. *)
Fixpoint read_records (n : nat) : reader (list AllocationRecord) :=
  match n with
  | O => rret []
  | S n' => rec <-- read_record;;; l <-- read_records n';;; rret (rec :: l)
  end.

(** The validation loops: the ids seen so far and the running sum of sizes.  The sum of
    the retired records is not taken by the code. *)
Fixpoint validate_records (managed : Z) (what : string) (l : list AllocationRecord)
    (seen : gset AllocationId) (sum : Z) : string + (gset AllocationId * Z) :=
  match l with
  | [] => inr (seen, sum)
  | rec :: l' =>
      if negb (validate_record rec managed) then inl what
      else if decide (rec_id rec ∈ seen) then inl "duplicate allocation id"
      else validate_records managed what l' ({[rec_id rec]} ∪ seen) (add64 sum (rec_region_size rec))
  end.

(** [std::pair]'s order, which [std::sort] sorts by. *)
Definition pair_le (a b : Z * Z) : Prop := a.1 < b.1 \/ (a.1 = b.1 /\ a.2 <= b.2).

#[export] Instance pair_le_dec : RelDecision pair_le.
Proof. unfold pair_le. intros a b. apply _. Defined.

(** The overlap loop over the sorted intervals. *)
Fixpoint overlaps (l : list (Z * Z)) : bool :=
  match l with
  | a :: (b :: _) as l' => if b.1 <? a.2 then true else overlaps l'
  | _ => false
  end.

Definition rec_interval (r : AllocationRecord) : Z * Z :=
  (rec_offset r, add64 (rec_offset r) (rec_region_size r)).

Definition internal {A} (msg : string) : Result A := fail RejectReason.INTERNAL_ERROR msg.

(** The structural checks on a snapshot that has been read. *)
Definition check_snapshot (s : PersistSnapshot) : Result PersistSnapshot :=
  let managed := managed_capacity (ps_domain s) in
  match validate_records managed "invalid record" (ps_records s) ∅ 0 with
  | inl msg => internal msg
  | inr (seen, sum_live) =>
      match validate_records managed "invalid retired record" (ps_retired s) seen 0 with
      | inl msg => internal msg
      | inr _ =>
          if sum_live >? managed then internal "physical bytes exceed governed capacity"
          else if overlaps (merge_sort pair_le (rec_interval <$> ps_records s))
          then internal "overlapping persisted regions"
          else Ok s
      end
  end.

(** One [if (!r.x(&v)) return Failure(...)]: the outer [None] is undefined behaviour. *)
Definition with_read {A B} (r : reader A) (bs : bytes) (msg : string)
    (k : A -> bytes -> option (Result B)) : option (Result B) :=
  match r bs with
  | RFail => Some (internal msg)
  | RUB => None
  | ROk a rest => k a rest
  end.

Definition decode (b : bytes) : option (Result PersistSnapshot) :=
  with_read rd_u32 b "truncated magic" (fun magic b1 =>
  if negb (magic =? kMagic) then Some (internal "bad magic") else
  with_read rd_u32 b1 "truncated version" (fun ver b2 =>
  if negb (ver =? kVersion) then Some (internal "unsupported version") else
  with_read read_domain b2 "malformed domain" (fun d b3 =>
  if negb (WatermarkConfig_valid (dom_watermarks d))
  then Some (internal "invalid watermarks (NaN/Inf/bad order)") else
  with_read rd_u32 b3 "truncated record count" (fun rocount b4 =>
  if rocount >? kMaxRecords then Some (internal "hostile record count") else
  with_read (read_records (Z.to_nat rocount)) b4 "malformed record" (fun records b5 =>
  with_read rd_u32 b5 "truncated retired count" (fun trcount b6 =>
  if trcount >? kMaxRecords then Some (internal "hostile retired count") else
  with_read (read_records (Z.to_nat trcount)) b6 "malformed retired record" (fun retired b7 =>
  with_read rd_u64 b7 "truncated next alloc id" (fun next b8 =>
  with_read rd_u64 b8 "truncated history" (fun hist b9 =>
  with_read rd_u32 b9 "truncated checksum" (fun stored b10 =>
  if negb (Z.of_nat (length b10) =? 0) then Some (internal "trailing garbage")
  else if negb (stored =? crc32 (take (length b - 4) b)) then Some (internal "checksum mismatch")
  else Some (check_snapshot (mk_snapshot kMagic kVersion d records retired next hist)))))))))))).

(** ** Files *)

(** The files by path.  How the operating system serves a call is an argument: whether the stream
    opens, whether a write fails, and how much of one that does reaches the (truncated) file.  The
    stream buffers, so a write may also fail when the destructor of [f] flushes it, after the
    result has been made: that is [CloseFails]. *)
Definition FileSystem : Type := gmap string bytes.

Inductive WriteOutcome : Set :=
  | CannotOpen
  | WriteFails (written : nat)
  | CloseFails (written : nat)
  | Written.

Definition write_file (out : WriteOutcome) (path : string) (s : PersistSnapshot) (fs : FileSystem) :
    FileSystem * Result unit :=
  match out with
  | CannotOpen => (fs, internal "cannot open file for write")
  | WriteFails n => (<[path := take n (encode s)]> fs, internal "write failed")
  | CloseFails n => (<[path := take n (encode s)]> fs, Ok tt)
  | Written => (<[path := encode s]> fs, Ok tt)
  end.

(** [readable] is false when the file opens but its bytes cannot be read. *)
Definition read_file (readable : bool) (path : string) (fs : FileSystem) :
    option (Result PersistSnapshot) :=
  match fs !! path with
  | None => Some (internal "cannot open file for read")
  | Some [] => Some (internal "empty file")
  | Some b => if readable then decode b else Some (internal "read failed")
  end.
