(* ===== verification/PersistInv.v ===== *)
(** Lemmas on the snapshot codec: what each reader does on what the matching writer
    wrote, and what a successful decode says about the buffer and the snapshot. *)
From S2P Require Import Prelude Words Ordered Types Floats Pressure Request Bytes Persist.
Open Scope Z_scope.
Open Scope gms_scope.

(** ** Readers on written fields *)

Lemma rbind_ok {A B} (r : reader A) (k : A -> reader B) bs a rest x :
  r bs = ROk a rest -> k a rest = x -> rbind r k bs = x.
Proof. unfold rbind. by intros -> <-. Qed.

Lemma rd_u8_put v rest : rd_u8 (put_u8 v ++ rest) = ROk v rest.
Proof. done. Qed.

Lemma rd_le_put n v rest :
  0 <= v < 256 ^ Z.of_nat n -> rd_le n (put_le_from n 0 v ++ rest) = ROk v rest.
Proof.
  intros Hv. unfold rd_le. rewrite length_app, put_le_from_length.
  assert ((n + length rest <? n)%nat = false) as -> by (apply Nat.ltb_ge; lia).
  rewrite take_app_length', drop_app_length' by (by rewrite put_le_from_length).
  by rewrite get_put_le.
Qed.

Lemma rd_u64_put v rest : in_u64 v -> rd_u64 (put_u64 v ++ rest) = ROk v rest.
Proof. intros Hv. by apply (rd_le_put 8). Qed.

Lemma rd_u32_put v rest : in_u32 v -> rd_u32 (put_u32 v ++ rest) = ROk v rest.
Proof. intros Hv. by apply (rd_le_put 4). Qed.

Lemma rd_id_put tag (i : TypedId tag) rest :
  in_u64 (id_value i) -> rd_id tag (put_u64 (id_value i) ++ rest) = ROk i rest.
Proof. intros Hi. eapply rbind_ok; [by apply rd_u64_put|]. by destruct i. Qed.

Lemma rd_gen_put tag (g : TypedGeneration tag) rest :
  in_u64 (gen_value g) -> rd_gen tag (put_u64 (gen_value g) ++ rest) = ROk g rest.
Proof. intros Hg. eapply rbind_ok; [by apply rd_u64_put|]. by destruct g. Qed.

Lemma rd_double_put d rest : in_u64 (d_bits d) -> rd_double (put_u64 (d_bits d) ++ rest) = ROk d rest.
Proof. intros Hd. eapply rbind_ok; [by apply rd_u64_put|]. by destruct d. Qed.

Lemma rd_enum_put {E} `{CEnum E} (e : E) rest :
  cenum_canon e -> rd_enum E (put_enum e ++ rest) = ROk e rest.
Proof. intros He. unfold rd_enum, rbind. simpl. by rewrite cenum_of_u8_to_u8. Qed.

Lemma rd_str_put s rest :
  str_size s <= 2 ^ 20 -> rest <> [] -> rd_str (put_str s ++ rest) = ROk s rest.
Proof.
  intros Hs Hrest. assert (0 <= str_size s) by (unfold str_size; lia).
  unfold put_str. rewrite Z.mod_small by (unfold U32; lia). rewrite <- app_assoc.
  eapply rbind_ok; [apply rd_u32_put; unfold in_u32; lia|].
  unfold rd_str_body. rewrite Z.gtb_ltb, (proj2 (Z.ltb_ge _ _)) by lia.
  rewrite length_app, Nat2Z.inj_add, bytes_of_string_length, (proj2 (Z.ltb_ge _ _)) by lia.
  assert (Hlen : length (bytes_of_string s) = Z.to_nat (str_size s)).
  { rewrite <- bytes_of_string_length. lia. }
  rewrite take_app_length', drop_app_length', string_bytes_roundtrip by (by rewrite Hlen).
  destruct (bytes_of_string s ++ rest) eqn:E; [|done].
  apply app_eq_nil in E as [_ ->]. done.
Qed.

Create HintDb codec discriminated.
#[export] Hint Resolve rd_u64_put rd_u32_put rd_id_put rd_gen_put rd_double_put rd_enum_put
  rd_u8_put : codec.
#[export] Hint Constants Opaque : codec.

(** ** Records and domains *)

(** The field ranges of the C++ types, the string bound of the format, and enumeration
    values that a byte denotes. *)
Record record_ok (r : AllocationRecord) : Prop := {
  ro_id : in_u64 (id_value (rec_id r));
  ro_generation : in_u64 (gen_value (rec_generation r));
  ro_requested : in_u64 (rec_requested_bytes r);
  ro_region_size : in_u64 (rec_region_size r);
  ro_offset : in_u64 (rec_offset r);
  ro_alignment : in_u64 (rec_alignment r);
  ro_region_id : in_u64 (id_value (rec_region_id r));
  ro_region_generation : in_u64 (gen_value (rec_region_generation r));
  ro_mem_class : cenum_canon (rec_mem_class r);
  ro_reclaimability : cenum_canon (rec_reclaimability r);
  ro_movability : cenum_canon (rec_movability r);
  ro_pins : in_u32 (rec_pin_count r);
  ro_residency : cenum_canon (rec_residency r);
  ro_lifecycle : cenum_canon (rec_lifecycle r);
  ro_owner : str_size (rec_owner r) <= 2 ^ 20;
  ro_worker : in_u64 (id_value (rec_worker r));
  ro_worker_boot : in_u64 (gen_value (rec_worker_boot r));
  ro_source_boot : in_u64 (gen_value (rec_source_boot r));
  ro_workload : in_u64 (id_value (rec_workload r));
  ro_execution : in_u64 (id_value (rec_execution r));
  ro_relocation : in_u64 (gen_value (rec_relocation_generation r));
  ro_reservation : in_u64 (gen_value (rec_reservation_gen r));
  ro_claim : in_u64 (gen_value (rec_resource_claim_gen r));
  ro_placement : in_u64 (gen_value (rec_placement_gen r));
  ro_policy : in_u64 (gen_value (rec_policy_gen r));
  ro_backing : str_size (rec_backing_ref r) <= 2 ^ 20;
  ro_provenance : cenum_canon (rec_provenance r);
}.

Lemma put_u64_nonempty v rest : put_u64 v ++ rest <> [].
Proof. done. Qed.

Lemma put_enum_nonempty {E} `{CEnum E} (e : E) rest : put_enum e ++ rest <> [].
Proof. done. Qed.

#[local] Ltac field := first
  [ eapply rbind_ok; [solve [eauto with codec nocore]|]
  | eapply rbind_ok; [apply rd_str_put; [assumption|solve [apply put_u64_nonempty | apply put_enum_nonempty]]|] ];
  cbv beta.

Lemma read_record_put r rest : record_ok r -> read_record (write_record r ++ rest) = ROk r rest.
Proof.
  intros []. unfold write_record, read_record. rewrite <- !app_assoc.
  repeat field. unfold rret. destruct r; simpl. by destruct rec_recoverable.
Qed.

Record domain_ok (d : MemoryDomain) : Prop := {
  do_id : in_u64 (id_value (domain_id d));
  do_generation : in_u64 (gen_value (domain_generation d));
  do_device : in_u64 (id_value (device_id d));
  do_device_generation : in_u64 (gen_value (device_generation d));
  do_total : in_u64 (total_capacity d);
  do_visible : in_u64 (allocator_visible_capacity d);
  do_headroom : in_u64 (reserved_headroom d);
  do_managed : in_u64 (managed_capacity d);
  do_committed : in_u64 (current_committed d);
  do_physical : in_u64 (current_physically_allocated d);
  do_resident : in_u64 (current_resident d);
  do_reclaimable : in_u64 (current_reclaimable d);
  do_movable : in_u64 (current_movable d);
  do_pinned : in_u64 (current_pinned d);
  do_frag : in_u64 (d_bits (dom_external_fragmentation d));
  do_pressure : cenum_canon (dom_pressure d);
  do_health : cenum_canon (dom_health d);
  do_provenance : cenum_canon (dom_provenance d);
  do_wgen : in_u64 (gen_value (wm_generation (dom_watermarks d)));
  do_low : in_u64 (d_bits (wm_low (dom_watermarks d)));
  do_high : in_u64 (d_bits (wm_high (dom_watermarks d)));
  do_critical : in_u64 (d_bits (wm_critical (dom_watermarks d)));
}.

Lemma read_domain_put d rest : domain_ok d -> read_domain (write_domain d ++ rest) = ROk d rest.
Proof.
  intros []. unfold write_domain, read_domain. rewrite <- !app_assoc.
  repeat field. unfold rret. destruct d as []; simpl. by destruct dom_watermarks.
Qed.

Lemma read_records_put l rest :
  Forall record_ok l ->
  read_records (length l) (concat (write_record <$> l) ++ rest) = ROk l rest.
Proof.
  induction 1 as [|r l Hr _ IH]; simpl; [done|]. rewrite <- app_assoc.
  eapply rbind_ok; [by apply read_record_put|]. eapply rbind_ok; [exact IH|]. done.
Qed.

(** ** The structural checks *)

(** The bytes a record occupies. *)
Definition rec_end (r : AllocationRecord) : Z := rec_offset r + rec_region_size r.

Definition apart (a b : Z * Z) : Prop := a.2 <= b.1 \/ b.2 <= a.1.

(** Pairwise disjointness, by position. *)
Definition pairwise_apart (l : list AllocationRecord) : Prop :=
  StronglySorted (fun a b => rec_end a <= rec_offset b \/ rec_end b <= rec_offset a) l.

Lemma StronglySorted_weaken {A} (R S : A -> A -> Prop) l :
  (forall a b, R a b -> S a b) -> StronglySorted R l -> StronglySorted S l.
Proof. induction 2; constructor; auto. eapply Forall_impl; eauto. Qed.

Lemma StronglySorted_perm {A} (D : A -> A -> Prop) l l' :
  (forall a b, D a b -> D b a) -> l ≡ₚ l' -> StronglySorted D l -> StronglySorted D l'.
Proof.
  intros Hsym. induction 1 as [|x l l' Hp IH|x y l|l1 l2 l3 _ IH1 _ IH2]; auto.
  - intros [Hs Hf]%StronglySorted_inv. constructor; [auto|]. by rewrite <- Hp.
  - intros [[Hs Hfx]%StronglySorted_inv Hfy]%StronglySorted_inv.
    apply Forall_cons in Hfy as [Hyx Hfy]. repeat constructor; auto.
Qed.

Lemma StronglySorted_fmap {A B} (f : A -> B) (D : B -> B -> Prop) l :
  StronglySorted D (f <$> l) <-> StronglySorted (fun a b => D (f a) (f b)) l.
Proof.
  induction l as [|x l IH]; simpl; [split; constructor|]. split.
  - intros [Hs Hf]%StronglySorted_inv. constructor; [by apply IH|]. rewrite Forall_fmap in Hf. exact Hf.
  - intros [Hs Hf]%StronglySorted_inv. constructor; [by apply IH|]. rewrite Forall_fmap. exact Hf.
Qed.

#[export] Instance pair_le_trans : Transitive pair_le.
Proof. unfold pair_le. intros [a1 a2] [b1 b2] [c1 c2]; simpl. lia. Qed.

#[export] Instance pair_le_total : Total pair_le.
Proof. unfold pair_le. intros [a1 a2] [b1 b2]; simpl. lia. Qed.

(** On non-empty intervals in [std::sort]'s order, the scan of neighbours decides
    whether any two intervals overlap. *)
Lemma overlaps_spec l :
  StronglySorted pair_le l -> Forall (fun p => p.1 < p.2) l ->
  overlaps l = false <-> StronglySorted (fun a b => a.2 <= b.1) l.
Proof.
  induction l as [|a l IH]; intros Hs Hne; [split; [constructor|done]|].
  apply StronglySorted_inv in Hs as [Hs Hfa]. apply Forall_cons in Hne as [Ha Hne].
  specialize (IH Hs Hne). destruct l as [|b l].
  { split; [repeat constructor|done]. }
  simpl overlaps in *. destruct (Z.ltb_spec b.1 a.2) as [Hlt|Hge].
  - split; [done|]. intros [_ Hf]%StronglySorted_inv. apply Forall_cons in Hf as [Hf _]. lia.
  - rewrite IH. split.
    + intros Hc. pose proof Hc as [_ Hb]%StronglySorted_inv. apply Forall_cons in Hne as [Hbn _].
      constructor; [done|]. constructor; [done|]. eapply Forall_impl; [exact Hb|]. simpl. lia.
    + by intros [? _]%StronglySorted_inv.
Qed.

Lemma overlaps_sorted l :
  Forall (fun p => p.1 < p.2) l ->
  overlaps (merge_sort pair_le l) = false <-> StronglySorted apart l.
Proof.
  intros Hne. set (s := merge_sort pair_le l).
  assert (Hp : s ≡ₚ l) by apply merge_sort_Permutation.
  assert (Hs : StronglySorted pair_le s) by (apply StronglySorted_merge_sort; apply _).
  assert (Hne' : Forall (fun p => p.1 < p.2) s) by (by rewrite Hp).
  assert (Hsym : forall a b, apart a b -> apart b a) by (unfold apart; tauto).
  rewrite (overlaps_spec s Hs Hne'). split.
  - intros Hc. apply (StronglySorted_perm apart s l Hsym Hp).
    eapply StronglySorted_weaken; [|exact Hc]. unfold apart. auto.
  - intros Ha. apply (StronglySorted_perm apart l s Hsym) in Ha; [|by symmetry].
    clear Hp Hsym. clearbody s. induction s as [|a s IH]; constructor.
    + apply StronglySorted_inv in Hs as [? _], Ha as [? _]. apply Forall_cons in Hne' as [_ ?]. auto.
    + apply StronglySorted_inv in Hs as [_ Hs], Ha as [_ Ha]. apply Forall_cons in Hne' as [Hna Hne'].
      apply Forall_forall. intros b Hb. rewrite Forall_forall in Hs, Ha, Hne'.
      specialize (Hs b Hb). specialize (Ha b Hb). specialize (Hne' b Hb).
      unfold pair_le, apart in *. lia.
Qed.

(** The sizes of pairwise disjoint intervals inside [0, hi) add up to at most [hi]. *)
Lemma chain_sum l lo hi :
  lo <= hi -> Forall (fun p => lo <= p.1 /\ p.1 < p.2 /\ p.2 <= hi) l ->
  StronglySorted (fun a b => a.2 <= b.1) l -> zsum (fun p => p.2 - p.1) l <= hi - lo.
Proof.
  revert lo. induction l as [|a l IH]; intros lo Hle Hb Hs; [simpl; lia|].
  apply StronglySorted_inv in Hs as [Hs Ha]. apply Forall_cons in Hb as [Hba Hb].
  rewrite zsum_cons. enough (zsum (fun p => p.2 - p.1) l <= hi - a.2) by lia.
  apply IH; [lia| |done]. rewrite Forall_forall in Ha, Hb |- *. intros b Hin.
  specialize (Ha b Hin). specialize (Hb b Hin). simpl in *. lia.
Qed.

Lemma apart_sum l hi :
  0 <= hi -> Forall (fun p => 0 <= p.1 /\ p.1 < p.2 /\ p.2 <= hi) l ->
  StronglySorted apart l -> zsum (fun p => p.2 - p.1) l <= hi.
Proof.
  intros Hhi Hb Ha.
  assert (Hne : Forall (fun p => p.1 < p.2) l) by (eapply Forall_impl; [exact Hb|]; simpl; lia).
  pose proof (merge_sort_Permutation pair_le l) as Hp.
  apply (overlaps_sorted l Hne) in Ha. rewrite <- Hp in Hb, Hne.
  rewrite overlaps_spec in Ha; [|apply StronglySorted_merge_sort; apply _|done].
  rewrite <- (zsum_perm _ _ _ Hp). pose proof (chain_sum _ 0 hi Hhi Hb Ha). lia.
Qed.

(** What [validate_record] accepts. *)
Record record_valid (r : AllocationRecord) (managed : Z) : Prop := {
  rv_bytes : 0 < rec_requested_bytes r <= rec_region_size r;
  rv_align : is_pow2 (rec_alignment r) = true;
  rv_end : rec_end r <= managed;
  rv_aligned : rec_offset r mod rec_alignment r = 0;
  rv_enums : enum_ok (rec_mem_class r) && enum_ok (rec_reclaimability r)
             && enum_ok (rec_movability r) && enum_ok (rec_residency r)
             && enum_ok (rec_lifecycle r) && enum_ok (rec_provenance r) = true;
  rv_generation : gen_value (rec_generation r) <> 0;
}.

Lemma validate_record_spec r managed :
  in_u64 (rec_requested_bytes r) -> in_u64 (rec_region_size r) -> in_u64 (rec_offset r) ->
  in_u64 managed -> validate_record r managed = true <-> record_valid r managed.
Proof.
  unfold in_u64. intros Hq Hz Ho Hm. unfold validate_record.
  assert (Ea : (rec_alignment r =? 0) || negb (Z.land (rec_alignment r) (sub64 (rec_alignment r) 1) =? 0)
               = negb (is_pow2 (rec_alignment r))).
  { unfold is_pow2. by destruct (rec_alignment r =? 0), (Z.land _ _ =? 0). }
  assert (Eb : (rec_offset r >? managed) || (rec_region_size r >? sub64 managed (rec_offset r))
               = (managed <? rec_end r)).
  { unfold rec_end. rewrite !Z.gtb_ltb. destruct (Z.ltb_spec managed (rec_offset r)); simpl.
    - symmetry. apply Z.ltb_lt. lia.
    - rewrite sub64_small by lia.
      destruct (Z.ltb_spec (managed - rec_offset r) (rec_region_size r)),
        (Z.ltb_spec managed (rec_offset r + rec_region_size r)); lia. }
  rewrite Ea, Eb. split.
  - intros Hv. guards_in Hv. zbool. constructor; try done; try lia.
    repeat match goal with H : enum_ok _ = true |- _ => rewrite H end. done.
  - intros []. zbool.
    repeat match goal with H : enum_ok _ = true |- _ => rewrite H; clear H end.
    rewrite rv_align0, rv_aligned0. rewrite (proj2 (Z.eqb_neq _ _)), !(proj2 (Z.ltb_ge _ _)) by lia.
    simpl. by rewrite (proj2 (Z.eqb_neq _ _)).
Qed.

Abbreviation ids := (fmap rec_id).

(** The validation loop: success means valid records and fresh, distinct ids. *)
Lemma validate_records_spec managed what l seen sum :
  in_u64 sum ->
  let good := Forall (fun r => validate_record r managed = true) l /\ NoDup (ids l)
              /\ forall i, i ∈ ids l -> i ∉ seen in
  match validate_records managed what l seen sum with
  | inl _ => ~ good
  | inr (seen', sum') => good /\ (forall i, i ∈ seen' <-> i ∈ ids l \/ i ∈ seen)
      /\ sum' = (sum + zsum rec_region_size l) mod U64
  end.
Proof.
  revert seen sum. induction l as [|r l IH]; intros seen sum Hs good; simpl.
  { unfold good; simpl. split_and!; [constructor|constructor|set_solver|set_solver|].
    rewrite Z.add_0_r. symmetry. by apply Z.mod_small. }
  destruct (validate_record r managed) eqn:Hv; simpl.
  2: { intros ([Hr _]%Forall_cons & _). congruence. }
  case_decide as Hd.
  { intros (_ & _ & Hf). by apply (Hf (rec_id r)); [set_solver|]. }
  specialize (IH ({[rec_id r]} ∪ seen) (add64 sum (rec_region_size r)) (add64_range _ _)).
  destruct (validate_records _ _ _ _ _) as [msg|[seen' sum']]; simpl in IH.
  - intros (Hf & Hn & Hfr). apply IH. apply Forall_cons in Hf as [_ Hf].
    apply NoDup_cons in Hn as [Hni Hn]. split_and!; auto. intros i Hi. set_solver.
  - destruct IH as ((Hf & Hn & Hfr) & Hs' & ->). unfold good; simpl. split_and!.
    + by constructor.
    + constructor; [|done]. intros Hi. apply (Hfr _ Hi). set_solver.
    + intros i [->|Hi]%elem_of_cons; [done|]. specialize (Hfr i Hi). set_solver.
    + intros i. rewrite Hs'. set_solver.
    + unfold add64. rewrite Zplus_mod_idemp_l. f_equal. unfold zsum; simpl. lia.
Qed.

(** What a snapshot must satisfy to be restored. *)
Record snapshot_valid (s : PersistSnapshot) : Prop := {
  sv_records : Forall (fun r => record_valid r (managed_capacity (ps_domain s)))
                 (ps_records s ++ ps_retired s);
  sv_ids : NoDup (ids (ps_records s ++ ps_retired s));
  sv_apart : pairwise_apart (ps_records s);
}.

(** The word ranges that any snapshot in memory has. *)
Definition snapshot_words (s : PersistSnapshot) : Prop :=
  in_u64 (managed_capacity (ps_domain s))
  /\ Forall (fun r => in_u64 (rec_requested_bytes r) /\ in_u64 (rec_region_size r)
                      /\ in_u64 (rec_offset r)) (ps_records s ++ ps_retired s).

Lemma validate_all l managed :
  in_u64 managed ->
  Forall (fun r => in_u64 (rec_requested_bytes r) /\ in_u64 (rec_region_size r)
                   /\ in_u64 (rec_offset r)) l ->
  Forall (fun r => validate_record r managed = true) l <-> Forall (fun r => record_valid r managed) l.
Proof.
  intros Hm Hw. rewrite !Forall_forall. rewrite Forall_forall in Hw.
  split; intros Hv r Hr; destruct (Hw r Hr) as (? & ? & ?); apply validate_record_spec; auto.
Qed.

(** On valid records the interval arithmetic does not wrap. *)
Lemma rec_intervals l managed :
  in_u64 managed -> Forall (fun r => record_valid r managed /\ in_u64 (rec_offset r)) l ->
  rec_interval <$> l = (fun r => (rec_offset r, rec_end r)) <$> l
  /\ Forall (fun p => 0 <= p.1 /\ p.1 < p.2 /\ p.2 <= managed) (rec_interval <$> l).
Proof.
  intros Hm. induction 1 as [|r l [[[? ?] ? He ? ? ?] Ho] _ [IH1 IH2]]; [split; constructor|].
  unfold in_u64, rec_end in *. rewrite !fmap_cons. assert (Hi : rec_interval r = (rec_offset r, rec_end r)).
  { unfold rec_interval, rec_end. rewrite add64_small by lia. done. }
  rewrite Hi, IH1. split; [done|]. rewrite IH1 in IH2. constructor; [|done]. simpl. unfold rec_end. lia.
Qed.

Lemma apart_records l :
  StronglySorted apart ((fun r => (rec_offset r, rec_end r)) <$> l) <-> pairwise_apart l.
Proof. apply StronglySorted_fmap. Qed.

(** The structural checks accept exactly the valid snapshots: the sum test is implied by
    the overlap test, and its wrap-around can hide nothing. *)
Lemma check_snapshot_spec s :
  snapshot_words s ->
  match check_snapshot s with
  | Ok s' => s' = s /\ snapshot_valid s
  | Err f => reason f = RejectReason.INTERNAL_ERROR /\ ~ snapshot_valid s
  end.
Proof.
  intros [Hm Hw]. unfold check_snapshot.
  set (managed := managed_capacity (ps_domain s)) in *.
  pose proof Hw as [Hw1 Hw2]%Forall_app.
  pose proof (validate_records_spec managed "invalid record" (ps_records s) ∅ 0 ltac:(done)) as H1.
  destruct (validate_records _ _ (ps_records s) ∅ 0) as [msg|[seen sum]]; simpl in H1.
  { split; [done|]. intros [Hv Hn _]. apply H1. apply Forall_app in Hv as [Hv _].
    rewrite fmap_app in Hn. apply NoDup_app in Hn as (Hn & _). rewrite validate_all by done.
    split_and!; [done..|set_solver]. }
  destruct H1 as ((Hv1 & Hn1 & _) & Hseen & Hsum).
  pose proof (validate_records_spec managed "invalid retired record" (ps_retired s) seen 0 ltac:(done)) as H2.
  destruct (validate_records _ _ (ps_retired s) seen 0) as [msg|[seen2 sum2]]; simpl in H2.
  { split; [done|]. intros [Hv Hn _]. apply H2. apply Forall_app in Hv as [_ Hv].
    rewrite fmap_app in Hn. apply NoDup_app in Hn as (_ & Hd & Hn). rewrite validate_all by done.
    split_and!; [done..|]. intros i Hi. rewrite Hseen. intros [Hi'|Hi']; [by apply (Hd i)|set_solver]. }
  destruct H2 as ((Hv2 & Hn2 & Hfr) & _ & _). rewrite validate_all in Hv1, Hv2 by done.
  destruct (rec_intervals (ps_records s) managed Hm) as [Ei Hi].
  { rewrite Forall_forall in Hv1, Hw1 |- *. intros r Hr. split; [by apply Hv1|]. by apply Hw1. }
  assert (Hne : Forall (fun p => p.1 < p.2) (rec_interval <$> ps_records s)).
  { eapply Forall_impl; [exact Hi|]. simpl. lia. }
  pose proof (overlaps_sorted _ Hne) as Hov. rewrite Ei, apart_records in Hov. rewrite Ei.
  assert (Hsz : pairwise_apart (ps_records s) ->
                0 <= zsum rec_region_size (ps_records s) <= managed).
  { intros Ha. apply apart_records in Ha. rewrite <- Ei in Ha.
    pose proof (apart_sum _ managed (proj1 Hm) Hi Ha) as Hle. rewrite Ei in Hle.
    assert (Ez : forall l, zsum (fun p => p.2 - p.1) ((fun r => (rec_offset r, rec_end r)) <$> l)
                 = zsum rec_region_size l).
    { induction l as [|r l IH]; [done|]. rewrite fmap_cons, !zsum_cons, IH. simpl. unfold rec_end. lia. }
    rewrite Ez in Hle. split; [|done]. apply zsum_nonneg. intros r Hr.
    rewrite Forall_forall in Hw1. apply (Hw1 r Hr). }
  destruct (Z.gtb_spec sum managed) as [Hgt|Hle].
  { split; [done|]. intros [_ _ Ha]. specialize (Hsz Ha). unfold in_u64 in Hm.
    rewrite Hsum, Z.add_0_l, Z.mod_small in Hgt by lia. lia. }
  destruct (overlaps _) eqn:Hover.
  { split; [done|]. intros [_ _ Ha]. apply Hov in Ha. congruence. }
  split; [done|]. constructor; [by apply Forall_app| |by apply Hov].
  rewrite fmap_app. apply NoDup_app. split_and!; auto. intros i Hi1 Hi2. apply (Hfr i Hi2), Hseen. auto.
Qed.

(** ** Round trip *)

Record snapshot_ok (s : PersistSnapshot) : Prop := {
  so_magic : ps_magic s = kMagic;
  so_version : ps_version s = kVersion;
  so_domain : domain_ok (ps_domain s);
  so_watermarks : WatermarkConfig_valid (dom_watermarks (ps_domain s)) = true;
  so_records : Forall record_ok (ps_records s);
  so_retired : Forall record_ok (ps_retired s);
  so_nrecords : Z.of_nat (length (ps_records s)) <= kMaxRecords;
  so_nretired : Z.of_nat (length (ps_retired s)) <= kMaxRecords;
  so_next : in_u64 (ps_next_alloc_id s);
  so_history : in_u64 (ps_history_count s);
}.

(** The same but for the limits on the numbers of records, which here only fit the count. *)
Record snapshot_fields (s : PersistSnapshot) : Prop := {
  sf_magic : ps_magic s = kMagic;
  sf_version : ps_version s = kVersion;
  sf_domain : domain_ok (ps_domain s);
  sf_watermarks : WatermarkConfig_valid (dom_watermarks (ps_domain s)) = true;
  sf_records : Forall record_ok (ps_records s);
  sf_retired : Forall record_ok (ps_retired s);
  sf_nrecords : Z.of_nat (length (ps_records s)) < U32;
  sf_nretired : Z.of_nat (length (ps_retired s)) < U32;
  sf_next : in_u64 (ps_next_alloc_id s);
  sf_history : in_u64 (ps_history_count s);
}.

Lemma snapshot_ok_fields s : snapshot_ok s -> snapshot_fields s.
Proof. intros []. constructor; try done; unfold kMaxRecords, U32 in *; lia. Qed.

(** Both counts are within the limit of the format. *)
Definition counts_ok (s : PersistSnapshot) : Prop :=
  Z.of_nat (length (ps_records s)) <= kMaxRecords /\ Z.of_nat (length (ps_retired s)) <= kMaxRecords.

#[export] Instance counts_ok_dec s : Decision (counts_ok s).
Proof. unfold counts_ok. apply _. Defined.

Lemma snapshot_fields_ok s : snapshot_fields s -> counts_ok s -> snapshot_ok s.
Proof. intros [] []. by constructor. Qed.

Lemma with_read_ok {A B} (r : reader A) bs a rest msg (k : A -> bytes -> option (Result B)) x :
  r bs = ROk a rest -> k a rest = x -> with_read r bs msg k = x.
Proof. unfold with_read. by intros -> <-. Qed.

Lemma count_ok l : Z.of_nat (length (A := AllocationRecord) l) < U32 ->
  in_u32 (Z.of_nat (length l) mod U32) /\ Z.of_nat (length l) mod U32 = Z.of_nat (length l).
Proof. unfold in_u32, U32. intros. rewrite Z.mod_small; lia. Qed.

(** Everything a writer appends is a byte. *)
Lemma put_enum_ok {E} `{CEnum E} (e : E) :
  cenum_canon e -> cenum_max E < 256 -> bytes_ok (put_enum e).
Proof. intros Hc Hm. constructor; [|constructor]. by apply cenum_canon_u8. Qed.

Lemma put_str_ok s : bytes_ok (put_str s).
Proof. apply Forall_app. split; [apply put_le_from_ok|apply bytes_of_string_ok]. Qed.

#[local] Ltac write_ok :=
  repeat (apply Forall_app; split);
  first [apply put_le_from_ok | apply bytes_of_string_ok | by apply put_enum_ok | idtac].

Lemma write_record_ok r : record_ok r -> bytes_ok (write_record r).
Proof.
  intros []. unfold write_record. write_ok. constructor; [|constructor].
  by destruct (rec_recoverable r).
Qed.

Lemma write_domain_ok d : domain_ok d -> bytes_ok (write_domain d).
Proof. intros []. unfold write_domain. write_ok. Qed.

Lemma write_records_ok l : Forall record_ok l -> bytes_ok (write_records l).
Proof.
  intros Hl. apply Forall_app. split; [apply put_le_from_ok|].
  induction Hl as [|r l Hr _ IH]; [constructor|]. rewrite fmap_cons. apply Forall_app.
  split; [by apply write_record_ok|exact IH].
Qed.

#[local] Opaque write_domain write_records.

Lemma encode_body_ok s : snapshot_fields s -> bytes_ok (encode_body s).
Proof.
  intros []. unfold encode_body. write_ok;
    [by apply write_domain_ok|by apply write_records_ok..].
Qed.

#[local] Transparent write_domain write_records.

(** What [encode] writes, [decode] reads, up to the limits and the structural checks. *)
Lemma decode_encode_counts s :
  snapshot_fields s ->
  decode (encode s)
  = Some (if Z.of_nat (length (ps_records s)) >? kMaxRecords then internal "hostile record count"
          else if Z.of_nat (length (ps_retired s)) >? kMaxRecords then internal "hostile retired count"
          else check_snapshot s).
Proof.
  intros Hs. pose proof (crc32_u32 _ (encode_body_ok s Hs)) as Hc. destruct Hs.
  set (c := crc32 (encode_body s)) in *.
  assert (Htake : take (length (encode s) - 4) (encode s) = encode_body s).
  { unfold encode. rewrite length_app. change (length (put_u32 _)) with 4%nat.
    replace (length (encode_body s) + 4 - 4)%nat with (length (encode_body s)) by lia.
    apply take_app_length. }
  unfold decode. rewrite Htake. fold c. unfold encode. fold c.
  unfold encode_body, write_records. rewrite <- !app_assoc.
  destruct (count_ok _ sf_nrecords0) as [Hn1 En1]. destruct (count_ok _ sf_nretired0) as [Hn2 En2].
  assert (Hk : in_u32 kMagic /\ in_u32 kVersion) by (unfold in_u32, kMagic, kVersion; lia).
  destruct Hk as [Hk1 Hk2].
  eapply with_read_ok; [by apply rd_u32_put|]. cbv beta. rewrite Z.eqb_refl. cbn [negb].
  eapply with_read_ok; [by apply rd_u32_put|]. cbv beta. rewrite Z.eqb_refl. cbn [negb].
  eapply with_read_ok; [by apply read_domain_put|]. cbv beta. rewrite sf_watermarks0. cbn [negb].
  eapply with_read_ok; [by apply rd_u32_put|]. cbv beta. rewrite En1, Nat2Z.id by done.
  destruct (Z.of_nat (length (ps_records s)) >? kMaxRecords); [done|].
  eapply with_read_ok; [by apply read_records_put|]. cbv beta.
  eapply with_read_ok; [by apply rd_u32_put|]. cbv beta. rewrite En2, Nat2Z.id by done.
  destruct (Z.of_nat (length (ps_retired s)) >? kMaxRecords); [done|].
  eapply with_read_ok; [by apply read_records_put|]. cbv beta.
  eapply with_read_ok; [by apply rd_u64_put|]. cbv beta.
  eapply with_read_ok; [by apply rd_u64_put|]. cbv beta.
  rewrite <- (app_nil_r (put_u32 c)).
  eapply with_read_ok; [by apply rd_u32_put|]. cbv beta. rewrite Z.eqb_refl. cbn [negb].
  cbv beta iota. rewrite Z.eqb_refl. cbn [negb].
  do 2 f_equal. destruct s; simpl in *. congruence.
Qed.

Lemma decode_encode s : snapshot_ok s -> decode (encode s) = Some (check_snapshot s).
Proof.
  intros Hs. rewrite decode_encode_counts by (by apply snapshot_ok_fields).
  rewrite !Z.gtb_ltb, !(proj2 (Z.ltb_ge _ _)) by apply Hs. done.
Qed.

(** A snapshot with more records than that is encoded, but no one decodes it. *)
Lemma decode_hostile s :
  snapshot_fields s -> ~ counts_ok s ->
  exists f, decode (encode s) = Some (Err f) /\ reason f = RejectReason.INTERNAL_ERROR.
Proof.
  intros Hs Hc. rewrite decode_encode_counts by done. unfold counts_ok in Hc.
  destruct (Z.gtb_spec (Z.of_nat (length (ps_records s))) kMaxRecords); [by eexists|].
  destruct (Z.gtb_spec (Z.of_nat (length (ps_retired s))) kMaxRecords); [by eexists|]. lia.
Qed.
