(* ===== verification/PersistSound.v ===== *)
(** What a successful decode guarantees: lemmas by inversion of the readers. *)
From S2P Require Import Prelude Words Ordered Types Floats Pressure Request Bytes Persist.
From S2P Require Import PersistInv.
Open Scope Z_scope.
Open Scope gms_scope.

(** ** Readers consume a prefix *)

(** On a buffer of bytes, [r] returns values in [P] and leaves a suffix. *)
Definition reads {A} (r : reader A) (P : A -> Prop) : Prop :=
  forall bs a rest, bytes_ok bs -> r bs = ROk a rest -> P a /\ exists pre, bs = pre ++ rest.

Lemma reads_ret {A} (a : A) (P : A -> Prop) : P a -> reads (rret a) P.
Proof. intros Ha bs a' rest _ [= <- <-]. split; [done|]. by exists []. Qed.

Lemma reads_bind {A B} (r : reader A) (k : A -> reader B) P Q :
  reads r P -> (forall a, P a -> reads (k a) Q) -> reads (rbind r k) Q.
Proof.
  intros Hr Hk bs b rest Hbs. unfold rbind. destruct (r bs) as [| |a mid] eqn:E; [done..|].
  destruct (Hr _ _ _ Hbs E) as [Ha [pre ->]]. apply Forall_app in Hbs as [_ Hmid].
  intros Ek. destruct (Hk a Ha _ _ _ Hmid Ek) as [Hb [pre' ->]]. split; [done|].
  exists (pre ++ pre'). by rewrite <- app_assoc.
Qed.

Lemma reads_weaken {A} (r : reader A) (P Q : A -> Prop) :
  reads r P -> (forall a, P a -> Q a) -> reads r Q.
Proof. intros Hr HPQ bs a rest Hbs E. destruct (Hr _ _ _ Hbs E). auto. Qed.

Lemma rd_u8_reads : reads rd_u8 is_byte.
Proof.
  intros [|b bs] a rest Hbs; simpl; [done|]. intros [= <- <-]. apply Forall_cons in Hbs as [? _].
  split; [done|]. by exists [b].
Qed.

Lemma rd_le_inv n bs a rest :
  bytes_ok bs -> rd_le n bs = ROk a rest ->
  exists pre, bs = pre ++ rest /\ length pre = n /\ a = get_le pre /\ 0 <= a < 256 ^ Z.of_nat n.
Proof.
  intros Hbs. unfold rd_le. destruct (Nat.ltb_spec (length bs) n); [done|]. intros [= <- <-].
  assert (Hlen : length (take n bs) = n) by (rewrite length_take; lia).
  exists (take n bs). split; [by rewrite take_drop|]. split; [done|]. split; [done|].
  assert (bytes_ok (take n bs)) by (by apply Forall_take).
  rewrite get_le_value by done. rewrite <- Hlen at 3. by apply le_value_bounds.
Qed.

Lemma rd_le_reads n : reads (rd_le n) (fun a => 0 <= a < 256 ^ Z.of_nat n).
Proof.
  intros bs a rest Hbs E. destruct (rd_le_inv _ _ _ _ Hbs E) as (pre & -> & _ & _ & Ha). eauto.
Qed.

Lemma rd_u32_reads : reads rd_u32 in_u32.
Proof. exact (rd_le_reads 4). Qed.

Lemma rd_u64_reads : reads rd_u64 in_u64.
Proof. exact (rd_le_reads 8). Qed.

Lemma rd_id_reads tag : reads (rd_id tag) (fun i => in_u64 (id_value i)).
Proof. eapply reads_bind; [apply rd_u64_reads|]. intros a Ha. by apply reads_ret. Qed.

Lemma rd_gen_reads tag : reads (rd_gen tag) (fun g => in_u64 (gen_value g)).
Proof. eapply reads_bind; [apply rd_u64_reads|]. intros a Ha. by apply reads_ret. Qed.

Lemma rd_double_reads : reads rd_double (fun d => in_u64 (d_bits d)).
Proof. eapply reads_bind; [apply rd_u64_reads|]. intros a Ha. by apply reads_ret. Qed.

Lemma rd_enum_reads E `{CEnum E} : reads (rd_enum E) cenum_canon.
Proof.
  eapply reads_bind; [apply rd_u8_reads|]. intros a Ha. apply reads_ret. by apply cenum_canon_of_u8.
Qed.

Lemma string_of_bytes_size l : str_size (string_of_bytes l) = Z.of_nat (length l).
Proof. unfold str_size. induction l; simpl; lia. Qed.

Lemma rd_str_reads : reads rd_str (fun s => str_size s <= 2 ^ 20).
Proof.
  eapply reads_bind; [apply rd_u32_reads|]. intros n [Hn _] bs a rest _. unfold rd_str_body.
  rewrite Z.gtb_ltb. destruct (Z.ltb_spec (2 ^ 20) n); [done|].
  destruct (Z.ltb_spec (Z.of_nat (length bs)) n); [done|]. destruct bs as [|b bs]; [done|].
  set (l := b :: bs) in *. intros [= <- <-]. split.
  - rewrite string_of_bytes_size, length_take. lia.
  - exists (take (Z.to_nat n) l). by rewrite take_drop.
Qed.

#[local] Ltac reads_field := eapply reads_bind;
  [first [apply rd_id_reads | apply rd_gen_reads | apply rd_u64_reads | apply rd_u32_reads
         | apply rd_double_reads | apply rd_enum_reads | apply rd_str_reads | apply rd_u8_reads]|];
  intros ? ?.

Lemma read_record_reads : reads read_record record_ok.
Proof. unfold read_record. repeat reads_field. apply reads_ret. by constructor. Qed.

Lemma read_domain_reads : reads read_domain domain_ok.
Proof. unfold read_domain. repeat reads_field. apply reads_ret. by constructor. Qed.

Lemma read_records_reads n : reads (read_records n) (fun l => Forall record_ok l /\ length l = n).
Proof.
  induction n as [|n IH]; simpl; [by apply reads_ret|].
  eapply reads_bind; [apply read_record_reads|]. intros r Hr.
  eapply reads_bind; [exact IH|]. intros l [Hl <-]. apply reads_ret. split; [by constructor|done].
Qed.

(** ** Decoding *)

Lemma with_read_inv {A B} (r : reader A) P bs msg (k : A -> bytes -> option (Result B)) x :
  reads r P -> bytes_ok bs -> with_read r bs msg k = Some (Ok x) ->
  exists a pre rest, P a /\ bs = pre ++ rest /\ bytes_ok rest /\ r bs = ROk a rest
    /\ k a rest = Some (Ok x).
Proof.
  intros Hr Hbs. unfold with_read. destruct (r bs) as [| |a rest] eqn:E; [done..|]. intros Ek.
  destruct (Hr _ _ _ Hbs E) as [Ha [pre ->]]. apply Forall_app in Hbs as [_ Hrest].
  by exists a, pre, rest.
Qed.

#[local] Ltac decode_step Hr H a pre :=
  eapply with_read_inv in H;
  [ destruct H as (a & pre & ? & ? & -> & ? & ? & H) | exact Hr | done ];
  cbv beta in H.

#[local] Ltac decode_guard H :=
  match type of H with
  | (if ?c then Some (internal _) else _) = _ => destruct c eqn:?; [done|]
  end.

Lemma check_snapshot_id s s' : check_snapshot s = Ok s' -> s = s'.
Proof. unfold check_snapshot, internal, fail. intros H. guards_in H. Qed.

Lemma decode_inv b s :
  bytes_ok b -> decode b = Some (Ok s) ->
  snapshot_ok s /\ check_snapshot s = Ok s /\ sealed b.
Proof.
  intros Hb H. unfold decode in H. set (c := crc32 (take (length b - 4) b)) in H.
  assert (Hsplit : forall pre rest, b = pre ++ rest -> length rest = 4%nat ->
                   get_le rest = c -> sealed b).
  { intros pre rest Eb Hl Hg. exists pre. rewrite Eb in Hb |- *. f_equal.
    apply Forall_app in Hb as [_ Hb]. unfold put_u32.
    replace (crc32 pre) with c; [rewrite <- Hg, <- Hl; symmetry; by apply put_get_le|].
    unfold c. rewrite Eb, length_app, Hl, Nat.add_sub, take_app_length. done. }
  clearbody c.
  decode_step rd_u32_reads H magic b1. decode_guard H.
  decode_step rd_u32_reads H ver b2. decode_guard H.
  decode_step read_domain_reads H d b3. decode_guard H.
  decode_step rd_u32_reads H rocount b4. decode_guard H.
  decode_step (read_records_reads (Z.to_nat rocount)) H records b5.
  decode_step rd_u32_reads H trcount b6. decode_guard H.
  decode_step (read_records_reads (Z.to_nat trcount)) H retired b7.
  decode_step rd_u64_reads H next b8.
  decode_step rd_u64_reads H hist b9.
  decode_step rd_u32_reads H stored b10. decode_guard H. decode_guard H.
  apply Some_inj in H. pose proof (check_snapshot_id _ _ H) as <-. zbool.
  split_and!; [|done|].
  - destruct H12 as [Hrec Hn1], H18 as [Hret Hn2]. unfold in_u32 in *.
    constructor; simpl; auto; lia.
  - destruct (rd_le_inv 4 _ _ _ H25 H29) as (pre & E & Hl & -> & _).
    destruct x0; [|simpl in Heqb4; lia]. rewrite !app_nil_r in *. subst pre.
    apply (Hsplit (b1 ++ b2 ++ b3 ++ b4 ++ b5 ++ b6 ++ b7 ++ b8 ++ b9) b10); [|done|congruence].
    by rewrite <- !app_assoc.
Qed.

Lemma snapshot_ok_words s : snapshot_ok s -> snapshot_words s.
Proof.
  intros Hok. split; [apply (do_managed _ (so_domain s Hok))|]. apply Forall_app. split.
  - eapply Forall_impl; [exact (so_records s Hok)|]. intros r []; auto.
  - eapply Forall_impl; [exact (so_retired s Hok)|]. intros r []; auto.
Qed.

(** ** When decoding is undefined *)

(** The buffer ends with the length of an empty string. *)
Definition ends_empty (bs : bytes) : Prop := exists pre, bs = pre ++ [0; 0; 0; 0].

Lemma ends_empty_app pre bs : ends_empty bs -> ends_empty (pre ++ bs).
Proof. intros [q ->]. exists (pre ++ q). by rewrite app_assoc. Qed.

(** [r] is undefined on such buffers only. *)
Definition undefined_at_end {A} (r : reader A) : Prop := forall bs, bytes_ok bs -> r bs = RUB -> ends_empty bs.

Lemma undefined_ret {A} (a : A) : undefined_at_end (rret a).
Proof. done. Qed.

Lemma undefined_bind {A B} (r : reader A) (k : A -> reader B) P :
  reads r P -> undefined_at_end r -> (forall a, undefined_at_end (k a)) -> undefined_at_end (rbind r k).
Proof.
  intros Hr Hu Hk bs Hbs. unfold rbind. destruct (r bs) as [| |a rest] eqn:E; [done|by intros _; apply Hu|].
  destruct (Hr _ _ _ Hbs E) as [_ [pre ->]]. apply Forall_app in Hbs as [_ Hrest]. intros Ek.
  by apply ends_empty_app, (Hk a).
Qed.

Lemma undefined_le n : undefined_at_end (rd_le n).
Proof. intros bs _. unfold rd_le. by case_match. Qed.

Lemma undefined_u8 : undefined_at_end rd_u8.
Proof. by intros [|b bs]. Qed.

Lemma undefined_u32 : undefined_at_end rd_u32.
Proof. exact (undefined_le 4). Qed.

Lemma undefined_u64 : undefined_at_end rd_u64.
Proof. exact (undefined_le 8). Qed.

Lemma undefined_str : undefined_at_end rd_str.
Proof.
  intros bs Hbs. unfold rd_str, rbind, rd_u32.
  destruct (rd_le 4 bs) as [| |n rest] eqn:E; [done|by apply undefined_le in E|].
  destruct (rd_le_inv _ _ _ _ Hbs E) as (pre & -> & Hl & -> & Hn). unfold rd_str_body.
  destruct (_ >? _); [done|]. destruct (Z.ltb_spec (Z.of_nat (length rest)) (get_le pre)); [done|].
  destruct rest as [|b rest]; [|done]. intros _. simpl in *. apply Forall_app in Hbs as [Hpre _].
  exists []. rewrite app_nil_r. simpl. rewrite <- (put_get_le pre) by done. rewrite Hl.
  by replace (get_le pre) with 0 by lia.
Qed.

#[local] Ltac undefined_word := eapply undefined_bind; [apply rd_u64_reads|apply undefined_u64|]; intros ?; apply undefined_ret.

Lemma undefined_id tag : undefined_at_end (rd_id tag).
Proof. undefined_word. Qed.

Lemma undefined_gen tag : undefined_at_end (rd_gen tag).
Proof. undefined_word. Qed.

Lemma undefined_double : undefined_at_end rd_double.
Proof. undefined_word. Qed.

Lemma undefined_enum E `{CEnum E} : undefined_at_end (rd_enum E).
Proof. eapply undefined_bind; [apply rd_u8_reads|apply undefined_u8|]. intros ?. apply undefined_ret. Qed.

#[local] Ltac undefined_field := eapply undefined_bind;
  [first [apply rd_id_reads | apply rd_gen_reads | apply rd_u64_reads | apply rd_u32_reads
         | apply rd_double_reads | apply rd_enum_reads | apply rd_str_reads | apply rd_u8_reads]
  |first [apply undefined_id | apply undefined_gen | apply undefined_u64 | apply undefined_u32
         | apply undefined_double | apply undefined_enum | apply undefined_str | apply undefined_u8]|];
  intros ?.

Lemma undefined_record : undefined_at_end read_record.
Proof. unfold read_record. repeat undefined_field. apply undefined_ret. Qed.

Lemma undefined_domain : undefined_at_end read_domain.
Proof. unfold read_domain. repeat undefined_field. apply undefined_ret. Qed.

Lemma undefined_records n : undefined_at_end (read_records n).
Proof.
  induction n as [|n IH]; simpl; [apply undefined_ret|].
  eapply undefined_bind; [apply read_record_reads|apply undefined_record|]. intros r.
  eapply undefined_bind; [apply read_records_reads|exact IH|]. intros l. apply undefined_ret.
Qed.

(** What [decode] may do short of accepting: refuse with INTERNAL_ERROR, or be undefined where the
    buffer ends with the length of an empty string. *)
Definition refuses {A} (b : bytes) (res : option (Result A)) : Prop :=
  match res with
  | Some (Ok _) => True
  | Some (Err f) => reason f = RejectReason.INTERNAL_ERROR
  | None => ends_empty b
  end.

Lemma refuses_after {A} pre b (res : option (Result A)) : refuses b res -> refuses (pre ++ b) res.
Proof. destruct res as [[a|f]|]; simpl; auto using ends_empty_app. Qed.

Lemma refuses_guard {A} b (c : bool) msg (x : option (Result A)) :
  refuses b x -> refuses b (if c then Some (internal msg) else x).
Proof. by destruct c. Qed.

Lemma with_read_refuses {A B} (r : reader A) P b msg (k : A -> bytes -> option (Result B)) :
  reads r P -> undefined_at_end r -> bytes_ok b ->
  (forall a rest, P a -> bytes_ok rest -> refuses rest (k a rest)) -> refuses b (with_read r b msg k).
Proof.
  intros Hr Hu Hb Hk. unfold with_read. destruct (r b) as [| |a rest] eqn:E; [done|by apply Hu|].
  destruct (Hr _ _ _ Hb E) as [Ha [pre ->]]. apply Forall_app in Hb as [_ Hrest].
  by apply refuses_after, Hk.
Qed.

Lemma check_snapshot_refuses b s : refuses b (Some (check_snapshot s)).
Proof. unfold check_snapshot, internal, fail. by repeat case_match; simplify_eq/=. Qed.

#[local] Ltac decode_field := eapply with_read_refuses;
  [first [apply rd_u32_reads|apply rd_u64_reads|apply read_domain_reads|apply read_records_reads]
  |first [apply undefined_u32|apply undefined_u64|apply undefined_domain|apply undefined_records]|done|];
  intros ? ? _ ?.

Lemma decode_refuses b : bytes_ok b -> refuses b (decode b).
Proof.
  intros Hb. unfold decode. generalize (crc32 (take (length b - 4) b)) as c. intros c.
  repeat first [decode_field | apply refuses_guard]. apply check_snapshot_refuses.
Qed.
