(* ===== verification/PersistProps.v ===== *)
(** The properties of the durable snapshot format. *)
From S2P Require Import Prelude Words Ordered Types Floats Pressure Request Bytes Persist.
From S2P Require Import PersistInv PersistSound.
Open Scope Z_scope.

(** ** A concrete snapshot for the instances *)

Definition demo_domain : MemoryDomain :=
  mk_domain (mk_id 1) (mk_gen 1) (mk_id 2) (mk_gen 1) 8192 8192 4096 4096 128 0 128 0 128 0
    d_zero PressureState.LOW DeviceHealth.HEALTHY WatermarkConfig_default Provenance.REPORTED.

Definition demo_record (id off size : Z) : AllocationRecord :=
  mk_record (mk_id id) (mk_gen 1) (size - 28) size off 64 (mk_id id) (mk_gen 1)
    MemoryClass.KV_CACHE Reclaimability.RECLAIM_IF_COLD Movability.MOVABLE 0
    ResidencyState.RESIDENT LifecycleState.RESIDENT "engine" (mk_id 3) (mk_gen 4) (mk_gen 5)
    (mk_id 6) (mk_id 7) (mk_gen 0) (mk_gen 8) (mk_gen 9) (mk_gen 10) (mk_gen 11) "blob"
    Provenance.REPORTED true.

Definition demo_snapshot : PersistSnapshot :=
  mk_snapshot kMagic kVersion demo_domain [demo_record 1 0 128; demo_record 2 256 128]
    [demo_record 3 128 128] 4 1.

Definition demo_image : bytes := encode demo_snapshot.

Lemma named_canon {E} `{CEnum E} (e : E) : e ∈ cenum_named (E := E) -> cenum_canon e.
Proof. by left. Defined.

Lemma demo_record_ok id off size :
  0 <= id < 1000 -> 0 <= off < 5000 -> 28 <= size < 5000 -> record_ok (demo_record id off size).
Proof.
  intros Hi Ho Hs. constructor; simpl; unfold in_u64, in_u32, str_size, U64; simpl;
    first [lia | apply named_canon; simpl; set_solver].
Qed.

Lemma demo_domain_ok : domain_ok demo_domain.
Proof.
  constructor; simpl; unfold in_u64, U64; simpl;
    first [lia | apply named_canon; simpl; set_solver].
Qed.

Lemma demo_snapshot_ok : snapshot_ok demo_snapshot.
Proof.
  constructor; try done; try apply demo_domain_ok;
    try (by repeat (constructor; [apply demo_record_ok; lia|])); by vm_compute.
Qed.

Lemma demo_snapshot_valid : snapshot_valid demo_snapshot.
Proof.
  assert (Hc : check_snapshot demo_snapshot = Ok demo_snapshot) by (vm_compute; reflexivity).
  pose proof (check_snapshot_spec demo_snapshot) as Hs. rewrite Hc in Hs. apply Hs.
  split; [unfold in_u64, U64; simpl; lia|]. repeat constructor; unfold in_u64, U64; simpl; lia.
Qed.

(** ** Round trip *)

(** C17: what is saved is what is loaded, within the limits of the format.  A snapshot that is encoded
    into bytes is decoded to itself, field by field, exactly when it keeps the limits
    ([snapshot_ok]: the magic and version of the format, every field within its C++ type, valid
    watermarks, at most 2^20 live and 2^20 released records, strings of at most 2^20 bytes) and the
    rules ([snapshot_valid]: every record inside the governed capacity, aligned, of at least the
    requested bytes, with named enumeration values and a set generation; distinct ids; disjoint
    live regions). *)
Theorem snapshot_roundtrip s :
  bytes_ok (encode s) -> decode (encode s) = Some (Ok s) <-> snapshot_ok s /\ snapshot_valid s.
Proof.
  intros Hb. split.
  - intros Hd. destruct (decode_inv _ _ Hb Hd) as (Hok & Hc & _). split; [done|].
    pose proof (check_snapshot_spec s (snapshot_ok_words s Hok)) as Hs. rewrite Hc in Hs. apply Hs.
  - intros [Hok Hv]. rewrite decode_encode by done. f_equal.
    pose proof (check_snapshot_spec s (snapshot_ok_words s Hok)) as Hs.
    destruct (check_snapshot s) as [s'|f]; [by destruct Hs as [-> _]|]. by destruct Hs as [_ []].
Qed.

Lemma demo_image_ok : bytes_ok demo_image.
Proof.
  apply Forall_app. split; [apply encode_body_ok, snapshot_ok_fields, demo_snapshot_ok|apply put_le_from_ok].
Qed.

Lemma snapshot_roundtrip_witness : decode (encode demo_snapshot) = Some (Ok demo_snapshot).
Proof. exact (proj2 (snapshot_roundtrip demo_snapshot demo_image_ok) (conj demo_snapshot_ok demo_snapshot_valid)). Defined.

(** C18: what an accepted file has been checked for.  If decoding accepts a buffer of bytes, the
    buffer ends with the CRC-32 of everything before it, every field of the snapshot is within its
    C++ type, its watermarks are valid, there are at most 2^20 live and 2^20 released records with
    strings of at most 2^20 bytes, and the records keep these rules: each lies inside the governed
    capacity, aligned to a power of two, with at least the bytes requested, which are not zero,
    with its six enumerations at named values and a set generation; no id occurs twice among live
    and released records; no two live regions overlap.  (The enumerations of the domain, the
    combination of lifecycle and residency, and the next id are not checked, although
    persistence.hpp says so.) *)
Theorem decode_sound b s :
  bytes_ok b -> decode b = Some (Ok s) ->
  sealed b /\ snapshot_ok s /\ snapshot_valid s.
Proof.
  intros Hb Hd. destruct (decode_inv b s Hb Hd) as (Hok & Hc & Hse). split_and!; [done..|].
  pose proof (check_snapshot_spec s (snapshot_ok_words s Hok)) as Hs. rewrite Hc in Hs. apply Hs.
Qed.

Lemma decode_sound_witness :
  sealed demo_image /\ snapshot_ok demo_snapshot /\ snapshot_valid demo_snapshot.
Proof.
  apply (decode_sound demo_image demo_snapshot).
  - exact demo_image_ok.
  - vm_compute. reflexivity.
Defined.

(** C19: a damaged file is never restored.  Change any single byte of an accepted buffer, in the
    body or in the checksum itself: decoding does not accept the result.  It refuses it with
    INTERNAL_ERROR, except that it may be undefined ([Reader::str] indexing the buffer at its
    size) when the changed buffer ends with four zero bytes, that is, when its stored checksum
    is zero. *)
Theorem corruption_detected l1 x y l2 s :
  bytes_ok (l1 ++ x :: l2) -> is_byte y -> x <> y -> decode (l1 ++ x :: l2) = Some (Ok s) ->
  match decode (l1 ++ y :: l2) with
  | Some (Ok _) => False
  | Some (Err f) => reason f = RejectReason.INTERNAL_ERROR
  | None => exists pre, l1 ++ y :: l2 = pre ++ [0; 0; 0; 0]
  end.
Proof.
  intros Hb Hy Hne Hd. destruct (decode_inv _ _ Hb Hd) as (_ & _ & Hse).
  assert (Hb' : bytes_ok (l1 ++ y :: l2)) by (by eapply bytes_ok_update).
  pose proof (decode_refuses _ Hb') as Hr.
  destruct (decode (l1 ++ y :: l2)) as [[s'|f]|] eqn:Hd'; [|exact Hr|exact Hr].
  destruct (decode_inv _ _ Hb' Hd') as (_ & _ & Hse').
  by apply (sealed_corrupted _ _ _ _ Hb Hy Hne Hse).
Qed.

(** The image with the low byte of the managed capacity changed. *)
Lemma corruption_detected_witness :
  match decode (take 64 demo_image ++ 1 :: drop 65 demo_image) with
  | Some (Ok _) => False
  | Some (Err f) => reason f = RejectReason.INTERNAL_ERROR
  | None => exists pre, take 64 demo_image ++ 1 :: drop 65 demo_image = pre ++ [0; 0; 0; 0]
  end.
Proof.
  apply (corruption_detected (take 64 demo_image) 0 1 (drop 65 demo_image) demo_snapshot).
  - pose proof demo_image_ok as Hb. apply Forall_app. split; [by apply Forall_take|].
    constructor; [unfold is_byte; lia|by apply Forall_drop].
  - unfold is_byte. lia.
  - lia.
  - vm_compute. reflexivity.
Defined.

(** No incoherent snapshot gets through.  If the records break any
    structural rule, decoding the encoding (whose checksum is right) fails with
    INTERNAL_ERROR; it neither succeeds nor runs into undefined behaviour. *)
Theorem invalid_snapshot_rejected s :
  snapshot_ok s -> ~ snapshot_valid s ->
  exists f, decode (encode s) = Some (Err f) /\ reason f = RejectReason.INTERNAL_ERROR.
Proof.
  intros Hok Hv. rewrite decode_encode by done.
  pose proof (check_snapshot_spec s (snapshot_ok_words s Hok)) as Hs.
  destruct (check_snapshot s) as [s'|f]; [by destruct Hs|]. exists f. by destruct Hs.
Qed.

(** Two live records that share the bytes [64, 128). *)
Definition overlapping_snapshot : PersistSnapshot :=
  mk_snapshot kMagic kVersion demo_domain [demo_record 2 64 128; demo_record 1 0 128] [] 4 1.

Lemma overlapping_snapshot_ok : snapshot_ok overlapping_snapshot.
Proof.
  constructor; try done; try apply demo_domain_ok;
    try (by repeat (constructor; [apply demo_record_ok; lia|])); by vm_compute.
Qed.

Lemma invalid_snapshot_rejected_witness :
  exists f, decode (encode overlapping_snapshot) = Some (Err f)
            /\ reason f = RejectReason.INTERNAL_ERROR.
Proof.
  apply (invalid_snapshot_rejected overlapping_snapshot overlapping_snapshot_ok).
  intros [_ _ Ha]. apply StronglySorted_inv in Ha as [_ Ha]. apply Forall_cons in Ha as [Ha _].
  unfold rec_end in Ha. simpl in Ha. lia.
Defined.

(** A snapshot whose record has no owner, cut right after the owner's zero length. *)
Definition ownerless_snapshot : PersistSnapshot :=
  mk_snapshot kMagic kVersion demo_domain
    [mk_record (mk_id 1) (mk_gen 1) 100 128 0 64 (mk_id 1) (mk_gen 1)
       MemoryClass.KV_CACHE Reclaimability.RECLAIM_IF_COLD Movability.MOVABLE 0
       ResidencyState.RESIDENT LifecycleState.RESIDENT "" (mk_id 3) (mk_gen 4) (mk_gen 5)
       (mk_id 6) (mk_id 7) (mk_gen 0) (mk_gen 8) (mk_gen 9) (mk_gen 10) (mk_gen 11) ""
       Provenance.REPORTED true] [] 2 0.

Definition truncated_image : bytes := take 244 (encode ownerless_snapshot).

(** Decoding is not total on hostile files.  A saved snapshot cut right
    after a zero string length makes [Reader::str] index the buffer at its size, which is
    undefined behaviour; with one byte less or one byte more it is rejected. *)
Theorem truncation_undefined :
  snapshot_ok ownerless_snapshot
  /\ decode truncated_image = None
  /\ (exists f, decode (take 243 (encode ownerless_snapshot)) = Some (Err f))
  /\ (exists f, decode (take 245 (encode ownerless_snapshot)) = Some (Err f))
  /\ decode (encode ownerless_snapshot) = Some (Ok ownerless_snapshot).
Proof.
  split_and!.
  - constructor; try done; try apply demo_domain_ok; try (by vm_compute).
    constructor; [|done].
    constructor; simpl; unfold in_u64, in_u32, str_size, U64; simpl;
      first [lia | apply named_canon; simpl; set_solver].
  - vm_compute. reflexivity.
  - eexists. vm_compute. reflexivity.
  - eexists. vm_compute. reflexivity.
  - vm_compute. reflexivity.
Qed.
