(* ===== verification/Governor.v ===== *)
(** [MemoryGovernor]: include/gpu_memory_service/governed_memory.hpp and
    src/governed_memory.cpp, operation by operation.

    Every public method takes the object's mutex for its whole body, so a concurrent
    execution is a sequence of these calls; the lock itself is not modelled.  [records_] and
    [retired_] are traversed in key order, so they are the ordered maps of [Ordered].
    A method that reaches an undefined or throwing call of the arena returns [None].

    The backend is an interface ([IBackend]); its implementations allocate with
    [_aligned_malloc] or the CUDA driver, so the governor is parametric in it and in the
    state [B] it keeps. *)
From S2P Require Import Prelude Words Ordered Types Streams Floats Region Pressure Request Bytes.
From S2P Require Import Persist.
Open Scope Z_scope.
Open Scope gms_scope.

(** ** Data *)

(** [allocate_arena(bytes, alignment, &base, &err)] and [free_arena(base)]; the base is
    [None] when the call returns false, and the string is what it leaves in [err]. *)
Record IBackend (B : Type) : Type := mk_backend {
  allocate_arena : Z -> Z -> B -> B * option Z * string;
  free_arena : Z -> B -> B;
}.
Arguments allocate_arena {B} _ _ _ _.
Arguments free_arena {B} _ _ _.

Record MemorySummary : Set := mk_summary {
  ms_managed_capacity : Z;
  ms_free : Z;
  ms_committed : Z;
  ms_resident : Z;
  ms_reclaimable : Z;
  ms_movable : Z;
  ms_pinned : Z;
  ms_largest_free : Z;
  ms_free_regions : Z;
  ms_live_allocations : Z;
  ms_external_fragmentation : spec_float;
  ms_provenance : Provenance.t;
  ms_pressure : PressureState.t;
  ms_domain_generation : GpuMemoryDomainGeneration;
}.

Record AllocationHandle : Set := mk_handle {
  h_id : AllocationId;
  h_generation : AllocationGeneration;
  h_offset : Z;
  h_size : Z;
  h_alignment : Z;
}.

Record CompactionStep : Set := mk_step {
  cs_id : AllocationId;
  cs_generation : AllocationGeneration;
  cs_old_offset : Z;
  cs_old_size : Z;
  cs_new_offset : Z;
  cs_new_size : Z;
  cs_movability : Movability.t;
}.

Record CompactionPlan : Set := mk_plan {
  cp_steps : list CompactionStep;
  cp_bytes_moved : Z;
  cp_largest_free_before : Z;
  cp_largest_free_after : Z;
  cp_rationale : string;
}.

(** [arena_base_] is an address, 0 for [nullptr]; [backend_] may be null. *)
Record MemoryGovernor (B : Type) : Type := mk_governor {
  gov_domain : MemoryDomain;
  gov_backend : option B;
  gov_arena : RegionAllocator;
  gov_records : omap AllocationId AllocationRecord;
  gov_retired : omap AllocationId AllocationRecord;
  gov_arena_base : Z;
  gov_initialized : bool;
  gov_next_alloc_id : Z;
  gov_history_count : Z;
}.
Arguments mk_governor {B} _ _ _ _ _ _ _ _ _.
Arguments gov_domain {B} _.
Arguments gov_backend {B} _.
Arguments gov_arena {B} _.
Arguments gov_records {B} _.
Arguments gov_retired {B} _.
Arguments gov_arena_base {B} _.
Arguments gov_initialized {B} _.
Arguments gov_next_alloc_id {B} _.
Arguments gov_history_count {B} _.

Section governor.
Context {B : Type} (be : IBackend B).
Implicit Types (g : MemoryGovernor B).

(** ** Field updates *)

Definition gov_with_domain (d : MemoryDomain) g : MemoryGovernor B :=
  mk_governor d (gov_backend g) (gov_arena g) (gov_records g) (gov_retired g) (gov_arena_base g)
    (gov_initialized g) (gov_next_alloc_id g) (gov_history_count g).

Definition gov_with_arena (a : RegionAllocator) g : MemoryGovernor B :=
  mk_governor (gov_domain g) (gov_backend g) a (gov_records g) (gov_retired g) (gov_arena_base g)
    (gov_initialized g) (gov_next_alloc_id g) (gov_history_count g).

Definition gov_with_records (m : omap AllocationId AllocationRecord) g : MemoryGovernor B :=
  mk_governor (gov_domain g) (gov_backend g) (gov_arena g) m (gov_retired g) (gov_arena_base g)
    (gov_initialized g) (gov_next_alloc_id g) (gov_history_count g).

Definition gov_with_retired (m : omap AllocationId AllocationRecord) g : MemoryGovernor B :=
  mk_governor (gov_domain g) (gov_backend g) (gov_arena g) (gov_records g) m (gov_arena_base g)
    (gov_initialized g) (gov_next_alloc_id g) (gov_history_count g).

Definition gov_with_counters (next history : Z) g : MemoryGovernor B :=
  mk_governor (gov_domain g) (gov_backend g) (gov_arena g) (gov_records g) (gov_retired g)
    (gov_arena_base g) (gov_initialized g) next history.

Definition gov_with_backend (b : option B) (base : Z) (init : bool) g : MemoryGovernor B :=
  mk_governor (gov_domain g) b (gov_arena g) (gov_records g) (gov_retired g)
    base init (gov_next_alloc_id g) (gov_history_count g).

(** ** Life cycle *)

Definition MemoryGovernor_new (domain : MemoryDomain) (backend : option B) : MemoryGovernor B :=
  mk_governor domain backend (RegionAllocator_new (managed_capacity domain)) [] [] 0 false 1 0.

(** The destructor: what is left of the backend. *)
Definition MemoryGovernor_destroy g : option B :=
  match gov_backend g with
  | Some b =>
      if negb (gov_arena_base g =? 0) && gov_initialized g
      then Some (free_arena be (gov_arena_base g) b) else Some b
  | None => None
  end.

Definition dom_with_health (h : DeviceHealth.t) (d : MemoryDomain) : MemoryDomain :=
  dom_with_status (dom_pressure d) h d.

Definition initialize g : MemoryGovernor B * Result unit :=
  if gov_initialized g then (g, Ok tt)
  else
    match gov_backend g with
    | None => (g, fail RejectReason.INTERNAL_ERROR "no backend")
    | Some b =>
        if managed_capacity (gov_domain g) =? 0 then
          (g, fail RejectReason.INVALID_REQUEST "managed capacity is zero")
        else
          match allocate_arena be (managed_capacity (gov_domain g)) 256 b with
          | (b', None, err) =>
              (gov_with_backend (Some b') (gov_arena_base g) false g,
               fail RejectReason.PHYSICAL_OOM err)
          | (b', Some base, _) =>
              (gov_with_domain (dom_with_health DeviceHealth.HEALTHY (gov_domain g))
                 (gov_with_backend (Some b') base true g), Ok tt)
          end
    end.

Definition next_id_locked g : MemoryGovernor B * AllocationId :=
  (gov_with_counters (add64 (gov_next_alloc_id g) 1) (gov_history_count g) g,
   mk_id (gov_next_alloc_id g)).

(** ** request *)

(** What the governor asks of the arena. *)
Definition arena_request (req : AllocationRequest) (id : AllocationId) : AllocRequest :=
  mk_alloc_request (rq_bytes req) (rq_alignment req)
    (if rq_requires_pin req then Movability.PINNED else rq_movability req)
    (rq_mem_class req) (rq_reclaimability req) id gen_first (rq_worker_boot req)
    (rq_provenance req).

(** The record of a granted request. *)
Definition new_record (req : AllocationRequest) (id : AllocationId) (r : RegionInfo) :
    AllocationRecord :=
  mk_record id gen_first (rq_bytes req) (ri_size r) (ri_offset r) (rq_alignment req)
    (ri_region_id r) (ri_region_generation r) (rq_mem_class req) (rq_reclaimability req)
    (if rq_requires_pin req then Movability.PINNED else rq_movability req)
    (if rq_requires_pin req then 1 else 0) ResidencyState.RESIDENT
    (if rq_requires_pin req then LifecycleState.PINNED else LifecycleState.RESIDENT)
    (rq_owner req) (rq_worker req) (rq_worker_boot req) (rq_source_boot req) (rq_workload req)
    (rq_execution req) gen_none (rq_reservation_gen req) (rq_resource_claim_gen req)
    (rq_placement_gen req) (rq_policy_gen req) (rq_backing_ref req) (rq_provenance req)
    (negb (String.eqb (rq_backing_ref req) "")).

(** [+=] on the two totals and on the counter of the record's movability. *)
Definition charge (m : Movability.t) (size : Z) (d : MemoryDomain) : MemoryDomain :=
  dom_with_counts (add64 (current_committed d) size) (add64 (current_resident d) size)
    (if bool_decide (m = Movability.MOVABLE) then add64 (current_movable d) size
     else current_movable d)
    (if bool_decide (m = Movability.MOVABLE) then current_pinned d
     else if bool_decide (m = Movability.PINNED) then add64 (current_pinned d) size
     else current_pinned d) d.

Definition request (req : AllocationRequest) g :
    option (MemoryGovernor B * Result AllocationHandle) :=
  let vf := validate_request req (managed_capacity (gov_domain g)) in
  if negb (failure_ok vf) then Some (g, Err vf)
  else if negb (gov_initialized g) then
    Some (g, fail RejectReason.INTERNAL_ERROR "governor not initialized")
  else
    let region_size := detail_align_up (rq_bytes req) (rq_alignment req) in
    if (region_size =? 0) || (region_size <? rq_bytes req) then
      Some (g, fail RejectReason.SIZE_OVERFLOW "aligned allocation size overflow")
    else
      let '(g, id) := next_id_locked g in
      match allocate (arena_request req id) (gov_arena g) with
      | None => None
      | Some (a, Err f) => Some (gov_with_arena a g, Err f)
      | Some (a, Ok r) =>
          let rec := new_record req id r in
          let g := gov_with_arena a g in
          let g := gov_with_records (om_set id rec (gov_records g)) g in
          let g := gov_with_domain (charge (rec_movability rec) (ri_size r) (gov_domain g)) g in
          Some (g, Ok (mk_handle id gen_first (ri_offset r) (ri_size r) (rq_alignment req)))
      end.

(** ** release *)

(** [sub] on the two totals and on the counter of the record's movability. *)
Definition discharge (m : Movability.t) (size : Z) (d : MemoryDomain) : MemoryDomain :=
  dom_with_counts (sub_sat (current_committed d) size) (sub_sat (current_resident d) size)
    (if bool_decide (m = Movability.MOVABLE) then sub_sat (current_movable d) size
     else current_movable d)
    (if bool_decide (m = Movability.MOVABLE) then current_pinned d
     else if bool_decide (m = Movability.PINNED) then sub_sat (current_pinned d) size
     else current_pinned d) d.

Definition released (rec : AllocationRecord) : AllocationRecord :=
  rec_with_state ResidencyState.NONRESIDENT LifecycleState.RELEASED rec.

Definition release_locked (id : AllocationId) (gen : AllocationGeneration)
    (worker_boot : WorkerBootId) (source_boot : SourceBootId) g :
    MemoryGovernor B * Result AllocationRecord :=
  match om_find id (gov_records g) with
  | None =>
      match om_find id (gov_retired g) with
      | Some ret =>
          if bool_decide (rec_generation ret = gen) then
            (g, fail RejectReason.DOUBLE_FREE "double free of released allocation")
          else (g, fail RejectReason.STALE_GENERATION "stale generation on released allocation")
      | None => (g, fail RejectReason.STALE_GENERATION "unknown allocation")
      end
  | Some rec =>
      if negb (bool_decide (rec_generation rec = gen)) then
        (g, fail RejectReason.STALE_GENERATION "stale allocation generation on release")
      else if gen_is_set worker_boot && negb (bool_decide (worker_boot = rec_worker_boot rec)) then
        (g, fail RejectReason.STALE_AUTHORITY "stale worker boot authority")
      else if gen_is_set source_boot && negb (bool_decide (source_boot = rec_source_boot rec)) then
        (g, fail RejectReason.STALE_AUTHORITY "stale source boot authority")
      else if rec_pin_count rec >? 0 then
        (g, fail RejectReason.FREE_OF_ACTIVE_OR_PINNED "cannot release a pinned allocation")
      else if bool_decide (rec_residency rec = ResidencyState.ACTIVE) then
        (g, fail RejectReason.FREE_OF_ACTIVE_OR_PINNED "cannot release an active allocation")
      else
        match free id gen (gov_arena g) with
        | (a, Err f) => (gov_with_arena a g, Err f)
        | (a, Ok _) =>
            let rel := released rec in
            let g := gov_with_arena a g in
            let g := gov_with_retired (om_set id rel (gov_retired g)) g in
            let g := gov_with_records (om_erase id (gov_records g)) g in
            let g := gov_with_domain
                       (discharge (rec_movability rel) (rec_region_size rel) (gov_domain g)) g in
            let g := gov_with_counters (gov_next_alloc_id g) (add64 (gov_history_count g) 1) g in
            (g, Ok rel)
        end
  end.

Definition release (id : AllocationId) (gen : AllocationGeneration) g :=
  release_locked id gen gen_none gen_none g.

Definition release_for_worker (id : AllocationId) (gen : AllocationGeneration)
    (worker_boot : WorkerBootId) (source_boot : SourceBootId) g :=
  release_locked id gen worker_boot source_boot g.

(** ** pin and unpin *)

Definition pin_locked (id : AllocationId) (gen : AllocationGeneration) g :
    option (MemoryGovernor B * Result unit) :=
  match om_find id (gov_records g) with
  | None => Some (g, fail RejectReason.STALE_GENERATION "unknown allocation")
  | Some rec =>
      if negb (bool_decide (rec_generation rec = gen)) then
        Some (g, fail RejectReason.STALE_GENERATION "stale generation on pin")
      else
        match pin id gen (gov_arena g) with
        | None => None
        | Some (a, Err f) => Some (gov_with_arena a g, Err f)
        | Some (a, Ok r) =>
            let rec' := rec_with_pin Movability.PINNED (ri_pin_count r) LifecycleState.PINNED rec in
            let d := gov_domain g in
            let d := dom_with_counts (current_committed d) (current_resident d)
                       (sub_sat (current_movable d) (rec_region_size rec))
                       (add64 (sub_sat (current_pinned d) 0) (rec_region_size rec)) d in
            let g := gov_with_arena a g in
            let g := gov_with_records (om_set id rec' (gov_records g)) g in
            Some (gov_with_domain d g, Ok tt)
        end
  end.

Definition unpin_locked (id : AllocationId) (gen : AllocationGeneration) g :
    option (MemoryGovernor B * Result unit) :=
  match om_find id (gov_records g) with
  | None => Some (g, fail RejectReason.STALE_GENERATION "unknown allocation")
  | Some rec =>
      if negb (bool_decide (rec_generation rec = gen)) then
        Some (g, fail RejectReason.STALE_GENERATION "stale generation on unpin")
      else
        match unpin id gen (gov_arena g) with
        | None => None
        | Some (a, Err f) => Some (gov_with_arena a g, Err f)
        | Some (a, Ok r) =>
            let rec' := rec_with_pin (ri_movability r) (ri_pin_count r)
                          (if ri_pin_count r =? 0 then LifecycleState.RESIDENT
                           else LifecycleState.PINNED) rec in
            let d := gov_domain g in
            let d := if ri_pin_count r =? 0 then
                       dom_with_counts (current_committed d) (current_resident d)
                         (add64 (current_movable d) (rec_region_size rec))
                         (sub_sat (current_pinned d) (rec_region_size rec)) d
                     else d in
            let g := gov_with_arena a g in
            let g := gov_with_records (om_set id rec' (gov_records g)) g in
            Some (gov_with_domain d g, Ok tt)
        end
  end.

(** ** Queries *)

(** [MemoryGovernor::get]. *)
Definition gov_get (id : AllocationId) (gen : AllocationGeneration) g : Result AllocationRecord :=
  match om_find id (gov_records g) with
  | None => fail RejectReason.STALE_GENERATION "unknown allocation"
  | Some rec =>
      if negb (bool_decide (rec_generation rec = gen)) then
        fail RejectReason.STALE_GENERATION "stale allocation generation on query"
      else
        match get id gen (gov_arena g) with
        | Err f => Err f
        | Ok _ => Ok rec
        end
  end.

Definition region_size (id : AllocationId) g : Z :=
  match om_find id (gov_records g) with
  | Some rec => rec_region_size rec
  | None =>
      match om_find id (gov_retired g) with
      | Some rec => rec_region_size rec
      | None => 0
      end
  end.

Definition allocations g : list AllocationRecord := om_values (gov_records g).

(** The three exclusions that [reclaimable_bytes_locked] and [reclaim_candidates] share. *)
Definition reclaim_pinned (rec : AllocationRecord) : bool :=
  (rec_pin_count rec >? 0) || bool_decide (rec_movability rec = Movability.PINNED)
  || bool_decide (rec_movability rec = Movability.NONMOVABLE).

Definition reclaim_never (rec : AllocationRecord) : bool :=
  bool_decide (rec_reclaimability rec = Reclaimability.NEVER_RECLAIM)
  || bool_decide (rec_reclaimability rec = Reclaimability.UNKNOWN).

Definition reclaim_active (rec : AllocationRecord) : bool :=
  bool_decide (rec_residency rec = ResidencyState.ACTIVE).

Definition reclaimable_bytes_locked g : Z :=
  fold_left
    (fun total rec =>
       if negb (reclaim_pinned rec) && negb (reclaim_never rec) && negb (reclaim_active rec)
       then add64 total (rec_region_size rec) else total)
    (om_values (gov_records g)) 0.

Definition pressure_evidence g : PressureEvidence :=
  let a := gov_arena g in
  mk_evidence (managed_capacity (gov_domain g)) (ra_live_bytes a) (free_bytes a)
    (reclaimable_bytes_locked g) (largest_free_region a) (external_fragmentation a)
    (dom_watermarks (gov_domain g)).

(** [const], but it stores the state in the mutable [domain_] and refreshes the arena's
    mutable cache. *)
Definition pressure_locked g : MemoryGovernor B * PressureState.t :=
  let p := evaluate_pressure (pressure_evidence g) (dom_pressure (gov_domain g)) in
  let g := gov_with_arena (ensure_summary (gov_arena g)) g in
  (gov_with_domain (dom_with_status p (dom_health (gov_domain g)) (gov_domain g)) g, p).

Definition summary_locked g : MemoryGovernor B * MemorySummary :=
  let a := gov_arena g in
  let d := gov_domain g in
  let '(g', p) := pressure_locked g in
  (g', mk_summary (managed_capacity d) (free_bytes a) (ra_live_bytes a) (ra_live_bytes a)
         (reclaimable_bytes_locked g) (movable_bytes a) (pinned_bytes a) (largest_free_region a)
         (free_region_count a) (ra_live_count a) (external_fragmentation a) (dom_provenance d) p
         (domain_generation d)).

(** ** Reclaim candidates *)

Definition reclaimability_requires_backing (r : Reclaimability.t) : bool :=
  bool_decide (r = Reclaimability.RECLAIM_IF_RELOADABLE)
  || bool_decide (r = Reclaimability.RECLAIM_IF_CHECKPOINTED).

Definition reclaimability_priority (r : Reclaimability.t) : Z :=
  match r with
  | Reclaimability.BEST_EFFORT => 0
  | Reclaimability.RECLAIM_IF_CHECKPOINTED => 1
  | Reclaimability.RECLAIM_IF_RELOADABLE => 2
  | Reclaimability.RECLAIM_IF_COLD => 3
  | Reclaimability.RECLAIM_AFTER_COMPLETION => 4
  | Reclaimability.NEVER_RECLAIM => 5
  | Reclaimability.UNKNOWN => 6
  | _ => 6
  end.

Record Cand : Set := mk_cand { cand_id : AllocationId; cand_pri : Z; cand_size : Z }.

(** The comparator of the sort. *)
Definition cand_lt (a b : Cand) : bool :=
  if negb (cand_pri a =? cand_pri b) then cand_pri a <? cand_pri b
  else if negb (cand_size a =? cand_size b) then cand_size a >? cand_size b
  else id_value (cand_id a) <? id_value (cand_id b).

(** A stable sort puts [a] before a later [b] unless [b] is smaller. *)
Definition cand_le (a b : Cand) : Prop := cand_lt b a = false.

#[export] Instance cand_le_dec : RelDecision cand_le.
Proof. intros a b. unfold cand_le. apply _. Defined.

Definition reclaim_eligible (rec : AllocationRecord) : bool :=
  if reclaim_pinned rec || reclaim_never rec || reclaim_active rec then false
  else if reclaimability_requires_backing (rec_reclaimability rec) && negb (rec_recoverable rec)
          && String.eqb (rec_backing_ref rec) "" then false
  else true.

Definition cand_of (rec : AllocationRecord) : Cand :=
  mk_cand (rec_id rec) (reclaimability_priority (rec_reclaimability rec)) (rec_region_size rec).

Definition reclaim_candidates (max : Z) g : list AllocationId :=
  let c := cand_of <$> List.filter reclaim_eligible (om_values (gov_records g)) in
  cand_id <$> take (Z.to_nat max) (merge_sort cand_le c).

(** ** Compaction *)

(** The immediate free neighbours of [m]: the two sizes, 0 when there is none. *)
Definition free_neighbours (m : RegionInfo) (frees : list RegionInfo) : Z * Z :=
  fold_left
    (fun '(lft, rgt) f =>
       (if add64 (ri_offset f) (ri_size f) =? ri_offset m then ri_size f else lft,
        if ri_offset f =? add64 (ri_offset m) (ri_size m) then ri_size f else rgt))
    frees (0, 0).

(** The loop variables: [best_gain] and the plan so far. *)
Definition PlanState : Type := spec_float * CompactionPlan.

(** The body of the inner loop, for the free region [f]. *)
Definition try_target (before lft rgt : Z) (m : RegionInfo) (st : PlanState) (f : RegionInfo) :
    PlanState :=
  if (add64 (ri_offset f) (ri_size f) =? ri_offset m)
     || (ri_offset f =? add64 (ri_offset m) (ri_size m)) then st
  else if ri_size f <? ri_size m then st
  else
    let nf := detail_align_up (ri_offset f) (ri_alignment m) in
    let front := if nf >=? ri_offset f then sub64 nf (ri_offset f) else 0 in
    if (front >? ri_size f) || (ri_size m >? sub64 (ri_size f) front) then st
    else
      let tail_free := sub64 (sub64 (ri_size f) front) (ri_size m) in
      let consolidated := add64 (add64 lft (ri_size m)) rgt in
      let after := Z.max before consolidated in
      let after := if front >? 0 then Z.max after front else after in
      let after := if tail_free >? 0 then Z.max after tail_free else after in
      let gain := f64_sub (f64_of_u64 after) (f64_of_u64 before) in
      if f64_lt st.1 gain then
        (gain,
         mk_plan [mk_step (ri_alloc_id m) (ri_alloc_generation m) (ri_offset m) (ri_size m)
                    nf (ri_size m) Movability.MOVABLE]
           (ri_size m) before after (cp_rationale st.2))
      else st.

(** The [continue]s at the head of the outer loop. *)
Definition compactable (m : RegionInfo) : bool :=
  ri_live m && bool_decide (ri_movability m = Movability.MOVABLE) && negb (ri_pin_count m >? 0)
  && negb (bool_decide (ri_residency m = ResidencyState.ACTIVE))
  && negb (bool_decide (ri_reclaimability m = Reclaimability.NEVER_RECLAIM)).

Definition try_region (before : Z) (frees : list RegionInfo) (st : PlanState) (m : RegionInfo) :
    PlanState :=
  if negb (compactable m) then st
  else
    let '(lft, rgt) := free_neighbours m frees in
    fold_left (try_target before lft rgt m) frees st.

(** The loops over the two snapshots. *)
Definition plan_search (before : Z) (lives frees : list RegionInfo) : PlanState :=
  fold_left (try_region before frees) lives (d_val d_minus_one, mk_plan [] 0 before before "").

Definition plan_compaction g : CompactionPlan :=
  let a := gov_arena g in
  let '(_, plan) := plan_search (largest_free_region a) (snapshot_live a) (snapshot_free a) in
  let rationale :=
    match cp_steps plan with
    | [] => "no safe compaction found (all movable allocations are pinned, active, or lack a free target)"
    | _ => ("deterministic single-move compaction: " ++ pretty (cp_bytes_moved plan)
            ++ " bytes moved")%string
    end in
  mk_plan (cp_steps plan) (cp_bytes_moved plan) (cp_largest_free_before plan)
    (cp_largest_free_after plan) rationale.

(** ** Relocation *)

Definition apply_relocation (id : AllocationId) (gen : AllocationGeneration)
    (new_offset new_size : Z) g : MemoryGovernor B * Result AllocationHandle :=
  match om_find id (gov_records g) with
  | None => (g, fail RejectReason.STALE_GENERATION "unknown allocation")
  | Some rec =>
      if negb (bool_decide (rec_generation rec = gen)) then
        (g, fail RejectReason.STALE_GENERATION "stale generation on relocate")
      else if rec_pin_count rec >? 0 then
        (g, fail RejectReason.BLOCKED_BY_PINNED "cannot relocate a pinned allocation")
      else
        match relocate id gen new_offset new_size (rec_alignment rec) (gov_arena g) with
        | (a, Err f) => (gov_with_arena a g, Err f)
        | (a, Ok r) =>
            let rel := rec_relocation_generation rec in
            let rec' := rec_with_place (ri_offset r) (ri_size r) (ri_region_generation r)
                          (ri_alloc_generation r)
                          (if gen_is_set rel then gen_next rel else gen_first)
                          LifecycleState.RESIDENT rec in
            let g := gov_with_arena a g in
            (gov_with_records (om_set id rec' (gov_records g)) g,
             Ok (mk_handle id (rec_generation rec') (ri_offset r) (ri_size r) (rec_alignment rec')))
        end
  end.

(** ** explain *)

(** The text of [explain]; how a [double] is printed is the stream's business. *)
Definition explain (show_double : spec_float -> string) g : MemoryGovernor B * string :=
  let d := gov_domain g in
  let '(g', s) := summary_locked g in
  (g',
   ("" << "domain=" << domain_id d << " gen=" << domain_generation d
       << " device=" << device_id d
       << " managed=" << ms_managed_capacity s
       << " committed=" << ms_committed s
       << " free=" << ms_free s
       << " largest_free=" << ms_largest_free s
       << " free_regions=" << ms_free_regions s
       << " live=" << ms_live_allocations s
       << " reclaimable=" << ms_reclaimable s
       << " movable=" << ms_movable s
       << " pinned=" << ms_pinned s
       << " frag=" << show_double (ms_external_fragmentation s)
       << " pressure=" << ms_pressure s << nl)%stream%string).

(** ** Persistence *)

Definition snapshot g : PersistSnapshot :=
  mk_snapshot kMagic kVersion (gov_domain g) (om_values (gov_records g))
    (om_values (gov_retired g)) (gov_next_alloc_id g) (gov_history_count g).

(** A surviving record, after the process that owned its memory is gone. *)
Definition recovered (rec : AllocationRecord) : AllocationRecord :=
  rec_with_state ResidencyState.REVALIDATION_REQUIRED LifecycleState.REVALIDATION_REQUIRED rec.

(** [retired_[r.id] = r] for each [r]. *)
Definition retire_all (f : AllocationRecord -> AllocationRecord) (l : list AllocationRecord)
    (m : omap AllocationId AllocationRecord) : omap AllocationId AllocationRecord :=
  fold_left (fun m rec => om_set (rec_id rec) (f rec) m) l m.

Definition restore (s : PersistSnapshot) g : MemoryGovernor B * Result unit :=
  let d := ps_domain s in
  let retired := retire_all (fun rec => rec) (ps_retired s)
                   (retire_all recovered (ps_records s) []) in
  let d := dom_with_status PressureState.REVALIDATION_REQUIRED DeviceHealth.UNKNOWN
             (dom_with_counts 0 0 0 0 d) in
  (mk_governor d (gov_backend g) (RegionAllocator_new (managed_capacity d)) [] retired
     (gov_arena_base g) false (ps_next_alloc_id s) (ps_history_count s), Ok tt).

Definition save (out : WriteOutcome) (path : string) (fs : FileSystem) g :
    FileSystem * Result unit :=
  write_file out path (snapshot g) fs.

Definition load (readable : bool) (path : string) (fs : FileSystem) g :
    option (MemoryGovernor B * Result unit) :=
  match read_file readable path fs with
  | None => None
  | Some (Err f) => Some (g, Err f)
  | Some (Ok s) => Some (restore s g)
  end.

End governor.
