(* ===== verification/GovernorInv.v ===== *)
(** The invariant of [MemoryGovernor]: the records and the arena describe the same live
    allocations, and no allocation id is ever used twice. *)
From S2P Require Import Prelude Words Ordered Types Floats Region RegionInv RegionAlloc.
From S2P Require Import RegionFree RegionReloc RegionQuery RegionSpec Pressure Request Bytes.
From S2P Require Import Persist Governor.
Open Scope Z_scope.
Open Scope gms_scope.

(** ** How a call of the arena changes what is held *)

(** [a'] is [a] with the region of [id] replaced, or added, as [m]. *)
Definition arena_sets (a : RegionAllocator) (id : AllocationId) (m : RegionInfo)
    (a' : RegionAllocator) : Prop :=
  ra_wf a' /\ ra_capacity a' = ra_capacity a
  /\ forall id' gen r, held a' id' gen r <->
       id' <> id /\ held a id' gen r \/ id' = id /\ gen = ri_alloc_generation m /\ r = m.

(** [a'] is [a] without the region of [id]. *)
Definition arena_drops (a : RegionAllocator) (id : AllocationId) (a' : RegionAllocator) : Prop :=
  ra_wf a' /\ ra_capacity a' = ra_capacity a
  /\ forall id' gen r, held a' id' gen r <-> id' <> id /\ held a id' gen r.

Lemma arena_sets_intro a a' id m :
  ra_wf a -> ra_wf a' -> ra_capacity a' = ra_capacity a -> ri_live m = true -> ri_alloc_id m = id ->
  (forall k r, ri_live r = true -> (k, r) ∈ ra_regions a' <->
     (k, r) ∈ ra_regions a /\ ri_alloc_id r <> id \/ (k, r) = (ri_offset m, m)) ->
  arena_sets a id m a'.
Proof.
  intros Hwf Hwf' Hc Hm Hid Hlive. split_and!; [done..|]. intros id' gen r.
  rewrite !held_iff by done. split.
  - intros (k & Hin & Hl & <- & <-). apply Hlive in Hin as [[Hin Hne]|[= -> ->]]; [| |done].
    + left. split; [done|]. by exists k.
    + right. auto.
  - intros [(Hne & k & Hin & Hl & <- & <-)|(-> & -> & ->)].
    + exists k. split_and!; auto. apply Hlive; auto.
    + exists (ri_offset m). split_and!; auto. apply Hlive; auto.
Qed.

Lemma allocate_sets a req a' r :
  ra_wf a -> request_ok req a -> allocate req a = Some (a', Ok r) ->
  arena_sets a (aq_alloc_id req) r a'
  /\ r = live_region (ri_offset r) (ri_size r) (id_value (ri_region_id r)) req
  /\ 0 <= ri_offset r /\ ri_size r = footprint req /\ ri_offset r + ri_size r <= ra_capacity a
  /\ ri_offset r mod aq_alignment req = 0 /\ is_pow2 (aq_alignment req) = true
  /\ ra_live_bytes a' = ra_live_bytes a + ri_size r
  /\ forall b, ri_offset r <= b < ri_offset r + ri_size r -> owner_at (ra_regions a) b = None.
Proof.
  intros Hwf Hreq E. destruct (allocate_cases a req Hwf Hreq) as (a1 & res & E1 & Hc).
  rewrite E in E1. simplify_eq.
  destruct Hc as (Hb & Hp2 & Hpl & Hwf' & Hcap & H0 & Hmod & Hs & Hend & Hin & Hr & Hoff & Hlive & Hown & Hfree & _ & Hlb).
  assert (Hf : ri_live r = true /\ ri_alloc_id r = aq_alloc_id req) by (by rewrite Hr).
  destruct Hf as [Hl Hid]. split_and!; auto. apply arena_sets_intro; auto.
  intros k r0 Hr0. rewrite Hlive by done. split; [|tauto].
  intros [Hi|?]; [left|by right]. split; [done|]. intros Heq.
  destruct (ra_wf_bounds _ _ _ Hwf Hi) as (Hk & _).
  destruct (held_lookup a (aq_alloc_id req) (ri_alloc_generation r0) r0) as [Hlk _]; auto.
  { by rewrite <- Hk in Hi. }
  destruct Hreq as (_ & _ & Hnone). congruence.
Qed.

Lemma free_drops a id gen :
  ra_wf a ->
  match free id gen a with
  | (a', Err f) => a' = a /\ reason f = RejectReason.STALE_GENERATION /\ forall r, ~ held a id gen r
  | (a', Ok _) => arena_drops a id a'
      /\ exists r, held a id gen r /\ ra_live_bytes a' = ra_live_bytes a - ri_size r
  end.
Proof.
  intros Hwf. pose proof (free_cases a id gen Hwf) as Hc.
  destruct (free id gen a) as [a' [f|f]]; [|done].
  destruct Hc as (r & Hh & Hwf' & Hcap & Hlb & _ & _ & _ & _ & _ & Hlive & _).
  split; [|by exists r]. split_and!; auto. intros id' gen' r'. rewrite !held_iff by done. split.
  - intros (k & Hin & Hl & <- & <-). apply Hlive in Hin as [Hin Hne]; [|done].
    split; [|by exists k]. intros E. apply Hne. by apply (held_offset_id a id gen r k r').
  - intros (Hne & k & Hin & Hl & <- & <-). exists k. split_and!; auto. apply Hlive; [done|].
    split; [done|]. intros E. apply Hne. by apply (held_offset_id a id gen r k r').
Qed.

Lemma only_region_sets a a' r r' id gen :
  ra_wf a -> held a id gen r -> same_shape r r' -> only_region a r r' a' -> arena_sets a id r' a'.
Proof.
  intros Hwf Hh (S1 & S2 & S3 & S4 & S5 & S6) (Hwf' & (Hcap & _) & _ & Hlive).
  pose proof Hh as (Hin & Hl & Hid & Hg). apply arena_sets_intro; auto; [congruence..|].
  intros k r0 Hr0. rewrite Hlive, S1 by done. split.
  - intros [[Hi Hne]|?]; [left|by right]. split; [done|]. intros E. apply Hne.
    by apply (held_offset_id a id gen r k r0).
  - intros [[Hi Hne]|?]; [left|by right]. split; [done|]. intros E. apply Hne.
    by apply (held_offset_id a id gen r k r0).
Qed.

Lemma pin_sets a id gen :
  ra_wf a ->
  exists a' res, pin id gen a = Some (a', res) /\
  match res with
  | Err f => a' = a /\ reason f = RejectReason.STALE_GENERATION /\ forall r, ~ held a id gen r
  | Ok r' => exists r, held a id gen r /\ r' = pinned_region r /\ arena_sets a id r' a'
      /\ ra_live_bytes a' = ra_live_bytes a
  end.
Proof.
  intros Hwf. destruct (pin_cases a id gen Hwf) as (a' & res & E & Hc). exists a', res.
  split; [done|]. destruct res as [r'|f]; [|done]. destruct Hc as (r & Hh & -> & Ho).
  exists r. split_and!; auto; [by eapply only_region_sets|by apply Ho].
Qed.

Lemma unpin_sets a id gen :
  ra_wf a ->
  exists a' res, unpin id gen a = Some (a', res) /\
  match res with
  | Err f => a' = a
      /\ ((forall r, ~ held a id gen r) /\ reason f = RejectReason.STALE_GENERATION
          \/ (exists r, held a id gen r /\ ri_pin_count r = 0) /\ reason f = RejectReason.INVALID_REQUEST)
  | Ok r' => exists r, held a id gen r /\ ri_pin_count r <> 0 /\ r' = unpinned_region r
      /\ arena_sets a id r' a' /\ ra_live_bytes a' = ra_live_bytes a
  end.
Proof.
  intros Hwf. destruct (unpin_cases a id gen Hwf) as (a' & res & E & Hc). exists a', res.
  split; [done|]. destruct res as [r'|f]; [|done]. destruct Hc as (r & Hh & Hp & -> & Ho).
  exists r. split_and!; auto; [by eapply only_region_sets|by apply Ho].
Qed.

Lemma relocate_sets a id gen no ns na :
  ra_wf a -> in_u64 no -> in_u64 ns -> in_u64 na ->
  match relocate id gen no ns na a with
  | (a', Err f) => a' = a
      /\ ((forall r, ~ held a id gen r) /\ reason f = RejectReason.STALE_GENERATION
          \/ (exists r, held a id gen r) /\ ~ target_ok a no ns na
             /\ reason f = relocate_refusal a no ns na)
  | (a', Ok m) => exists r, held a id gen r /\ target_ok a no ns na
      /\ m = moved_region no ns na gen r /\ arena_sets a id m a'
      /\ ra_live_bytes a' = ra_live_bytes a + ns - ri_size r
  end.
Proof.
  intros Hwf Hno Hns Hna. pose proof (relocate_cases a id gen no ns na Hwf Hno Hns Hna) as Hc.
  destruct (relocate id gen no ns na a) as [a' [m|f]]; [|done].
  destruct Hc as (r & Hh & Ht & -> & Hwf' & Hcap & Hlb & _ & Hlive & _). exists r.
  pose proof Hh as (_ & Hl & Hid & _).
  split_and!; auto. apply arena_sets_intro; auto. intros k r0 Hr0. rewrite Hlive by done.
  simpl ri_offset. split.
  - intros [[Hi Hne]|?]; [left|by right]. split; [done|]. intros E. apply Hne.
    by apply (held_offset_id a id gen r k r0).
  - intros [[Hi Hne]|?]; [left|by right]. split; [done|]. intros E. apply Hne.
    by apply (held_offset_id a id gen r k r0).
Qed.

(** ** The invariant *)

(** The region [reg] of the arena backs the record [rec]. *)
Record backs (reg : RegionInfo) (rec : AllocationRecord) : Prop := {
  bk_offset : ri_offset reg = rec_offset rec;
  bk_size : ri_size reg = rec_region_size rec;
  bk_alignment : ri_alignment reg = rec_alignment rec;
  bk_pow2 : is_pow2 (rec_alignment rec) = true /\ in_u64 (rec_alignment rec);
  bk_movability : ri_movability reg = rec_movability rec;
  bk_reclaim : ri_reclaimability reg = rec_reclaimability rec;
  bk_residency : ri_residency reg = ResidencyState.RESIDENT
                 /\ rec_residency rec = ResidencyState.RESIDENT;
  bk_pins : 0 <= ri_pin_count reg <= rec_pin_count rec;
  bk_pinned : 0 < rec_pin_count rec -> rec_movability rec = Movability.PINNED;
}.

Abbreviation records := (omap AllocationId AllocationRecord).

(** Every record is backed by a current region and every current region has a record. *)
Definition tracks (m : records) (a : RegionAllocator) : Prop :=
  (forall id rec, om_find id m = Some rec ->
     exists reg, held a id (rec_generation rec) reg /\ backs reg rec)
  /\ (forall id gen reg, held a id gen reg -> is_Some (om_find id m)).

Lemma tracks_set m a a' id reg rec :
  tracks m a -> arena_sets a id reg a' -> ri_alloc_generation reg = rec_generation rec ->
  backs reg rec -> tracks (om_set id rec m) a'.
Proof.
  intros [Hb Ho] (_ & _ & Hh) Hg Hbk. split.
  - intros id' rec'. destruct (decide (id' = id)) as [->|Hne].
    + rewrite om_find_set_eq. intros [= <-]. exists reg. split; [|done]. apply Hh. auto.
    + rewrite om_find_set_ne by done. intros (reg' & Hr & Hbk')%Hb. exists reg'. split; [|done].
      apply Hh. auto.
  - intros id' gen reg' [[Hne Hr]|[-> _]]%Hh.
    + rewrite om_find_set_ne by done. by eapply Ho.
    + rewrite om_find_set_eq. by eexists.
Qed.

Lemma tracks_erase m a a' id :
  om_ok m -> tracks m a -> arena_drops a id a' -> tracks (om_erase id m) a'.
Proof.
  intros Hm [Hb Ho] (_ & _ & Hh). split.
  - intros id' rec'. destruct (decide (id' = id)) as [->|Hne].
    + by rewrite om_find_erase_eq.
    + rewrite om_find_erase_ne by done. intros (reg' & Hr & Hbk')%Hb. exists reg'. split; [|done].
      by apply Hh.
  - intros id' gen reg' [Hne Hr]%Hh. rewrite om_find_erase_ne by done. by eapply Ho.
Qed.

Lemma tracks_new cap : 0 < cap < U64 -> tracks [] (RegionAllocator_new cap).
Proof.
  intros Hc. split; [done|]. intros id gen reg Hh.
  destruct (held_lookup _ _ _ _ (RegionAllocator_new_wf cap Hc) Hh) as [Hlk _].
  exfalso. revert Hlk. unfold RegionAllocator_new. case_match; simpl; by rewrite lookup_empty.
Qed.

Section invariant.
Context {B : Type} (be : IBackend B).
Implicit Types (g : MemoryGovernor B).

(** Where an id can occur: under itself, below the next one, and not twice. *)
Record registry_ok (next : Z) (recs ret : records) : Prop := {
  rg_records : om_ok recs;
  rg_retired : om_ok ret;
  rg_ids : forall id rec, om_find id recs = Some rec \/ om_find id ret = Some rec ->
    rec_id rec = id /\ 0 <= id_value id < next;
  rg_disjoint : forall id, is_Some (om_find id recs) -> om_find id ret = None;
}.

Record gov_inv g : Prop := {
  gi_arena : ra_wf (gov_arena g);
  gi_capacity : ra_capacity (gov_arena g) = managed_capacity (gov_domain g);
  gi_next : in_u64 (gov_next_alloc_id g);
  gi_registry : registry_ok (gov_next_alloc_id g) (gov_records g) (gov_retired g);
  gi_tracks : tracks (gov_records g) (gov_arena g);
}.

Lemma registry_set next recs ret id rec rec' :
  registry_ok next recs ret -> om_find id recs = Some rec -> rec_id rec' = rec_id rec ->
  registry_ok next (om_set id rec' recs) ret.
Proof.
  intros [Hr Ht Hi Hd] Hf Hid. constructor; [by apply om_ok_set|done| |].
  - intros id' r'. destruct (decide (id' = id)) as [->|Hne].
    + rewrite om_find_set_eq. intros [[= <-]|Ht']; [rewrite Hid|]; eauto.
    + rewrite om_find_set_ne by done. eauto.
  - intros id'. destruct (decide (id' = id)) as [->|Hne].
    + intros _. eauto.
    + rewrite om_find_set_ne by done. eauto.
Qed.

(** The next id is in neither map. *)
Lemma registry_fresh next recs ret :
  registry_ok next recs ret -> om_find (mk_id next) recs = None /\ om_find (mk_id next) ret = None.
Proof.
  intros [_ _ Hi _]. split; apply eq_None_not_Some; intros [rec Hf];
    destruct (Hi (mk_id next) rec) as [_ Hlt]; auto; simpl in Hlt; lia.
Qed.

Lemma registry_next next next' recs ret :
  registry_ok next recs ret -> next <= next' -> registry_ok next' recs ret.
Proof.
  intros [Hr Ht Hi Hd] Hle. constructor; auto. intros id rec Hf.
  destruct (Hi id rec Hf) as [? ?]. split; [done|lia].
Qed.

Lemma registry_add next recs ret rec :
  0 <= next -> registry_ok next recs ret -> rec_id rec = mk_id next ->
  registry_ok (next + 1) (om_set (mk_id next) rec recs) ret.
Proof.
  intros H0 Hreg Hid. destruct (registry_fresh _ _ _ Hreg) as [Hn1 Hn2].
  destruct Hreg as [Hr Ht Hi Hd]. constructor; [by apply om_ok_set|done| |].
  - intros id' r'. destruct (decide (id' = mk_id next)) as [->|Hne].
    + rewrite om_find_set_eq. intros [[= <-]|Ht']; [split; [done|simpl; lia]|congruence].
    + rewrite om_find_set_ne by done. intros Hf. destruct (Hi id' r' Hf). split; [done|lia].
  - intros id'. destruct (decide (id' = mk_id next)) as [->|Hne]; [done|].
    rewrite om_find_set_ne by done. eauto.
Qed.

Lemma registry_retire next recs ret id rec rec' :
  registry_ok next recs ret -> om_find id recs = Some rec -> rec_id rec' = rec_id rec ->
  registry_ok next (om_erase id recs) (om_set id rec' ret).
Proof.
  intros [Hr Ht Hi Hd] Hf Hid. destruct (Hi id rec) as [Hid' Hb]; [auto|].
  constructor; [by apply om_ok_erase|by apply om_ok_set| |].
  - intros id' r'. destruct (decide (id' = id)) as [->|Hne].
    + rewrite om_find_erase_eq, om_find_set_eq by done. intros [|[= <-]]; [done|]. split; [congruence|done].
    + rewrite om_find_erase_ne, om_find_set_ne by done. eauto.
  - intros id'. destruct (decide (id' = id)) as [->|Hne].
    + rewrite om_find_erase_eq by done. by intros [? ?].
    + rewrite om_find_erase_ne, om_find_set_ne by done. eauto.
Qed.

Lemma MemoryGovernor_new_inv d b :
  0 < managed_capacity d < U64 -> gov_inv (MemoryGovernor_new d b).
Proof.
  intros Hc. constructor; simpl.
  - by apply RegionAllocator_new_wf.
  - unfold RegionAllocator_new. by case_match.
  - unfold in_u64, U64. lia.
  - constructor; simpl; [constructor|constructor| |]; [by intros id rec [|]|by intros id [? ?]].
  - by apply tracks_new.
Qed.
End invariant.
