(* ===== verification/GovernorOps.v ===== *)
(** What each operation of [MemoryGovernor] does on a state that satisfies the invariant:
    it keeps the invariant, its result is described case by case, and the calls it makes on
    the arena cannot fail for a reason the governor did not check. *)
From S2P Require Import Prelude Words Ordered Types Floats Region RegionInv RegionAlloc.
From S2P Require Import RegionFree RegionReloc RegionQuery RegionSpec Pressure Request Bytes.
From S2P Require Import Persist PersistInv Governor GovernorInv.
Open Scope Z_scope.
Open Scope gms_scope.

Section operations.
Context {B : Type} (be : IBackend B).
Implicit Types (g : MemoryGovernor B).

Lemma gov_with_arena_id g : gov_with_arena (gov_arena g) g = g.
Proof. by destruct g. Qed.

(** The current record of a handle. *)
Definition current g (id : AllocationId) (gen : AllocationGeneration) (rec : AllocationRecord) : Prop :=
  om_find id (gov_records g) = Some rec /\ rec_generation rec = gen.

(** A record is current for the generation under which the arena holds its region. *)
Lemma current_held g id gen rec :
  gov_inv g -> current g id gen rec ->
  exists reg, held (gov_arena g) id gen reg /\ backs reg rec.
Proof. intros Hi [Hf <-]. by apply (gi_tracks _ Hi). Qed.

Lemma held_current g id gen reg :
  gov_inv g -> held (gov_arena g) id gen reg -> exists rec, current g id gen rec /\ backs reg rec.
Proof.
  intros Hi Hh. destruct (proj2 (gi_tracks _ Hi) _ _ _ Hh) as [rec Hf].
  destruct (proj1 (gi_tracks _ Hi) _ _ Hf) as (reg' & Hh' & Hbk).
  assert (reg' = reg) as -> by (by eapply held_unique; [apply Hi| |]).
  exists rec. split; [|done]. split; [done|]. destruct Hh as (_ & _ & _ & <-).
  by destruct Hh' as (_ & _ & _ & <-).
Qed.

(** ** release *)

(** The caller's boot ids, where given, are those of the record. *)
Definition authorised (wb : WorkerBootId) (sb : SourceBootId) (rec : AllocationRecord) : Prop :=
  (gen_is_set wb = true -> wb = rec_worker_boot rec)
  /\ (gen_is_set sb = true -> sb = rec_source_boot rec).

Lemma authorised_check {tag} (b b' : TypedGeneration tag) :
  gen_is_set b && negb (bool_decide (b = b')) = false <-> (gen_is_set b = true -> b = b').
Proof. destruct (gen_is_set b); simpl; [|done]. rewrite negb_false_iff, bool_decide_eq_true. tauto. Qed.

(** The state after a granted release. *)
Definition after_release g (id : AllocationId) (rec : AllocationRecord) (g' : MemoryGovernor B) : Prop :=
  gov_records g' = om_erase id (gov_records g)
  /\ gov_retired g' = om_set id (released rec) (gov_retired g)
  /\ arena_drops (gov_arena g) id (gov_arena g')
  /\ ra_live_bytes (gov_arena g') = ra_live_bytes (gov_arena g) - rec_region_size rec
  /\ gov_domain g' = discharge (rec_movability rec) (rec_region_size rec) (gov_domain g)
  /\ gov_next_alloc_id g' = gov_next_alloc_id g
  /\ gov_initialized g' = gov_initialized g.

Lemma after_release_inv g id rec g' :
  gov_inv g -> om_find id (gov_records g) = Some rec -> after_release g id rec g' -> gov_inv g'.
Proof.
  intros Hi Hf (Er & Et & Ha & _ & Ed & En & _). pose proof Ha as (Hwf & Hcap & _).
  constructor; rewrite ?Er, ?Et, ?En, ?Ed.
  - done.
  - rewrite Hcap. apply Hi.
  - apply Hi.
  - by eapply registry_retire; [apply Hi| |].
  - eapply tracks_erase; [apply (gi_registry _ Hi)|apply Hi|done].
Qed.

Lemma release_cases g id gen wb sb :
  gov_inv g ->
  let '(g', res) := release_locked id gen wb sb g in
  match res with
  | Ok rel => exists rec, current g id gen rec /\ authorised wb sb rec /\ rec_pin_count rec = 0
      /\ rel = released rec /\ after_release g id rec g'
  | Err f => g' = g /\
      ((exists ret, om_find id (gov_retired g) = Some ret /\ rec_generation ret = gen)
         /\ reason f = RejectReason.DOUBLE_FREE
       \/ (forall rec, ~ current g id gen rec)
         /\ (forall ret, om_find id (gov_retired g) = Some ret -> rec_generation ret <> gen)
         /\ reason f = RejectReason.STALE_GENERATION
       \/ exists rec, current g id gen rec /\
           (~ authorised wb sb rec /\ reason f = RejectReason.STALE_AUTHORITY
            \/ authorised wb sb rec /\ 0 < rec_pin_count rec
               /\ reason f = RejectReason.FREE_OF_ACTIVE_OR_PINNED))
  end.
Proof.
  intros Hi. unfold release_locked. destruct (om_find id (gov_records g)) as [rec|] eqn:Hf.
  2: { assert (Hno : forall rec, ~ current g id gen rec) by (intros rec [? _]; congruence).
       destruct (om_find id (gov_retired g)) as [ret|] eqn:Ht; [case_bool_decide|]; simpl; (split; [done|]).
       - left. split; [by exists ret|done].
       - right; left. split_and!; [done| |done]. intros ret' [= <-]. done.
       - right; left. by split_and!. }
  assert (Ht : om_find id (gov_retired g) = None) by (by apply (gi_registry _ Hi); exists rec).
  case_bool_decide as Hg; simpl.
  2: { split; [done|]. right; left. split_and!; [|congruence|done]. intros rec' [? ?]. congruence. }
  assert (Hcur : current g id gen rec) by done.
  destruct (current_held g id gen rec Hi Hcur) as (reg & Hh & Hbk).
  destruct (gen_is_set wb && negb (bool_decide (wb = rec_worker_boot rec))) eqn:Hwb; simpl.
  { split; [done|]. right; right. exists rec. split; [done|]. left. split; [|done].
    intros [Hw _]. apply authorised_check in Hw. congruence. }
  destruct (gen_is_set sb && negb (bool_decide (sb = rec_source_boot rec))) eqn:Hsb; simpl.
  { split; [done|]. right; right. exists rec. split; [done|]. left. split; [|done].
    intros [_ Hs]. apply authorised_check in Hs. congruence. }
  assert (Hau : authorised wb sb rec) by (by split; apply authorised_check).
  destruct (Z.gtb_spec (rec_pin_count rec) 0) as [Hp|Hp]; simpl.
  { split; [done|]. right; right. exists rec. split; [done|]. right. by split_and!. }
  rewrite bool_decide_false by (rewrite (proj2 (bk_residency _ _ Hbk)); done). simpl.
  pose proof (free_drops (gov_arena g) id gen (gi_arena _ Hi)) as Hfr.
  destruct (free id gen (gov_arena g)) as [a [r|f]]; simpl.
  2: { destruct Hfr as (_ & _ & Hno). by destruct (Hno reg). }
  destruct Hfr as (Hd & reg' & Hh' & Hlb).
  assert (reg' = reg) as -> by (by eapply held_unique; [apply Hi| |]).
  exists rec. split_and!; auto.
  - destruct (bk_pins _ _ Hbk). lia.
  - rewrite (bk_size _ _ Hbk) in Hlb. by split_and!.
Qed.

(** ** request *)

Definition request_words (req : AllocationRequest) : Prop :=
  in_u64 (rq_bytes req) /\ in_u64 (rq_alignment req).

(** [g'] is [g] with possibly one allocation id consumed. *)
Definition untouched g g' : Prop :=
  exists n, g' = gov_with_counters n (gov_history_count g) g
    /\ gov_next_alloc_id g <= n <= gov_next_alloc_id g + 1.

Lemma untouched_refl g : untouched g g.
Proof. exists (gov_next_alloc_id g). split; [by destruct g|lia]. Qed.

Lemma untouched_inv g g' :
  gov_inv g -> gov_next_alloc_id g + 1 < U64 -> untouched g g' -> gov_inv g'.
Proof.
  intros [? ? Hn Hr ?] Hlt (n & -> & Hle). unfold in_u64 in Hn.
  constructor; simpl; auto; [unfold in_u64; lia|]. eapply registry_next; [exact Hr|lia].
Qed.

(** The state after a granted request. *)
Record after_request g (req : AllocationRequest) (r : RegionInfo) (g' : MemoryGovernor B) : Prop := {
  aq_records : gov_records g'
    = om_set (mk_id (gov_next_alloc_id g)) (new_record req (mk_id (gov_next_alloc_id g)) r) (gov_records g);
  aq_retired : gov_retired g' = gov_retired g;
  aq_domain : gov_domain g'
    = charge (if rq_requires_pin req then Movability.PINNED else rq_movability req) (ri_size r) (gov_domain g);
  aq_next : gov_next_alloc_id g' = gov_next_alloc_id g + 1;
  aq_initialized : gov_initialized g' = gov_initialized g;
  aq_sets : arena_sets (gov_arena g) (mk_id (gov_next_alloc_id g)) r (gov_arena g');
  aq_live_bytes : ra_live_bytes (gov_arena g') = ra_live_bytes (gov_arena g) + ri_size r;
  aq_size : ri_size r = round_up (rq_bytes req) (rq_alignment req);
  aq_place : 0 <= ri_offset r /\ ri_offset r + ri_size r <= managed_capacity (gov_domain g)
    /\ ri_offset r mod rq_alignment req = 0;
  aq_vacant : forall b, ri_offset r <= b < ri_offset r + ri_size r ->
    owner_at (ra_regions (gov_arena g)) b = None;
  aq_pins : ri_pin_count r = 0;
}.

Definition admitted g (req : AllocationRequest) : Prop :=
  failure_ok (validate_request req (managed_capacity (gov_domain g))) = true
  /\ gov_initialized g = true.

(** The request the arena would see. *)
Definition next_arena_request g (req : AllocationRequest) : AllocRequest :=
  arena_request req (mk_id (gov_next_alloc_id g)).

Lemma next_request_ok g req :
  gov_inv g -> request_words req -> request_ok (next_arena_request g req) (gov_arena g).
Proof.
  intros Hi [Hb Ha]. split_and!; [done..|]. simpl.
  destruct (registry_fresh _ _ _ (gi_registry _ Hi)) as [Hn _].
  apply eq_None_not_Some. intros [off Hlk].
  destruct (ra_wf_lookup _ _ _ (gi_arena _ Hi) Hlk) as (reg & Hin & _ & Hl & Hid).
  destruct (proj2 (gi_tracks _ Hi) (mk_id (gov_next_alloc_id g)) (ri_alloc_generation reg) reg) as [rec Hf];
    [|congruence].
  apply held_iff; [apply Hi|]. by exists off.
Qed.

Lemma new_record_backed req id r :
  request_words req -> is_pow2 (rq_alignment req) = true ->
  r = live_region (ri_offset r) (ri_size r) (id_value (ri_region_id r)) (arena_request req id) ->
  backs r (new_record req id r).
Proof.
  intros [_ Ha] Hp Hr.
  assert (E : ri_alignment r = rq_alignment req
    /\ ri_movability r = (if rq_requires_pin req then Movability.PINNED else rq_movability req)
    /\ ri_reclaimability r = rq_reclaimability req /\ ri_residency r = ResidencyState.RESIDENT
    /\ ri_pin_count r = 0) by (by rewrite Hr).
  destruct E as (E1 & E2 & E3 & E4 & E5). clear Hr.
  constructor; simpl; rewrite ?E1, ?E2, ?E3, ?E4, ?E5; auto.
  - destruct (rq_requires_pin req); lia.
  - destruct (rq_requires_pin req); [done|lia].
Qed.

Lemma after_request_inv g req r g' :
  gov_inv g -> request_words req -> is_pow2 (rq_alignment req) = true ->
  gov_next_alloc_id g + 1 < U64 ->
  r = live_region (ri_offset r) (ri_size r) (id_value (ri_region_id r)) (next_arena_request g req) ->
  after_request g req r g' -> gov_inv g'.
Proof.
  intros Hi Hw Hp Hn Hr [Er Et Ed En _ Hs _ _ _ _ _]. pose proof Hs as (Hwf & Hcap & _).
  pose proof (gi_next _ Hi) as Hn0. unfold in_u64 in Hn0.
  constructor; rewrite ?Er, ?Et, ?En, ?Ed; [done| | | |].
  - rewrite Hcap. apply Hi.
  - unfold in_u64. lia.
  - apply registry_add; [lia|apply Hi|done].
  - eapply tracks_set; [apply Hi|done| |by apply new_record_backed]. by rewrite Hr.
Qed.

Lemma request_cases g req :
  gov_inv g -> request_words req -> gov_next_alloc_id g + 1 < U64 ->
  exists g' res, request req g = Some (g', res) /\ gov_inv g' /\
  match res with
  | Ok h => admitted g req /\ exists r, after_request g req r g'
      /\ h = mk_handle (mk_id (gov_next_alloc_id g)) gen_first (ri_offset r) (ri_size r) (rq_alignment req)
  | Err f => untouched g g' /\
      (failure_ok f = false /\ f = validate_request req (managed_capacity (gov_domain g))
       \/ gov_initialized g = false /\ reason f = RejectReason.INTERNAL_ERROR
       \/ admitted g req /\ ~ placeable (next_arena_request g req) (gov_arena g)
          /\ reason f = refusal (next_arena_request g req) (gov_arena g))
  end.
Proof.
  intros Hi Hw Hn. pose proof Hw as [Hb Ha]. pose proof (next_request_ok g req Hi Hw) as Hok.
  unfold request. destruct (failure_ok (validate_request _ _)) eqn:Hv; simpl.
  2: { eexists _, _. split; [done|]. simpl. split_and!; [done|apply untouched_refl|]. auto. }
  destruct (gov_initialized g) eqn:Hin; simpl.
  2: { eexists _, _. split; [done|]. simpl. split_and!; [done|apply untouched_refl|]. auto. }
  assert (Hadm : admitted g req) by done.
  apply validate_request_ok in Hv as (Hsz & Hp & _); [|done|unfold in_u64 in *; lia].
  pose proof (allocate_cases _ _ (gi_arena _ Hi) Hok) as (a & res & E & Hc).
  rewrite align_up_agree, ra_align_up_round by done.
  pose proof (round_up_bounds (rq_bytes req) (rq_alignment req) (is_pow2_pos _ Ha Hp)) as Hru.
  destruct (Z.ltb_spec (round_up (rq_bytes req) (rq_alignment req)) U64) as [Hlt|Hge].
  2: { simpl. eexists _, _. split; [done|]. simpl. split_and!; [done|apply untouched_refl|]. right; right.
       split_and!; [done| |].
       - intros (p & Hp0 & _ & Hpc & _). unfold footprint in Hpc. simpl in Hpc.
         pose proof (wf_cap _ (gi_arena _ Hi)). lia.
       - simpl. unfold refusal, footprint. simpl. rewrite (gi_capacity _ Hi).
         rewrite (proj2 (Z.eqb_neq _ 0)), Hp, (proj2 (Z.eqb_neq _ 0)), (proj2 (Z.leb_le _ _)),
           (proj2 (Z.leb_le _ _)) by (try lia; pose proof (is_pow2_pos _ Ha Hp); lia). done. }
  rewrite (proj2 (Z.eqb_neq _ 0)), (proj2 (Z.ltb_ge _ _)) by lia. simpl.
  fold (next_arena_request g req). rewrite E.
  assert (Hn' : add64 (gov_next_alloc_id g) 1 = gov_next_alloc_id g + 1).
  { pose proof (gi_next _ Hi) as Hn0. unfold in_u64 in Hn0. apply add64_small; lia. }
  destruct res as [r|f].
  - destruct (allocate_sets _ _ _ _ (gi_arena _ Hi) Hok E)
      as (Hs & Hr & H0 & Hsize & Hend & Hmod & _ & Hlb & Hvac).
    eexists _, _. split; [done|].
    match goal with |- gov_inv ?G /\ _ => assert (Haft : after_request g req r G) end.
    { constructor; simpl; auto; rewrite ?Hn'; auto; [by rewrite <- (gi_capacity _ Hi)|by rewrite Hr]. }
    split; [by eapply after_request_inv|]. split; [done|]. by exists r.
  - destruct Hc as (-> & Hre & Hno). eexists _, _. split; [done|].
    match goal with |- gov_inv ?G /\ _ => assert (Hu : untouched g G) end.
    { exists (gov_next_alloc_id g + 1). split; [by rewrite Hn'; destruct g|lia]. }
    split; [by eapply untouched_inv|]. split; [done|]. right; right. split_and!; [done| |done].
    apply Hno; [simpl; lia|done].
Qed.

(** ** pin, unpin, get *)

(** [g'] differs from [g] in the record of [id], in the region that backs it and in the
    domain, whose capacity and totals are kept. *)
Record rec_updated g (id : AllocationId) (reg : RegionInfo) (rec' : AllocationRecord)
    (g' : MemoryGovernor B) : Prop := {
  ru_records : gov_records g' = om_set id rec' (gov_records g);
  ru_retired : gov_retired g' = gov_retired g;
  ru_next : gov_next_alloc_id g' = gov_next_alloc_id g;
  ru_initialized : gov_initialized g' = gov_initialized g;
  ru_sets : arena_sets (gov_arena g) id reg (gov_arena g');
  ru_capacity : managed_capacity (gov_domain g') = managed_capacity (gov_domain g);
  ru_committed : current_committed (gov_domain g') = current_committed (gov_domain g)
    /\ current_resident (gov_domain g') = current_resident (gov_domain g);
}.

Lemma rec_updated_inv g id reg rec rec' g' :
  gov_inv g -> om_find id (gov_records g) = Some rec -> rec_id rec' = rec_id rec ->
  ri_alloc_generation reg = rec_generation rec' -> backs reg rec' ->
  rec_updated g id reg rec' g' -> gov_inv g'.
Proof.
  intros Hi Hf Hid Hg Hbk [Er Et En _ Hs Ec _]. pose proof Hs as (Hwf & Hcap & _).
  constructor; rewrite ?Er, ?Et, ?En, ?Ec; [done| | | |].
  - rewrite Hcap. apply Hi.
  - apply Hi.
  - eapply registry_set; [apply Hi|done|done].
  - eapply tracks_set; [apply Hi|done|done|done].
Qed.

Lemma pin_backed reg rec :
  backs reg rec -> 0 <= ri_pin_count reg ->
  backs (pinned_region reg)
    (rec_with_pin Movability.PINNED (ri_pin_count (pinned_region reg)) LifecycleState.PINNED rec).
Proof.
  intros [] H0. constructor; simpl; auto. split; [|lia]. unfold add32. apply Z.mod_pos_bound. done.
Qed.

Lemma unpin_backed reg rec lc :
  backs reg rec -> ri_pin_count reg <> 0 ->
  backs (unpinned_region reg)
    (rec_with_pin (ri_movability (unpinned_region reg)) (ri_pin_count (unpinned_region reg)) lc rec).
Proof.
  intros [] H0. constructor; simpl; auto.
  - split; [|lia]. unfold sub32. apply Z.mod_pos_bound. done.
  - intros Hp. rewrite (proj2 (Z.eqb_neq _ _)) by lia. rewrite bk_movability. apply bk_pinned. lia.
Qed.

Lemma pin_locked_cases g id gen :
  gov_inv g ->
  exists g' res, pin_locked id gen g = Some (g', res) /\ gov_inv g' /\
  match res with
  | Ok _ => exists rec reg, current g id gen rec /\ held (gov_arena g) id gen reg /\ backs reg rec
      /\ rec_updated g id (pinned_region reg)
           (rec_with_pin Movability.PINNED (add32 (ri_pin_count reg) 1) LifecycleState.PINNED rec) g'
      /\ ra_live_bytes (gov_arena g') = ra_live_bytes (gov_arena g)
  | Err f => g' = g /\ (forall rec, ~ current g id gen rec) /\ reason f = RejectReason.STALE_GENERATION
  end.
Proof.
  intros Hi. unfold pin_locked. destruct (om_find id (gov_records g)) as [rec|] eqn:Hf.
  2: { eexists _, _. split; [done|]. simpl. split_and!; try done. intros rec [? _]. congruence. }
  case_bool_decide as Hg; simpl.
  2: { eexists _, _. split; [done|]. simpl. split_and!; try done. intros rec' [? ?]. congruence. }
  destruct (current_held g id gen rec Hi) as (reg & Hh & Hbk); [done|].
  destruct (pin_sets (gov_arena g) id gen (gi_arena _ Hi)) as (a & res & -> & Hc).
  destruct res as [r|f]; [|by destruct Hc as (_ & _ & Hno); destruct (Hno reg)].
  destruct Hc as (reg' & Hh' & -> & Hs & Hlb).
  assert (reg' = reg) as -> by (by eapply held_unique; [apply Hi| |]).
  eexists _, _. split; [done|].
  match goal with |- gov_inv ?G /\ _ => assert (Hu : rec_updated g id (pinned_region reg)
    (rec_with_pin Movability.PINNED (add32 (ri_pin_count reg) 1) LifecycleState.PINNED rec) G) end.
  { constructor; simpl; auto. }
  split.
  - refine (rec_updated_inv g id _ rec _ _ Hi Hf _ _ (pin_backed reg rec Hbk _) Hu); [done| |apply Hbk].
    simpl. destruct Hh as (_ & _ & _ & ->). done.
  - exists rec, reg. by split_and!.
Qed.

Lemma unpin_locked_cases g id gen :
  gov_inv g ->
  exists g' res, unpin_locked id gen g = Some (g', res) /\ gov_inv g' /\
  match res with
  | Ok _ => exists rec reg, current g id gen rec /\ held (gov_arena g) id gen reg /\ backs reg rec
      /\ ri_pin_count reg <> 0
      /\ rec_updated g id (unpinned_region reg)
           (rec_with_pin (ri_movability (unpinned_region reg)) (sub32 (ri_pin_count reg) 1)
              (if sub32 (ri_pin_count reg) 1 =? 0 then LifecycleState.RESIDENT
               else LifecycleState.PINNED) rec) g'
      /\ ra_live_bytes (gov_arena g') = ra_live_bytes (gov_arena g)
  | Err f => g' = g /\
      ((forall rec, ~ current g id gen rec) /\ reason f = RejectReason.STALE_GENERATION
       \/ exists rec reg, current g id gen rec /\ held (gov_arena g) id gen reg /\ backs reg rec
          /\ ri_pin_count reg = 0 /\ reason f = RejectReason.INVALID_REQUEST)
  end.
Proof.
  intros Hi. unfold unpin_locked. destruct (om_find id (gov_records g)) as [rec|] eqn:Hf.
  2: { eexists _, _. split; [done|]. simpl. split_and!; try done. left. split; [|done].
       intros rec [? _]. congruence. }
  case_bool_decide as Hg; simpl.
  2: { eexists _, _. split; [done|]. simpl. split_and!; try done. left. split; [|done].
       intros rec' [? ?]. congruence. }
  destruct (current_held g id gen rec Hi) as (reg & Hh & Hbk); [done|].
  destruct (unpin_sets (gov_arena g) id gen (gi_arena _ Hi)) as (a & res & -> & Hc).
  destruct res as [r|f].
  2: { destruct Hc as (-> & [[Hno _]|[(reg' & Hh' & Hp) Hre]]); [by destruct (Hno reg)|].
       assert (reg' = reg) as -> by (by eapply held_unique; [apply Hi| |]).
       rewrite gov_with_arena_id. eexists _, _. split; [done|]. split_and!; [done..|]. right.
       by exists rec, reg. }
  destruct Hc as (reg' & Hh' & Hp & -> & Hs & Hlb).
  assert (reg' = reg) as -> by (by eapply held_unique; [apply Hi| |]).
  eexists _, _. split; [done|]. simpl.
  match goal with |- gov_inv ?G /\ _ => assert (Hu : rec_updated g id (unpinned_region reg)
    (rec_with_pin (ri_movability (unpinned_region reg)) (sub32 (ri_pin_count reg) 1)
       (if sub32 (ri_pin_count reg) 1 =? 0 then LifecycleState.RESIDENT
               else LifecycleState.PINNED) rec) G) end.
  { constructor; simpl; auto; by case_match. }
  split.
  - refine (rec_updated_inv g id _ rec _ _ Hi Hf _ _ (unpin_backed reg rec _ Hbk Hp) Hu); [done|].
    simpl. destruct Hh as (_ & _ & _ & ->). done.
  - exists rec, reg. by split_and!.
Qed.

Lemma gov_get_cases g id gen :
  gov_inv g ->
  match gov_get id gen g with
  | Ok rec => current g id gen rec
  | Err f => (forall rec, ~ current g id gen rec) /\ reason f = RejectReason.STALE_GENERATION
  end.
Proof.
  intros Hi. unfold gov_get. destruct (om_find id (gov_records g)) as [rec|] eqn:Hf.
  2: { simpl. split; [|done]. intros rec [? _]. congruence. }
  case_bool_decide as Hg; simpl.
  2: { split; [|done]. intros rec' [? ?]. congruence. }
  destruct (current_held g id gen rec Hi) as (reg & Hh & Hbk); [done|].
  pose proof (get_cases (gov_arena g) id gen (gi_arena _ Hi)) as Hc.
  destruct (get id gen (gov_arena g)); [done|]. destruct Hc as [_ Hno]. by destruct (Hno reg).
Qed.

(** ** apply_relocation *)

(** The record of a relocated allocation. *)
Definition relocated_record (rec : AllocationRecord) (reg : RegionInfo) : AllocationRecord :=
  rec_with_place (ri_offset reg) (ri_size reg) (ri_region_generation reg) (ri_alloc_generation reg)
    (if gen_is_set (rec_relocation_generation rec) then gen_next (rec_relocation_generation rec)
     else gen_first) LifecycleState.RESIDENT rec.

Lemma relocated_backed reg rec no ns gen :
  backs reg rec -> 
  backs (moved_region no ns (rec_alignment rec) gen reg)
    (relocated_record rec (moved_region no ns (rec_alignment rec) gen reg)).
Proof. intros []. constructor; simpl; auto. Qed.

Lemma apply_relocation_cases g id gen no ns :
  gov_inv g -> in_u64 no -> in_u64 ns ->
  let '(g', res) := apply_relocation id gen no ns g in
  gov_inv g' /\
  match res with
  | Ok h => exists rec reg, current g id gen rec /\ held (gov_arena g) id gen reg /\ backs reg rec
      /\ rec_pin_count rec = 0 /\ target_ok (gov_arena g) no ns (rec_alignment rec)
      /\ (let reg' := moved_region no ns (rec_alignment rec) gen reg in
          rec_updated g id reg' (relocated_record rec reg') g')
      /\ ra_live_bytes (gov_arena g') = ra_live_bytes (gov_arena g) + ns - rec_region_size rec
      /\ h = mk_handle id (gen_next gen) no ns (rec_alignment rec)
  | Err f => g' = g /\
      ((forall rec, ~ current g id gen rec) /\ reason f = RejectReason.STALE_GENERATION
       \/ exists rec, current g id gen rec /\
          (0 < rec_pin_count rec /\ reason f = RejectReason.BLOCKED_BY_PINNED
           \/ rec_pin_count rec = 0 /\ ~ target_ok (gov_arena g) no ns (rec_alignment rec)
              /\ reason f = relocate_refusal (gov_arena g) no ns (rec_alignment rec)))
  end.
Proof.
  intros Hi Hno Hns. unfold apply_relocation.
  destruct (om_find id (gov_records g)) as [rec|] eqn:Hf.
  2: { simpl. split_and!; try done. left. split; [|done]. intros rec [? _]. congruence. }
  case_bool_decide as Hg; simpl.
  2: { split_and!; try done. left. split; [|done]. intros rec' [? ?]. congruence. }
  destruct (current_held g id gen rec Hi) as (reg & Hh & Hbk); [done|].
  destruct (Z.gtb_spec (rec_pin_count rec) 0) as [Hp|Hp]; simpl.
  { split_and!; try done. right. exists rec. split; [done|]. by left. }
  assert (Hp0 : rec_pin_count rec = 0) by (pose proof (bk_pins _ _ Hbk); lia).
  pose proof (relocate_sets (gov_arena g) id gen no ns (rec_alignment rec) (gi_arena _ Hi) Hno Hns
                (proj2 (bk_pow2 _ _ Hbk))) as Hc.
  destruct (relocate id gen no ns (rec_alignment rec) (gov_arena g)) as [a [m|f]]; simpl.
  2: { destruct Hc as (-> & [[Hst _]|(_ & Ht & Hre)]); [by destruct (Hst reg)|].
       rewrite gov_with_arena_id. split_and!; [done..|]. right. exists rec. split; [done|]. by right. }
  destruct Hc as (reg' & Hh' & Ht & -> & Hs & Hlb).
  assert (reg' = reg) as -> by (by eapply held_unique; [apply Hi| |]).
  set (m := moved_region no ns (rec_alignment rec) gen reg) in *.
  match goal with |- gov_inv ?G /\ _ =>
    assert (Hu : rec_updated g id m (relocated_record rec m) G) by (by constructor) end.
  split.
  - by refine (rec_updated_inv g id _ rec _ _ Hi Hf _ _ (relocated_backed reg rec no ns gen Hbk) Hu).
  - exists rec, reg. rewrite (bk_size _ _ Hbk) in Hlb. by split_and!.
Qed.

(** ** pressure, initialize, restore *)

Lemma pressure_locked_inv g : gov_inv g -> gov_inv (pressure_locked g).1.
Proof.
  intros [H1 H2 H3 H4 [Hb Ho]]. pose proof (ensure_summary_wf _ H1) as Hwf.
  assert (Er : ra_regions (ensure_summary (gov_arena g)) = ra_regions (gov_arena g)
               /\ ra_capacity (ensure_summary (gov_arena g)) = ra_capacity (gov_arena g)).
  { unfold ensure_summary. by case_match. }
  destruct Er as [Er Ec]. constructor; simpl; auto; [congruence|].
  split; unfold held in *; rewrite Er; auto.
Qed.

Lemma initialize_cases g :
  gov_inv g ->
  let '(g', res) := initialize be g in
  gov_inv g' /\ gov_records g' = gov_records g /\ gov_retired g' = gov_retired g
  /\ gov_arena g' = gov_arena g /\ gov_next_alloc_id g' = gov_next_alloc_id g
  /\ managed_capacity (gov_domain g') = managed_capacity (gov_domain g)
  /\ current_committed (gov_domain g') = current_committed (gov_domain g)
  /\ gov_initialized g' = result_ok res.
Proof.
  intros [H1 H2 H3 H4 H5]. unfold initialize.
  destruct (gov_initialized g) eqn:Hin; [by split_and!|].
  destruct (gov_backend g) as [b|]; [|by split_and!].
  destruct (managed_capacity (gov_domain g) =? 0); [by split_and!|].
  destruct (allocate_arena be _ _ _) as [[b' [base|]] err]; by split_and!.
Qed.

(** A snapshot that a restore can build on: distinct ids below the next one, and a
    governed capacity. *)
Record restorable (s : PersistSnapshot) : Prop := {
  rs_capacity : 0 < managed_capacity (ps_domain s) < U64;
  rs_next : in_u64 (ps_next_alloc_id s);
  rs_ids : Forall (fun rec => 0 <= id_value (rec_id rec) < ps_next_alloc_id s)
             (ps_records s ++ ps_retired s);
  rs_distinct : NoDup (ids (ps_records s ++ ps_retired s));
}.

Lemma retire_all_spec f l m id :
  om_ok m -> (forall rec, rec_id (f rec) = rec_id rec) -> NoDup (ids l) ->
  om_ok (retire_all f l m)
  /\ om_find id (retire_all f l m)
     = match list_find (fun rec => rec_id rec = id) l with
       | Some (_, rec) => Some (f rec)
       | None => om_find id m
       end.
Proof.
  unfold retire_all. revert m. induction l as [|r l IH]; intros m Hm Hf Hnd; [done|].
  rewrite fmap_cons in Hnd. apply NoDup_cons in Hnd as [Hni Hnd].
  simpl fold_left. destruct (IH (om_set (rec_id r) (f r) m)) as [Hok ->]; [by apply om_ok_set|done..|].
  split; [done|]. simpl. destruct (decide (rec_id r = id)) as [Heq|Hne].
  - destruct (list_find (fun rec => rec_id rec = id) l) as [[i rec]|] eqn:Hl; simpl.
    + apply list_find_Some in Hl as (Hi & Hid & _). exfalso. apply Hni. rewrite Heq, <- Hid.
      apply list_elem_of_fmap. exists rec. split; [done|]. by eapply list_elem_of_lookup_2.
    + by rewrite Heq, om_find_set_eq.
  - destruct (list_find (fun rec => rec_id rec = id) l) as [[i rec]|]; simpl; [done|].
    by rewrite om_find_set_ne.
Qed.

Lemma list_find_id l rec :
  NoDup (ids l) -> rec ∈ l ->
  exists i, list_find (fun r => rec_id r = rec_id rec) l = Some (i, rec).
Proof.
  induction l as [|r l IH]; intros Hnd Hin; [by apply not_elem_of_nil in Hin|].
  rewrite fmap_cons in Hnd. apply NoDup_cons in Hnd as [Hni Hnd]. simpl.
  apply elem_of_cons in Hin as [->|Hin]; [rewrite decide_True by done; by eexists|].
  rewrite decide_False.
  - destruct (IH Hnd Hin) as [i ->]. simpl. by eexists.
  - intros E. apply Hni. rewrite E. by apply list_elem_of_fmap_2.
Qed.

Lemma list_find_other l id :
  id ∉ ids l -> list_find (fun r => rec_id r = id) l = None.
Proof.
  intros Hni. apply list_find_None, Forall_forall. intros r Hr <-. apply Hni.
  by apply list_elem_of_fmap_2.
Qed.

(** What [restore] leaves: nothing live, and every record of the snapshot retired. *)
Lemma restored_find s g id rec :
  restorable s -> om_find id (gov_retired (restore s g).1) = Some rec <->
  rec_id rec = id /\ (rec ∈ ps_retired s \/ exists r, r ∈ ps_records s /\ rec = recovered r).
Proof.
  intros [_ _ _ Hnd]. rewrite fmap_app in Hnd. apply NoDup_app in Hnd as (N1 & Nd & N2).
  unfold restore; simpl.
  destruct (retire_all_spec recovered (ps_records s) [] id om_ok_nil ltac:(done) N1) as [Hok E1].
  destruct (retire_all_spec (fun r => r) (ps_retired s) _ id Hok ltac:(done) N2) as [_ ->].
  rewrite E1. simpl om_find. split.
  - destruct (list_find _ (ps_retired s)) as [[i r]|] eqn:F2.
    { intros [= <-]. apply list_find_Some in F2 as (Hi & Hid & _). split; [done|]. left.
      by eapply list_elem_of_lookup_2. }
    destruct (list_find _ (ps_records s)) as [[i r]|] eqn:F1; [|done].
    intros [= <-]. apply list_find_Some in F1 as (Hi & Hid & _). split; [done|]. right.
    exists r. split; [by eapply list_elem_of_lookup_2|done].
  - intros [<- [Hin|(r & Hin & ->)]].
    + by destruct (list_find_id _ _ N2 Hin) as [i ->].
    + change (rec_id (recovered r)) with (rec_id r).
      rewrite (list_find_other (ps_retired s)); [by destruct (list_find_id _ _ N1 Hin) as [i ->]|].
      intros Hin2. apply (Nd (rec_id r)); [by apply list_elem_of_fmap_2|done].
Qed.

Lemma restore_inv s g : restorable s -> gov_inv (restore s g).1.
Proof.
  intros Hs. pose proof Hs as [Hc Hn Hids Hnd]. rewrite fmap_app in Hnd.
  apply NoDup_app in Hnd as (N1 & Nd & N2).
  destruct (retire_all_spec recovered (ps_records s) [] id_invalid om_ok_nil ltac:(done) N1) as [Hok _].
  destruct (retire_all_spec (fun r => r) (ps_retired s) _ id_invalid Hok ltac:(done) N2) as [Hok' _].
  constructor.
  - by apply RegionAllocator_new_wf.
  - simpl. unfold RegionAllocator_new. by case_match.
  - done.
  - constructor; [constructor|exact Hok'| |by intros id [? ?]].
    intros id rec [Hf|Hf]; [done|]. apply (restored_find s g id rec Hs) in Hf as [Hid Hrec].
    split; [done|]. rewrite Forall_forall in Hids. rewrite <- Hid.
    destruct Hrec as [Hin|(r & Hin & ->)].
    + apply Hids, elem_of_app. by right.
    + apply (Hids r), elem_of_app. by left.
  - by apply tracks_new.
Qed.
End operations.
