(* ===== verification/GovernorSpec.v ===== *)
(** Executions of the governor: one constructor per public operation, the step function,
    reachability, and what every step preserves. *)
From S2P Require Import Prelude Words Ordered Types Floats Region RegionInv RegionAlloc.
From S2P Require Import RegionFree RegionReloc RegionQuery RegionSpec Pressure Request Bytes.
From S2P Require Import Persist PersistInv Governor GovernorInv GovernorOps.
Open Scope Z_scope.

Inductive gov_op : Set :=
  | GInitialize
  | GRequest (req : AllocationRequest)
  | GRelease (id : AllocationId) (gen : AllocationGeneration) (wb : WorkerBootId) (sb : SourceBootId)
  | GPin (id : AllocationId) (gen : AllocationGeneration)
  | GUnpin (id : AllocationId) (gen : AllocationGeneration)
  | GRelocate (id : AllocationId) (gen : AllocationGeneration) (no ns : Z)
  | GPressure
  | GRestore (s : PersistSnapshot).

Section executions.
Context {B : Type} (be : IBackend B).
Implicit Types (g : MemoryGovernor B).

Definition gov_step (op : gov_op) g : option (MemoryGovernor B * bool) :=
  match op with
  | GInitialize => let p := initialize be g in Some (p.1, result_ok p.2)
  | GRequest req => option_map (fun p => (p.1, result_ok p.2)) (request req g)
  | GRelease id gen wb sb => let p := release_for_worker id gen wb sb g in Some (p.1, result_ok p.2)
  | GPin id gen => option_map (fun p => (p.1, result_ok p.2)) (pin_locked id gen g)
  | GUnpin id gen => option_map (fun p => (p.1, result_ok p.2)) (unpin_locked id gen g)
  | GRelocate id gen no ns => let p := apply_relocation id gen no ns g in Some (p.1, result_ok p.2)
  | GPressure => Some ((pressure_locked g).1, true)
  | GRestore s => let p := restore s g in Some (p.1, result_ok p.2)
  end.

(** Arguments are words of their types; neither the id counter nor the generation that a move
    would advance is exhausted; a restored snapshot has distinct ids below its counter. *)
Definition gov_op_ok (op : gov_op) g : Prop :=
  match op with
  | GRequest req => request_words req /\ gov_next_alloc_id g + 1 < U64
  | GRelocate id gen no ns => in_u64 no /\ in_u64 ns /\ 0 <= gen_value gen /\ gen_value gen + 1 < U64
  | GRestore s => restorable s
  | _ => True
  end.

Definition is_restore (op : gov_op) : bool := match op with GRestore _ => true | _ => false end.

Inductive gov_reachable (d : MemoryDomain) : MemoryGovernor B -> Prop :=
  | gr_new b : gov_reachable d (MemoryGovernor_new d b)
  | gr_step g op g' ok :
      gov_reachable d g -> gov_op_ok op g -> gov_step op g = Some (g', ok) -> gov_reachable d g'.

(** The states reached by calls that all satisfy [P]. *)
Inductive run_with (P : gov_op -> MemoryGovernor B -> Prop) (d : MemoryDomain) : MemoryGovernor B -> Prop :=
  | rw_new b : run_with P d (MemoryGovernor_new d b)
  | rw_step g op g' ok :
      run_with P d g -> gov_op_ok op g -> P op g -> gov_step op g = Some (g', ok) -> run_with P d g'.

Lemma run_with_impl (P Q : gov_op -> MemoryGovernor B -> Prop) d g :
  (forall op g, P op g -> Q op g) -> run_with P d g -> run_with Q d g.
Proof.
  intros HPQ. induction 1 as [b|g op g' ok _ IH Hop HP E]; [apply rw_new|].
  exact (rw_step Q d g op g' ok IH Hop (HPQ op g HP) E).
Qed.

(** The states one process can reach from [g]: no restore in between. *)
Inductive later : MemoryGovernor B -> MemoryGovernor B -> Prop :=
  | later_refl g : later g g
  | later_step g g1 op g2 ok :
      later g g1 -> is_restore op = false -> gov_op_ok op g1 -> gov_step op g1 = Some (g2, ok) ->
      later g g2.

Lemma gov_step_inv op g :
  gov_inv g -> gov_op_ok op g -> exists g' ok, gov_step op g = Some (g', ok) /\ gov_inv g'.
Proof.
  intros Hi Hop. destruct op as [|req|id gen wb sb|id gen|id gen|id gen no ns| |s]; simpl.
  - pose proof (initialize_cases be g Hi) as Hc. destruct (initialize be g) as [g' res].
    exists g', (result_ok res). by destruct Hc.
  - destruct Hop as [Hw Hn]. destruct (request_cases g req Hi Hw Hn) as (g' & res & -> & Hi' & _).
    by exists g', (result_ok res).
  - unfold release_for_worker. pose proof (release_cases g id gen wb sb Hi) as Hc.
    destruct (release_locked id gen wb sb g) as [g' res]. exists g', (result_ok res).
    split; [done|]. destruct res as [rel|f]; [|by destruct Hc as [-> _]].
    destruct Hc as (rec & [Hf _] & _ & _ & _ & Ha). by eapply after_release_inv.
  - destruct (pin_locked_cases g id gen Hi) as (g' & res & -> & Hi' & _). by exists g', (result_ok res).
  - destruct (unpin_locked_cases g id gen Hi) as (g' & res & -> & Hi' & _). by exists g', (result_ok res).
  - destruct Hop as (Hno & Hns & _). pose proof (apply_relocation_cases g id gen no ns Hi Hno Hns) as Hc.
    destruct (apply_relocation id gen no ns g) as [g' res]. exists g', (result_ok res). by destruct Hc.
  - eexists _, _. split; [done|]. by apply pressure_locked_inv.
  - eexists _, _. split; [done|]. by apply restore_inv.
Qed.

Lemma gov_reachable_inv d g :
  0 < managed_capacity d < U64 -> gov_reachable d g -> gov_inv g.
Proof.
  intros Hd. induction 1 as [b|g op g' ok _ IH Hop E]; [by apply MemoryGovernor_new_inv|].
  destruct (gov_step_inv op g IH Hop) as (g1 & ok1 & E1 & Hi). congruence.
Qed.

Lemma later_inv g g' : gov_inv g -> later g g' -> gov_inv g'.
Proof.
  induction 2 as [|g g1 op g2 ok _ IH _ Hop E]; [done|].
  destruct (gov_step_inv op g1 (IH H) Hop) as (g3 & ok3 & E3 & Hi). congruence.
Qed.

(** ** What one step does to the registry *)

(** The maps after a step that is not a restore: the same, or with a new id, an updated
    record whose generation has not gone back, or a retired record. *)
Inductive registry_step g g' : Prop :=
  | rs_same :
      gov_records g' = gov_records g -> gov_retired g' = gov_retired g ->
      gov_next_alloc_id g <= gov_next_alloc_id g' -> registry_step g g'
  | rs_new rec :
      gov_records g' = om_set (mk_id (gov_next_alloc_id g)) rec (gov_records g) ->
      rec_generation rec = gen_first ->
      gov_retired g' = gov_retired g ->
      gov_next_alloc_id g' = gov_next_alloc_id g + 1 -> registry_step g g'
  | rs_update id rec rec' :
      om_find id (gov_records g) = Some rec -> gov_records g' = om_set id rec' (gov_records g) ->
      gen_value (rec_generation rec) <= gen_value (rec_generation rec') ->
      gov_retired g' = gov_retired g -> gov_next_alloc_id g' = gov_next_alloc_id g ->
      registry_step g g'
  | rs_retire id rec :
      om_find id (gov_records g) = Some rec -> gov_records g' = om_erase id (gov_records g) ->
      gov_retired g' = om_set id (released rec) (gov_retired g) ->
      gov_next_alloc_id g' = gov_next_alloc_id g -> registry_step g g'.

Lemma gov_step_registry op g g' ok :
  gov_inv g -> gov_op_ok op g -> is_restore op = false -> gov_step op g = Some (g', ok) ->
  registry_step g g'.
Proof.
  intros Hi Hop Hr E. destruct op as [|req|id gen wb sb|id gen|id gen|id gen no ns| |s];
    simpl in Hop, Hr, E; try done.
  - pose proof (initialize_cases be g Hi) as Hc. destruct (initialize be g) as [g1 res].
    simplify_eq/=. destruct Hc as (_ & ? & ? & _ & En & _). apply rs_same; auto. lia.
  - destruct Hop as [Hw Hn]. destruct (request_cases g req Hi Hw Hn) as (g1 & res & E1 & _ & Hc).
    rewrite E1 in E. simplify_eq/=. destruct res as [h|f].
    + destruct Hc as (_ & r & [] & _). by eapply rs_new.
    + destruct Hc as [(n & -> & Hle) _]. apply rs_same; simpl; auto. lia.
  - unfold release_for_worker in E. pose proof (release_cases g id gen wb sb Hi) as Hc.
    destruct (release_locked id gen wb sb g) as [g1 res]. simplify_eq/=. destruct res as [rel|f].
    + destruct Hc as (rec & [Hf _] & _ & _ & _ & (Er & Et & _ & _ & _ & En & _)). by eapply rs_retire.
    + destruct Hc as [-> _]. apply rs_same; auto. lia.
  - destruct (pin_locked_cases g id gen Hi) as (g1 & res & E1 & _ & Hc).
    rewrite E1 in E. simplify_eq/=. destruct res as [u|f].
    + destruct Hc as (rec & reg & [Hf _] & _ & _ & [] & _). by eapply rs_update.
    + destruct Hc as [-> _]. apply rs_same; auto. lia.
  - destruct (unpin_locked_cases g id gen Hi) as (g1 & res & E1 & _ & Hc).
    rewrite E1 in E. simplify_eq/=. destruct res as [u|f].
    + destruct Hc as (rec & reg & [Hf _] & _ & _ & _ & [] & _). by eapply rs_update.
    + destruct Hc as [-> _]. apply rs_same; auto. lia.
  - destruct Hop as (Hno & Hns & H0 & H1). pose proof (apply_relocation_cases g id gen no ns Hi Hno Hns) as Hc.
    destruct (apply_relocation id gen no ns g) as [g1 res]. simplify_eq/=. destruct Hc as [_ Hc].
    destruct res as [h|f].
    + destruct Hc as (rec & reg & [Hf <-] & _ & _ & _ & _ & [] & _). eapply rs_update; eauto.
      simpl. rewrite gen_next_value by (unfold U64 in *; lia). lia.
    + destruct Hc as [-> _]. apply rs_same; auto. lia.
  - simplify_eq/=. apply rs_same; auto. simpl. lia.
Qed.

(** [id] has been given out, and no record of it is older than generation [n]. *)
Definition aged g (id : AllocationId) (n : Z) : Prop :=
  exists rec, (om_find id (gov_records g) = Some rec \/ om_find id (gov_retired g) = Some rec)
    /\ n <= gen_value (rec_generation rec).

Definition retired_as g (id : AllocationId) (gen : AllocationGeneration) : Prop :=
  exists ret, om_find id (gov_retired g) = Some ret /\ rec_generation ret = gen.

Lemma registry_step_aged g g' id n : gov_inv g -> registry_step g g' -> aged g id n -> aged g' id n.
Proof.
  intros Hi Hs (rec & Hf & Hn).
  destruct Hs as [Er Et _|rec0 Er _ Et _|id0 rec0 rec1 Hf0 Er Hg Et _|id0 rec0 Hf0 Er Et _];
    unfold aged; rewrite Er, Et.
  - eauto.
  - exists rec. split; [|done]. rewrite om_find_set_ne; [done|]. intros ->.
    destruct (registry_fresh _ _ _ (gi_registry _ Hi)). destruct Hf; congruence.
  - destruct (decide (id = id0)) as [->|Hne].
    + rewrite om_find_set_eq. exists rec1. split; [by left|].
      assert (om_find id0 (gov_retired g) = None) by (apply (gi_registry _ Hi); eauto).
      destruct Hf as [Hf|Hf]; [|congruence]. simplify_eq. lia.
    + rewrite om_find_set_ne by done. eauto.
  - destruct (decide (id = id0)) as [->|Hne].
    + rewrite om_find_set_eq. exists (released rec0). split; [by right|]. simpl.
      assert (om_find id0 (gov_retired g) = None) by (apply (gi_registry _ Hi); eauto).
      destruct Hf as [Hf|Hf]; [|congruence]. by simplify_eq.
    + rewrite om_find_erase_ne, om_find_set_ne by done. eauto.
Qed.

Lemma registry_step_retired g g' id gen :
  gov_inv g -> registry_step g g' -> retired_as g id gen -> retired_as g' id gen.
Proof.
  intros Hi Hs (ret & Hf & Hg).
  destruct Hs as [_ Et _|rec0 _ _ Et _|id0 rec0 rec1 _ _ _ Et _|id0 rec0 Hf0 _ Et _];
    unfold retired_as; rewrite Et; eauto.
  rewrite om_find_set_ne; [by eauto|]. intros ->.
  assert (om_find id0 (gov_retired g) = None) by (apply (gi_registry _ Hi); eauto). congruence.
Qed.

Lemma later_registry (P : MemoryGovernor B -> Prop) g g' :
  gov_inv g -> later g g' -> (forall g1 g2, gov_inv g1 -> registry_step g1 g2 -> P g1 -> P g2) ->
  P g -> P g'.
Proof.
  intros Hi Hl HP Hg. induction Hl as [|g g1 op g2 ok Hl IH Hr Hop E]; [done|].
  pose proof (later_inv _ _ Hi Hl) as Hi1. eapply (HP g1); [done| |by apply IH].
  by eapply gov_step_registry.
Qed.

(** An aged id refuses every older handle. *)
Lemma aged_not_current g id gen n rec :
  gov_inv g -> aged g id n -> gen_value gen < n -> ~ current g id gen rec.
Proof.
  intros Hi (rec' & Hf & Hn) Hlt [Hf' <-].
  assert (om_find id (gov_retired g) = None) by (apply (gi_registry _ Hi); eauto).
  destruct Hf as [Hf|Hf]; simplify_eq. lia.
Qed.

Lemma retired_not_current g id gen gen' rec :
  gov_inv g -> retired_as g id gen -> ~ current g id gen' rec.
Proof.
  intros Hi (ret & Hf & _) [Hf' _].
  assert (om_find id (gov_retired g) = None) by (apply (gi_registry _ Hi); eauto). congruence.
Qed.
End executions.
