(* ===== verification/GovernorProps.v ===== *)
(** The properties of the governor. *)
From S2P Require Import Prelude Words Ordered Types Floats Region RegionInv RegionAlloc.
From S2P Require Import RegionFree RegionReloc RegionQuery RegionSpec Pressure Request Bytes.
From S2P Require Import Persist PersistInv Governor GovernorInv GovernorOps GovernorSpec.
Open Scope Z_scope.

(** ** A concrete governor for the instances *)

(** A backend that hands out one fixed address and counts its calls. *)
Definition demo_backend : IBackend Z :=
  mk_backend Z (fun bytes alignment b => (b + 1, Some 4096, ""%string)) (fun base b => b - 1).

Definition gov_domain0 : MemoryDomain :=
  mk_domain (mk_id 1) (mk_gen 1) (mk_id 2) (mk_gen 1) 8192 8192 4096 4096 0 0 0 0 0 0
    d_zero PressureState.UNKNOWN DeviceHealth.UNKNOWN WatermarkConfig_default Provenance.REPORTED.

Definition gov_req (bytes al : Z) (pin : bool) : AllocationRequest :=
  mk_request bytes 0 al true MemoryClass.KV_CACHE Reclaimability.RECLAIM_IF_COLD Movability.MOVABLE
    pin "engine" (mk_id 3) (mk_gen 4) (mk_gen 5) (mk_id 6) (mk_id 7) (mk_gen 8) (mk_gen 9)
    (mk_gen 10) (mk_gen 11) "" Provenance.REPORTED.

Definition gov_run (ops : list gov_op) : MemoryGovernor Z :=
  fold_left (fun g op => match gov_step demo_backend op g with Some (g', _) => g' | None => g end) ops
    (MemoryGovernor_new gov_domain0 (Some 0)).

(** Initialised; two allocations; the same with the first one released; and moved. *)
Definition gov1 : MemoryGovernor Z := gov_run [GInitialize].
Definition gov3 : MemoryGovernor Z :=
  gov_run [GInitialize; GRequest (gov_req 100 64 false); GRequest (gov_req 200 64 false)].
Definition gov4 : MemoryGovernor Z :=
  gov_run [GInitialize; GRequest (gov_req 100 64 false); GRequest (gov_req 200 64 false);
           GRelease (mk_id 1) (mk_gen 1) (mk_gen 0) (mk_gen 0)].
Definition gov5 : MemoryGovernor Z :=
  gov_run [GInitialize; GRequest (gov_req 100 64 false); GRequest (gov_req 200 64 false);
           GRelocate (mk_id 1) (mk_gen 1) 1024 128].

Lemma gov1_reachable : gov_reachable demo_backend gov_domain0 gov1.
Proof.
  apply (gr_step demo_backend gov_domain0 (gov_run []) GInitialize gov1 true);
    [constructor|exact I|vm_compute; reflexivity].
Defined.

Lemma gov3_reachable : gov_reachable demo_backend gov_domain0 gov3.
Proof.
  apply (gr_step _ _ (gov_run [GInitialize; GRequest (gov_req 100 64 false)])
           (GRequest (gov_req 200 64 false)) gov3 true).
  - apply (gr_step _ _ gov1 (GRequest (gov_req 100 64 false)) _ true);
      [exact gov1_reachable| |vm_compute; reflexivity].
    repeat split; vm_compute; congruence.
  - repeat split; vm_compute; congruence.
  - vm_compute. reflexivity.
Defined.

(** The states are reached by these calls only. *)
Definition gov4_ops : list gov_op :=
  [GInitialize; GRequest (gov_req 100 64 false); GRequest (gov_req 200 64 false);
   GRelease (mk_id 1) (mk_gen 1) (mk_gen 0) (mk_gen 0)].

Lemma gov2_run (ops : list gov_op) :
  GInitialize ∈ ops -> GRequest (gov_req 100 64 false) ∈ ops ->
  run_with demo_backend (fun op _ => op ∈ ops) gov_domain0
    (gov_run [GInitialize; GRequest (gov_req 100 64 false)]).
Proof.
  intros H1 H2. apply (rw_step _ _ _ gov1 (GRequest (gov_req 100 64 false)) _ true);
    [|repeat split; vm_compute; congruence|exact H2|vm_compute; reflexivity].
  apply (rw_step _ _ _ (gov_run []) GInitialize _ true); [apply rw_new|exact I|exact H1|vm_compute; reflexivity].
Qed.

Lemma gov4_run : run_with demo_backend (fun op _ => op ∈ gov4_ops) gov_domain0 gov4.
Proof.
  apply (rw_step _ _ _ gov3 (GRelease (mk_id 1) (mk_gen 1) (mk_gen 0) (mk_gen 0)) _ true);
    [|exact I|do 3 right; left|vm_compute; reflexivity].
  apply (rw_step _ _ _ (gov_run [GInitialize; GRequest (gov_req 100 64 false)])
           (GRequest (gov_req 200 64 false)) _ true);
    [|repeat split; vm_compute; congruence|do 2 right; left|vm_compute; reflexivity].
  apply gov2_run; [left|right; left].
Qed.

Lemma gov_domain0_ok : 0 < managed_capacity gov_domain0 < U64.
Proof. split; vm_compute; reflexivity. Defined.

Lemma gov1_inv : gov_inv gov1.
Proof. exact (gov_reachable_inv demo_backend gov_domain0 gov1 gov_domain0_ok gov1_reachable). Defined.

Lemma gov3_inv : gov_inv gov3.
Proof. exact (gov_reachable_inv demo_backend gov_domain0 gov3 gov_domain0_ok gov3_reachable). Defined.

(** ** Safety *)

(** Two records own no common byte. *)
Lemma records_disjoint {B} (g : MemoryGovernor B) id1 id2 r1 r2 :
  gov_inv g -> om_find id1 (gov_records g) = Some r1 -> om_find id2 (gov_records g) = Some r2 ->
  id1 <> id2 -> rec_end r1 <= rec_offset r2 \/ rec_end r2 <= rec_offset r1.
Proof.
  intros Hi Hf1 Hf2 Hne.
  destruct (proj1 (gi_tracks _ Hi) _ _ Hf1) as (q1 & Hh1 & Hb1).
  destruct (proj1 (gi_tracks _ Hi) _ _ Hf2) as (q2 & Hh2 & Hb2).
  pose proof (ra_wf_bounds _ _ _ (gi_arena _ Hi) (proj1 Hh1)) as (_ & _ & S1 & _).
  pose proof (ra_wf_bounds _ _ _ (gi_arena _ Hi) (proj1 Hh2)) as (_ & _ & S2 & _).
  rewrite (bk_size _ _ Hb1) in S1. rewrite (bk_size _ _ Hb2) in S2. unfold rec_end.
  destruct (Z.le_gt_cases (rec_offset r1 + rec_region_size r1) (rec_offset r2)) as [|L1]; [by left|].
  destruct (Z.le_gt_cases (rec_offset r2 + rec_region_size r2) (rec_offset r1)) as [|L2]; [by right|].
  exfalso. set (b := Z.max (rec_offset r1) (rec_offset r2)).
  assert (O1 : owner_at (ra_regions (gov_arena g)) b = Some (id1, rec_generation r1)).
  { apply owner_at_held; [apply Hi|]. exists q1. split; [done|].
    rewrite (bk_offset _ _ Hb1), (bk_size _ _ Hb1). lia. }
  assert (O2 : owner_at (ra_regions (gov_arena g)) b = Some (id2, rec_generation r2)).
  { apply owner_at_held; [apply Hi|]. exists q2. split; [done|].
    rewrite (bk_offset _ _ Hb2), (bk_size _ _ Hb2). lia. }
  congruence.
Qed.

(** A record lies in the governed capacity, aligned. *)
Lemma record_placed {B} (g : MemoryGovernor B) id r :
  gov_inv g -> om_find id (gov_records g) = Some r ->
  0 <= rec_offset r /\ 0 < rec_region_size r
  /\ rec_end r <= managed_capacity (gov_domain g) /\ rec_offset r mod rec_alignment r = 0.
Proof.
  intros Hi Hf. destruct (proj1 (gi_tracks _ Hi) _ _ Hf) as (q & Hh & Hb).
  pose proof (ra_wf_bounds _ _ _ (gi_arena _ Hi) (proj1 Hh)) as (_ & H0 & H1 & H2 & _).
  destruct (ra_wf_split _ _ _ (gi_arena _ Hi) (proj1 Hh))
    as (? & ? & _ & _ & _ & _ & _ & _ & Hal & _).
  rewrite (bk_offset _ _ Hb), (bk_size _ _ Hb) in *. rewrite (gi_capacity _ Hi) in H2.
  split_and!; [done..|]. destruct Hh as (_ & Hl & _). destruct (Hal Hl) as (_ & _ & Hmod).
  by rewrite (bk_alignment _ _ Hb) in Hmod.
Qed.

(** C3: the governor never lets two clients share memory.  In every state reached
    from the constructor by any sequence of calls (requests, releases, pins, moves,
    pressure queries, restores of snapshots with distinct ids), every record lies inside the
    governed capacity, aligned, and shares no byte with another record; no live id is
    retired; records and live regions of the arena are in one-to-one correspondence, a record and
    the region that backs it having the same id, generation, offset, size, alignment, movability
    and reclaimability, both resident, and the region no more pins than the record; the arena's
    own consistency check passes; and every further call returns, so that no undefined access of
    the arena is ever reached. *)
Theorem governor_safe {B} (be : IBackend B) d g op :
  0 < managed_capacity d < U64 -> gov_reachable be d g -> gov_op_ok op g ->
  (exists g' ok, gov_step be op g = Some (g', ok) /\ gov_reachable be d g')
  /\ (forall id r, om_find id (gov_records g) = Some r ->
        rec_id r = id /\ om_find id (gov_retired g) = None
        /\ 0 <= rec_offset r /\ 0 < rec_region_size r
        /\ rec_end r <= managed_capacity (gov_domain g) /\ rec_offset r mod rec_alignment r = 0)
  /\ (forall id1 id2 r1 r2, om_find id1 (gov_records g) = Some r1 ->
        om_find id2 (gov_records g) = Some r2 -> id1 <> id2 ->
        rec_end r1 <= rec_offset r2 \/ rec_end r2 <= rec_offset r1)
  /\ (forall id r, om_find id (gov_records g) = Some r ->
        exists! reg, held (gov_arena g) id (rec_generation r) reg /\ backs reg r)
  /\ (forall k reg, (k, reg) ∈ ra_regions (gov_arena g) -> ri_live reg = true ->
        exists r, om_find (ri_alloc_id reg) (gov_records g) = Some r
          /\ rec_generation r = ri_alloc_generation reg /\ k = rec_offset r /\ backs reg r)
  /\ verify (gov_arena g) = ""%string.
Proof.
  intros Hd Hr Hop. pose proof (gov_reachable_inv be d g Hd Hr) as Hi.
  destruct (gov_step_inv be op g Hi Hop) as (g' & ok & E & _). split_and!.
  - exists g', ok. split; [done|]. by eapply gr_step.
  - intros id r Hf. destruct (rg_ids _ _ _ (gi_registry _ Hi) id r) as [Hid _]; [by left|].
    destruct (record_placed g id r Hi Hf) as (? & ? & ? & ?).
    split_and!; auto. apply (gi_registry _ Hi). by exists r.
  - intros id1 id2 r1 r2. by apply records_disjoint.
  - intros id r Hf. destruct (proj1 (gi_tracks _ Hi) _ _ Hf) as (reg & Hh & Hb). exists reg.
    split; [done|]. intros reg' [Hh' _]. by eapply held_unique; [apply Hi| |].
  - intros k reg Hin Hl. destruct (ra_wf_bounds _ _ _ (gi_arena _ Hi) Hin) as [<- _].
    destruct (held_current g (ri_alloc_id reg) (ri_alloc_generation reg) reg Hi) as (r & [Hf Hg] & Hb);
      [by split_and!|].
    exists r. split_and!; [done..| |done]. apply Hb.
  - apply ra_wf_verify, Hi.
Qed.

Lemma governor_safe_witness :
  om_find (mk_id 1) (gov_records gov3) <> None /\ verify (gov_arena gov3) = ""%string.
Proof.
  split; [vm_compute; discriminate|].
  apply (governor_safe demo_backend gov_domain0 gov3 GPressure gov_domain0_ok gov3_reachable I).
Defined.

(** ** Requests *)

(** What a granted request gets.  The handle names an id that no live or
    released allocation has ever had in this registry, generation 1, and an aligned
    interval of the request's size rounded up to its alignment that no record overlaps;
    the record of the id carries the request, every other record is untouched, and the
    domain is charged with exactly the size of the interval. *)
Theorem request_granted {B} (g g' : MemoryGovernor B) req h :
  gov_inv g -> request_words req -> gov_next_alloc_id g + 1 < U64 ->
  request req g = Some (g', Ok h) ->
  om_find (h_id h) (gov_records g) = None /\ om_find (h_id h) (gov_retired g) = None
  /\ h_generation h = gen_first
  /\ h_size h = round_up (rq_bytes req) (rq_alignment req)
  /\ h_offset h mod rq_alignment req = 0
  /\ 0 <= h_offset h /\ h_offset h + h_size h <= managed_capacity (gov_domain g)
  /\ (forall id r, om_find id (gov_records g) = Some r ->
        rec_end r <= h_offset h \/ h_offset h + h_size h <= rec_offset r)
  /\ (exists rec, om_find (h_id h) (gov_records g') = Some rec /\ rec_id rec = h_id h
        /\ rec_generation rec = gen_first /\ rec_offset rec = h_offset h
        /\ rec_region_size rec = h_size h /\ rec_requested_bytes rec = rq_bytes req
        /\ rec_worker_boot rec = rq_worker_boot req /\ rec_source_boot rec = rq_source_boot req)
  /\ (forall id, id <> h_id h -> om_find id (gov_records g') = om_find id (gov_records g))
  /\ gov_retired g' = gov_retired g
  /\ ra_live_bytes (gov_arena g') = ra_live_bytes (gov_arena g) + h_size h.
Proof.
  intros Hi Hw Hn E. destruct (request_cases g req Hi Hw Hn) as (g1 & res & E1 & Hi' & Hc).
  rewrite E in E1. simplify_eq. destruct Hc as (_ & r & Ha & ->). simpl.
  destruct (registry_fresh _ _ _ (gi_registry _ Hi)) as [Hf1 Hf2].
  destruct (aq_place _ _ _ _ Ha) as (P1 & P2 & P3).
  split_and!; auto; try apply Ha.
  - intros id rec Hf.
    assert (Hne : id <> mk_id (gov_next_alloc_id g)) by congruence.
    pose proof (records_disjoint g1 id (mk_id (gov_next_alloc_id g)) rec
      (new_record req (mk_id (gov_next_alloc_id g)) r) Hi') as Hd.
    rewrite (aq_records _ _ _ _ Ha), om_find_set_eq, om_find_set_ne in Hd by done.
    destruct (Hd Hf eq_refl Hne) as [?|?]; [by left|by right].
  - eexists. rewrite (aq_records _ _ _ _ Ha), om_find_set_eq. by split_and!.
  - intros id Hne. by rewrite (aq_records _ _ _ _ Ha), om_find_set_ne.
Qed.

Lemma request_granted_witness :
  exists g' h, request (gov_req 100 64 false) gov1 = Some (g', Ok h)
    /\ h_size h = 128 /\ om_find (h_id h) (gov_records gov1) = None.
Proof.
  assert (E : exists g' h, request (gov_req 100 64 false) gov1 = Some (g', Ok h)
                            /\ h_size h = 128).
  { eexists _, _. split; vm_compute; reflexivity. }
  destruct E as (g' & h & E & Hs). exists g', h. split; [exact E|]. split; [exact Hs|].
  apply (request_granted gov1 g' (gov_req 100 64 false) h gov1_inv); [..|exact E].
  - split; split; vm_compute; congruence.
  - vm_compute. reflexivity.
Defined.

(** A refusal is honest.  When a request is refused, nothing changes but
    possibly the id counter, and the reason is the admission check's, or INTERNAL_ERROR
    because the governor is not initialised, or the arena's, and then no aligned interval
    of free bytes of the managed capacity could have held the request. *)
Theorem request_refused {B} (g g' : MemoryGovernor B) req f :
  gov_inv g -> request_words req -> gov_next_alloc_id g + 1 < U64 ->
  request req g = Some (g', Err f) ->
  untouched g g'
  /\ (failure_ok f = false /\ f = validate_request req (managed_capacity (gov_domain g))
      \/ gov_initialized g = false /\ reason f = RejectReason.INTERNAL_ERROR
      \/ reason f = refusal (next_arena_request g req) (gov_arena g)
         /\ forall p, 0 <= p -> p mod rq_alignment req = 0 ->
              p + round_up (rq_bytes req) (rq_alignment req) <= managed_capacity (gov_domain g) ->
              exists id r, om_find id (gov_records g) = Some r
                /\ rec_offset r < p + round_up (rq_bytes req) (rq_alignment req) /\ p < rec_end r).
Proof.
  intros Hi Hw Hn E. destruct (request_cases g req Hi Hw Hn) as (g1 & res & E1 & Hi' & Hc).
  rewrite E in E1. simplify_eq. destruct Hc as [Hu Hc]. split; [done|].
  destruct Hc as [Hc|[Hc|(_ & Hno & Hre)]]; [by left|by right; left|]. right; right.
  split; [done|]. intros p H0 Hm Hend. set (n := round_up (rq_bytes req) (rq_alignment req)) in *.
  destruct (decide (Forall (fun b => owner_at (ra_regions (gov_arena g)) b = None)
                      (seqZ p n))) as [Hfree|Hfree].
  - exfalso. apply Hno. exists p. rewrite (gi_capacity _ Hi). split_and!; auto.
    intros b Hb. rewrite Forall_forall in Hfree. apply Hfree, elem_of_seqZ. exact Hb.
  - apply not_Forall_Exists in Hfree; [|intros b; apply _].
    apply Exists_exists in Hfree as (b & Hb%elem_of_seqZ & Hown). simpl in Hown.
    destruct (owner_at (ra_regions (gov_arena g)) b) as [[id gen]|] eqn:Ho; [|done].
    apply owner_at_held in Ho as (reg & Hh & Hr); [|apply Hi].
    destruct (held_current g id gen reg Hi Hh) as (rec & [Hf _] & Hbk).
    exists id, rec. unfold rec_end. rewrite (bk_offset _ _ Hbk), (bk_size _ _ Hbk) in Hr.
    split_and!; [done|lia|lia].
Qed.

Lemma request_refused_witness :
  exists g' f, request (gov_req 4000 64 false) gov3 = Some (g', Err f)
    /\ reason f = RejectReason.INSUFFICIENT_TOTAL_CAPACITY /\ untouched gov3 g'.
Proof.
  assert (E : exists g' f, request (gov_req 4000 64 false) gov3 = Some (g', Err f)
                           /\ reason f = RejectReason.INSUFFICIENT_TOTAL_CAPACITY).
  { eexists _, _. split; vm_compute; reflexivity. }
  destruct E as (g' & f & E & Hf). exists g', f. split; [exact E|]. split; [exact Hf|].
  apply (request_refused gov3 g' (gov_req 4000 64 false) f gov3_inv); [..|exact E].
  - split; split; vm_compute; congruence.
  - vm_compute. reflexivity.
Defined.

(** ** Release and handles *)

(** C8: when memory is given back.  A release succeeds exactly when the handle
    is current, the boot ids given (if any) are the record's and the allocation is not pinned;
    then exactly that record moves, as RELEASED, from the live to the retired map and its
    bytes return to the arena.  Every refusal changes nothing and says why: DOUBLE_FREE for the
    handle of a retired record, STALE_AUTHORITY, FREE_OF_ACTIVE_OR_PINNED, and
    STALE_GENERATION otherwise; the arena itself never refuses. *)
Theorem release_functional {B} (g g' : MemoryGovernor B) id gen wb sb res :
  gov_inv g -> release_for_worker id gen wb sb g = (g', res) ->
  (result_ok res = true <->
     exists rec, current g id gen rec /\ authorised wb sb rec /\ rec_pin_count rec = 0)
  /\ match res with
     | Ok rel => exists rec, om_find id (gov_records g) = Some rec /\ rel = released rec
         /\ gov_records g' = om_erase id (gov_records g)
         /\ gov_retired g' = om_set id rel (gov_retired g)
         /\ ra_live_bytes (gov_arena g') = ra_live_bytes (gov_arena g) - rec_region_size rec
         /\ (forall b, rec_offset rec <= b < rec_end rec -> owner_at (ra_regions (gov_arena g')) b = None)
     | Err f => g' = g
         /\ (reason f = RejectReason.DOUBLE_FREE <-> retired_as g id gen)
         /\ (reason f = RejectReason.STALE_AUTHORITY <->
               exists rec, current g id gen rec /\ ~ authorised wb sb rec)
         /\ (reason f = RejectReason.FREE_OF_ACTIVE_OR_PINNED <->
               exists rec, current g id gen rec /\ authorised wb sb rec /\ 0 < rec_pin_count rec)
         /\ reason f ∈ [RejectReason.DOUBLE_FREE; RejectReason.STALE_AUTHORITY;
                        RejectReason.FREE_OF_ACTIVE_OR_PINNED; RejectReason.STALE_GENERATION]
     end.
Proof.
  intros Hi E. unfold release_for_worker in E. pose proof (release_cases g id gen wb sb Hi) as Hc.
  rewrite E in Hc. assert (Huniq : forall r1 r2, current g id gen r1 -> current g id gen r2 -> r1 = r2).
  { intros r1 r2 [H1 _] [H2 _]. congruence. }
  destruct res as [rel|f]; simpl.
  - destruct Hc as (rec & Hcur & Hau & Hp & -> & (Er & Et & Ha & Hlb & _)). split; [split; [|done]|].
    { intros _. by exists rec. }
    exists rec. pose proof Hcur as [Hf Hg]. split_and!; auto. intros b Hb.
    destruct (owner_at (ra_regions (gov_arena g')) b) as [[id' gen']|] eqn:Ho; [|done]. exfalso.
    destruct Ha as (Hwf' & _ & Hh). apply owner_at_held in Ho as (reg & [Hne Hreg]%Hh & Hr); [|done].
    destruct (current_held g id gen rec Hi Hcur) as (reg0 & Hh0 & Hbk).
    assert (O1 : owner_at (ra_regions (gov_arena g)) b = Some (id', gen')).
    { apply owner_at_held; [apply Hi|]. by exists reg. }
    assert (O2 : owner_at (ra_regions (gov_arena g)) b = Some (id, gen)).
    { apply owner_at_held; [apply Hi|]. exists reg0. split; [done|].
      rewrite (bk_offset _ _ Hbk), (bk_size _ _ Hbk). exact Hb. }
    congruence.
  - destruct Hc as [-> [[Hd Hre]|[(Hno & Hnr & Hre)|(rec & Hcur & [[Hau Hre]|(Hau & Hp & Hre)])]]];
      rewrite Hre.
    + assert (Hno : forall rec, ~ current g id gen rec)
        by (intros rec; by apply (retired_not_current g id gen)).
      split; [split; [done|intros (rec & ? & _); by destruct (Hno rec)]|].
      split_and!; [done|split; done| | |set_solver];
        (split; [done|]); intros (rec & ? & _); by destruct (Hno rec).
    + split; [split; [done|intros (rec & ? & _); by destruct (Hno rec)]|].
      split_and!; [done| | | |set_solver]; (split; [done|]).
      * intros (ret & Hf & Hg). by destruct (Hnr ret Hf).
      * intros (rec & ? & _). by destruct (Hno rec).
      * intros (rec & ? & _). by destruct (Hno rec).
    + split; [split; [done|]|].
      { intros (rec' & Hcur' & Hau' & _). by rewrite (Huniq _ _ Hcur' Hcur) in Hau'. }
      split_and!; [done| | | |set_solver].
      * split; [done|]. intros Hret. by destruct (retired_not_current g id gen gen rec Hi Hret).
      * split; [by exists rec|done].
      * split; [done|]. intros (rec' & Hcur' & Hau' & _). by rewrite (Huniq _ _ Hcur' Hcur) in Hau'.
    + split; [split; [done|]|].
      { intros (rec' & Hcur' & _ & Hp'). rewrite (Huniq _ _ Hcur' Hcur) in Hp'. lia. }
      split_and!; [done| | | |set_solver].
      * split; [done|]. intros Hret. by destruct (retired_not_current g id gen gen rec Hi Hret).
      * split; [done|]. intros (rec' & Hcur' & Hau'). by rewrite (Huniq _ _ Hcur' Hcur) in Hau'.
      * split; [by exists rec|done].
Qed.

Lemma release_functional_witness :
  exists g' rel, release_for_worker (mk_id 1) (mk_gen 1) (mk_gen 4) (mk_gen 0) gov3 = (g', Ok rel)
    /\ exists rec, current gov3 (mk_id 1) (mk_gen 1) rec /\ rec_pin_count rec = 0.
Proof.
  assert (E : exists g' rel,
    release_for_worker (mk_id 1) (mk_gen 1) (mk_gen 4) (mk_gen 0) gov3 = (g', Ok rel)).
  { eexists _, _. vm_compute. reflexivity. }
  destruct E as (g' & rel & E). exists g', rel. split; [exact E|].
  destruct (proj1 (proj1 (release_functional gov3 g' (mk_id 1) (mk_gen 1) (mk_gen 4) (mk_gen 0)
    (Ok rel) gov3_inv E)) eq_refl) as (rec & Hc & _ & Hp).
  exists rec. split; [exact Hc|exact Hp].
Defined.

(** Everything but [release] refuses a handle that is not current. *)
Definition handle_refused {B} (g : MemoryGovernor B) id gen : Prop :=
  (exists f, pin_locked id gen g = Some (g, Err f) /\ reason f = RejectReason.STALE_GENERATION)
  /\ (exists f, unpin_locked id gen g = Some (g, Err f) /\ reason f = RejectReason.STALE_GENERATION)
  /\ (forall no ns, in_u64 no -> in_u64 ns -> exists f,
        apply_relocation id gen no ns g = (g, Err f) /\ reason f = RejectReason.STALE_GENERATION)
  /\ (exists f, gov_get id gen g = Err f /\ reason f = RejectReason.STALE_GENERATION).

Lemma not_current_refused {B} (g : MemoryGovernor B) id gen :
  gov_inv g -> (forall r, ~ current g id gen r) -> handle_refused g id gen.
Proof.
  intros Hi Hnc. split_and!.
  - destruct (pin_locked_cases g id gen Hi) as (g3 & [u|f] & Ep & _ & Hc).
    + destruct Hc as (r & reg & Hcur & _). by destruct (Hnc r).
    + destruct Hc as (-> & _ & Hre). eauto.
  - destruct (unpin_locked_cases g id gen Hi) as (g3 & [u|f] & Ep & _ & Hc).
    + destruct Hc as (r & reg & Hcur & _). by destruct (Hnc r).
    + destruct Hc as (-> & [[_ Hre]|(r & reg & Hcur & _)]); [eauto|]. by destruct (Hnc r).
  - intros no ns Hno Hns. pose proof (apply_relocation_cases g id gen no ns Hi Hno Hns) as Hc.
    destruct (apply_relocation id gen no ns g) as [g3 [h|f]]; destruct Hc as [_ Hc].
    + destruct Hc as (r & reg & Hcur & _). by destruct (Hnc r).
    + destruct Hc as (-> & [[_ Hre]|(r & Hcur & _)]); [eauto|]. by destruct (Hnc r).
  - pose proof (gov_get_cases g id gen Hi) as Hc. destruct (gov_get id gen g) as [r|f].
    + by destruct (Hnc r).
    + destruct Hc as [_ Hre]. eauto.
Qed.

(** C9: once released, released for good.  After a granted release, and
    whatever the same process does next, releasing with the same handle again fails with
    DOUBLE_FREE, and pinning, unpinning, moving or reading the allocation, with that or any
    other generation, fails with STALE_GENERATION; nothing changes. *)
Theorem double_free_rejected {B} (be : IBackend B) g g1 g2 id gen gen' wb sb rel :
  gov_inv g -> release_for_worker id gen wb sb g = (g1, Ok rel) -> later be g1 g2 ->
  (exists f, release_for_worker id gen wb sb g2 = (g2, Err f) /\ reason f = RejectReason.DOUBLE_FREE)
  /\ handle_refused g2 id gen'.
Proof.
  intros Hi E Hl. unfold release_for_worker in *. pose proof (release_cases g id gen wb sb Hi) as Hc.
  rewrite E in Hc. destruct Hc as (rec & [Hf Hg] & _ & _ & -> & Ha).
  pose proof (after_release_inv _ _ _ _ Hi Hf Ha) as Hi1.
  pose proof (later_inv be g1 g2 Hi1 Hl) as Hi2.
  assert (Hret : retired_as g2 id gen).
  { apply (later_registry be (fun g => retired_as g id gen) g1 g2 Hi1 Hl).
    - intros ? ?. apply registry_step_retired.
    - destruct Ha as (_ & Et & _). exists (released rec). by rewrite Et, om_find_set_eq. }
  assert (Hnc : forall gen' r, ~ current g2 id gen' r)
    by (intros gen0 r; by eapply retired_not_current).
  split; [|by apply not_current_refused].
  pose proof (release_cases g2 id gen wb sb Hi2) as Hc.
  destruct (release_locked id gen wb sb g2) as [g3 [rel'|f]].
  - destruct Hc as (r & Hcur & _). by destruct (Hnc gen r).
  - destruct Hc as [-> [[_ Hre]|[(_ & Hnr & _)|(r & Hcur & _)]]].
    + by exists f.
    + destruct Hret as (ret & Hft & Hgt). by destruct (Hnr ret Hft).
    + by destruct (Hnc gen r).
Qed.

Lemma gov4_release :
  exists rel, release_for_worker (mk_id 1) (mk_gen 1) (mk_gen 0) (mk_gen 0) gov3 = (gov4, Ok rel).
Proof. eexists. vm_compute. reflexivity. Defined.

Lemma double_free_rejected_witness :
  exists f, release_for_worker (mk_id 1) (mk_gen 1) (mk_gen 0) (mk_gen 0) gov4 = (gov4, Err f)
            /\ reason f = RejectReason.DOUBLE_FREE.
Proof.
  destruct gov4_release as [rel E].
  apply (double_free_rejected demo_backend gov3 gov4 gov4 (mk_id 1) (mk_gen 1) (mk_gen 7) (mk_gen 0)
    (mk_gen 0) rel gov3_inv E). constructor.
Defined.

(** ** Relocation *)

(** No record touches the interval. *)
Definition clear {B} (g : MemoryGovernor B) (off n : Z) : Prop :=
  forall id r, om_find id (gov_records g) = Some r -> rec_end r <= off \/ off + n <= rec_offset r.

Lemma clear_owner {B} (g : MemoryGovernor B) off n :
  gov_inv g -> 0 < n ->
  clear g off n <-> forall b, off <= b < off + n -> owner_at (ra_regions (gov_arena g)) b = None.
Proof.
  intros Hi Hn. split.
  - intros Hc b Hb. destruct (owner_at (ra_regions (gov_arena g)) b) as [[id gen]|] eqn:Ho; [|done].
    exfalso. apply owner_at_held in Ho as (reg & Hh & Hr); [|apply Hi].
    destruct (held_current g id gen reg Hi Hh) as (rec & [Hf _] & Hbk).
    rewrite (bk_offset _ _ Hbk), (bk_size _ _ Hbk) in Hr.
    destruct (Hc id rec Hf) as [Hc'|Hc']; unfold rec_end in Hc'; lia.
  - intros Hv id r Hf. destruct (record_placed g id r Hi Hf) as (_ & Hs & _).
    destruct (proj1 (gi_tracks _ Hi) _ _ Hf) as (reg & Hh & Hbk).
    destruct (Z.le_gt_cases (rec_end r) off) as [|L1]; [by left|].
    destruct (Z.le_gt_cases (off + n) (rec_offset r)) as [|L2]; [by right|]. exfalso.
    unfold rec_end in L1. set (b := Z.max (rec_offset r) off).
    specialize (Hv b ltac:(lia)).
    rewrite (proj2 (owner_at_held _ b id (rec_generation r) (gi_arena _ Hi))) in Hv; [done|].
    exists reg. split; [done|]. rewrite (bk_offset _ _ Hbk), (bk_size _ _ Hbk). lia.
Qed.

(** What moving an allocation does.  A move succeeds exactly when the
    handle is current, the allocation is not pinned, and the target is non-empty, aligned to
    the allocation, inside the governed capacity and touches no record (the old place
    included).  Then only that record changes: it sits at the target under the next
    generation, so the old handle is no longer current and the returned one is.  A refused
    move changes nothing; it is BLOCKED_BY_PINNED exactly when the handle is current and pinned. *)
Theorem relocation_functional {B} (g g' : MemoryGovernor B) id gen no ns res :
  gov_inv g -> in_u64 no -> in_u64 ns -> apply_relocation id gen no ns g = (g', res) ->
  (result_ok res = true <->
     exists rec, current g id gen rec /\ rec_pin_count rec = 0 /\ 0 < ns
       /\ no mod rec_alignment rec = 0 /\ no + ns <= managed_capacity (gov_domain g) /\ clear g no ns)
  /\ match res with
     | Ok h => h_id h = id /\ h_generation h = gen_next gen /\ h_offset h = no /\ h_size h = ns
         /\ (exists rec, current g' id (gen_next gen) rec /\ rec_offset rec = no /\ rec_region_size rec = ns)
         /\ (forall rec, gen_next gen <> gen -> ~ current g' id gen rec)
         /\ (forall id', id' <> id -> om_find id' (gov_records g') = om_find id' (gov_records g))
         /\ gov_retired g' = gov_retired g
     | Err f => g' = g /\ (reason f = RejectReason.BLOCKED_BY_PINNED <->
                           exists rec, current g id gen rec /\ 0 < rec_pin_count rec)
     end.
Proof.
  intros Hi Hno Hns E. pose proof (apply_relocation_cases g id gen no ns Hi Hno Hns) as Hc.
  rewrite E in Hc. destruct Hc as [Hi' Hc].
  assert (Htgt : forall rec, current g id gen rec ->
    target_ok (gov_arena g) no ns (rec_alignment rec) <->
    0 < ns /\ no mod rec_alignment rec = 0 /\ no + ns <= managed_capacity (gov_domain g) /\ clear g no ns).
  { intros rec Hcur. destruct (current_held g id gen rec Hi Hcur) as (reg & _ & Hbk).
    unfold target_ok. rewrite (gi_capacity _ Hi). split.
    - intros (_ & ? & ? & ? & Hv). split_and!; auto. by apply clear_owner.
    - intros (? & ? & ? & Hcl). split_and!; auto; [apply Hbk|]. by apply clear_owner. }
  destruct res as [h|f]; simpl.
  - destruct Hc as (rec & reg & Hcur & Hh & Hbk & Hp & Ht & Hu & Hlb & ->).
    split; [split; [|done]|].
    { intros _. exists rec. split; [done|]. split; [done|]. by apply Htgt. }
    assert (Hg : ri_alloc_generation (moved_region no ns (rec_alignment rec) gen reg) = gen_next gen) by done.
    split_and!; try done.
    + exists (relocated_record rec (moved_region no ns (rec_alignment rec) gen reg)).
      split; [|done]. split; [|done]. by rewrite (ru_records _ _ _ _ _ Hu), om_find_set_eq.
    + intros rec' Hne [Hf Hg']. rewrite (ru_records _ _ _ _ _ Hu), om_find_set_eq in Hf.
      injection Hf as <-. by apply Hne.
    + intros id' Hne. by rewrite (ru_records _ _ _ _ _ Hu), om_find_set_ne.
    + apply Hu.
  - destruct Hc as (-> & [[Hno' Hre]|(rec & Hcur & [[Hp Hre]|(Hp & Ht & Hre)])]); rewrite Hre.
    + split; [split; [done|intros (rec & ? & _); by destruct (Hno' rec)]|].
      split; [done|]. split; [done|]. intros (rec & ? & _). by destruct (Hno' rec).
    + split; [split; [done|]|].
      { intros (rec' & [Hf' _] & Hp' & _). destruct Hcur as [Hf _]. simplify_eq. lia. }
      split; [done|]. split; [by exists rec|done].
    + split; [split; [done|]|].
      { intros (rec' & [Hf' _] & _ & Hrest). pose proof Hcur as [Hf _]. simplify_eq.
        destruct Ht. by apply (Htgt rec' Hcur). }
      split; [done|]. split.
      * unfold relocate_refusal. repeat case_match; discriminate.
      * intros (rec' & [Hf' _] & Hp'). destruct Hcur as [Hf _]. simplify_eq. lia.
Qed.

Lemma gov5_move : exists h, apply_relocation (mk_id 1) (mk_gen 1) 1024 128 gov3 = (gov5, Ok h).
Proof. eexists. vm_compute. reflexivity. Defined.

Lemma relocation_functional_witness :
  exists rec, current gov5 (mk_id 1) (mk_gen 2) rec /\ rec_offset rec = 1024.
Proof.
  destruct gov5_move as [h E].
  destruct (relocation_functional gov3 gov5 (mk_id 1) (mk_gen 1) 1024 128 (Ok h) gov3_inv)
    as (_ & _ & _ & _ & _ & (rec & Hc & Ho & _) & _);
    [split; vm_compute; congruence|split; vm_compute; congruence|exact E|].
  exists rec. split; [exact Hc|exact Ho].
Defined.

(** C10: a handle that has been superseded does not work again in the life of the governor.  After a
    move of a handle below the last generation, and any later calls other than a restore, the old handle cannot release, pin, unpin, move
    or read anything, and every such attempt leaves the governor unchanged.  (A restore of an older
    snapshot sets the counter of ids back and can make the pair of id and generation current
    again: [restored_id_reused].) *)
Theorem stale_handle_rejected {B} (be : IBackend B) g g1 g2 id gen wb sb no ns h :
  gov_inv g -> in_u64 no -> in_u64 ns -> 0 <= gen_value gen -> gen_value gen + 1 < U64 ->
  apply_relocation id gen no ns g = (g1, Ok h) -> later be g1 g2 ->
  (exists f, release_for_worker id gen wb sb g2 = (g2, Err f) /\ reason f = RejectReason.STALE_GENERATION)
  /\ handle_refused g2 id gen.
Proof.
  intros Hi Hno Hns H0 H1 E Hl.
  pose proof (apply_relocation_cases g id gen no ns Hi Hno Hns) as Hc. rewrite E in Hc.
  destruct Hc as [Hi1 (rec & reg & [Hf Hg] & _ & _ & _ & _ & Hu & _)].
  pose proof (later_inv be g1 g2 Hi1 Hl) as Hi2.
  assert (Hag : aged g2 id (gen_value gen + 1)).
  { apply (later_registry be (fun g => aged g id (gen_value gen + 1)) g1 g2 Hi1 Hl).
    - intros ? ?. apply registry_step_aged.
    - eexists. rewrite (ru_records _ _ _ _ _ Hu), om_find_set_eq. split; [by left|].
      simpl. rewrite gen_next_value by (unfold U64 in *; lia). lia. }
  assert (Hnc : forall r, ~ current g2 id gen r)
    by (intros r; apply (aged_not_current g2 id gen (gen_value gen + 1)); auto; lia).
  assert (Hnr : ~ retired_as g2 id gen).
  { intros (ret & Hft & Hgt). destruct Hag as (r & [Hfr|Hfr] & Hle).
    - rewrite (rg_disjoint _ _ _ (gi_registry _ Hi2) id) in Hft; [done|by exists r].
    - assert (r = ret) as -> by congruence. rewrite Hgt in Hle. lia. }
  split; [|by apply not_current_refused]. unfold release_for_worker.
  pose proof (release_cases g2 id gen wb sb Hi2) as Hc.
  destruct (release_locked id gen wb sb g2) as [g3 [rel'|f]].
  - destruct Hc as (r & Hcur & _). by destruct (Hnc r).
  - destruct Hc as [-> [[Hd _]|[(_ & _ & Hre)|(r & Hcur & _)]]]; [done|by exists f|].
    by destruct (Hnc r).
Qed.

Lemma stale_handle_rejected_witness :
  exists f, release_for_worker (mk_id 1) (mk_gen 1) (mk_gen 4) (mk_gen 5) gov5 = (gov5, Err f)
            /\ reason f = RejectReason.STALE_GENERATION.
Proof.
  destruct gov5_move as [h E].
  apply (stale_handle_rejected demo_backend gov3 gov5 gov5 (mk_id 1) (mk_gen 1) (mk_gen 4) (mk_gen 5)
    1024 128 h gov3_inv); [..|exact E|constructor];
    try (split; vm_compute; congruence); vm_compute; congruence.
Defined.
