(* ===== verification/GovernorBooks.v ===== *)
(** The accounts of the governor: the bytes of the records, the bytes of the arena and the
    counters of the domain; and what a pin protects. *)
From S2P Require Import Prelude Words Ordered Types Floats Region RegionInv RegionAlloc RegionFree.
From S2P Require Import RegionReloc RegionQuery RegionSpec Pressure Request Bytes Persist.
From S2P Require Import PersistInv Governor GovernorInv GovernorOps GovernorSpec GovernorProps.
Open Scope Z_scope.

(** ** Sums over the record map *)

Definition total_size (m : omap AllocationId AllocationRecord) : Z :=
  zsum (fun kv => rec_region_size kv.2) m.

Lemma total_size_erase m id rec :
  om_find id m = Some rec ->
  total_size (om_erase id m) = total_size m - rec_region_size rec.
Proof.
  intros E%om_erase_perm. unfold total_size. rewrite (zsum_perm _ _ _ E), zsum_cons. simpl. lia.
Qed.

Lemma total_size_set m id rec' :
  om_ok m -> total_size (om_set id rec' m) = rec_region_size rec' + total_size (om_erase id m).
Proof. intros Hm. unfold total_size. by rewrite (zsum_perm _ _ _ (om_set_perm id rec' m Hm)). Qed.

Lemma total_size_update m id rec rec' :
  om_ok m -> om_find id m = Some rec ->
  total_size (om_set id rec' m) = total_size m - rec_region_size rec + rec_region_size rec'.
Proof. intros Hm Hf. rewrite total_size_set, (total_size_erase m id rec) by done. lia. Qed.

Lemma total_size_add m id rec :
  om_ok m -> om_find id m = None ->
  total_size (om_set id rec m) = total_size m + rec_region_size rec.
Proof. intros Hm Hf. rewrite total_size_set, om_erase_absent by done. lia. Qed.

(** ** The accounts *)

Section books.
Context {B : Type} (be : IBackend B).
Implicit Types (g : MemoryGovernor B).

(** The records account for every live byte of the arena. *)
Definition balanced g : Prop := ra_live_bytes (gov_arena g) = total_size (gov_records g).

(** So do the counters of the domain. *)
Definition charged g : Prop :=
  current_committed (gov_domain g) = ra_live_bytes (gov_arena g)
  /\ current_resident (gov_domain g) = ra_live_bytes (gov_arena g).

(** A move that keeps the size. *)
Definition same_size (op : gov_op) g : Prop :=
  match op with GRelocate id _ _ ns => ns = region_size id g | _ => True end.

Lemma updated_balanced g id reg rec rec' g' :
  gov_inv g -> balanced g -> om_find id (gov_records g) = Some rec -> rec_updated g id reg rec' g' ->
  ra_live_bytes (gov_arena g')
    = ra_live_bytes (gov_arena g) - rec_region_size rec + rec_region_size rec' -> balanced g'.
Proof.
  intros Hi Hb Hf Hu Hl. unfold balanced in *. rewrite (ru_records _ _ _ _ _ Hu), Hl, Hb.
  by rewrite (total_size_update _ _ rec) by (done || apply (gi_registry _ Hi)).
Qed.

Lemma updated_charged g id reg rec' g' :
  charged g -> rec_updated g id reg rec' g' ->
  ra_live_bytes (gov_arena g') = ra_live_bytes (gov_arena g) -> charged g'.
Proof. intros [H1 H2] Hu Hl. destruct (ru_committed _ _ _ _ _ Hu) as [E1 E2]. split; congruence. Qed.

(** No addition to or subtraction from a counter wraps. *)
Lemma charge_exact g g' req r :
  gov_inv g -> gov_inv g' -> charged g -> after_request g req r g' -> charged g'.
Proof.
  intros Hi Hi' [H1 H2] Ha. pose proof (aq_live_bytes _ _ _ _ Ha) as Hl.
  pose proof (ra_wf_live_bytes _ (gi_arena _ Hi)) as B1.
  pose proof (ra_wf_live_bytes _ (gi_arena _ Hi')) as B2.
  pose proof (wf_cap _ (gi_arena _ Hi')) as C.
  assert (0 < ri_size r).
  { destruct (aq_sets _ _ _ _ Ha) as (Hwf & _ & Hh).
    destruct (proj2 (Hh (mk_id (gov_next_alloc_id g)) (ri_alloc_generation r) r)) as (Hin & _); [auto|].
    by destruct (ra_wf_bounds _ _ _ Hwf Hin) as (_ & _ & ? & _). }
  unfold charged. rewrite (aq_domain _ _ _ _ Ha). unfold charge; simpl. rewrite H1, H2, Hl.
  rewrite !add64_small by lia. done.
Qed.

Lemma discharge_exact g g' id rec :
  gov_inv g -> gov_inv g' -> om_find id (gov_records g) = Some rec -> charged g ->
  after_release g id rec g' -> charged g'.
Proof.
  intros Hi Hi' Hf [H1 H2] (_ & _ & _ & Hl & Ed & _).
  pose proof (ra_wf_live_bytes _ (gi_arena _ Hi)) as B1.
  pose proof (ra_wf_live_bytes _ (gi_arena _ Hi')) as B2.
  pose proof (wf_cap _ (gi_arena _ Hi)) as C.
  destruct (record_placed g id rec Hi Hf) as (_ & Hs & _).
  unfold charged. rewrite Ed. unfold discharge; simpl. rewrite H1, H2, Hl.
  unfold sub_sat. rewrite Z.geb_leb, (proj2 (Z.leb_le _ _)), sub64_small by lia. done.
Qed.

Lemma gov_step_books op g g' ok :
  gov_inv g -> gov_op_ok op g -> gov_step be op g = Some (g', ok) ->
  (balanced g -> balanced g') /\ (same_size op g -> charged g -> charged g').
Proof.
  intros Hi Hop E. destruct (gov_step_inv be op g Hi Hop) as (g0 & ok0 & E0 & Hi').
  rewrite E in E0. simplify_eq.
  destruct op as [|req|id gen wb sb|id gen|id gen|id gen no ns| |s]; simpl in Hop, E.
  - pose proof (initialize_cases be g Hi) as Hc.
    assert (Ers : current_resident (gov_domain (initialize be g).1) = current_resident (gov_domain g)).
    { unfold initialize. by repeat case_match. }
    destruct (initialize be g) as [g1 res]. simplify_eq/=.
    destruct Hc as (_ & Er & _ & Ea & _ & _ & Ec & _).
    unfold balanced, charged. rewrite Ea, Er, Ec, Ers. tauto.
  - destruct Hop as [Hw Hn]. destruct (request_cases g req Hi Hw Hn) as (g1 & res & E1 & _ & Hc).
    rewrite E1 in E. simplify_eq/=. destruct res as [h|f].
    + destruct Hc as (_ & r & Ha & _). split; [|intros _ Hch; by apply (charge_exact g _ req r)].
      unfold balanced. intros Hb. rewrite (aq_live_bytes _ _ _ _ Ha), (aq_records _ _ _ _ Ha), Hb.
      rewrite total_size_add; [done|apply (gi_registry _ Hi)|].
      apply (registry_fresh _ _ _ (gi_registry _ Hi)).
    + destruct Hc as [(n & -> & _) _]. by split.
  - unfold release_for_worker in E. pose proof (release_cases g id gen wb sb Hi) as Hc.
    destruct (release_locked id gen wb sb g) as [g1 res]. simplify_eq/=. destruct res as [rel|f].
    + destruct Hc as (rec & [Hf _] & _ & _ & _ & Ha). split; [|intros _ Hch; by apply (discharge_exact g _ id rec)].
      destruct Ha as (Er & _ & _ & Hl & _). unfold balanced. intros Hb.
      rewrite Er, Hl, Hb. rewrite (total_size_erase _ _ rec) by (done || apply (gi_registry _ Hi)). done.
    + destruct Hc as [-> _]. by split.
  - destruct (pin_locked_cases g id gen Hi) as (g1 & res & E1 & _ & Hc).
    rewrite E1 in E. simplify_eq/=. destruct res as [u|f].
    + destruct Hc as (rec & reg & [Hf _] & _ & _ & Hu & Hl).
      split; [intros Hb|intros _ Hch; exact (updated_charged g _ _ _ _ Hch Hu Hl)].
      apply (updated_balanced g id _ rec _ _ Hi Hb Hf Hu). rewrite Hl. simpl. lia.
    + destruct Hc as [-> _]. by split.
  - destruct (unpin_locked_cases g id gen Hi) as (g1 & res & E1 & _ & Hc).
    rewrite E1 in E. simplify_eq/=. destruct res as [u|f].
    + destruct Hc as (rec & reg & [Hf _] & _ & _ & _ & Hu & Hl).
      split; [intros Hb|intros _ Hch; exact (updated_charged g _ _ _ _ Hch Hu Hl)].
      apply (updated_balanced g id _ rec _ _ Hi Hb Hf Hu). rewrite Hl. simpl. lia.
    + destruct Hc as [-> _]. by split.
  - destruct Hop as (Hno & Hns & _). pose proof (apply_relocation_cases g id gen no ns Hi Hno Hns) as Hc.
    destruct (apply_relocation id gen no ns g) as [g1 res]. simplify_eq/=. destruct Hc as [_ Hc].
    destruct res as [h|f].
    + destruct Hc as (rec & reg & [Hf _] & _ & _ & _ & _ & Hu & Hl & _). split.
      * intros Hb. apply (updated_balanced g id _ rec _ _ Hi Hb Hf Hu). rewrite Hl. simpl. lia.
      * intros Hsz Hch. apply (updated_charged g _ _ _ _ Hch Hu). rewrite Hl, Hsz.
        unfold region_size. rewrite Hf. lia.
    + destruct Hc as [-> _]. by split.
  - simplify_eq/=. unfold balanced, charged; simpl. unfold ensure_summary. by case_match.
  - simplify_eq/=. unfold balanced, charged, RegionAllocator_new; simpl. by case_match.
Qed.

Lemma gov_reachable_balanced d g :
  0 < managed_capacity d < U64 -> gov_reachable be d g -> balanced g.
Proof.
  intros Hd Hr. induction Hr as [b|g op g' ok Hr IH Hop E].
  - unfold balanced, MemoryGovernor_new, RegionAllocator_new. cbn. by destruct (_ >? 0).
  - exact (proj1 (gov_step_books op g g' ok (gov_reachable_inv be d g Hd Hr) Hop E) IH).
Qed.

(** Executions in which every move keeps the size. *)
Inductive gov_kept (d : MemoryDomain) : MemoryGovernor B -> Prop :=
  | gk_new b : gov_kept d (MemoryGovernor_new d b)
  | gk_step g op g' ok :
      gov_kept d g -> gov_op_ok op g -> same_size op g -> gov_step be op g = Some (g', ok) ->
      gov_kept d g'.

Lemma gov_kept_reachable d g : gov_kept d g -> gov_reachable be d g.
Proof. induction 1; [apply gr_new|by eapply gr_step]. Qed.

Lemma gov_kept_charged d g :
  0 < managed_capacity d < U64 -> current_committed d = 0 -> current_resident d = 0 ->
  gov_kept d g -> charged g.
Proof.
  intros Hd Hc Hr Hk. induction Hk as [b|g op g' ok Hk IH Hop Hs E].
  - unfold charged, MemoryGovernor_new, RegionAllocator_new. cbn. by destruct (_ >? 0).
  - exact (proj2 (gov_step_books op g g' ok
             (gov_reachable_inv be d g Hd (gov_kept_reachable d g Hk)) Hop E) Hs IH).
Qed.

(** What may be reclaimed of a record. *)
Definition reclaimable_size (rec : AllocationRecord) : Z :=
  if negb (reclaim_pinned rec) && negb (reclaim_never rec) && negb (reclaim_active rec)
  then rec_region_size rec else 0.

End books.
