(* ===== verification/GovernorPolicy.v ===== *)
(** Lemmas on the governor's policies: the order of the reclaim candidates, what a
    compaction plan contains, and what a pin keeps. *)
From S2P Require Import Prelude Words Ordered Types Floats Region RegionInv RegionAlloc RegionFree.
From S2P Require Import RegionReloc RegionQuery RegionSpec Pressure Request Bytes Persist.
From S2P Require Import PersistInv Governor GovernorInv GovernorOps GovernorSpec GovernorProps.
Open Scope Z_scope.

(** ** Reclaim candidates *)

Lemma cand_le_spec a b :
  cand_le a b <->
  cand_pri a < cand_pri b
  \/ (cand_pri a = cand_pri b
      /\ (cand_size b < cand_size a
          \/ (cand_size a = cand_size b /\ id_value (cand_id a) <= id_value (cand_id b)))).
Proof.
  unfold cand_le, cand_lt. rewrite Z.gtb_ltb.
  destruct (Z.eqb_spec (cand_pri b) (cand_pri a)), (Z.eqb_spec (cand_size b) (cand_size a)); simpl;
    rewrite Z.ltb_ge; lia.
Qed.

#[export] Instance cand_le_total : Total cand_le.
Proof. intros a b. rewrite !cand_le_spec. lia. Qed.

#[export] Instance cand_le_trans : Transitive cand_le.
Proof. intros a b c. rewrite !cand_le_spec. lia. Qed.

(** What may be reclaimed, in words. *)
Record may_reclaim (rec : AllocationRecord) : Prop := {
  mr_unpinned : rec_pin_count rec <= 0;
  mr_movable : rec_movability rec <> Movability.PINNED /\ rec_movability rec <> Movability.NONMOVABLE;
  mr_class : rec_reclaimability rec <> Reclaimability.NEVER_RECLAIM
             /\ rec_reclaimability rec <> Reclaimability.UNKNOWN;
  mr_idle : rec_residency rec <> ResidencyState.ACTIVE;
  mr_backed : rec_reclaimability rec = Reclaimability.RECLAIM_IF_RELOADABLE
              \/ rec_reclaimability rec = Reclaimability.RECLAIM_IF_CHECKPOINTED ->
              rec_recoverable rec = true \/ rec_backing_ref rec <> ""%string;
}.

Lemma bool_decide_or (P Q : Prop) `{Decision P, Decision Q} :
  bool_decide P || bool_decide Q = false <-> ~ P /\ ~ Q.
Proof. rewrite orb_false_iff, !bool_decide_eq_false. done. Qed.

Lemma reclaim_eligible_spec rec : reclaim_eligible rec = true <-> may_reclaim rec.
Proof.
  unfold reclaim_eligible, reclaim_pinned, reclaim_never, reclaim_active,
    reclaimability_requires_backing.
  destruct (Z.gtb_spec (rec_pin_count rec) 0) as [Hp|Hp]; simpl.
  { split; [done|]. intros []. lia. }
  repeat case_bool_decide; simpl;
    destruct (rec_recoverable rec) eqn:Er; destruct (String.eqb_spec (rec_backing_ref rec) "");
    simpl; (split; [intros; try done; constructor; naive_solver|intros []; naive_solver]).
Qed.

(** The order of the candidates. *)
Definition reclaim_before (r1 r2 : AllocationRecord) : Prop :=
  let p r := reclaimability_priority (rec_reclaimability r) in
  p r1 < p r2
  \/ (p r1 = p r2
      /\ (rec_region_size r2 < rec_region_size r1
          \/ (rec_region_size r1 = rec_region_size r2 /\ id_value (rec_id r1) < id_value (rec_id r2)))).

Lemma cand_before r1 r2 :
  rec_id r1 <> rec_id r2 -> cand_le (cand_of r1) (cand_of r2) -> reclaim_before r1 r2.
Proof.
  rewrite cand_le_spec. unfold reclaim_before, cand_of; simpl. intros Hne Hc.
  assert (id_value (rec_id r1) <> id_value (rec_id r2)) by (intros E; by apply Hne, id_value_inj).
  lia.
Qed.

Lemma candidates_sorted recs :
  NoDup (rec_id <$> recs) -> StronglySorted cand_le (cand_of <$> recs) ->
  StronglySorted reclaim_before recs.
Proof.
  induction recs as [|r recs IH]; [constructor|]. rewrite !fmap_cons, NoDup_cons.
  intros [Hn Hd] Hs. apply StronglySorted_inv in Hs as [Hs Hf]. constructor; [auto|].
  apply Forall_forall. intros r' Hr'. apply cand_before.
  - intros E. apply Hn. rewrite E. by apply list_elem_of_fmap_2.
  - by apply (proj1 (Forall_forall _ _) Hf), list_elem_of_fmap_2.
Qed.

(** The records of a map filed under their ids have distinct ids. *)
Lemma om_values_ids (m : omap AllocationId AllocationRecord) :
  om_ok m -> (forall id rec, om_find id m = Some rec -> rec_id rec = id) ->
  rec_id <$> om_values m = m.*1 /\ NoDup (rec_id <$> om_values m).
Proof.
  intros Hok Hids. assert (E : rec_id <$> om_values m = m.*1).
  { unfold om_values. rewrite <- list_fmap_compose. apply list_fmap_ext. intros i [id rec] Hl. simpl.
    apply Hids, om_find_elem; [done|]. by eapply list_elem_of_lookup_2. }
  split; [done|]. rewrite E. clear E Hids. induction Hok as [|[k v] l Hs IH Hf]; [constructor|].
  rewrite fmap_cons. apply NoDup_cons. split; [|done].
  intros ([k' v'] & E & Hin)%list_elem_of_fmap. simpl in E. subst k'.
  pose proof (proj1 (Forall_forall _ _) Hf _ Hin) as Hlt. by apply klt_irrefl in Hlt.
Qed.

Lemma records_ids {B} (g : MemoryGovernor B) :
  gov_inv g -> NoDup (rec_id <$> om_values (gov_records g)).
Proof.
  intros Hi. pose proof (gi_registry _ Hi) as [Hok _ Hids _]. apply om_values_ids; [done|].
  intros id rec Hf. apply (Hids id rec). by left.
Qed.

Lemma reclaim_candidates_shape {B} (g : MemoryGovernor B) max :
  gov_inv g ->
  exists recs, recs ≡ₚ List.filter reclaim_eligible (om_values (gov_records g))
    /\ StronglySorted reclaim_before recs
    /\ reclaim_candidates max g = rec_id <$> take (Z.to_nat max) recs.
Proof.
  intros Hi. unfold reclaim_candidates. set (el := List.filter _ _).
  pose proof (merge_sort_Permutation cand_le (cand_of <$> el)) as Hp.
  destruct (Permutation_map_inv cand_of el Hp) as (recs & Er & Hperm).
  change (map cand_of recs) with (cand_of <$> recs) in Er. exists recs. split; [by symmetry|]. split.
  - apply candidates_sorted.
    + rewrite <- Hperm. pose proof (records_ids g Hi) as Hn. revert Hn.
      unfold el. generalize (om_values (gov_records g)) as l. induction l as [|r l IH]; [done|].
      rewrite fmap_cons, NoDup_cons. intros [Hr Hl]. simpl. destruct (reclaim_eligible r); [|auto].
      rewrite fmap_cons. apply NoDup_cons. split; [|auto].
      intros (r' & E & [Hin _]%list_elem_of_In%filter_In)%list_elem_of_fmap. apply Hr. rewrite E.
      by apply list_elem_of_fmap_2, list_elem_of_In.
    + rewrite <- Er. apply StronglySorted_merge_sort; apply _.
  - rewrite Er, <- fmap_take, <- list_fmap_compose. done.
Qed.

(** ** Compaction plans *)

(** What the guards of the inner loop leave of a target: where the region goes in it. *)
Definition goes_to (m f : RegionInfo) (nf : Z) : Prop :=
  nf = detail_align_up (ri_offset f) (ri_alignment m)
  /\ ri_size m <= ri_size f
  /\ exists front, front = (if nf >=? ri_offset f then sub64 nf (ri_offset f) else 0)
       /\ front <= ri_size f /\ ri_size m <= sub64 (ri_size f) front.

(** A plan built from these regions: nothing, or one move with its size. *)
Definition plan_from (lives frees : list RegionInfo) (st : PlanState) : Prop :=
  cp_steps st.2 = []
  \/ exists m f nf, m ∈ lives /\ f ∈ frees /\ compactable m = true /\ goes_to m f nf
       /\ cp_steps st.2 = [mk_step (ri_alloc_id m) (ri_alloc_generation m) (ri_offset m) (ri_size m)
                             nf (ri_size m) Movability.MOVABLE]
       /\ cp_bytes_moved st.2 = ri_size m.

Lemma try_target_from before lft rgt m f lives frees st :
  m ∈ lives -> f ∈ frees -> compactable m = true ->
  plan_from lives frees st -> plan_from lives frees (try_target before lft rgt m st f).
Proof.
  intros Hm Hf Hc Hst. unfold try_target.
  destruct (_ || _); [done|]. destruct (Z.ltb_spec (ri_size f) (ri_size m)) as [|Hs]; [done|].
  cbv zeta. set (nf := detail_align_up _ _).
  set (front := if nf >=? ri_offset f then _ else _).
  destruct (Z.gtb_spec front (ri_size f)) as [|Hfr]; [done|].
  destruct (Z.gtb_spec (ri_size m) (sub64 (ri_size f) front)) as [|Hsz]; [done|]. cbn [orb].
  destruct (f64_lt _ _); [|done]. right. exists m, f, nf. do 3 (split; [done|]).
  split; [split; [done|split; [done|by exists front]]|by split].
Qed.

(** An invariant of a loop that folds a step over a list. *)
Lemma fold_left_inv {S X} (I : S -> Prop) (step : S -> X -> S) l s :
  I s -> (forall s x, x ∈ l -> I s -> I (step s x)) -> I (fold_left step l s).
Proof.
  revert s. induction l as [|x l IH]; intros s Hs Hstep; [done|]. simpl. apply IH.
  - apply Hstep; [by left|done].
  - intros s' x' Hx. apply Hstep. by right.
Qed.

Lemma plan_search_from before lives frees : plan_from lives frees (plan_search before lives frees).
Proof.
  unfold plan_search. apply fold_left_inv; [by left|]. intros st m Hm Hst. unfold try_region.
  destruct (compactable m) eqn:Hc; simpl; [|done]. destruct (free_neighbours m frees) as [lft rgt].
  apply fold_left_inv; [done|]. intros st' f Hf. by apply try_target_from.
Qed.

Lemma snapshot_free_elem a r :
  ra_wf a -> r ∈ snapshot_free a -> (ri_offset r, r) ∈ ra_regions a /\ ri_live r = false.
Proof.
  intros Hwf. unfold snapshot_free, om_values. rewrite list_elem_of_In, filter_In, <- list_elem_of_In.
  rewrite list_elem_of_fmap. intros [([k r'] & -> & Hin) Hl]. simpl in *.
  destruct (ra_wf_bounds _ _ _ Hwf Hin) as (-> & _). split; [done|]. by destruct (ri_live r').
Qed.

(** No byte of a free region is owned. *)
Lemma free_region_unowned a f b :
  ra_wf a -> (ri_offset f, f) ∈ ra_regions a -> ri_live f = false ->
  ri_offset f <= b < ri_offset f + ri_size f -> owner_at (ra_regions a) b = None.
Proof.
  intros Hwf Hin Hl Hb.
  destruct (ra_wf_split a _ _ Hwf Hin) as (pre & post & -> & Tpre & Epre & _ & _ & _ & _ & Tpost & _).
  rewrite owner_at_app. rewrite (owner_at_outside 0 false pre) by (try done; right; lia).
  simpl. rewrite covers_free by done. eapply owner_at_outside; [exact Tpost|]. left. lia.
Qed.

Lemma free_region_target a m f nf :
  ra_wf a -> ra_capacity a <= 2 ^ 63 -> (ri_offset f, f) ∈ ra_regions a -> ri_live f = false ->
  is_pow2 (ri_alignment m) = true -> in_u64 (ri_alignment m) -> 0 < ri_size m -> goes_to m f nf ->
  in_u64 nf /\ target_ok a nf (ri_size m) (ri_alignment m).
Proof.
  intros Hwf Hcap Hin Hl Hp2 Hal Hsz (-> & Hs & front & -> & Hf1 & Hf2).
  destruct (ra_wf_bounds _ _ _ Hwf Hin) as (_ & H0 & Hfs & Hfe & _).
  rewrite align_up_agree in * by done.
  assert (Hoff : in_u64 (ri_offset f)) by (unfold in_u64, U64; lia).
  assert (Ha63 : ri_alignment m <= 2 ^ 63).
  { apply is_pow2_spec in Hp2 as (n & Hn & ->); [|done]. apply Z.pow_le_mono_r; lia. }
  destruct (ra_align_up_cases (ri_offset f) (ri_alignment m) Hoff Hal Hp2) as [[_ Hov]|(Hb & Hm & Hu & _)].
  { unfold U64 in Hov. lia. }
  set (nf := ra_align_up _ _) in *.
  destruct (Z.geb_spec nf (ri_offset f)) as [_|]; [|lia].
  rewrite (sub64_small nf) in * by (unfold U64 in *; lia).
  rewrite sub64_small in Hf2 by (unfold U64; lia).
  split; [unfold in_u64; lia|]. unfold target_ok. split_and!; try done; [lia|].
  intros b Hb'. apply (free_region_unowned a f); auto. lia.
Qed.

(** The steps of a plan on a consistent governor. *)
Lemma plan_step_shape {B} (g : MemoryGovernor B) st :
  gov_inv g -> managed_capacity (gov_domain g) <= 2 ^ 63 -> st ∈ cp_steps (plan_compaction g) ->
  exists rec, current g (cs_id st) (cs_generation st) rec
    /\ rec_pin_count rec = 0 /\ rec_movability rec = Movability.MOVABLE
    /\ rec_reclaimability rec <> Reclaimability.NEVER_RECLAIM
    /\ cs_old_offset st = rec_offset rec /\ cs_old_size st = rec_region_size rec
    /\ cs_new_size st = rec_region_size rec
    /\ in_u64 (cs_new_offset st)
    /\ target_ok (gov_arena g) (cs_new_offset st) (cs_new_size st) (rec_alignment rec).
Proof.
  intros Hi Hcap. unfold plan_compaction.
  pose proof (plan_search_from (largest_free_region (gov_arena g)) (snapshot_live (gov_arena g))
                (snapshot_free (gov_arena g))) as Hp.
  destruct (plan_search _ _ _) as [gain plan]. unfold plan_from in Hp. cbn [snd cp_steps] in *.
  destruct Hp as [->|(m & f & nf & Hm & Hf & Hc & Hgo & -> & _)]; [by intros ?%not_elem_of_nil|].
  intros ->%list_elem_of_singleton. cbn [cs_id cs_generation cs_old_offset cs_old_size cs_new_offset cs_new_size].
  pose proof (gi_arena _ Hi) as Hwf.
  apply snapshot_live_elem in Hm as [Hm Hl]; [|done]. apply snapshot_free_elem in Hf as [Hf Hfl]; [|done].
  assert (Hh : held (gov_arena g) (ri_alloc_id m) (ri_alloc_generation m) m) by done.
  destruct (held_current g _ _ m Hi Hh) as (rec & Hcur & Hbk).
  assert (Hmov : ri_movability m = Movability.MOVABLE
                 /\ ri_reclaimability m <> Reclaimability.NEVER_RECLAIM).
  { unfold compactable in Hc. rewrite !andb_true_iff, !negb_true_iff in Hc.
    destruct Hc as ((((_ & Hc1) & _) & _) & Hc2).
    by apply bool_decide_eq_true in Hc1; apply bool_decide_eq_false in Hc2. }
  destruct Hmov as [Hmov Hrec].
  destruct (ra_wf_bounds _ _ _ Hwf Hm) as (_ & _ & Hsz & _).
  destruct (bk_pow2 _ _ Hbk) as [Hp2 Hal]. pose proof (bk_alignment _ _ Hbk) as Ea.
  rewrite <- Ea in Hp2, Hal.
  destruct (free_region_target (gov_arena g) m f nf) as [Hnf Ht]; try done.
  { by rewrite (gi_capacity _ Hi). }
  exists rec. rewrite <- (bk_movability _ _ Hbk), <- (bk_reclaim _ _ Hbk), <- (bk_offset _ _ Hbk),
    <- (bk_size _ _ Hbk), <- Ea. split_and!; try done.
  pose proof (bk_pins _ _ Hbk). destruct (Z.eq_dec (rec_pin_count rec) 0); [done|].
  assert (rec_movability rec = Movability.PINNED) by (apply (bk_pinned _ _ Hbk); lia).
  rewrite (bk_movability _ _ Hbk) in Hmov. congruence.
Qed.

Lemma plan_step_words {B} (g : MemoryGovernor B) st :
  gov_inv g -> managed_capacity (gov_domain g) <= 2 ^ 63 -> st ∈ cp_steps (plan_compaction g) ->
  in_u64 (cs_new_offset st) /\ in_u64 (cs_new_size st).
Proof.
  intros Hi Hcap Hin.
  destruct (plan_step_shape g st Hi Hcap Hin) as (rec & _ & _ & _ & _ & _ & _ & _ & Hnf & (_ & H0 & _ & Hend & _)).
  split; [done|]. pose proof (wf_cap _ (gi_arena _ Hi)). unfold in_u64 in *. lia.
Qed.

(** ** What a pin keeps *)

Section pins.
Context {B : Type} (be : IBackend B).
Implicit Types (g : MemoryGovernor B).

Definition pinned g (id : AllocationId) (gen : AllocationGeneration) : Prop :=
  exists rec, current g id gen rec /\ 0 < rec_pin_count rec.

(** An operation that does not end the pin of [id]: it is no unpin of [id], no restore, and
    no pin of [id] that would overflow the count. *)
Definition keeps_pin (id : AllocationId) (op : gov_op) g : Prop :=
  match op with
  | GUnpin id' _ => id' <> id
  | GPin id' _ => id' = id ->
      forall rec, om_find id (gov_records g) = Some rec -> rec_pin_count rec + 1 < U32
  | GRestore _ => False
  | _ => True
  end.

(** Executions made of such operations. *)
Inductive pin_kept (id : AllocationId) g : MemoryGovernor B -> Prop :=
  | pin_kept_refl : pin_kept id g g
  | pin_kept_step g1 op g2 ok :
      pin_kept id g g1 -> gov_op_ok op g1 -> keeps_pin id op g1 ->
      gov_step be op g1 = Some (g2, ok) -> pin_kept id g g2.

Lemma pin_kept_inv id g g' : gov_inv g -> pin_kept id g g' -> gov_inv g'.
Proof.
  intros Hi Hk. induction Hk as [|g1 op g2 ok _ IH Hop _ E]; [done|].
  destruct (gov_step_inv be op g1 IH Hop) as (g3 & ok3 & E3 & Hi3). congruence.
Qed.

Lemma rec_updated_pinned g g' id gen id' reg rec' :
  pinned g id gen -> rec_updated g id' reg rec' g' ->
  (id' = id -> rec_generation rec' = gen /\ 0 < rec_pin_count rec') -> pinned g' id gen.
Proof.
  intros (rec & [Hf Hg] & Hp) Hu Hsame. unfold pinned, current. rewrite (ru_records _ _ _ _ _ Hu).
  destruct (decide (id' = id)) as [->|Hne].
  - exists rec'. rewrite om_find_set_eq. by destruct Hsame.
  - exists rec. by rewrite om_find_set_ne.
Qed.

Lemma pinned_same g g' id gen :
  gov_records g' = gov_records g -> pinned g id gen -> pinned g' id gen.
Proof. unfold pinned, current. by intros ->. Qed.

Lemma keeps_pin_step op g g' ok id gen :
  gov_inv g -> gov_op_ok op g -> keeps_pin id op g -> gov_step be op g = Some (g', ok) ->
  pinned g id gen -> pinned g' id gen.
Proof.
  intros Hi Hop Hk E Hpin. pose proof Hpin as (rec & Hcur & Hp). pose proof Hcur as [Hf Hg].
  destruct op as [|req|id' gen' wb sb|id' gen'|id' gen'|id' gen' no ns| |s]; simpl in Hop, Hk, E; try done.
  - pose proof (initialize_cases be g Hi) as Hc. destruct (initialize be g) as [g1 res].
    simplify_eq/=. by apply (pinned_same g); [apply Hc|].
  - destruct Hop as [Hw Hn]. destruct (request_cases g req Hi Hw Hn) as (g1 & res & E1 & _ & Hc).
    rewrite E1 in E. simplify_eq/=. destruct res as [h|f].
    + destruct Hc as (_ & r & Ha & _). exists rec. split; [|done]. split; [|done].
      rewrite (aq_records _ _ _ _ Ha), om_find_set_ne; [done|]. intros ->.
      destruct (registry_fresh _ _ _ (gi_registry _ Hi)). congruence.
    + destruct Hc as [(n & -> & _) _]. done.
  - unfold release_for_worker in E. pose proof (release_cases g id' gen' wb sb Hi) as Hc.
    destruct (release_locked id' gen' wb sb g) as [g1 res]. simplify_eq/=. destruct res as [rel|f].
    + destruct Hc as (rec' & [Hf' _] & _ & Hp' & _ & Ha & _). exists rec. split; [|done]. split; [|done].
      rewrite Ha, om_find_erase_ne; [done|]. intros ->. simplify_eq. lia.
    + by destruct Hc as [-> _].
  - destruct (pin_locked_cases g id' gen' Hi) as (g1 & res & E1 & _ & Hc).
    rewrite E1 in E. simplify_eq/=. destruct res as [u|f].
    + destruct Hc as (rec' & reg & [Hf' Hg'] & _ & Hbk & Hu & _). eapply rec_updated_pinned; [done|exact Hu|].
      intros ->. simplify_eq. split; [done|]. simpl. specialize (Hk eq_refl _ Hf).
      pose proof (bk_pins _ _ Hbk). unfold add32. rewrite Z.mod_small by lia. lia.
    + by destruct Hc as [-> _].
  - destruct (unpin_locked_cases g id' gen' Hi) as (g1 & res & E1 & _ & Hc).
    rewrite E1 in E. simplify_eq/=. destruct res as [u|f].
    + destruct Hc as (rec' & reg & _ & _ & _ & _ & Hu & _). by eapply rec_updated_pinned.
    + by destruct Hc as [-> _].
  - destruct Hop as (Hno & Hns & _). pose proof (apply_relocation_cases g id' gen' no ns Hi Hno Hns) as Hc.
    destruct (apply_relocation id' gen' no ns g) as [g1 res]. simplify_eq/=. destruct Hc as [_ Hc].
    destruct res as [h|f].
    + destruct Hc as (rec' & reg & [Hf' _] & _ & _ & Hp' & _ & Hu & _). eapply rec_updated_pinned; [done|exact Hu|].
      intros ->. simplify_eq. lia.
    + by destruct Hc as [-> _].
  - simplify_eq/=. done.
Qed.

Lemma pin_kept_pinned id gen g g' :
  gov_inv g -> pin_kept id g g' -> pinned g id gen -> pinned g' id gen.
Proof.
  intros Hi Hk Hp. induction Hk as [|g1 op g2 ok Hk IH Hop Hkp E]; [done|].
  eapply keeps_pin_step; [by eapply pin_kept_inv|done..].
Qed.

(** A granted pin whose count does not wrap. *)
Lemma pin_locked_pinned g g' id gen u :
  gov_inv g -> pin_locked id gen g = Some (g', Ok u) ->
  (forall rec, om_find id (gov_records g) = Some rec -> rec_pin_count rec + 1 < U32) ->
  gov_inv g' /\ pinned g' id gen.
Proof.
  intros Hi E Hlim. destruct (pin_locked_cases g id gen Hi) as (g1 & res & E1 & Hi1 & Hc).
  rewrite E in E1. injection E1 as <- <-. destruct Hc as (rec & reg & [Hf Hg] & _ & Hbk & Hu & _).
  split; [done|]. eexists. split.
  - split; [by rewrite (ru_records _ _ _ _ _ Hu), om_find_set_eq|done].
  - simpl. specialize (Hlim rec Hf). pose proof (bk_pins _ _ Hbk).
    unfold add32. rewrite Z.mod_small by lia. lia.
Qed.
End pins.
