(* ===== verification/PlanSpec.v ===== *)
(** Which move [MemoryGovernor::plan_compaction] finds: the candidates in plain arithmetic, and
    the search loops as a maximum over them. *)
From S2P Require Import Prelude Words Ordered Types Floats FloatsExact Region RegionInv RegionAlloc.
From S2P Require Import RegionFree RegionReloc RegionQuery RegionSpec Pressure Request Bytes Persist.
From S2P Require Import PersistInv Governor GovernorInv GovernorOps GovernorSpec GovernorPolicy.
Open Scope Z_scope.

(** ** Candidates *)

(** Where [m] would start in the free region [f]. *)
Definition target_offset (m f : RegionInfo) : Z := round_up (ri_offset f) (ri_alignment m).

(** [m] may be moved, and fits, aligned, into [f], which does not touch it. *)
Definition candidate (m f : RegionInfo) : Prop :=
  compactable m = true
  /\ ri_offset f + ri_size f <> ri_offset m /\ ri_offset f <> ri_offset m + ri_size m
  /\ target_offset m f + ri_size m <= ri_offset f + ri_size f.

#[export] Instance candidate_dec m f : Decision (candidate m f).
Proof. unfold candidate. apply _. Defined.

(** The largest of: the largest free region before, the gap that [m] leaves together with its
    free neighbours, and the two rests of [f]. *)
Definition estimate (before lft rgt : Z) (m f : RegionInfo) : Z :=
  Z.max (Z.max before (lft + ri_size m + rgt))
    (Z.max (target_offset m f - ri_offset f)
       (ri_offset f + ri_size f - (target_offset m f + ri_size m))).

Definition move_step (m f : RegionInfo) : CompactionStep :=
  mk_step (ri_alloc_id m) (ri_alloc_generation m) (ri_offset m) (ri_size m)
    (target_offset m f) (ri_size m) Movability.MOVABLE.

(** ** One iteration *)

(** A live and a free region inside a capacity below 2^53. *)
Record plan_pair (cap : Z) (m f : RegionInfo) : Prop := {
  pp_cap : cap < 2 ^ 53;
  pp_m : 0 <= ri_offset m /\ 0 < ri_size m /\ ri_offset m + ri_size m <= cap;
  pp_f : 0 <= ri_offset f /\ 0 < ri_size f /\ ri_offset f + ri_size f <= cap;
  pp_al : in_u64 (ri_alignment m);
  pp_pow2 : is_pow2 (ri_alignment m) = true;
}.

Section iteration.
Context (cap before lft rgt : Z) (m f : RegionInfo).
Context (Hp : plan_pair cap m f) (Hb : 0 <= before <= cap).
Context (Hl : 0 <= lft <= ri_offset m) (Hr : 0 <= rgt <= cap - ri_offset m - ri_size m).

Lemma target_offset_spec :
  detail_align_up (ri_offset f) (ri_alignment m) = target_offset m f
  /\ ri_offset f <= target_offset m f < ri_offset f + 2 ^ 63.
Proof.
  destruct Hp as [Hc _ Hf Hal Hp2]. rewrite align_up_agree by done.
  pose proof (is_pow2_pos _ Hal Hp2) as Hpos.
  assert (Ha : ri_alignment m <= 2 ^ 63).
  { apply is_pow2_spec in Hp2 as (n & Hn & ->); [|done]. apply Z.pow_le_mono_r; lia. }
  pose proof (round_up_bounds (ri_offset f) (ri_alignment m) Hpos) as Hu. unfold target_offset.
  rewrite ra_align_up_round by (try done; unfold in_u64, U64; lia).
  rewrite (proj2 (Z.ltb_lt _ _)) by (unfold U64; lia). split; [done|lia].
Qed.

Lemma estimate_bounds : candidate m f -> before <= estimate before lft rgt m f <= cap.
Proof.
  intros (_ & _ & _ & Hfit). destruct Hp as [Hc Hm Hf _ _]. pose proof target_offset_spec as [_ Ht].
  unfold estimate. lia.
Qed.

Lemma try_target_spec st :
  compactable m = true ->
  try_target before lft rgt m st f
  = if decide (candidate m f) then
      if f64_lt st.1 (f64_of_u64 (estimate before lft rgt m f - before)) then
        (f64_of_u64 (estimate before lft rgt m f - before),
         mk_plan [move_step m f] (ri_size m) before (estimate before lft rgt m f) (cp_rationale st.2))
      else st
    else st.
Proof.
  intros Hcm. destruct Hp as [Hc Hm Hf Hal Hp2]. pose proof target_offset_spec as [Ht Hb2]. unfold try_target.
  rewrite Ht. cbv zeta. set (nf := target_offset m f) in *.
  rewrite (add64_small (ri_offset f)), (add64_small (ri_offset m)), (add64_small lft) by (unfold U64; lia).
  rewrite add64_small by (unfold U64; lia).
  destruct (Z.eqb_spec (ri_offset f + ri_size f) (ri_offset m)) as [E1|E1].
  { rewrite decide_False; [done|]. unfold candidate. naive_solver. }
  destruct (Z.eqb_spec (ri_offset f) (ri_offset m + ri_size m)) as [E2|E2].
  { rewrite decide_False; [done|]. unfold candidate. naive_solver. }
  cbn [orb]. destruct (Z.geb_spec nf (ri_offset f)) as [_|]; [|lia].
  rewrite (sub64_small nf) by (unfold U64; lia).
  destruct (Z.ltb_spec (ri_size f) (ri_size m)) as [H1|H1].
  { rewrite decide_False; [done|]. unfold candidate. fold nf. lia. }
  destruct (Z.gtb_spec (nf - ri_offset f) (ri_size f)) as [H2|H2].
  { rewrite decide_False; [done|]. unfold candidate. fold nf. lia. }
  rewrite (sub64_small (ri_size f)) by (unfold U64; lia).
  destruct (Z.gtb_spec (ri_size m) (ri_size f - (nf - ri_offset f))) as [H3|H3]; cbn [orb].
  { rewrite decide_False; [done|]. unfold candidate. fold nf. lia. }
  assert (Hcand : candidate m f) by (unfold candidate; fold nf; split_and!; [done..|lia]).
  rewrite decide_True by done. rewrite sub64_small by (unfold U64; lia).
  pose proof (estimate_bounds Hcand) as He.
  match goal with |- context [f64_of_u64 ?x] =>
    replace x with (estimate before lft rgt m f) end.
  2: { unfold estimate. fold nf. destruct (Z.gtb_spec (ri_size f - (nf - ri_offset f) - ri_size m) 0);
       destruct (Z.gtb_spec (nf - ri_offset f) 0); lia. }
  rewrite f64_sub_int by lia. done.
Qed.
End iteration.

(** ** The loops *)

Section search.
Context (a : RegionAllocator).
Context (Hwf : ra_wf a) (Hcap : ra_capacity a < 2 ^ 53).
Context (Hal : forall m, m ∈ snapshot_live a -> in_u64 (ri_alignment m) /\ is_pow2 (ri_alignment m) = true).

Abbreviation lives := (snapshot_live a).
Abbreviation frees := (snapshot_free a).
Abbreviation before := (largest_free_region a).

Definition plan_estimate (m f : RegionInfo) : Z :=
  let '(lft, rgt) := free_neighbours m frees in estimate before lft rgt m f.

Lemma snapshot_pair m f : m ∈ lives -> f ∈ frees -> plan_pair (ra_capacity a) m f.
Proof.
  intros Hm Hf. destruct (Hal m Hm). apply snapshot_live_elem in Hm as [Hm _]; [|done].
  apply snapshot_free_elem in Hf as [Hf _]; [|done].
  destruct (ra_wf_bounds _ _ _ Hwf Hm) as (_ & ? & ? & ? & _).
  destruct (ra_wf_bounds _ _ _ Hwf Hf) as (_ & ? & ? & ? & _). constructor; done.
Qed.

(** Two regions are the same or apart. *)
Lemma tiled_apart lo pf l k1 r1 k2 r2 :
  tiled lo pf l -> (k1, r1) ∈ l -> (k2, r2) ∈ l ->
  (k1, r1) = (k2, r2) \/ k1 + ri_size r1 <= k2 \/ k2 + ri_size r2 <= k1.
Proof.
  revert lo pf. induction l as [|[k r] l IH]; intros lo pf; simpl; [by intros _ ?%not_elem_of_nil|].
  intros (-> & _ & Hs & _ & _ & Hl). rewrite !elem_of_cons. intros [E1|H1] [E2|H2].
  - left. congruence.
  - simplify_eq. right. left. destruct (tiled_bounds _ _ _ _ _ Hl H2). lia.
  - simplify_eq. right. right. destruct (tiled_bounds _ _ _ _ _ Hl H1). lia.
  - by eapply IH.
Qed.

Lemma regions_apart f g kf kg :
  (kf, f) ∈ ra_regions a -> (kg, g) ∈ ra_regions a ->
  (kf, f) = (kg, g) \/ kf + ri_size f <= kg \/ kg + ri_size g <= kf.
Proof. apply (tiled_apart 0 false), wf_tiled, Hwf. Qed.

Lemma live_free_apart m f :
  m ∈ lives -> f ∈ frees ->
  ri_offset m + ri_size m <= ri_offset f \/ ri_offset f + ri_size f <= ri_offset m.
Proof.
  intros [Hm Hl]%snapshot_live_elem [Hf Hfl]%snapshot_free_elem; [|done..].
  destruct (regions_apart _ _ _ _ Hm Hf) as [[= _ ->]|?]; [congruence|done].
Qed.

(** The free neighbours lie beside [m]. *)
Lemma neighbours_bounds m :
  m ∈ lives ->
  let '(lft, rgt) := free_neighbours m frees in
  0 <= lft <= ri_offset m /\ 0 <= rgt <= ra_capacity a - ri_offset m - ri_size m.
Proof.
  intros Hm. apply snapshot_live_elem in Hm as [Hm _]; [|done].
  destruct (ra_wf_bounds _ _ _ Hwf Hm) as (_ & Hm0 & Hms & Hme & _). unfold free_neighbours.
  apply (fold_left_inv (fun p : Z * Z => let '(lft, rgt) := p in
    0 <= lft <= ri_offset m /\ 0 <= rgt <= ra_capacity a - ri_offset m - ri_size m)); [lia|].
  intros [lft rgt] f Hf [Hl Hr]. apply snapshot_free_elem in Hf as [Hf _]; [|done].
  destruct (ra_wf_bounds _ _ _ Hwf Hf) as (_ & Hf0 & Hfs & Hfe & _).
  rewrite !add64_small by (unfold U64; lia).
  destruct (Z.eqb_spec (ri_offset f + ri_size f) (ri_offset m));
    destruct (Z.eqb_spec (ri_offset f) (ri_offset m + ri_size m)); lia.
Qed.

(** The loop variables are those of a best candidate among the pairs looked at. *)
Definition best_of (seen : RegionInfo -> RegionInfo -> Prop) (st : PlanState) : Prop :=
  (st.1 = d_val d_minus_one /\ cp_steps st.2 = [] /\ cp_largest_free_after st.2 = before
   /\ forall m f, seen m f -> ~ candidate m f)
  \/ exists m f, seen m f /\ candidate m f /\ st.1 = f64_of_u64 (plan_estimate m f - before)
       /\ cp_steps st.2 = [move_step m f] /\ cp_largest_free_after st.2 = plan_estimate m f
       /\ before <= plan_estimate m f <= ra_capacity a
       /\ forall m' f', seen m' f' -> candidate m' f' -> plan_estimate m' f' <= plan_estimate m f.

Lemma best_of_iff s1 s2 st : (forall m f, s1 m f <-> s2 m f) -> best_of s1 st -> best_of s2 st.
Proof.
  intros E [(H1 & H2 & H3 & H4)|(m & f & H1 & H2 & H3 & H4 & H5 & H6 & H7)]; [left|right].
  - split_and!; try done. intros m f Hs%E. auto.
  - exists m, f. split; [by apply E|]. do 5 (split; [done|]). intros m' f' Hs%E. auto.
Qed.

(** Pairs that are no candidates change nothing. *)
Lemma best_of_none seen none st :
  (forall m f, none m f -> ~ candidate m f) -> best_of seen st -> best_of (fun m f => seen m f \/ none m f) st.
Proof.
  intros Hn [(H1 & H2 & H3 & H4)|(m & f & H1 & H2 & H3 & H4 & H5 & H6 & H7)]; [left|right].
  - split_and!; try done. intros m f [Hs|Hs]; auto.
  - exists m, f. split; [by left|]. do 5 (split; [done|]). intros m' f' [Hs|Hs] Hc; [auto|].
    by apply Hn in Hc.
Qed.

Lemma before_bounds : 0 <= before <= ra_capacity a.
Proof.
  pose proof (largest_free_le_free a Hwf) as Hb. pose proof (ra_wf_live_bytes a Hwf).
  unfold free_bytes in Hb. rewrite sub64_small in Hb by (unfold U64; lia). lia.
Qed.

Lemma try_target_best seen m f st :
  m ∈ lives -> f ∈ frees -> compactable m = true -> best_of seen st ->
  best_of (fun m' f' => seen m' f' \/ (m' = m /\ f' = f))
    (let '(lft, rgt) := free_neighbours m frees in try_target before lft rgt m st f).
Proof.
  intros Hm Hf Hc Hb. pose proof (neighbours_bounds m Hm) as Hn. pose proof (snapshot_pair m f Hm Hf) as Hp.
  pose proof before_bounds as Hbb. assert (He : candidate m f -> before <= plan_estimate m f <= ra_capacity a).
  { unfold plan_estimate. destruct (free_neighbours m frees) as [lft rgt], Hn. by apply estimate_bounds. }
  assert (E : (let '(lft, rgt) := free_neighbours m frees in try_target before lft rgt m st f)
    = if decide (candidate m f) then
        if f64_lt st.1 (f64_of_u64 (plan_estimate m f - before)) then
          (f64_of_u64 (plan_estimate m f - before),
           mk_plan [move_step m f] (ri_size m) before (plan_estimate m f) (cp_rationale st.2))
        else st
      else st).
  { unfold plan_estimate. destruct (free_neighbours m frees) as [lft rgt], Hn.
    by apply (try_target_spec (ra_capacity a)). }
  rewrite E. clear E Hn. destruct (decide (candidate m f)) as [Hcand|Hno].
  2: { by apply best_of_none; [intros ?? [-> ->]|]. }
  specialize (He Hcand). destruct Hb as [(H1 & H2 & H3 & H4)|(m0 & f0 & H1 & H2 & H3 & H4 & H5 & H6 & H7)].
  - rewrite H1. unfold f64_lt. rewrite f64_minus_one_lt by lia. right. exists m, f.
    split; [by right|]. do 5 (split; [done|]). intros m' f' [Hs|[-> ->]] Hc'; [by apply H4 in Hc'|lia].
  - rewrite H3. unfold f64_lt. rewrite f64_lt_int by lia.
    destruct (Z.ltb_spec (plan_estimate m0 f0 - before) (plan_estimate m f - before)) as [Hlt|Hge].
    + right. exists m, f. split; [by right|]. do 5 (split; [done|]).
      intros m' f' [Hs|[-> ->]] Hc'; [specialize (H7 _ _ Hs Hc'); lia|lia].
    + right. exists m0, f0. split; [by left|]. do 5 (split; [done|]).
      intros m' f' [Hs|[-> ->]] Hc'; [auto|lia].
Qed.

Lemma inner_best seen m fs st :
  m ∈ lives -> (forall f, f ∈ fs -> f ∈ frees) -> compactable m = true -> best_of seen st ->
  best_of (fun m' f' => seen m' f' \/ (m' = m /\ f' ∈ fs))
    (let '(lft, rgt) := free_neighbours m frees in fold_left (try_target before lft rgt m) fs st).
Proof.
  intros Hm Hfs Hc. revert seen st. induction fs as [|f fs IH]; intros seen st Hb.
  - destruct (free_neighbours m frees) as [lft rgt]. eapply best_of_iff; [|exact Hb]. set_solver.
  - pose proof (try_target_best seen m f st Hm (Hfs f ltac:(by left)) Hc Hb) as H1.
    specialize (IH (fun g Hg => Hfs g (list_elem_of_further _ _ _ Hg)) _ _ H1).
    destruct (free_neighbours m frees) as [lft rgt]. simpl. eapply best_of_iff; [|exact IH].
    intros m' f'. rewrite elem_of_cons. naive_solver.
Qed.

Lemma outer_best seen ms st :
  (forall m, m ∈ ms -> m ∈ lives) -> best_of seen st ->
  best_of (fun m f => seen m f \/ (m ∈ ms /\ f ∈ frees)) (fold_left (try_region before frees) ms st).
Proof.
  revert seen st. induction ms as [|m ms IH]; intros seen st Hms Hb.
  - eapply best_of_iff; [|exact Hb]. set_solver.
  - simpl. assert (H1 : best_of (fun m' f' => seen m' f' \/ (m' = m /\ f' ∈ frees)) (try_region before frees st m)).
    { unfold try_region. destruct (compactable m) eqn:Hc; cbn [negb].
      - apply inner_best; [apply Hms; by left|done|done|done].
      - apply best_of_none; [|done]. intros ? ? [-> _] [Hc' _]. congruence. }
    specialize (IH _ _ (fun g Hg => Hms g (list_elem_of_further _ _ _ Hg)) H1).
    eapply best_of_iff; [|exact IH]. intros m' f'. rewrite elem_of_cons. naive_solver.
Qed.

Lemma plan_search_best :
  best_of (fun m f => m ∈ lives /\ f ∈ frees) (plan_search before lives frees).
Proof.
  unfold plan_search. eapply best_of_iff; [|apply (outer_best (fun _ _ => False)); [done|]].
  - naive_solver.
  - left. by split_and!.
Qed.

(** ** What a move really gives *)

Lemma free_unowned f b :
  f ∈ frees -> ri_offset f <= b < ri_offset f + ri_size f -> owner_at (ra_regions a) b = None.
Proof. intros [Hin Hl]%snapshot_free_elem; [|done]. by apply free_region_unowned. Qed.

(** A run of unowned bytes lies in a free region. *)
Lemma run_in_free o n :
  0 <= o -> 0 < n -> o + n <= ra_capacity a ->
  (forall b, o <= b < o + n -> owner_at (ra_regions a) b = None) ->
  exists f, f ∈ frees /\ ri_offset f <= o /\ o + n <= ri_offset f + ri_size f.
Proof.
  intros Ho Hn Hc Hb.
  destruct (free_run_in_region 0 false (ra_regions a) o n) as (pre & k & f & post & E & Hl & Hk & He);
    [apply (wf_tiled _ Hwf)|done|done|by rewrite (wf_end _ Hwf)|done|].
  assert (Hin : (k, f) ∈ ra_regions a) by (rewrite E; set_solver).
  destruct (ra_wf_bounds _ _ _ Hwf Hin) as (Ek & _). exists f. rewrite Ek. split; [|done].
  unfold snapshot_free, om_values. rewrite list_elem_of_In, filter_In, <- list_elem_of_In, Hl. split; [|done].
  apply list_elem_of_fmap. by exists (k, f).
Qed.

Lemma free_apart f g :
  f ∈ frees -> g ∈ frees ->
  f = g \/ ri_offset f + ri_size f <= ri_offset g \/ ri_offset g + ri_size g <= ri_offset f.
Proof.
  intros [Hf _]%snapshot_free_elem [Hg _]%snapshot_free_elem; [|done..].
  destruct (regions_apart _ _ _ _ Hf Hg) as [[= _ ->]|[?|?]]; auto.
Qed.

(** A free region beside [m] is the neighbour that was found. *)
Lemma neighbours_exact m f :
  m ∈ lives -> f ∈ frees ->
  (ri_offset f + ri_size f = ri_offset m -> (free_neighbours m frees).1 = ri_size f)
  /\ (ri_offset f = ri_offset m + ri_size m -> (free_neighbours m frees).2 = ri_size f).
Proof.
  intros Hm Hf. pose proof (fun g Hg => snapshot_pair m g Hm Hg) as Hp.
  assert (Hgen : forall l acc, (forall g, g ∈ l -> g ∈ frees) ->
    let r := fold_left (fun '(lft, rgt) g =>
       (if add64 (ri_offset g) (ri_size g) =? ri_offset m then ri_size g else lft,
        if ri_offset g =? add64 (ri_offset m) (ri_size m) then ri_size g else rgt)) l acc in
    (ri_offset f + ri_size f = ri_offset m -> f ∈ l \/ acc.1 = ri_size f -> r.1 = ri_size f)
    /\ (ri_offset f = ri_offset m + ri_size m -> f ∈ l \/ acc.2 = ri_size f -> r.2 = ri_size f)).
  { induction l as [|g l IH]; intros [lft rgt] Hl; [set_solver|]. cbv zeta. cbn [fold_left].
    match goal with |- context [fold_left _ l ?acc] =>
      destruct (IH acc (fun h Hh => Hl h (list_elem_of_further _ _ _ Hh))) as [H1 H2] end.
    assert (Hg : g ∈ frees) by (apply Hl; by left). pose proof (Hp g Hg) as [Hc Hm0 Hg0 _ _].
    pose proof (free_apart f g Hf Hg) as Ha. pose proof (Hp f Hf) as [_ _ Hf0 _ _].
    split; intros E Hin; [apply (H1 E)|apply (H2 E)]; cbn [fst snd] in *; rewrite !add64_small by (unfold U64; lia).
    - rewrite elem_of_cons in Hin. destruct Hin as [[->|?]|?]; [|by left|].
      + right. by rewrite (proj2 (Z.eqb_eq _ _) E).
      + right. destruct (Z.eqb_spec (ri_offset g + ri_size g) (ri_offset m)); [|done].
        destruct Ha as [->|Ha]; [done|lia].
    - rewrite elem_of_cons in Hin. destruct Hin as [[->|?]|?]; [|by left|].
      + right. by rewrite (proj2 (Z.eqb_eq _ _) E).
      + right. destruct (Z.eqb_spec (ri_offset g) (ri_offset m + ri_size m)); [|done].
        destruct Ha as [->|Ha]; [done|lia]. }
  destruct (Hgen frees (0, 0) (fun g Hg => Hg)) as [H1 H2]. split; intros E; [apply H1|apply H2]; auto.
Qed.

(** The bytes of the neighbours that were found are free, and beside the target's. *)
Lemma neighbours_unowned m f b :
  m ∈ lives -> f ∈ frees -> candidate m f ->
  (let '(lft, rgt) := free_neighbours m frees in
   ri_offset m - lft <= b < ri_offset m \/ ri_offset m + ri_size m <= b < ri_offset m + ri_size m + rgt) ->
  owner_at (ra_regions a) b = None /\ ~ (ri_offset f <= b < ri_offset f + ri_size f).
Proof.
  intros Hm Hf (_ & Hc1 & Hc2 & _). pose proof (fun g Hg => snapshot_pair m g Hm Hg) as Hp.
  assert (Hn : let '(lft, rgt) := free_neighbours m frees in
    (lft = 0 \/ exists g, g ∈ frees /\ ri_offset g + ri_size g = ri_offset m /\ lft = ri_size g)
    /\ (rgt = 0 \/ exists g, g ∈ frees /\ ri_offset g = ri_offset m + ri_size m /\ rgt = ri_size g)).
  { unfold free_neighbours. apply (fold_left_inv (fun p : Z * Z => let '(lft, rgt) := p in
      (lft = 0 \/ exists g, g ∈ frees /\ ri_offset g + ri_size g = ri_offset m /\ lft = ri_size g)
      /\ (rgt = 0 \/ exists g, g ∈ frees /\ ri_offset g = ri_offset m + ri_size m /\ rgt = ri_size g)));
      [by split; left|].
    intros [lft rgt] g Hg [Hl Hr]. pose proof (Hp g Hg) as [? ? ? _ _].
    rewrite !add64_small by (unfold U64; lia). split.
    - destruct (Z.eqb_spec (ri_offset g + ri_size g) (ri_offset m)); [|done]. right. by exists g.
    - destruct (Z.eqb_spec (ri_offset g) (ri_offset m + ri_size m)); [|done]. right. by exists g. }
  assert (Hg : forall g, g ∈ frees -> ri_offset g <= b < ri_offset g + ri_size g ->
    ri_offset g + ri_size g = ri_offset m \/ ri_offset g = ri_offset m + ri_size m ->
    owner_at (ra_regions a) b = None /\ ~ (ri_offset f <= b < ri_offset f + ri_size f)).
  { intros g Hg Hb Hs. split; [by apply (free_unowned g)|].
    destruct (free_apart f g Hf Hg) as [<-|?]; lia. }
  destruct (free_neighbours m frees) as [lft rgt]. destruct Hn as [Hl Hr].
  intros [Hb|Hb].
  - destruct Hl as [->|(g & Hgf & E & ->)]; [lia|]. apply (Hg g Hgf); lia.
  - destruct Hr as [->|(g & Hgf & E & ->)]; [lia|]. apply (Hg g Hgf); lia.
Qed.

Section moved.
Context (m f : RegionInfo) (a' : RegionAllocator).
Context (Hm : m ∈ lives) (Hf : f ∈ frees) (Hcand : candidate m f).
Context (Hwf' : ra_wf a') (Hcap' : ra_capacity a' = ra_capacity a).
Context (Hown : forall b, owner_at (ra_regions a') b = None <->
  ~ (target_offset m f <= b < target_offset m f + ri_size m)
  /\ (ri_offset m <= b < ri_offset m + ri_size m \/ owner_at (ra_regions a) b = None)).

(** A run of [n] unowned bytes after the move. *)
Lemma moved_run_bound o n :
  0 <= o -> 0 < n -> o + n <= ra_capacity a ->
  (forall b, o <= b < o + n -> owner_at (ra_regions a') b = None) -> n <= plan_estimate m f.
Proof.
  intros Ho Hn Hc Hb. pose proof (neighbours_bounds m Hm) as Hnb.
  pose proof (snapshot_pair m f Hm Hf) as [_ Hm0 Hf0 _ _].
  assert (Hu : forall b, o <= b < o + n -> ri_offset m <= b < ri_offset m + ri_size m \/ owner_at (ra_regions a) b = None)
    by (intros b Hbb; by apply Hown, Hb).
  destruct (decide (o + n <= ri_offset m \/ ri_offset m + ri_size m <= o)) as [Hout|Hin].
  { assert (n <= before).
    { apply largest_free_run; [done|done|]. exists o. split; [done|]. split; [done|].
      intros b Hbb. destruct (Hu b Hbb); [lia|done]. }
    unfold plan_estimate, estimate. destruct (free_neighbours m frees). lia. }
  assert (Hleft : ri_offset m - o <= (free_neighbours m frees).1).
  { destruct (Z.le_gt_cases (ri_offset m) o); [destruct (free_neighbours m frees), Hnb; simpl in *; lia|].
    destruct (run_in_free o (ri_offset m - o)) as (g & Hg & Hgo & Hge); [lia..| |].
    { intros b Hbb. destruct (Hu b ltac:(lia)); [lia|done]. }
    rewrite (proj1 (neighbours_exact m g Hm Hg)); [lia|].
    destruct (live_free_apart m g Hm Hg); lia. }
  assert (Hright : o + n - (ri_offset m + ri_size m) <= (free_neighbours m frees).2).
  { destruct (Z.le_gt_cases (o + n) (ri_offset m + ri_size m)); [destruct (free_neighbours m frees), Hnb; simpl in *; lia|].
    destruct (run_in_free (ri_offset m + ri_size m) (o + n - (ri_offset m + ri_size m))) as (g & Hg & Hgo & Hge); [lia..| |].
    { intros b Hbb. destruct (Hu b ltac:(lia)); [lia|done]. }
    rewrite (proj2 (neighbours_exact m g Hm Hg)); [lia|].
    destruct (live_free_apart m g Hm Hg); lia. }
  unfold plan_estimate, estimate. destruct (free_neighbours m frees). simpl in *. lia.
Qed.

(** The three runs that the move leaves. *)
Lemma moved_runs n :
  0 < n ->
  n = target_offset m f - ri_offset f
  \/ n = ri_offset f + ri_size f - (target_offset m f + ri_size m)
  \/ n = (let '(lft, rgt) := free_neighbours m frees in lft + ri_size m + rgt) ->
  n <= largest_free_region a'.
Proof.
  intros Hn Hcase. pose proof (neighbours_bounds m Hm) as Hnb.
  pose proof (snapshot_pair m f Hm Hf) as Hpair. pose proof Hpair as [_ Hm0 Hf0 _ _].
  pose proof (target_offset_spec _ _ _ Hpair) as [_ Ht]. pose proof Hcand as (_ & _ & _ & Hfit).
  apply largest_free_run; [done|done|]. rewrite Hcap'. destruct Hcase as [->|[->| ->]].
  - exists (ri_offset f). split; [lia|]. split; [lia|]. intros b Hb. apply Hown. split; [lia|].
    right. apply (free_unowned f); [done|lia].
  - exists (target_offset m f + ri_size m). split; [lia|]. split; [lia|]. intros b Hb. apply Hown. split; [lia|].
    right. apply (free_unowned f); [done|lia].
  - pose proof (fun b => neighbours_unowned m f b Hm Hf Hcand) as Hu.
    destruct (free_neighbours m frees) as [lft rgt]. exists (ri_offset m - lft). split; [lia|]. split; [lia|].
    intros b Hb. apply Hown. destruct (live_free_apart m f Hm Hf) as [Ha|Ha];
      destruct (decide (ri_offset m <= b < ri_offset m + ri_size m)) as [Hin|Hout];
      try (split; [lia|by left]); destruct (Hu b ltac:(lia)) as [H1 H2]; (split; [lia|by right]).
Qed.

(** What is promised is what is got, unless nothing was to be gained. *)
Lemma moved_largest :
  largest_free_region a' <= plan_estimate m f
  /\ (before < plan_estimate m f -> largest_free_region a' = plan_estimate m f).
Proof.
  assert (Hle : largest_free_region a' <= plan_estimate m f).
  { destruct (Z.le_gt_cases (largest_free_region a') 0) as [|Hpos].
    - pose proof before_bounds. unfold plan_estimate, estimate. destruct (free_neighbours m frees). lia.
    - destruct (proj1 (largest_free_run a' _ Hwf' Hpos) (Z.le_refl _)) as (o & Ho & Hc & Hb).
      apply (moved_run_bound o); [done|done|by rewrite <- Hcap'|done]. }
  split; [done|]. intros Hgain. apply Z.le_antisymm; [done|]. apply moved_runs.
  - pose proof before_bounds. lia.
  - unfold plan_estimate, estimate in *. destruct (free_neighbours m frees). lia.
Qed.
End moved.
End search.
