(* ===== verification/GovernorLaws.v ===== *)
(** The governor's accounts and policies: what the byte counters say, what is offered for
    reclaim and in which order, that compaction plans can be carried out, and what a pin
    protects. *)
From S2P Require Import Prelude Words Ordered Types Floats Region RegionInv RegionAlloc RegionFree.
From S2P Require Import RegionReloc RegionQuery RegionSpec Pressure Request Bytes Persist PersistInv.
From S2P Require Import Governor GovernorInv GovernorOps GovernorSpec GovernorProps GovernorBooks.
From S2P Require Import GovernorPolicy.
Open Scope Z_scope.

(** ** Accounts *)

Lemma reclaimable_sum {B} (g : MemoryGovernor B) :
  gov_inv g -> balanced g ->
  reclaimable_bytes_locked g = zsum reclaimable_size (om_values (gov_records g))
  /\ 0 <= reclaimable_bytes_locked g <= total_size (gov_records g).
Proof.
  intros Hi Hbal. set (l := om_values (gov_records g)).
  assert (E : reclaimable_bytes_locked g = zsum reclaimable_size l mod U64).
  { exact (fold_add64 (fun rec => negb (reclaim_pinned rec) && negb (reclaim_never rec)
             && negb (reclaim_active rec)) rec_region_size l 0). }
  rewrite E.
  assert (Hl : forall rec, rec ∈ l -> 0 <= reclaimable_size rec <= rec_region_size rec).
  { intros rec ([id rec'] & -> & Hin)%list_elem_of_fmap. simpl.
    apply om_find_elem in Hin; [|apply (gi_registry _ Hi)].
    destruct (record_placed g id rec' Hi Hin) as (_ & ? & _). unfold reclaimable_size.
    destruct (_ && _); lia. }
  assert (Hb : 0 <= zsum reclaimable_size l <= zsum rec_region_size l).
  { clear E. clearbody l. induction l as [|r l IH]; [done|]. rewrite !zsum_cons.
    pose proof (Hl r ltac:(left)). assert (0 <= zsum reclaimable_size l <= zsum rec_region_size l).
    { apply IH. intros. apply Hl. by right. } lia. }
  assert (Ht : zsum rec_region_size l = total_size (gov_records g)).
  { unfold l, total_size, om_values. generalize (gov_records g) as m.
    induction m as [|kv m IH]; [done|]. rewrite fmap_cons, !zsum_cons, IH. done. }
  pose proof (ra_wf_live_bytes _ (gi_arena _ Hi)) as Hlb. pose proof (wf_cap _ (gi_arena _ Hi)).
  rewrite Hbal in Hlb. rewrite Z.mod_small by lia. split; [done|lia].
Qed.

(** C15: the byte counters tell the truth.  In every reachable state the arena's
    live bytes are the sum of the record sizes, within the governed capacity, and the free
    bytes are the exact rest; the movable and pinned bytes and the reclaimable bytes are
    parts of that sum, computed without wrap-around.  If the counters of the domain start
    at zero and every move keeps the size, [current_committed] and [current_resident]
    are that sum too. *)
Theorem books_balanced {B} (be : IBackend B) d g :
  0 < managed_capacity d < U64 -> gov_reachable be d g ->
  let total := total_size (gov_records g) in
  ra_live_bytes (gov_arena g) = total
  /\ 0 <= total <= managed_capacity (gov_domain g)
  /\ free_bytes (gov_arena g) = managed_capacity (gov_domain g) - total
  /\ movable_bytes (gov_arena g) + pinned_bytes (gov_arena g) <= total
  /\ reclaimable_bytes_locked g = zsum reclaimable_size (om_values (gov_records g))
  /\ reclaimable_bytes_locked g <= total
  /\ (gov_kept be d g -> current_committed d = 0 -> current_resident d = 0 ->
      current_committed (gov_domain g) = total /\ current_resident (gov_domain g) = total).
Proof.
  intros Hd Hr total. pose proof (gov_reachable_inv be d g Hd Hr) as Hi.
  pose proof (gov_reachable_balanced be d g Hd Hr) as Hb. unfold balanced in Hb. fold total in Hb.
  pose proof (ra_wf_live_bytes _ (gi_arena _ Hi)) as Hlb.
  pose proof (ra_wf_free_bytes _ (gi_arena _ Hi)) as Hfb.
  pose proof (movable_pinned_le _ (gi_arena _ Hi)) as Hmp.
  destruct (reclaimable_sum g Hi Hb) as [Er Hle]. rewrite (gi_capacity _ Hi) in Hlb, Hfb.
  fold total in Hle. split_and!; try done; try lia.
  intros Hk H1 H2. destruct (gov_kept_charged be d g Hd H1 H2 Hk) as [E1 E2]. by rewrite E1, E2.
Qed.

Lemma books_balanced_witness :
  free_bytes (gov_arena gov3) = 4096 - total_size (gov_records gov3)
  /\ total_size (gov_records gov3) = 384.
Proof.
  split; [|vm_compute; reflexivity].
  apply (books_balanced demo_backend gov_domain0 gov3 gov_domain0_ok gov3_reachable).
Defined.

(** ** Reclaim candidates *)

(** C14: what is offered for reclaim, and in which order.  The candidates
    are the first [max] of the records that may be reclaimed at all (not pinned, not
    NONMOVABLE, not active, reclaim not forbidden or unknown, and backed when their class
    needs a backing), ordered by the priority of their class, then the larger first, then
    by id; none is left out for one that comes later in this order. *)
Theorem reclaim_candidates_spec {B} (g : MemoryGovernor B) max :
  gov_inv g ->
  exists recs, (forall rec, rec ∈ recs <-> rec ∈ allocations g /\ may_reclaim rec)
    /\ NoDup recs /\ StronglySorted reclaim_before recs
    /\ reclaim_candidates max g = rec_id <$> take (Z.to_nat max) recs.
Proof.
  intros Hi. destruct (reclaim_candidates_shape g max Hi) as (recs & Hp & Hs & E).
  exists recs. split_and!; [| |done|done].
  - intros rec. rewrite Hp, list_elem_of_In, filter_In, <- list_elem_of_In, reclaim_eligible_spec. done.
  - clear Hp E. induction Hs as [|r recs Hs IH Hf]; [constructor|]. apply NoDup_cons. split; [|done].
    intros Hin. pose proof (proj1 (Forall_forall _ _) Hf r Hin) as Hlt. unfold reclaim_before in Hlt. lia.
Qed.

Lemma reclaim_candidates_spec_witness :
  exists recs, (forall rec, rec ∈ recs <-> rec ∈ allocations gov3 /\ may_reclaim rec)
    /\ NoDup recs /\ StronglySorted reclaim_before recs
    /\ reclaim_candidates 5 gov3 = rec_id <$> take 5 recs.
Proof. exact (reclaim_candidates_spec gov3 5 gov3_inv). Defined.

(** The larger of the two allocations comes first. *)
Example candidates_of_gov3 : reclaim_candidates 5 gov3 = [mk_id 2; mk_id 1].
Proof. vm_compute. reflexivity. Qed.

(** ** Compaction *)

(** A plan can be carried out.  On capacities up to 2^63, every step of
    a plan names the current handle, place and size of a movable, unpinned allocation that
    may be reclaimed in principle, and [apply_relocation] of that step on the same state
    succeeds and puts the allocation where the plan says. *)
Theorem plan_compaction_sound {B} (g : MemoryGovernor B) st :
  gov_inv g -> managed_capacity (gov_domain g) <= 2 ^ 63 -> st ∈ cp_steps (plan_compaction g) ->
  (exists rec, current g (cs_id st) (cs_generation st) rec
     /\ rec_pin_count rec = 0 /\ rec_movability rec = Movability.MOVABLE
     /\ rec_reclaimability rec <> Reclaimability.NEVER_RECLAIM
     /\ cs_old_offset st = rec_offset rec /\ cs_old_size st = rec_region_size rec
     /\ cs_new_size st = rec_region_size rec)
  /\ exists g' h, apply_relocation (cs_id st) (cs_generation st) (cs_new_offset st) (cs_new_size st) g
                  = (g', Ok h) /\ gov_inv g'
       /\ h_offset h = cs_new_offset st /\ h_size h = cs_new_size st.
Proof.
  intros Hi Hcap Hin.
  destruct (plan_step_shape g st Hi Hcap Hin) as (rec & Hcur & Hp & Hm & Hre & Ho & Hs & Hns & Hnf & Ht).
  split; [by exists rec|].
  destruct (plan_step_words g st Hi Hcap Hin) as [_ Hsz].
  pose proof (apply_relocation_cases g (cs_id st) (cs_generation st) _ _ Hi Hnf Hsz) as Hc.
  destruct (apply_relocation _ _ _ _ g) as [g' [h|f]]; destruct Hc as [Hi' Hc].
  - destruct Hc as (r & q & _ & _ & _ & _ & _ & _ & _ & ->). by eexists _, _.
  - exfalso. destruct Hc as (_ & [[Hno _]|(rec' & [Hf' _] & Hbad)]); [by apply (Hno rec)|].
    destruct Hcur as [Hf _]. simplify_eq. destruct Hbad as [[? _]|(_ & Hnt & _)]; [lia|done].
Qed.

(** Three allocations, the first of them released: the second has a gap before it. *)
Definition gov_three : MemoryGovernor Z :=
  gov_run [GInitialize; GRequest (gov_req 100 64 false); GRequest (gov_req 200 64 false);
           GRequest (gov_req 64 64 false)].
Definition gov6 : MemoryGovernor Z :=
  gov_run [GInitialize; GRequest (gov_req 100 64 false); GRequest (gov_req 200 64 false);
           GRequest (gov_req 64 64 false); GRelease (mk_id 1) (mk_gen 1) (mk_gen 0) (mk_gen 0)].

Lemma gov6_reachable : gov_reachable demo_backend gov_domain0 gov6.
Proof.
  apply (gr_step _ _ gov_three (GRelease (mk_id 1) (mk_gen 1) (mk_gen 0) (mk_gen 0)) _ true);
    [|exact I|vm_compute; reflexivity].
  apply (gr_step _ _ gov3 (GRequest (gov_req 64 64 false)) _ true);
    [exact gov3_reachable| |vm_compute; reflexivity].
  repeat split; vm_compute; congruence.
Defined.

Lemma gov6_inv : gov_inv gov6.
Proof. exact (gov_reachable_inv demo_backend gov_domain0 gov6 gov_domain0_ok gov6_reachable). Defined.

(** The plan of that state: it moves the third allocation into the gap. *)
Definition gov6_step : CompactionStep :=
  mk_step (mk_id 3) (mk_gen 1) 384 64 0 64 Movability.MOVABLE.

Lemma plan_of_gov6 : gov6_step ∈ cp_steps (plan_compaction gov6).
Proof.
  assert (E : cp_steps (plan_compaction gov6) = [gov6_step]) by (vm_compute; reflexivity).
  rewrite E. by left.
Qed.

Lemma plan_compaction_sound_witness :
  exists g' h, apply_relocation (mk_id 3) (mk_gen 1) 0 64 gov6 = (g', Ok h) /\ gov_inv g'
    /\ h_offset h = 0 /\ h_size h = 64.
Proof.
  apply (plan_compaction_sound gov6 gov6_step gov6_inv); [|exact plan_of_gov6].
  vm_compute. discriminate.
Defined.

(** ** Pins *)

Lemma allocations_key {B} (g : MemoryGovernor B) rec :
  gov_inv g -> rec ∈ allocations g -> om_find (rec_id rec) (gov_records g) = Some rec.
Proof.
  intros Hi ([id rec'] & -> & Hin)%list_elem_of_fmap. simpl.
  pose proof (gi_registry _ Hi) as [Hok _ Hids _].
  assert (Hf : om_find id (gov_records g) = Some rec') by by apply om_find_elem.
  by destruct (Hids id rec' (or_introl Hf)) as [-> _].
Qed.

Lemma pinned_no_candidate {B} (g : MemoryGovernor B) id gen max :
  gov_inv g -> pinned g id gen -> id ∉ reclaim_candidates max g.
Proof.
  intros Hi (rec & [Hf _] & Hp) Hin. destruct (reclaim_candidates_shape g max Hi) as (recs & Hperm & _ & E).
  rewrite E in Hin. apply list_elem_of_fmap in Hin as (rec' & -> & Hin%elem_of_take).
  destruct Hin as (i & Hin%list_elem_of_lookup_2 & _).
  rewrite Hperm, list_elem_of_In, filter_In, <- list_elem_of_In in Hin. destruct Hin as [Hin He].
  apply (allocations_key g rec' Hi) in Hin. apply reclaim_eligible_spec, mr_unpinned in He.
  simplify_eq. lia.
Qed.

Lemma pinned_no_step {B} (g : MemoryGovernor B) id gen st :
  gov_inv g -> managed_capacity (gov_domain g) <= 2 ^ 63 -> pinned g id gen ->
  st ∈ cp_steps (plan_compaction g) -> cs_id st <> id.
Proof.
  intros Hi Hcap (rec & [Hf _] & Hp) Hin <-.
  destruct (plan_step_shape g st Hi Hcap Hin) as (rec' & [Hf' _] & Hp' & _). simplify_eq. lia.
Qed.

Lemma pinned_no_release {B} (g : MemoryGovernor B) id gen wb sb :
  gov_inv g -> pinned g id gen ->
  exists f, release_for_worker id gen wb sb g = (g, Err f)
    /\ (reason f = RejectReason.FREE_OF_ACTIVE_OR_PINNED
        \/ reason f = RejectReason.STALE_AUTHORITY /\ (gen_is_set wb || gen_is_set sb) = true).
Proof.
  intros Hi (rec & Hcur & Hp). pose proof (release_cases g id gen wb sb Hi) as Hc.
  unfold release_for_worker. destruct (release_locked id gen wb sb g) as [g' [rel|f]].
  - destruct Hc as (rec' & [Hf' _] & _ & Hp' & _). destruct Hcur as [Hf _]. simplify_eq. lia.
  - destruct Hc as [-> Hc]. exists f. split; [done|].
    destruct Hc as [((ret & Hr & _) & _)|[(Hno & _)|(rec' & _ & Hc)]].
    + destruct Hcur as [Hf _]. pose proof (rg_disjoint _ _ _ (gi_registry _ Hi) id (mk_is_Some _ _ Hf)). congruence.
    + by destruct (Hno rec).
    + destruct Hc as [[Hna ->]|(_ & _ & ->)]; [right|by left]. split; [done|].
      unfold authorised in Hna. destruct (gen_is_set wb), (gen_is_set sb); try done. naive_solver.
Qed.

Lemma pinned_no_relocation {B} (g : MemoryGovernor B) id gen no ns :
  gov_inv g -> in_u64 no -> in_u64 ns -> pinned g id gen ->
  exists f, apply_relocation id gen no ns g = (g, Err f) /\ reason f = RejectReason.BLOCKED_BY_PINNED.
Proof.
  intros Hi Hno Hns (rec & Hcur & Hp). pose proof (apply_relocation_cases g id gen no ns Hi Hno Hns) as Hc.
  destruct (apply_relocation id gen no ns g) as [g' [h|f]]; destruct Hc as [_ Hc].
  - destruct Hc as (rec' & reg & [Hf' _] & _ & _ & Hp' & _). destruct Hcur as [Hf _]. simplify_eq. lia.
  - destruct Hc as [-> [(Hn & _)|(rec' & [Hf' _] & Hc)]]; [by destruct (Hn rec)|].
    exists f. split; [done|]. destruct Hcur as [Hf _]. simplify_eq. naive_solver lia.
Qed.

(** C11: what a pin protects.  Once a pin of an allocation is granted and its count
    did not wrap, then after any operations other than its unpin and a restore, the
    allocation cannot be released, by anybody, nor moved (both refusals leave the state as it
    was), it is no reclaim candidate, and no compaction plan moves it. *)
Theorem pin_protects {B} (be : IBackend B) id gen g0 g1 g u :
  gov_inv g0 -> managed_capacity (gov_domain g) <= 2 ^ 63 ->
  (forall rec, om_find id (gov_records g0) = Some rec -> rec_pin_count rec + 1 < U32) ->
  pin_locked id gen g0 = Some (g1, Ok u) -> pin_kept be id g1 g ->
  (forall wb sb, exists f, release_for_worker id gen wb sb g = (g, Err f)
     /\ (reason f = RejectReason.FREE_OF_ACTIVE_OR_PINNED
         \/ reason f = RejectReason.STALE_AUTHORITY /\ (gen_is_set wb || gen_is_set sb) = true))
  /\ (forall no ns, in_u64 no -> in_u64 ns -> exists f,
        apply_relocation id gen no ns g = (g, Err f) /\ reason f = RejectReason.BLOCKED_BY_PINNED)
  /\ (forall max, id ∉ reclaim_candidates max g)
  /\ (forall st, st ∈ cp_steps (plan_compaction g) -> cs_id st <> id).
Proof.
  intros Hi Hcap Hlim Epin Hk. destruct (pin_locked_pinned g0 g1 id gen u Hi Epin Hlim) as [Hi1 Hp1].
  pose proof (pin_kept_inv be id g1 g Hi1 Hk) as Hi2.
  pose proof (pin_kept_pinned be id gen g1 g Hi1 Hk Hp1) as Hp. split_and!.
  - intros. by apply pinned_no_release.
  - intros. by apply pinned_no_relocation.
  - intros. by eapply pinned_no_candidate.
  - intros. by eapply pinned_no_step.
Qed.

(** The third allocation of [gov6], which the planner would move, pinned; then the second
    released. *)
Definition gov6_pinned : MemoryGovernor Z :=
  gov_run [GInitialize; GRequest (gov_req 100 64 false); GRequest (gov_req 200 64 false);
           GRequest (gov_req 64 64 false); GRelease (mk_id 1) (mk_gen 1) (mk_gen 0) (mk_gen 0);
           GPin (mk_id 3) (mk_gen 1)].
Definition gov6_later : MemoryGovernor Z :=
  gov_run [GInitialize; GRequest (gov_req 100 64 false); GRequest (gov_req 200 64 false);
           GRequest (gov_req 64 64 false); GRelease (mk_id 1) (mk_gen 1) (mk_gen 0) (mk_gen 0);
           GPin (mk_id 3) (mk_gen 1); GRelease (mk_id 2) (mk_gen 1) (mk_gen 0) (mk_gen 0)].

Lemma gov6_later_kept : pin_kept demo_backend (mk_id 3) gov6_pinned gov6_later.
Proof.
  apply (pin_kept_step _ _ _ gov6_pinned (GRelease (mk_id 2) (mk_gen 1) (mk_gen 0) (mk_gen 0)) _ true);
    [constructor|exact I|exact I|vm_compute; reflexivity].
Defined.

Lemma pin_protects_witness :
  exists f, release_for_worker (mk_id 3) (mk_gen 1) gen_none gen_none gov6_later = (gov6_later, Err f)
    /\ reason f = RejectReason.FREE_OF_ACTIVE_OR_PINNED.
Proof.
  assert (E : pin_locked (mk_id 3) (mk_gen 1) gov6 = Some (gov6_pinned, Ok tt)) by (vm_compute; reflexivity).
  assert (Hlim : forall rec, om_find (mk_id 3) (gov_records gov6) = Some rec -> rec_pin_count rec + 1 < U32).
  { assert (Ef : (rec_pin_count <$> om_find (mk_id 3) (gov_records gov6)) = Some 0) by (vm_compute; reflexivity).
    intros rec Hf. rewrite Hf in Ef. simpl in Ef. injection Ef as ->. done. }
  destruct (proj1 (pin_protects demo_backend (mk_id 3) (mk_gen 1) gov6 gov6_pinned gov6_later tt gov6_inv
    ltac:(vm_compute; discriminate) Hlim E gov6_later_kept) gen_none gen_none) as (f & Ef & [Hr|[_ Hr]]).
  - exists f. split; [exact Ef|exact Hr].
  - discriminate Hr.
Defined.

(** A request that asks to be pinned is stuck.  The record gets a pin count
    of one but its region none, so the granted allocation can neither be unpinned (the arena
    refuses, [INVALID_REQUEST]) nor, therefore, released: both refusals leave the state as
    it was. *)
Theorem required_pin_stuck {B} req (g g' : MemoryGovernor B) h :
  gov_inv g -> request_words req -> gov_next_alloc_id g + 1 < U64 -> rq_requires_pin req = true ->
  request req g = Some (g', Ok h) ->
  (exists f, unpin_locked (h_id h) (h_generation h) g' = Some (g', Err f)
     /\ reason f = RejectReason.INVALID_REQUEST)
  /\ (exists f, release (h_id h) (h_generation h) g' = (g', Err f)
        /\ reason f = RejectReason.FREE_OF_ACTIVE_OR_PINNED).
Proof.
  intros Hi Hw Hn Hp E. destruct (request_cases g req Hi Hw Hn) as (g1 & res & E1 & Hi' & Hc).
  rewrite E in E1. injection E1 as <- <-. destruct Hc as (_ & r & Ha & ->). cbn [h_id h_generation].
  set (id := mk_id (gov_next_alloc_id g)).
  assert (Hcur : current g' id gen_first (new_record req id r)).
  { split; [by rewrite (aq_records _ _ _ _ Ha), om_find_set_eq|done]. }
  assert (Hpin : 0 < rec_pin_count (new_record req id r)) by (simpl; rewrite Hp; lia).
  split.
  - destruct (unpin_locked_cases g' id gen_first Hi') as (g2 & res & -> & _ & Hc).
    assert (Hheld : forall reg, held (gov_arena g') id gen_first reg -> ri_pin_count reg = 0).
    { intros reg Hh. destruct (aq_sets _ _ _ _ Ha) as (_ & _ & Hset).
      apply Hset in Hh as [[? _]|(_ & _ & ->)]; [done|apply Ha]. }
    destruct res as [u|f].
    + destruct Hc as (rec & reg & _ & Hh & _ & Hne & _). by destruct (Hne (Hheld reg Hh)).
    + destruct Hc as [-> [(Hno & _)|(rec & reg & _ & _ & _ & _ & Hre)]]; [by destruct (Hno _ Hcur)|].
      by exists f.
  - assert (Hpn : pinned g' id gen_first) by by exists (new_record req id r).
    destruct (pinned_no_release g' id gen_first gen_none gen_none Hi' Hpn) as (f & Er & Hre).
    exists f. unfold release. unfold release_for_worker in Er. rewrite Er. split; [done|].
    by destruct Hre as [?|[_ ?]].
Qed.

Lemma required_pin_stuck_witness :
  exists (g' : MemoryGovernor Z) f, release (mk_id 3) gen_first g' = (g', Err f)
    /\ reason f = RejectReason.FREE_OF_ACTIVE_OR_PINNED
    /\ ms_live_allocations (summary_locked g').2 = 3.
Proof.
  set (g' := gov_run [GInitialize; GRequest (gov_req 100 64 false); GRequest (gov_req 200 64 false);
                      GRequest (gov_req 64 64 true)]).
  assert (E : request (gov_req 64 64 true) gov3 = Some (g', Ok (mk_handle (mk_id 3) gen_first 384 64 64)))
    by (vm_compute; reflexivity).
  destruct (proj2 (required_pin_stuck (gov_req 64 64 true) gov3 g' _ gov3_inv
    ltac:(repeat split; vm_compute; congruence) ltac:(vm_compute; reflexivity) eq_refl E)) as (f & Ef & Hr).
  exists g', f. split; [exact Ef|]. split; [exact Hr|vm_compute; reflexivity].
Defined.
