(* ===== verification/PlanProps.v ===== *)
(** What [plan_compaction] finds and what it promises. *)
From S2P Require Import Prelude Words Ordered Types Floats FloatsExact Region RegionInv RegionAlloc.
From S2P Require Import RegionFree RegionReloc RegionQuery RegionSpec Pressure Request Bytes Persist.
From S2P Require Import PersistInv Governor GovernorInv GovernorOps GovernorSpec GovernorProps.
From S2P Require Import GovernorPolicy PlanSpec GovernorLaws.
Open Scope Z_scope.

Section plans.
Context {B : Type} (g : MemoryGovernor B).
Context (Hi : gov_inv g) (Hcap : managed_capacity (gov_domain g) < 2 ^ 53).

Abbreviation arena := (gov_arena g).

Lemma arena_cap : ra_capacity arena < 2 ^ 53.
Proof. by rewrite (gi_capacity _ Hi). Qed.

(** A live region of the arena has a record that agrees with it. *)
Lemma live_backed m :
  m ∈ snapshot_live arena -> exists rec, current g (ri_alloc_id m) (ri_alloc_generation m) rec
    /\ held arena (ri_alloc_id m) (ri_alloc_generation m) m /\ backs m rec.
Proof.
  intros Hm. apply snapshot_live_elem in Hm as [Hm Hl]; [|apply Hi].
  assert (Hh : held arena (ri_alloc_id m) (ri_alloc_generation m) m) by done.
  destruct (held_current g _ _ m Hi Hh) as (rec & ? & ?). by exists rec.
Qed.

Lemma live_alignment m :
  m ∈ snapshot_live arena -> in_u64 (ri_alignment m) /\ is_pow2 (ri_alignment m) = true.
Proof. intros (rec & _ & _ & Hbk)%live_backed. rewrite (bk_alignment _ _ Hbk). by destruct (bk_pow2 _ _ Hbk). Qed.

Lemma plan_best :
  (cp_steps (plan_compaction g) = []
   /\ forall m f, m ∈ snapshot_live arena -> f ∈ snapshot_free arena -> ~ candidate m f)
  \/ exists m f, m ∈ snapshot_live arena /\ f ∈ snapshot_free arena /\ candidate m f
       /\ cp_steps (plan_compaction g) = [move_step m f]
       /\ cp_largest_free_after (plan_compaction g) = plan_estimate arena m f
       /\ forall m' f', m' ∈ snapshot_live arena -> f' ∈ snapshot_free arena -> candidate m' f' ->
            plan_estimate arena m' f' <= plan_estimate arena m f.
Proof.
  pose proof (plan_search_best arena (gi_arena _ Hi) arena_cap live_alignment) as Hb.
  unfold plan_compaction. destruct (plan_search _ _ _) as [gain plan].
  destruct Hb as [(_ & Hs & _ & Hno)|(m & f & [Hm Hf] & Hc & _ & Hs & Ha & _ & Hmax)]; cbn [fst snd] in *.
  - left. simpl. split; [done|]. intros m f Hm Hf. by apply Hno.
  - right. exists m, f. simpl. do 5 (split; [done|]). intros m' f' Hm' Hf'. by apply Hmax.
Qed.

(** Carrying out a planned move. *)
Lemma move_owner m f g' h :
  m ∈ snapshot_live arena -> f ∈ snapshot_free arena -> in_u64 (target_offset m f) ->
  apply_relocation (ri_alloc_id m) (ri_alloc_generation m) (target_offset m f) (ri_size m) g = (g', Ok h) ->
  ra_wf (gov_arena g') /\ ra_capacity (gov_arena g') = ra_capacity arena
  /\ forall b, owner_at (ra_regions (gov_arena g')) b = None <->
       ~ (target_offset m f <= b < target_offset m f + ri_size m)
       /\ (ri_offset m <= b < ri_offset m + ri_size m \/ owner_at (ra_regions arena) b = None).
Proof.
  intros Hm Hf Hno E. destruct (live_backed m Hm) as (rec & [Hr Hg] & Hh & Hbk).
  assert (Hns : in_u64 (ri_size m)).
  { destruct (ra_wf_bounds _ _ _ (gi_arena _ Hi) (proj1 Hh)) as (_ & ? & ? & ? & ?). unfold in_u64. lia. }
  unfold apply_relocation in E. rewrite Hr, bool_decide_true in E by done. cbn [negb] in E.
  destruct (rec_pin_count rec >? 0); [done|].
  pose proof (relocate_cases arena (ri_alloc_id m) (ri_alloc_generation m) (target_offset m f) (ri_size m)
    (rec_alignment rec) (gi_arena _ Hi) Hno Hns (proj2 (bk_pow2 _ _ Hbk))) as Hc.
  destruct (relocate _ _ _ _ _ arena) as [a' [r|e]]; [|done]. injection E as <- _. simpl.
  destruct Hc as (m' & Hh' & _ & _ & Hwf' & Hcap' & _ & _ & _ & Hown).
  rewrite (held_unique _ _ _ _ _ _ (gi_arena _ Hi) Hh' Hh) in Hown.
  split; [done|]. split; [done|]. intros b. rewrite Hown.
  destruct (Z.leb_spec (target_offset m f) b), (Z.ltb_spec b (target_offset m f + ri_size m));
    cbn [andb]; try (split; [done|lia]);
    (destruct (Z.leb_spec (ri_offset m) b), (Z.ltb_spec b (ri_offset m + ri_size m)); cbn [andb];
     split; intros; try (split; [lia|auto; lia]); try done; naive_solver lia).
Qed.
End plans.

(** ** Three adjacent allocations and the free rest *)

Lemma gov_three_inv : gov_inv gov_three.
Proof.
  apply (gov_reachable_inv demo_backend gov_domain0); [exact gov_domain0_ok|].
  apply (gr_step _ _ gov3 (GRequest (gov_req 64 64 false)) _ true);
    [exact gov3_reachable|repeat split; vm_compute; congruence|vm_compute; reflexivity].
Qed.

Definition three_step : CompactionStep :=
  mk_step (mk_id 1) (mk_gen 1) 0 128 448 128 Movability.MOVABLE.

Lemma plan_of_three : cp_steps (plan_compaction gov_three) = [three_step].
Proof. vm_compute. reflexivity. Qed.

Definition gov_three_moved : MemoryGovernor Z :=
  (apply_relocation (mk_id 1) (mk_gen 1) 448 128 gov_three).1.

Lemma three_moved :
  apply_relocation (mk_id 1) (mk_gen 1) 448 128 gov_three
  = (gov_three_moved, Ok (mk_handle (mk_id 1) (mk_gen 2) 448 128 64)).
Proof. vm_compute. reflexivity. Qed.

Lemma three_largest :
  largest_free_region (gov_arena gov_three) = 3648
  /\ cp_largest_free_after (plan_compaction gov_three) = 3648
  /\ largest_free_region (gov_arena gov_three_moved) = 3520.
Proof. vm_compute. repeat split; reflexivity. Qed.

(** C12: the planner misses nothing.  On capacities below 2^53 the plan is empty exactly when
    no movable, unpinned, reclaimable allocation fits, aligned, into a free region that does
    not touch it; otherwise it is the single move whose estimate - the largest of the largest
    free region now, of the gap the move leaves with its free neighbours, and of the rests of
    the target - is at least that of every other move. *)
Theorem plan_compaction_complete {B} (g : MemoryGovernor B) :
  gov_inv g -> managed_capacity (gov_domain g) < 2 ^ 53 ->
  let lives := snapshot_live (gov_arena g) in
  let frees := snapshot_free (gov_arena g) in
  (cp_steps (plan_compaction g) = [] <-> forall m f, m ∈ lives -> f ∈ frees -> ~ candidate m f)
  /\ forall st, st ∈ cp_steps (plan_compaction g) ->
       exists m f, m ∈ lives /\ f ∈ frees /\ candidate m f /\ st = move_step m f
         /\ cp_steps (plan_compaction g) = [st]
         /\ cp_largest_free_after (plan_compaction g) = plan_estimate (gov_arena g) m f
         /\ forall m' f', m' ∈ lives -> f' ∈ frees -> candidate m' f' ->
              plan_estimate (gov_arena g) m' f' <= plan_estimate (gov_arena g) m f.
Proof.
  intros Hi Hcap. cbv zeta.
  destruct (plan_best g Hi Hcap) as [[Hs Hno]|(m & f & Hm & Hf & Hc & Hs & Ha & Hmax)]; rewrite Hs.
  - split; [done|]. by intros st ?%not_elem_of_nil.
  - split; [split; [done|]|].
    + intros Hno. by destruct (Hno m f Hm Hf).
    + intros st ->%list_elem_of_singleton. by exists m, f.
Qed.

(** A move is planned although nothing is fragmented. *)
Lemma plan_compaction_complete_witness :
  exists m f, candidate m f /\ cp_steps (plan_compaction gov_three) = [move_step m f].
Proof.
  destruct (plan_compaction_complete gov_three gov_three_inv ltac:(vm_compute; reflexivity)) as [_ Hp].
  destruct (Hp three_step) as (m & f & _ & _ & Hc & E & Hs & _); [rewrite plan_of_three; left|].
  exists m, f. split; [exact Hc|]. rewrite <- E. exact Hs.
Defined.

(** C13: what a plan promises and what it gives.  On capacities below 2^53, once the
    planned move has been carried out, the largest free region is the promised one whenever
    the plan promises a gain; but a plan that promises none is still made, and then the
    largest free region may only shrink. *)
Theorem plan_promise {B} (g g' : MemoryGovernor B) st h :
  gov_inv g -> managed_capacity (gov_domain g) < 2 ^ 53 -> st ∈ cp_steps (plan_compaction g) ->
  apply_relocation (cs_id st) (cs_generation st) (cs_new_offset st) (cs_new_size st) g = (g', Ok h) ->
  let before := largest_free_region (gov_arena g) in
  let promised := cp_largest_free_after (plan_compaction g) in
  before <= promised
  /\ (before < promised -> largest_free_region (gov_arena g') = promised)
  /\ (promised = before -> largest_free_region (gov_arena g') <= before).
Proof.
  intros Hi Hcap Hin E. cbv zeta.
  destruct (plan_step_shape g st Hi ltac:(lia) Hin) as (_ & _ & _ & _ & _ & _ & _ & _ & Hno & _).
  destruct (plan_best g Hi Hcap) as [[Hs Hno']|(m & f & Hm & Hf & Hc & Hs & Ha & Hmax)]; rewrite Hs in Hin;
    [by apply not_elem_of_nil in Hin|].
  apply list_elem_of_singleton in Hin as ->. rewrite Ha.
  destruct (move_owner g Hi m f g' h Hm Hf Hno E) as (Hwf' & Hcap' & Hown).
  pose proof (moved_largest (gov_arena g) (gi_arena _ Hi) (arena_cap g Hi Hcap) (live_alignment g Hi)
    m f (gov_arena g') Hm Hf Hc Hwf' Hcap' Hown) as [Hle Heq].
  assert (largest_free_region (gov_arena g) <= plan_estimate (gov_arena g) m f).
  { unfold plan_estimate, estimate. destruct (free_neighbours m _). lia. }
  split; [done|]. split; [done|]. by intros <-.
Qed.

(** The plan of three adjacent allocations takes the first into the free rest: it promises
    to keep the 3648 free bytes together, and leaves 3520. *)
Lemma plan_promise_witness :
  largest_free_region (gov_arena gov_three_moved) <= largest_free_region (gov_arena gov_three)
  /\ largest_free_region (gov_arena gov_three_moved) <> cp_largest_free_after (plan_compaction gov_three).
Proof.
  destruct three_largest as (H1 & H2 & H3).
  destruct (plan_promise gov_three gov_three_moved three_step _ gov_three_inv
    ltac:(vm_compute; reflexivity) ltac:(rewrite plan_of_three; left) three_moved) as (_ & _ & Hp).
  split; [apply Hp; rewrite H1; exact H2|rewrite H2, H3; discriminate].
Defined.
