(* ===== verification/Ledger.v ===== *)
(** The contract of the governor: a ledger of accounts.

    The specification knows no regions, no free lists and no byte layout but the interval each
    allocation holds: its state maps the ids in use to an account and the ids given back to the
    generation under which they were.  A call on a handle is granted exactly when the account
    allows it; a request may be placed at any aligned interval nobody holds, and is refused
    only when it is malformed or there is none.  LedgerProps.v shows that every call of the
    governor is a step of this ledger. *)
From S2P Require Import Prelude Words Ordered Types Floats Region RegionInv RegionAlloc.
From S2P Require Import RegionFree RegionReloc RegionQuery RegionSpec Pressure Request Bytes.
From S2P Require Import Persist PersistInv Governor GovernorInv GovernorOps GovernorSpec.
Open Scope Z_scope.

(** ** The specification *)

(** [ac_locks] forbids a release or a move; [ac_pins] is what an unpin takes from.  They
    agree, except that a request with [requires_pin] locks without pinning. *)
Record account : Set := mk_account {
  ac_gen : AllocationGeneration;
  ac_off : Z;
  ac_size : Z;
  ac_alignment : Z;
  ac_locks : Z;
  ac_pins : Z;
  ac_worker : WorkerBootId;
  ac_source : SourceBootId;
}.

Record ledger : Set := mk_ledger {
  lg_accounts : gmap AllocationId account;
  lg_closed : gmap AllocationId AllocationGeneration;
  lg_next : Z;
  lg_open : bool;
  lg_capacity : Z;
}.

Implicit Types (L : ledger) (a : account).

Definition lg_with_accounts m L : ledger :=
  mk_ledger m (lg_closed L) (lg_next L) (lg_open L) (lg_capacity L).
Definition lg_with_next n L : ledger :=
  mk_ledger (lg_accounts L) (lg_closed L) n (lg_open L) (lg_capacity L).
Definition lg_with_open b L : ledger :=
  mk_ledger (lg_accounts L) (lg_closed L) (lg_next L) b (lg_capacity L).

(** The bytes the accounts hold, as the specification of the arena sees them. *)
Definition ac_extent a : extent := mk_extent (ac_gen a) (ac_off a) (ac_size a).
Definition lg_arena L : gmap AllocationId extent := ac_extent <$> lg_accounts L.

Definition acceptable (req : AllocationRequest) (cap : Z) : Prop :=
  0 < rq_bytes req <= cap /\ pow2 (rq_alignment req) /\ rq_min_bytes req <= rq_bytes req
  /\ ~ (rq_requires_pin req = true /\ rq_movability req = Movability.MOVABLE
        /\ rq_reclaimability req = Reclaimability.NEVER_RECLAIM).

(** The account of a granted request at [p]. *)
Definition new_account (req : AllocationRequest) (p : Z) : account :=
  mk_account gen_first p (round_up (rq_bytes req) (rq_alignment req)) (rq_alignment req)
    (if rq_requires_pin req then 1 else 0) 0 (rq_worker_boot req) (rq_source_boot req).

(** The handle of a call on one allocation, what its account must allow, and its effect. *)
Definition op_handle (op : gov_op) : option (AllocationId * AllocationGeneration) :=
  match op with
  | GRelease id gen _ _ | GPin id gen | GUnpin id gen | GRelocate id gen _ _ => Some (id, gen)
  | _ => None
  end.

Definition allowed (op : gov_op) a L : Prop :=
  match op with
  | GRelease _ _ wb sb =>
      (gen_is_set wb = true -> wb = ac_worker a) /\ (gen_is_set sb = true -> sb = ac_source a)
      /\ ac_locks a = 0
  | GPin _ _ => True
  | GUnpin _ _ => ac_pins a <> 0
  | GRelocate _ _ no ns =>
      ac_locks a = 0 /\ 0 < ns /\ no mod ac_alignment a = 0 /\ vacant (lg_capacity L) (lg_arena L) no ns
  | _ => False
  end.

Definition ac_with_pins (n : Z) a : account :=
  mk_account (ac_gen a) (ac_off a) (ac_size a) (ac_alignment a) n n (ac_worker a) (ac_source a).

Definition ac_moved (no ns : Z) a : account :=
  mk_account (gen_next (ac_gen a)) no ns (ac_alignment a) (ac_locks a) (ac_pins a) (ac_worker a) (ac_source a).

Definition effect (op : gov_op) (id : AllocationId) a L : ledger :=
  match op with
  | GRelease _ _ _ _ =>
      mk_ledger (delete id (lg_accounts L)) (<[id := ac_gen a]> (lg_closed L)) (lg_next L) (lg_open L)
        (lg_capacity L)
  | GPin _ _ => lg_with_accounts (<[id := ac_with_pins (add32 (ac_pins a) 1) a]> (lg_accounts L)) L
  | GUnpin _ _ => lg_with_accounts (<[id := ac_with_pins (sub32 (ac_pins a) 1) a]> (lg_accounts L)) L
  | GRelocate _ _ no ns => lg_with_accounts (<[id := ac_moved no ns a]> (lg_accounts L)) L
  | _ => L
  end.

(** What a snapshot closes. *)
Definition closed_by (s : PersistSnapshot) : gmap AllocationId AllocationGeneration :=
  list_to_map ((fun r => (rec_id r, rec_generation r)) <$> ps_records s ++ ps_retired s).

(** The steps; the boolean says whether the call is granted. *)
Inductive ledger_step : gov_op -> ledger -> bool -> ledger -> Prop :=
  | ls_open L : ledger_step GInitialize L true (lg_with_open true L)
  | ls_open_fails L : lg_open L = false -> ledger_step GInitialize L false L
  | ls_request req L p :
      lg_open L = true -> acceptable req (lg_capacity L) -> p mod rq_alignment req = 0 ->
      vacant (lg_capacity L) (lg_arena L) p (round_up (rq_bytes req) (rq_alignment req)) ->
      ledger_step (GRequest req) L true
        (lg_with_next (lg_next L + 1)
           (lg_with_accounts (<[mk_id (lg_next L) := new_account req p]> (lg_accounts L)) L))
  | ls_request_refused req L n :
      ~ (lg_open L = true /\ acceptable req (lg_capacity L)
         /\ grantable (lg_capacity L) (lg_arena L) (rq_bytes req) (rq_alignment req)) ->
      lg_next L <= n <= lg_next L + 1 ->
      ledger_step (GRequest req) L false (lg_with_next n L)
  | ls_handle op id gen a L :
      op_handle op = Some (id, gen) -> lg_accounts L !! id = Some a -> ac_gen a = gen -> allowed op a L ->
      ledger_step op L true (effect op id a L)
  | ls_refused op id gen L :
      op_handle op = Some (id, gen) ->
      (forall a, lg_accounts L !! id = Some a -> ac_gen a = gen -> ~ allowed op a L) ->
      ledger_step op L false L
  | ls_pressure L : ledger_step GPressure L true L
  | ls_restore s L :
      ledger_step (GRestore s) L true
        (mk_ledger ∅ (closed_by s) (ps_next_alloc_id s) false (managed_capacity (ps_domain s))).

(** ** The abstraction of a governor *)

Section abstraction.
Context {B : Type}.
Implicit Types (g : MemoryGovernor B).

Definition account_of (arena : RegionAllocator) (rec : AllocationRecord) : account :=
  mk_account (rec_generation rec) (rec_offset rec) (rec_region_size rec) (rec_alignment rec)
    (rec_pin_count rec)
    (match get (rec_id rec) (rec_generation rec) arena with Ok r => ri_pin_count r | Err _ => 0 end)
    (rec_worker_boot rec) (rec_source_boot rec).

Definition gov_abs g : ledger :=
  mk_ledger (account_of (gov_arena g) <$> list_to_map (gov_records g))
    (rec_generation <$> list_to_map (gov_retired g))
    (gov_next_alloc_id g) (gov_initialized g) (managed_capacity (gov_domain g)).

(** A sorted association list as a finite map. *)
Lemma om_to_map {V} (m : omap AllocationId V) id :
  (list_to_map m : gmap AllocationId V) !! id = om_find id m.
Proof.
  induction m as [|[k v] m IH]; [apply lookup_empty|]. cbn [list_to_map foldr om_find]. 
  destruct (decide (id = k)) as [->|Hne]; [by rewrite lookup_insert_eq|].
  by rewrite lookup_insert_ne.
Qed.

(** The account of a record and of the region that backs it. *)
Definition account_with (reg : RegionInfo) (rec : AllocationRecord) : account :=
  mk_account (rec_generation rec) (rec_offset rec) (rec_region_size rec) (rec_alignment rec)
    (rec_pin_count rec) (ri_pin_count reg) (rec_worker_boot rec) (rec_source_boot rec).

Lemma account_of_held (arena : RegionAllocator) rec reg :
  ra_wf arena -> held arena (rec_id rec) (rec_generation rec) reg -> account_of arena rec = account_with reg rec.
Proof.
  intros Hwf Hh. unfold account_of. pose proof (get_cases arena (rec_id rec) (rec_generation rec) Hwf) as Hc.
  destruct (get _ _ arena) as [r|f]; [|by destruct Hc as [_ Hno]; destruct (Hno reg)].
  by rewrite (held_unique _ _ _ _ _ _ Hwf Hc Hh).
Qed.

Lemma abs_account g id a :
  gov_inv g -> lg_accounts (gov_abs g) !! id = Some a <->
  exists rec reg, current g id (ac_gen a) rec /\ held (gov_arena g) id (ac_gen a) reg
    /\ backs reg rec /\ a = account_with reg rec.
Proof.
  intros Hi. simpl. rewrite lookup_fmap, om_to_map. split.
  - destruct (om_find id (gov_records g)) as [rec|] eqn:Hf; [|done]. intros [= <-].
    destruct (proj1 (gi_tracks _ Hi) _ _ Hf) as (reg & Hh & Hbk).
    destruct (rg_ids _ _ _ (gi_registry _ Hi) id rec (or_introl Hf)) as [Hid _]. subst id.
    rewrite (account_of_held _ _ _ (gi_arena _ Hi) Hh). by exists rec, reg.
  - intros (rec & reg & [Hf Hg] & Hh & Hbk & ->). rewrite Hf. simpl. f_equal.
    destruct (rg_ids _ _ _ (gi_registry _ Hi) id rec (or_introl Hf)) as [Hid _]. subst id.
    apply account_of_held; [apply Hi|]. by rewrite Hg.
Qed.

(** The bytes of the ledger are those of the arena. *)
Lemma abs_arena g : gov_inv g -> lg_arena (gov_abs g) = ra_abs (gov_arena g).
Proof.
  intros Hi. apply map_eq. intros id. apply option_eq. intros e. unfold lg_arena. rewrite lookup_fmap.
  rewrite ra_abs_lookup by apply Hi. split.
  - destruct (lg_accounts (gov_abs g) !! id) as [a|] eqn:Ea; [|done]. intros [= <-].
    apply abs_account in Ea as (rec & reg & [_ Hg] & Hh & Hbk & Ea); [|done]. exists reg. simpl.
    split; [done|]. subst a. simpl. split; apply Hbk.
  - intros (reg & Hh & Ho & Hs). destruct (held_current _ _ _ _ Hi Hh) as (rec & [Hf Hg] & Hbk).
    assert (lg_accounts (gov_abs g) !! id = Some (account_with reg rec)) as ->.
    { apply abs_account; [done|]. exists rec, reg. simpl. by rewrite Hg. }
    simpl. unfold ac_extent. simpl. rewrite Hg, <- (bk_offset _ _ Hbk), <- (bk_size _ _ Hbk), Ho, Hs.
    by destruct e.
Qed.

Lemma abs_vacant g off n :
  gov_inv g -> vacant (lg_capacity (gov_abs g)) (lg_arena (gov_abs g)) off n <->
  0 <= off /\ off + n <= managed_capacity (gov_domain g)
  /\ forall b, off <= b < off + n -> owner_at (ra_regions (gov_arena g)) b = None.
Proof.
  intros Hi. rewrite abs_arena by done. simpl. rewrite <- (gi_capacity _ Hi). apply vacant_owner. apply Hi.
Qed.

(** How the accounts follow the maps. *)
Lemma abs_set g g' id reg rec :
  gov_inv g -> gov_inv g' -> gov_records g' = om_set id rec (gov_records g) ->
  arena_sets (gov_arena g) id reg (gov_arena g') -> ri_alloc_generation reg = rec_generation rec ->
  lg_accounts (gov_abs g') = <[id := account_with reg rec]> (lg_accounts (gov_abs g)).
Proof.
  intros Hi Hi' Er (_ & _ & Hh) Eg. apply map_eq. intros id'.
  destruct (decide (id' = id)) as [->|Hne].
  - rewrite lookup_insert_eq. simpl. rewrite lookup_fmap, om_to_map, Er, om_find_set_eq. simpl. f_equal.
    assert (Hf : om_find id (gov_records g') = Some rec) by (by rewrite Er, om_find_set_eq).
    destruct (rg_ids _ _ _ (gi_registry _ Hi') id rec (or_introl Hf)) as [Hid _].
    apply account_of_held; [apply Hi'|]. apply Hh. right. by rewrite Hid.
  - rewrite lookup_insert_ne by done. apply option_eq. intros a. rewrite !abs_account by done.
    unfold current. rewrite Er, om_find_set_ne by done.
    split; intros (rec0 & reg0 & Hc & Hh0 & Hx); exists rec0, reg0; (split; [done|split; [|done]]).
    + apply Hh in Hh0 as [[_ ?]|[? _]]; done.
    + apply Hh. by left.
Qed.

Lemma abs_drop g g' id :
  gov_inv g -> gov_inv g' -> gov_records g' = om_erase id (gov_records g) ->
  arena_drops (gov_arena g) id (gov_arena g') ->
  lg_accounts (gov_abs g') = delete id (lg_accounts (gov_abs g)).
Proof.
  intros Hi Hi' Er (_ & _ & Hh). apply map_eq. intros id'.
  destruct (decide (id' = id)) as [->|Hne].
  - rewrite lookup_delete_eq. simpl. by rewrite lookup_fmap, om_to_map, Er, om_find_erase_eq by apply Hi.
  - rewrite lookup_delete_ne by done. apply option_eq. intros a. rewrite !abs_account by done.
    unfold current. rewrite Er, om_find_erase_ne by done.
    split; intros (rec0 & reg0 & Hc & Hh0 & Hx); exists rec0, reg0; (split; [done|split; [|done]]);
      apply Hh in Hh0 || apply Hh; tauto.
Qed.

Lemma closed_set (m : omap AllocationId AllocationRecord) id rec :
  rec_generation <$> (list_to_map (om_set id rec m) : gmap AllocationId AllocationRecord)
  = <[id := rec_generation rec]> (rec_generation <$> list_to_map m).
Proof.
  apply map_eq. intros id'. rewrite lookup_fmap, om_to_map. destruct (decide (id' = id)) as [->|Hne].
  - by rewrite lookup_insert_eq, om_find_set_eq.
  - by rewrite lookup_insert_ne, om_find_set_ne, lookup_fmap, om_to_map by done.
Qed.
End abstraction.
