(* ===== verification/Pages.v ===== *)
(** Whole pages: when every allocation starts at a multiple of a page size and covers a number
    of pages, the free bytes are never broken into pieces smaller than a page. *)
From S2P Require Import Prelude Words Ordered Types Floats Region RegionInv RegionAlloc.
From S2P Require Import RegionFree RegionReloc RegionQuery RegionSpec Pressure Request Bytes.
From S2P Require Import Persist PersistInv Governor GovernorInv GovernorOps GovernorSpec.
Open Scope Z_scope.

(** ** The arena *)

Section arena_pages.
Context (s : Z) (Hs : 0 < s).
Implicit Types (a : RegionAllocator).

Definition paged a : Prop :=
  forall id gen r, held a id gen r -> ri_offset r mod s = 0 /\ ri_size r mod s = 0.

(** The same of the live regions of a list. *)
Definition paged_list (l : omap Z RegionInfo) : Prop :=
  forall k r, (k, r) ∈ l -> ri_live r = true -> k mod s = 0 /\ ri_size r mod s = 0.

Lemma paged_regions a : ra_wf a -> paged a -> paged_list (ra_regions a).
Proof.
  intros Hwf Hp k r Hin Hl. destruct (ra_wf_bounds _ _ _ Hwf Hin) as (<- & _).
  by apply (Hp (ri_alloc_id r) (ri_alloc_generation r)).
Qed.

Lemma paged_cons k r l : paged_list ((k, r) :: l) -> paged_list l.
Proof. intros Hp k' r' Hin. apply Hp. by right. Qed.

Lemma mod_add_0 x y : x mod s = 0 -> y mod s = 0 -> (x + y) mod s = 0.
Proof. intros Hx Hy. by rewrite Z.add_mod, Hx, Hy, Z.mod_0_l by lia. Qed.

(** A free region starts where the arena or a live region ends. *)
Lemma free_start lo pf l k r :
  tiled lo pf l -> (pf = false -> lo mod s = 0) -> paged_list l -> (k, r) ∈ l -> k mod s = 0.
Proof.
  revert lo pf. induction l as [|[k' r'] l IH]; intros lo pf; [by intros _ _ _ ?%not_elem_of_nil|].
  intros (Hk & _ & _ & Hpf & _ & Ht) Hlo Hp Hin.
  assert (Hlive : ri_live r' = true -> lo mod s = 0 /\ ri_size r' mod s = 0).
  { intros Hl. rewrite <- Hk. apply Hp; [by left|done]. }
  apply elem_of_cons in Hin as [[= -> ->]|Hin].
  - rewrite Hk. destruct pf; [apply Hlive; by apply Hpf|by apply Hlo].
  - refine (IH _ _ Ht _ (paged_cons _ _ _ Hp) Hin). intros Hl%negb_false_iff.
    destruct (Hlive Hl). by apply mod_add_0.
Qed.

(** Pieces smaller than a page can only be at the end. *)
Lemma small_frees lo pf l :
  tiled lo pf l -> (pf = false -> lo mod s = 0) -> paged_list l ->
  (forall k r, (k, r) ∈ l -> ri_live r = false -> ri_size r < s) ->
  tend lo l - lo - live_sum l < s.
Proof.
  revert lo pf. induction l as [|[k r] l IH]; intros lo pf Ht Hlo Hp Hsm.
  { rewrite live_sum_nil. simpl. lia. }
  destruct Ht as (Hk & _ & Hr & Hpf & _ & Ht). rewrite live_sum_cons.
  change (tend lo ((k, r) :: l)) with (tend (lo + ri_size r) l).
  assert (Hsm' : forall k r, (k, r) ∈ l -> ri_live r = false -> ri_size r < s)
    by (intros k0 r0 Hin; apply (Hsm k0); by right).
  pose proof (paged_cons _ _ _ Hp) as Hp'.
  destruct (ri_live r) eqn:Hl; simpl in Ht.
  - destruct (Hp k r) as [H1 H2]; [by left|done|].
    pose proof (IH _ _ Ht ltac:(intros _; rewrite <- Hk; by apply mod_add_0) Hp' Hsm'). lia.
  - assert (Hlo' : lo mod s = 0) by (destruct pf; [by specialize (Hpf eq_refl)|by apply Hlo]).
    pose proof (Hsm k r ltac:(by left) Hl) as Hlt.
    destruct l as [|[k' r'] l]; [rewrite live_sum_nil; simpl; lia|].
    destruct Ht as (Hk' & _ & _ & Hl' & _). specialize (Hl' eq_refl).
    destruct (Hp' k' r') as [Hm _]; [by left|done|].
    assert (Hz : ri_size r mod s = 0).
    { rewrite Hk' in Hm. rewrite Z.add_mod, Hlo', Z.add_0_l, Z.mod_mod in Hm by lia. done. }
    rewrite Z.mod_small in Hz by lia. lia.
Qed.

(** A page of free bytes is a free page. *)
Lemma free_page a req :
  ra_wf a -> paged a -> footprint req = s -> s mod aq_alignment req = 0 -> aq_alignment req <> 0 ->
  placeable req a <-> s <= ra_capacity a - ra_live_bytes a.
Proof.
  intros Hwf Hp Hfp Hal Hnz. split.
  - intros Hpl. destruct (Z.le_gt_cases s (ra_capacity a - ra_live_bytes a)) as [|Hlt]; [done|].
    exfalso. revert Hpl. apply no_room_not_placeable; [done| |lia].
    rewrite ra_wf_free_bytes by done. lia.
  - intros Hle. pose proof (wf_tiled _ Hwf) as Ht. pose proof (paged_regions a Hwf Hp) as Hpl.
    assert (H0 : false = false -> 0 mod s = 0) by (intros _; apply Z.mod_0_l; lia).
    destruct (decide (Exists (fun e => ri_live e.2 = false /\ s <= ri_size e.2) (ra_regions a))) as [Hex|Hno].
    + apply Exists_exists in Hex as ([k r] & Hin & Hl & Hsz). simpl in Hl, Hsz.
      destruct (ra_wf_bounds _ _ _ Hwf Hin) as (Hk & Hk0 & _ & Hc & _).
      pose proof (free_start 0 false _ k r Ht H0 Hpl Hin) as Hm.
      exists k. rewrite Hfp. split; [done|]. split; [|split; [lia|]].
      * apply Z.mod_divide in Hm; [|lia]. apply Z.mod_divide in Hal; [|done].
        apply Z.mod_divide; [done|]. by transitivity s.
      * intros b Hb. destruct (ra_wf_split _ _ _ Hwf Hin) as
          (pre & post & E & Tpre & Epre & _ & _ & _ & _ & Tpost & _).
        rewrite E, owner_at_app. simpl. rewrite (covers_free _ r) by done.
        rewrite (owner_at_outside 0 false pre) by (done || lia).
        apply (owner_at_outside _ _ _ _ Tpost). lia.
    + exfalso. pose proof (small_frees 0 false _ Ht H0 Hpl) as Hsm.
      rewrite (wf_end _ Hwf), <- (wf_live_bytes _ Hwf) in Hsm.
      enough (ra_capacity a - 0 - ra_live_bytes a < s) by lia. apply Hsm.
      intros k r Hin Hl. apply Z.nle_gt. intros Hge. apply Hno, Exists_exists. by exists (k, r).
Qed.

(** Where [place] puts a request. *)
Lemma place_offset req n slot front a a' r :
  place req n slot front a = Some (a', Ok r) -> ri_offset r = add64 (fs_offset slot) front.
Proof. unfold place. destruct (om_find _ _); [|done]. by intros [= _ <-]. Qed.

Lemma find_slot_first cap n al slots slot front p :
  cap < U64 -> 0 < n -> in_u64 al -> is_pow2 al = true -> Forall (slot_in cap) slots ->
  find_slot n al slots = Some (slot, front) -> fits n al slot p -> fs_offset slot + front <= p.
Proof.
  intros Hcap Hn Hal Hp2 Hin Hf Hp. induction Hin as [|x slots Hx _ IH]; [done|]. simpl in Hf.
  pose proof (slot_test cap n al x Hx Hcap Hn Hal Hp2) as Ht. simpl in Ht.
  destruct ((_ >? fs_size x) || _); [by apply IH|]. injection Hf as <- <-. by apply Ht.
Qed.

(** A request is placed at the first aligned offset of some free slot. *)
Lemma allocate_slot a req a' r :
  ra_wf a -> request_ok req a -> allocate req a = Some (a', Ok r) ->
  exists slot, slot ∈ ra_free_slots a /\ fits (footprint req) (aq_alignment req) slot (ri_offset r)
    /\ forall p, fits (footprint req) (aq_alignment req) slot p -> ri_offset r <= p.
Proof.
  intros Hwf Hreq E. destruct (allocate_cases a req Hwf Hreq) as (a1 & res & E1 & Hc).
  rewrite E in E1. injection E1 as <- <-. destruct Hc as (Hb0 & Hp2 & _).
  destruct Hreq as (Hb & Hal & _). pose proof (is_pow2_pos _ Hal Hp2) as Hpos.
  pose proof (round_up_bounds (aq_bytes req) (aq_alignment req) Hpos) as Hru. fold (footprint req) in Hru.
  pose proof (wf_cap _ Hwf) as Hcap. unfold allocate in E.
  rewrite (ra_align_up_round _ _ Hb Hal Hp2) in E. fold (footprint req) in E.
  destruct (_ =? 0); [done|]. destruct ((_ =? 0) || _); [done|]. destruct (_ >? _); [done|].
  destruct (Z.ltb_spec (footprint req) U64); [|done].
  destruct ((footprint req =? 0) || _); [done|]. destruct (_ >? _); [done|].
  destruct (find_slot _ _ _) as [[slot front]|] eqn:Ef; [|by case_match].
  apply place_offset in E. assert (Hf0 : 0 < footprint req) by lia.
  pose proof (slots_in_lower_bound a Hwf (mk_slot (footprint req) 0)) as Hin.
  destruct (find_slot_Some (ra_capacity a) (footprint req) (aq_alignment req) (proj2 Hcap) Hf0
              Hal Hp2 _ _ _ Hin Ef) as (Hfr0 & Hfit & Hmod & skipped & rest & Hsk & _).
  assert (Hslot : slot ∈ ra_free_slots a).
  { destruct (os_lower_bound_split (mk_slot (footprint req) 0) _ (proj1 (wf_indexed _ Hwf)))
      as (s1 & Es & _). rewrite Es, Hsk. set_solver. }
  pose proof (ra_wf_slot_in _ _ Hwf Hslot) as (Hs0 & _ & Hsc).
  rewrite add64_small in E by lia. rewrite E. exists slot. split; [done|]. split.
  - unfold fits. split; [lia|]. split; [done|lia].
  - intros p Hp. by apply (find_slot_first (ra_capacity a) _ _ _ _ _ _ (proj2 Hcap) Hf0 Hal Hp2 Hin Ef).
Qed.

(** A request for whole pages keeps the arena paged. *)
Lemma allocate_paged a req a' r :
  ra_wf a -> request_ok req a -> paged a -> footprint req mod s = 0 -> s mod aq_alignment req = 0 ->
  allocate req a = Some (a', Ok r) -> ri_offset r mod s = 0 /\ ri_size r mod s = 0.
Proof.
  intros Hwf Hreq Hp Hfp Hal E.
  destruct (allocate_sets _ _ _ _ Hwf Hreq E) as (_ & _ & _ & Hsz & _ & _ & Hp2 & _).
  pose proof Hreq as (_ & Halu & _). pose proof (is_pow2_pos _ Halu Hp2) as Hpos.
  split; [|by rewrite Hsz].
  destruct (allocate_slot _ _ _ _ Hwf Hreq E) as (slot & Hin & (Ho & _ & He) & Hfirst).
  destruct (wf_indexed _ Hwf) as [_ Hperm]. rewrite Hperm in Hin.
  apply free_slots_of_elem in Hin as (f & Hin & _ & _).
  pose proof (free_start 0 false _ _ f (wf_tiled _ Hwf) ltac:(intros _; apply Z.mod_0_l; lia)
    (paged_regions a Hwf Hp) Hin) as Hm.
  enough (ri_offset r = fs_offset slot) as -> by done.
  assert (ri_offset r <= fs_offset slot); [|lia]. apply Hfirst. unfold fits. split; [lia|]. split; [|lia].
  apply Z.mod_divide in Hm; [|lia]. apply Z.mod_divide in Hal; [|lia].
  apply Z.mod_divide; [lia|]. by transitivity s.
Qed.

(** ** How the calls of the governor keep it *)

Lemma paged_sets a id m a' :
  paged a -> arena_sets a id m a' -> ri_offset m mod s = 0 /\ ri_size m mod s = 0 -> paged a'.
Proof. intros Hp (_ & _ & Hh) Hm id' gen r [[_ H]|(_ & _ & ->)]%Hh; [by eapply Hp|done]. Qed.

Lemma paged_drops a id a' : paged a -> arena_drops a id a' -> paged a'.
Proof. intros Hp (_ & _ & Hh) id' gen r [_ H]%Hh. by eapply Hp. Qed.

Lemma paged_new cap : 0 < cap < U64 -> paged (RegionAllocator_new cap).
Proof. intros Hc id gen r Hh. destruct (proj2 (tracks_new cap Hc) _ _ _ Hh) as [? Hf]. discriminate Hf. Qed.
End arena_pages.

(** ** The governor *)

(** Requests and moves of whole pages. *)
Definition page_op (s : Z) (op : gov_op) : Prop :=
  match op with
  | GRequest req => round_up (rq_bytes req) (rq_alignment req) mod s = 0 /\ s mod rq_alignment req = 0
  | GRelocate _ _ no ns => no mod s = 0 /\ ns mod s = 0
  | _ => True
  end.

Section governor_pages.
Context {B : Type} (be : IBackend B) (s : Z) (Hs : 0 < s).
Implicit Types (g : MemoryGovernor B).

Definition page_run : MemoryDomain -> MemoryGovernor B -> Prop := run_with be (fun op _ => page_op s op).

Lemma request_arena req g g' h :
  request req g = Some (g', Ok h) ->
  exists r, allocate (next_arena_request g req) (gov_arena g) = Some (gov_arena g', Ok r).
Proof.
  unfold request, next_id_locked. intros E. repeat (case_match; simplify_eq/=; try done); by eexists.
Qed.

Lemma gov_step_paged op g g' ok :
  gov_inv g -> gov_op_ok op g -> page_op s op -> gov_step be op g = Some (g', ok) ->
  paged s (gov_arena g) -> paged s (gov_arena g').
Proof.
  intros Hi Hop Hpg E Hp. destruct op as [|req|id gen wb sb|id gen|id gen|id gen no ns| |sn]; simpl in Hop, Hpg, E.
  - pose proof (initialize_cases be g Hi) as Hc. destruct (initialize be g) as [g1 res]. simplify_eq/=.
    by destruct Hc as (_ & _ & _ & -> & _).
  - destruct Hop as [Hw Hn]. destruct (request_cases g req Hi Hw Hn) as (g1 & res & E1 & _ & Hc).
    rewrite E1 in E. simplify_eq/=. destruct res as [h|f].
    + destruct Hc as (_ & r & Hr & _). destruct (request_arena _ _ _ _ E1) as (r' & Ea).
      pose proof (next_request_ok g req Hi Hw) as Hok.
      destruct (allocate_sets _ _ _ _ (gi_arena _ Hi) Hok Ea) as (Hset & _).
      apply (paged_sets s _ _ _ _ Hp Hset). 
      by apply (allocate_paged s Hs _ _ _ _ (gi_arena _ Hi) Hok Hp (proj1 Hpg) (proj2 Hpg) Ea).
    + by destruct Hc as [(n & -> & _) _].
  - unfold release_for_worker in E. pose proof (release_cases g id gen wb sb Hi) as Hc.
    destruct (release_locked id gen wb sb g) as [g1 res]. simplify_eq/=. destruct res as [rel|f].
    + destruct Hc as (rec & _ & _ & _ & _ & (_ & _ & Hd & _)). by apply (paged_drops s _ _ _ Hp Hd).
    + by destruct Hc as [-> _].
  - destruct (pin_locked_cases g id gen Hi) as (g1 & res & E1 & _ & Hc).
    rewrite E1 in E. simplify_eq/=. destruct res as [u|f]; [|by destruct Hc as [-> _]].
    destruct Hc as (rec & reg & _ & Hh & _ & Hu & _).
    apply (paged_sets s _ _ _ _ Hp (ru_sets _ _ _ _ _ Hu)). exact (Hp _ _ _ Hh).
  - destruct (unpin_locked_cases g id gen Hi) as (g1 & res & E1 & _ & Hc).
    rewrite E1 in E. simplify_eq/=. destruct res as [u|f]; [|by destruct Hc as [-> _]].
    destruct Hc as (rec & reg & _ & Hh & _ & _ & Hu & _).
    apply (paged_sets s _ _ _ _ Hp (ru_sets _ _ _ _ _ Hu)). exact (Hp _ _ _ Hh).
  - destruct Hop as (Hno & Hns & _). pose proof (apply_relocation_cases g id gen no ns Hi Hno Hns) as Hc.
    destruct (apply_relocation id gen no ns g) as [g1 res]. simplify_eq/=. destruct Hc as [_ Hc].
    destruct res as [h|f]; [|by destruct Hc as [-> _]].
    destruct Hc as (rec & reg & _ & _ & _ & _ & _ & Hu & _). cbv zeta in Hu.
    by apply (paged_sets s _ _ _ _ Hp (ru_sets _ _ _ _ _ Hu)).
  - simplify_eq/=. unfold pressure_locked. simpl. intros id gen r. unfold held, ensure_summary.
    case_match; simpl; apply Hp.
  - simplify_eq/=. apply paged_new. apply Hop.
Qed.

Lemma page_run_paged d g :
  0 < managed_capacity d < U64 -> page_run d g -> gov_inv g /\ paged s (gov_arena g).
Proof.
  intros Hd. induction 1 as [b|g op g' ok _ [Hi Hp] Hop Hpg E].
  { split; [by apply MemoryGovernor_new_inv|by apply paged_new]. }
  destruct (gov_step_inv be op g Hi Hop) as (g1 & ok1 & E1 & Hi1). rewrite E in E1. simplify_eq.
  split; [done|exact (gov_step_paged op g _ _ Hi Hop Hpg E Hp)].
Qed.

(** A request of one page in a paged governor. *)
Lemma page_request g req :
  gov_inv g -> paged s (gov_arena g) -> request_words req -> gov_next_alloc_id g + 1 < U64 ->
  admitted g req -> round_up (rq_bytes req) (rq_alignment req) = s ->
  exists g' res, request req g = Some (g', res) /\ gov_inv g'
    /\ (result_ok res = true <-> s <= managed_capacity (gov_domain g) - ra_live_bytes (gov_arena g)).
Proof.
  intros Hi Hp Hw Hn Hadm Hr. destruct (request_cases g req Hi Hw Hn) as (g' & res & E & Hi' & Hc).
  exists g', res. split; [done|]. split; [done|]. pose proof Hw as [Hb Hal]. destruct Hadm as [Hv Hin].
  pose proof Hv as Hv'. unfold in_u64 in Hb. apply validate_request_ok in Hv' as (_ & Hp2 & _); [|done|lia].
  pose proof (is_pow2_pos _ Hal Hp2) as Hpos.
  assert (Hdiv : s mod rq_alignment req = 0).
  { rewrite <- Hr. unfold round_up. apply Z.mod_mul. lia. }
  pose proof (free_page s Hs (gov_arena g) (next_arena_request g req) (gi_arena _ Hi) Hp Hr Hdiv ltac:(simpl; lia)) as Hf.
  rewrite (gi_capacity _ Hi) in Hf. rewrite <- Hf. destruct res as [h|f]; simpl.
  - split; [intros _|done]. destruct (request_arena _ _ _ _ E) as (r & Ea).
    destruct (allocate_cases _ _ (gi_arena _ Hi) (next_request_ok g req Hi Hw)) as (a1 & res & E1 & Hc1).
    rewrite Ea in E1. injection E1 as <- <-. apply Hc1.
  - split; [done|]. intros Hpl. destruct Hc as (_ & [(Hf1 & Ef)|[[Hf1 _]|(_ & Hno & _)]]).
    + rewrite <- Ef in Hv. congruence.
    + congruence.
    + by destruct Hno.
Qed.
End governor_pages.
