(* ===== verification/LedgerProps.v ===== *)
(** The governor keeps its ledger: every call is a step of the specification of Ledger.v. *)
From S2P Require Import Prelude Words Ordered Types Floats Region RegionInv RegionAlloc.
From S2P Require Import RegionFree RegionReloc RegionQuery RegionSpec Pressure Request Bytes.
From S2P Require Import Persist PersistInv Governor GovernorInv GovernorOps GovernorSpec.
From S2P Require Import GovernorProps Ledger.
Open Scope Z_scope.

Section simulation.
Context {B : Type} (be : IBackend B) (g : MemoryGovernor B) (Hi : gov_inv g).

Definition keeps (op : gov_op) (ok : bool) (g' : MemoryGovernor B) : Prop :=
  ledger_step op (gov_abs g) ok (gov_abs g').

(** A refusal of a call on a handle. *)
Lemma refused_keeps op id gen :
  op_handle op = Some (id, gen) ->
  (forall rec reg, current g id gen rec -> held (gov_arena g) id gen reg -> backs reg rec ->
     ~ allowed op (account_with reg rec) (gov_abs g)) ->
  keeps op false g.
Proof.
  intros Hop Hno. apply (ls_refused op id gen _ Hop). intros a Ha Hg.
  apply abs_account in Ha as (rec & reg & Hc & Hh & Hbk & ->); [|done]. rewrite Hg in Hc, Hh. eauto.
Qed.

Lemma current_account id gen rec reg :
  current g id gen rec -> held (gov_arena g) id gen reg -> backs reg rec ->
  lg_accounts (gov_abs g) !! id = Some (account_with reg rec) /\ ac_gen (account_with reg rec) = gen.
Proof.
  intros Hc Hh Hbk. pose proof Hc as [_ Hg]. split; [|done]. apply abs_account; [done|].
  exists rec, reg. simpl. by rewrite Hg.
Qed.

Lemma initialize_keeps : let p := initialize be g in keeps GInitialize (result_ok p.2) p.1.
Proof.
  pose proof (initialize_cases be g Hi) as Hc. destruct (initialize be g) as [g' res] eqn:E. simpl.
  destruct Hc as (_ & Er & Et & Ea & En & Ec & _ & Hin). unfold keeps.
  assert (Eabs : gov_abs g' = lg_with_open (result_ok res) (gov_abs g)).
  { unfold gov_abs, lg_with_open. simpl. by rewrite Er, Et, Ea, En, Ec, Hin. }
  rewrite Eabs. destruct (result_ok res) eqn:Hok; [apply ls_open|].
  assert (Hcl : gov_initialized g = false).
  { destruct (gov_initialized g) eqn:Hg; [|done]. unfold initialize in E. rewrite Hg in E.
    injection E as <- <-. done. }
  assert (lg_with_open false (gov_abs g) = gov_abs g) as ->.
  { unfold lg_with_open, gov_abs. simpl. by rewrite Hcl. }
  by apply ls_open_fails.
Qed.

Lemma acceptable_admitted req :
  request_words req ->
  gov_initialized g = true /\ acceptable req (lg_capacity (gov_abs g)) <-> admitted g req.
Proof.
  intros [Hb Ha]. unfold admitted, acceptable. simpl. unfold in_u64 in Hb.
  rewrite validate_request_ok by (done || lia). rewrite (is_pow2_spec _ Ha). tauto.
Qed.

Lemma request_keeps req :
  request_words req -> gov_next_alloc_id g + 1 < U64 ->
  exists g' res, request req g = Some (g', res) /\ keeps (GRequest req) (result_ok res) g'.
Proof.
  intros Hw Hn. destruct (request_cases g req Hi Hw Hn) as (g' & res & E & Hi' & Hc).
  exists g', res. split; [done|]. unfold keeps. destruct res as [h|f]; simpl result_ok.
  - destruct Hc as (Hadm & r & Hr & _). apply acceptable_admitted in Hadm as [Hop Hacc]; [|done].
    destruct (aq_place _ _ _ _ Hr) as (H0 & He & Hm). pose proof (aq_size _ _ _ _ Hr) as Hsz.
    assert (Eabs : gov_abs g' = lg_with_next (lg_next (gov_abs g) + 1)
      (lg_with_accounts (<[mk_id (lg_next (gov_abs g)) := new_account req (ri_offset r)]> (lg_accounts (gov_abs g)))
        (gov_abs g))).
    { assert (Ea : lg_accounts (gov_abs g') = <[mk_id (lg_next (gov_abs g)) := new_account req (ri_offset r)]> (lg_accounts (gov_abs g))).
      { rewrite (abs_set g g' (mk_id (gov_next_alloc_id g)) r (new_record req (mk_id (gov_next_alloc_id g)) r)
          Hi Hi' (aq_records _ _ _ _ Hr) (aq_sets _ _ _ _ Hr)).
        - f_equal. unfold account_with, new_account. simpl. by rewrite Hsz, (aq_pins _ _ _ _ Hr).
        - destruct (proj1 (gi_tracks _ Hi') (mk_id (gov_next_alloc_id g)) (new_record req (mk_id (gov_next_alloc_id g)) r))
            as (reg & Hh & _); [by rewrite (aq_records _ _ _ _ Hr), om_find_set_eq|].
          apply (aq_sets _ _ _ _ Hr) in Hh as [[? _]|(_ & Hg & _)]; [done|]. by rewrite <- Hg. }
      unfold gov_abs in *. unfold lg_with_next, lg_with_accounts. simpl in *.
      rewrite Ea, (aq_retired _ _ _ _ Hr), (aq_next _ _ _ _ Hr), (aq_initialized _ _ _ _ Hr), (aq_domain _ _ _ _ Hr).
      done. }
    rewrite Eabs. apply ls_request; try done. apply abs_vacant; [done|]. rewrite <- Hsz.
    split; [done|]. split; [done|]. exact (aq_vacant _ _ _ _ Hr).
  - destruct Hc as [(n & -> & Hle) Hwhy].
    assert (Eabs : gov_abs (gov_with_counters n (gov_history_count g) g) = lg_with_next n (gov_abs g)) by done.
    rewrite Eabs. apply ls_request_refused; [|done]. intros (Hop & Hacc & Hgr).
    destruct (proj1 (acceptable_admitted req Hw) (conj Hop Hacc)) as [Hv Hin].
    destruct Hwhy as [(Hf & Ef)|[[Hf _]|(_ & Hno & _)]]; [rewrite <- Ef in Hv; congruence|congruence|].
    apply Hno. destruct Hgr as (_ & _ & p & Hp & Hvac). apply abs_vacant in Hvac as (H0 & He & Hf); [|done].
    exists p. unfold footprint. simpl. rewrite (gi_capacity _ Hi). by split_and!.
Qed.

Lemma release_keeps id gen wb sb :
  let p := release_for_worker id gen wb sb g in keeps (GRelease id gen wb sb) (result_ok p.2) p.1.
Proof.
  unfold release_for_worker. pose proof (release_cases g id gen wb sb Hi) as Hc.
  destruct (release_locked id gen wb sb g) as [g' [rel|f]]; simpl.
  - destruct Hc as (rec & Hcur & [Hwb Hsb] & Hpc & _ & Ha).
    destruct (current_held g id gen rec Hi Hcur) as (reg & Hh & Hbk).
    destruct (current_account id gen rec reg Hcur Hh Hbk) as [Hac Hg].
    pose proof (after_release_inv g id rec g' Hi (proj1 Hcur) Ha) as Hi'.
    destruct Ha as (Er & Et & Hd & _ & Ed & En & Ein). unfold keeps.
    assert (gov_abs g' = effect (GRelease id gen wb sb) id (account_with reg rec) (gov_abs g)) as ->.
    { pose proof (abs_drop g g' id Hi Hi' Er Hd) as Ea. unfold gov_abs in *. simpl in *.
      rewrite Ea, Et, closed_set, En, Ein, Ed. done. }
    by apply (ls_handle (GRelease id gen wb sb) id gen).
  - destruct Hc as (-> & Hwhy). apply (refused_keeps (GRelease id gen wb sb) id gen eq_refl).
    intros rec reg Hcur Hh Hbk (Hwb & Hsb & Hpc). simpl in Hwb, Hsb, Hpc.
    destruct Hwhy as [[(ret & Hf & _) _]|[(Hno & _)|(rec' & Hc' & [[Hna _]|(_ & Hpp & _)])]].
    + destruct Hcur as [Hf' _]. assert (om_find id (gov_retired g) = None)
        by (apply (gi_registry _ Hi); eauto). congruence.
    + by apply (Hno rec).
    + apply Hna. destruct Hcur, Hc'. simplify_eq. done.
    + destruct Hcur, Hc'. simplify_eq. lia.
Qed.

(** A record updated together with its region. *)
Lemma updated_keeps op id gen rec reg rec' reg' a' g' :
  op_handle op = Some (id, gen) -> current g id gen rec -> held (gov_arena g) id gen reg -> backs reg rec ->
  allowed op (account_with reg rec) (gov_abs g) -> gov_inv g' -> rec_updated g id reg' rec' g' ->
  ri_alloc_generation reg' = rec_generation rec' -> account_with reg' rec' = a' ->
  effect op id (account_with reg rec) (gov_abs g) = lg_with_accounts (<[id := a']> (lg_accounts (gov_abs g))) (gov_abs g) ->
  keeps op true g'.
Proof.
  intros Hop Hcur Hh Hbk Hal Hi' Hu Hg' Ea' Eff. unfold keeps.
  destruct (current_account id gen rec reg Hcur Hh Hbk) as [Hac Hg].
  assert (gov_abs g' = effect op id (account_with reg rec) (gov_abs g)) as ->.
  { rewrite Eff. pose proof (abs_set g g' id reg' rec' Hi Hi' (ru_records _ _ _ _ _ Hu) (ru_sets _ _ _ _ _ Hu) Hg') as Ea.
    rewrite Ea' in Ea. unfold gov_abs, lg_with_accounts in *. simpl in *.
    by rewrite Ea, (ru_retired _ _ _ _ _ Hu), (ru_next _ _ _ _ _ Hu), (ru_initialized _ _ _ _ _ Hu),
      (ru_capacity _ _ _ _ _ Hu). }
  by apply (ls_handle op id gen).
Qed.

Lemma pin_keeps id gen :
  exists g' res, pin_locked id gen g = Some (g', res) /\ keeps (GPin id gen) (result_ok res) g'.
Proof.
  destruct (pin_locked_cases g id gen Hi) as (g' & res & E & Hi' & Hc). exists g', res. split; [done|].
  destruct res as [u|f]; simpl result_ok.
  - destruct Hc as (rec & reg & Hcur & Hh & Hbk & Hu & _).
    refine (updated_keeps (GPin id gen) id gen rec reg _ _ _ g' eq_refl Hcur Hh Hbk I Hi' Hu _ eq_refl _).
    + simpl. destruct Hh as (_ & _ & _ & ->). by destruct Hcur.
    + reflexivity.
  - destruct Hc as (-> & Hno & _). apply (refused_keeps (GPin id gen) id gen eq_refl).
    intros rec reg Hcur _ _ _. by apply (Hno rec).
Qed.

Lemma unpin_keeps id gen :
  exists g' res, unpin_locked id gen g = Some (g', res) /\ keeps (GUnpin id gen) (result_ok res) g'.
Proof.
  destruct (unpin_locked_cases g id gen Hi) as (g' & res & E & Hi' & Hc). exists g', res. split; [done|].
  destruct res as [u|f]; simpl result_ok.
  - destruct Hc as (rec & reg & Hcur & Hh & Hbk & Hp & Hu & _).
    refine (updated_keeps (GUnpin id gen) id gen rec reg _ _ _ g' eq_refl Hcur Hh Hbk Hp Hi' Hu _ eq_refl _).
    + simpl. destruct Hh as (_ & _ & _ & ->). by destruct Hcur.
    + reflexivity.
  - destruct Hc as (-> & Hwhy). apply (refused_keeps (GUnpin id gen) id gen eq_refl). intros rec reg Hcur Hh _ Hal.
    destruct Hwhy as [[Hno _]|(rec' & reg' & _ & Hh' & _ & Hp & _)]; [by apply (Hno rec)|].
    apply Hal. simpl. by rewrite (held_unique _ _ _ _ _ _ (gi_arena _ Hi) Hh Hh').
Qed.

Lemma relocate_keeps id gen no ns :
  in_u64 no -> in_u64 ns ->
  let p := apply_relocation id gen no ns g in keeps (GRelocate id gen no ns) (result_ok p.2) p.1.
Proof.
  intros Hno Hns. pose proof (apply_relocation_cases g id gen no ns Hi Hno Hns) as Hc.
  assert (Ht : forall rec, current g id gen rec ->
    target_ok (gov_arena g) no ns (rec_alignment rec)
    <-> is_pow2 (rec_alignment rec) = true /\ 0 < ns /\ no mod rec_alignment rec = 0
        /\ vacant (lg_capacity (gov_abs g)) (lg_arena (gov_abs g)) no ns).
  { intros rec _. unfold target_ok. rewrite abs_vacant, (gi_capacity _ Hi) by done. unfold in_u64 in Hno.
    split; [intros (? & ? & ? & ? & ?)|intros (? & ? & ? & _ & ? & ?)]; split_and!; try done; lia. }
  destruct (apply_relocation id gen no ns g) as [g' [h|f]]; simpl fst; simpl snd; destruct Hc as [Hi' Hc].
  - destruct Hc as (rec & reg & Hcur & Hh & Hbk & Hpc & Htk & Hu & _). cbv zeta in Hu.
    apply (Ht rec Hcur) in Htk as (_ & H1 & H2 & H3).
    refine (updated_keeps (GRelocate id gen no ns) id gen rec reg _ _ _ g' eq_refl Hcur Hh Hbk _ Hi' Hu eq_refl eq_refl _).
    + by split_and!.
    + simpl. do 2 f_equal. unfold account_with, ac_moved. simpl. by destruct Hcur as [_ ->].
  - destruct Hc as (-> & Hwhy). apply (refused_keeps (GRelocate id gen no ns) id gen eq_refl).
    intros rec reg Hcur Hh Hbk (Hpc & H1 & H2 & H3). simpl in Hpc, H2.
    destruct Hwhy as [[Hn _]|(rec' & Hc' & [[Hp _]|(_ & Hnt & _)])]; [by apply (Hn rec)|..];
      destruct Hcur as [Hf Hg], Hc' as [Hf' Hg']; simplify_eq.
    + lia.
    + apply Hnt, Ht; [done|]. by destruct (bk_pow2 _ _ Hbk).
Qed.

Lemma pressure_keeps : keeps GPressure true (pressure_locked g).1.
Proof.
  unfold keeps. pose proof (pressure_locked_inv g Hi) as Hi'.
  assert (Ea : lg_accounts (gov_abs (pressure_locked g).1) = lg_accounts (gov_abs g)).
  { apply map_eq. intros id. apply option_eq. intros a. rewrite !abs_account by done.
    assert (Hh : forall gen reg, held (gov_arena (pressure_locked g).1) id gen reg <-> held (gov_arena g) id gen reg).
    { intros gen reg. unfold pressure_locked, held. simpl. unfold ensure_summary. by case_match. }
    split; intros (rec & reg & Hc & Hr & Hx); exists rec, reg; (split; [exact Hc|split; [by apply Hh|exact Hx]]). }
  assert (gov_abs (pressure_locked g).1 = gov_abs g) as ->; [|apply ls_pressure].
  unfold gov_abs in *. simpl in *. by rewrite Ea.
Qed.

Lemma restore_keeps s : restorable s -> keeps (GRestore s) true (restore s g).1.
Proof.
  intros Hs. unfold keeps.
  assert (gov_abs (restore s g).1
    = mk_ledger ∅ (closed_by s) (ps_next_alloc_id s) false (managed_capacity (ps_domain s))) as ->; [|apply ls_restore].
  assert (Ec : rec_generation <$> (list_to_map (gov_retired (restore s g).1) : gmap AllocationId AllocationRecord)
    = closed_by s).
  { apply map_eq. intros id. apply option_eq. intros gen. rewrite lookup_fmap, om_to_map. unfold closed_by.
    rewrite <- elem_of_list_to_map.
    2: { rewrite <- list_fmap_compose. exact (rs_distinct _ Hs). }
    split.
    - destruct (om_find id _) as [rec|] eqn:Hf; [|done]. intros [= <-].
      apply (restored_find s g id rec Hs) in Hf as [<- Hin].
      apply list_elem_of_fmap. destruct Hin as [Hin|(r & Hin & ->)].
      + exists rec. split; [done|]. apply elem_of_app. by right.
      + exists r. split; [done|]. apply elem_of_app. by left.
    - intros (r & [= -> ->] & Hin)%list_elem_of_fmap. apply elem_of_app in Hin as [Hin|Hin].
      + assert (om_find (rec_id r) (gov_retired (restore s g).1) = Some (recovered r)) as ->; [|done].
        apply (restored_find s g _ _ Hs). split; [done|]. right. by exists r.
      + assert (om_find (rec_id r) (gov_retired (restore s g).1) = Some r) as ->; [|done].
        apply (restored_find s g _ _ Hs). split; [done|]. by left. }
  unfold gov_abs. rewrite Ec. reflexivity.
Qed.

(** Every call. *)
Lemma gov_step_keeps op :
  gov_op_ok op g -> exists g' ok, gov_step be op g = Some (g', ok) /\ keeps op ok g'.
Proof.
  intros Hop. destruct op as [|req|id gen wb sb|id gen|id gen|id gen no ns| |s]; simpl in Hop |- *.
  - eexists _, _. split; [done|]. apply initialize_keeps.
  - destruct (request_keeps req (proj1 Hop) (proj2 Hop)) as (g' & res & -> & Hk). by eexists _, _.
  - eexists _, _. split; [done|]. apply release_keeps.
  - destruct (pin_keeps id gen) as (g' & res & -> & Hk). by eexists _, _.
  - destruct (unpin_keeps id gen) as (g' & res & -> & Hk). by eexists _, _.
  - destruct Hop as (Hno & Hns & _). eexists _, _. split; [done|]. by apply relocate_keeps.
  - eexists _, _. split; [done|]. apply pressure_keeps.
  - eexists _, _. split; [done|]. by apply restore_keeps.
Qed.
End simulation.

(** ** Runs *)

(** Calls with whether they were granted, the last first. *)
Inductive gov_trace {B} (be : IBackend B) (d : MemoryDomain) : list (gov_op * bool) -> MemoryGovernor B -> Prop :=
  | gt_new b : gov_trace be d [] (MemoryGovernor_new d b)
  | gt_step tr g op g' ok :
      gov_trace be d tr g -> gov_op_ok op g -> gov_step be op g = Some (g', ok) ->
      gov_trace be d ((op, ok) :: tr) g'.

Inductive ledger_trace (cap : Z) : list (gov_op * bool) -> ledger -> Prop :=
  | lt_new : ledger_trace cap [] (mk_ledger ∅ ∅ 1 false cap)
  | lt_step tr L op ok L' :
      ledger_trace cap tr L -> ledger_step op L ok L' -> ledger_trace cap ((op, ok) :: tr) L'.

(** C2: the governor is a ledger.  Whatever calls it is given, with
    whatever answers, the same calls with the same answers are a run of the abstract ledger that
    starts empty, and the ledger it reaches is the abstraction of the governor; and in every
    state each further call returns and is a step of the ledger.  So a call on a handle is
    granted exactly when the account of its id has that generation and allows it, a request is
    granted only at an aligned interval that no account holds and refused only when it is
    malformed, the governor is closed or there is no such interval, and no other account
    changes. *)
Theorem governor_refines_ledger {B} (be : IBackend B) d tr (g : MemoryGovernor B) :
  0 < managed_capacity d < U64 -> gov_trace be d tr g ->
  ledger_trace (managed_capacity d) tr (gov_abs g)
  /\ forall op, gov_op_ok op g ->
       exists g' ok, gov_step be op g = Some (g', ok) /\ ledger_step op (gov_abs g) ok (gov_abs g').
Proof.
  intros Hd Ht. enough (gov_inv g /\ ledger_trace (managed_capacity d) tr (gov_abs g)) as [Hi Hl].
  { split; [exact Hl|]. intros op Hop. exact (gov_step_keeps be g Hi op Hop). }
  induction Ht as [b|tr g op g' ok _ [Hi Hl] Hop E].
  - split; [by apply MemoryGovernor_new_inv|].
    assert (gov_abs (MemoryGovernor_new d b) = mk_ledger ∅ ∅ 1 false (managed_capacity d)) as ->; [|constructor].
    unfold gov_abs. simpl. f_equal; apply fmap_empty.
  - destruct (gov_step_keeps be g Hi op Hop) as (g1 & ok1 & E1 & Hk). rewrite E in E1. injection E1 as <- <-.
    destruct (gov_step_inv be op g Hi Hop) as (g2 & ok2 & E2 & Hi2). rewrite E in E2. injection E2 as <- <-.
    split; [done|]. by apply (lt_step _ tr (gov_abs g)).
Qed.

(** A run has a trace. *)
Lemma run_with_trace {B} (be : IBackend B) P d (g : MemoryGovernor B) :
  run_with be P d g -> exists tr, gov_trace be d tr g.
Proof.
  induction 1 as [b|g op g' ok _ [tr IH] Hop _ E]; [by eexists; apply gt_new|].
  eexists. by apply (gt_step be d tr g op).
Qed.

(** The ledger of the state with one live and one released allocation. *)
Example gov4_ledger :
  gov_abs gov4 = mk_ledger {[mk_id 2 := mk_account (mk_gen 1) 128 256 64 0 0 (mk_gen 4) (mk_gen 5)]}
                   {[mk_id 1 := mk_gen 1]} 3 true 4096.
Proof. vm_compute. reflexivity. Qed.

Lemma governor_refines_ledger_witness :
  exists g' ok, gov_step demo_backend (GPin (mk_id 2) (mk_gen 1)) gov4 = Some (g', ok)
    /\ ledger_step (GPin (mk_id 2) (mk_gen 1)) (gov_abs gov4) ok (gov_abs g').
Proof.
  destruct (run_with_trace _ _ _ _ gov4_run) as [tr Ht].
  destruct (governor_refines_ledger demo_backend gov_domain0 tr gov4 gov_domain0_ok Ht) as [_ Hs].
  exact (Hs (GPin (mk_id 2) (mk_gen 1)) I).
Defined.
