(* ===== verification/PageProps.v ===== *)
(** What page-sized requests are promised. *)
From S2P Require Import Prelude Words Ordered Types Floats Region RegionInv RegionAlloc.
From S2P Require Import RegionFree RegionReloc RegionQuery RegionSpec Pressure Request Bytes.
From S2P Require Import Persist PersistInv Governor GovernorInv GovernorOps GovernorSpec.
From S2P Require Import GovernorProps Pages.
Open Scope Z_scope.

(** C16: whole pages do not fragment.  In every state a governor reaches when
    all requests round up to a multiple of [s] bytes with an alignment that divides [s], and all
    moves go to multiples of [s], whatever is released, pinned or restored in between, an
    admitted request that rounds up to [s] bytes is granted exactly when [s] bytes are free in
    total; no free byte total is ever useless because it lies in pieces. *)
Theorem pages_never_fragment {B} (be : IBackend B) s d g req :
  0 < managed_capacity d < U64 -> 0 < s -> page_run be s d g ->
  request_words req -> gov_next_alloc_id g + 1 < U64 -> admitted g req ->
  round_up (rq_bytes req) (rq_alignment req) = s ->
  exists g' res, request req g = Some (g', res)
    /\ (result_ok res = true <-> s <= managed_capacity (gov_domain g) - ra_live_bytes (gov_arena g)).
Proof.
  intros Hd Hs Hr Hw Hn Ha Hrq. destruct (page_run_paged be s Hs d g Hd Hr) as [Hi Hp].
  destruct (page_request s Hs g req Hi Hp Hw Hn Ha Hrq) as (g' & res & E & _ & Hok). eauto.
Qed.

(** Two allocations, the second released: pages of 128 bytes. *)
Lemma gov4_pages : page_run demo_backend 128 gov_domain0 gov4.
Proof.
  refine (run_with_impl demo_backend _ _ _ _ _ gov4_run). intros op g Hop. unfold gov4_ops in Hop.
  rewrite !elem_of_cons in Hop. destruct Hop as [->|[->|[->|[->|[]%not_elem_of_nil]]]];
    exact I || (split; vm_compute; reflexivity).
Qed.

Lemma pages_never_fragment_witness :
  exists g' res, request (gov_req 100 64 false) gov4 = Some (g', res) /\ result_ok res = true.
Proof.
  destruct (pages_never_fragment demo_backend 128 gov_domain0 gov4 (gov_req 100 64 false) gov_domain0_ok
    ltac:(lia) gov4_pages ltac:(repeat split; vm_compute; congruence) ltac:(vm_compute; reflexivity)
    ltac:(split; vm_compute; reflexivity) ltac:(vm_compute; reflexivity)) as (g' & res & E & Hok).
  exists g', res. split; [exact E|]. apply Hok. vm_compute. discriminate.
Defined.
