(* ===== verification/Concurrent.v ===== *)
(** Threads that share one governor.

    Every public method of src/governed_memory.cpp that touches the state starts with
    [std::lock_guard<std::mutex> lk(mutex_)] and calls no other public method, so a call is:
    take the mutex, run the body, give the mutex back.  A system is the governor, the owner
    of the mutex and the threads; a step is one of the three phases of one thread's call. *)
From S2P Require Import Prelude Words Ordered Types Floats Region RegionInv RegionAlloc RegionFree.
From S2P Require Import RegionReloc RegionQuery RegionSpec Pressure Request Bytes Persist.
From S2P Require Import PersistInv Governor GovernorInv GovernorOps GovernorSpec GovernorProps.
Open Scope Z_scope.

(** ** Threads *)

(** Where a thread is in a call: outside, in the body, or after it with the result. *)
Inductive Phase : Set :=
  | Outside
  | Inside (op : gov_op)
  | Leaving (op : gov_op) (ok : bool).

(** [th_done] is what the calls of the thread have returned. *)
Record Thread : Set := mk_thread {
  th_todo : list gov_op;
  th_phase : Phase;
  th_done : list (gov_op * bool);
}.

Definition holds_mutex (t : Thread) : bool :=
  match th_phase t with Outside => false | _ => true end.

(** Who did what, with which outcome, in the order of the bodies. *)
Record Event : Set := mk_event { ev_thread : nat; ev_op : gov_op; ev_ok : bool }.

Definition events_of (i : nat) (es : list Event) : list (gov_op * bool) :=
  (fun e => (ev_op e, ev_ok e)) <$> List.filter (fun e => Nat.eqb (ev_thread e) i) es.

Section concurrent.
Context {B : Type} (be : IBackend B).
Implicit Types (g : MemoryGovernor B).

Record System : Type := mk_system {
  sy_gov : MemoryGovernor B;
  sy_owner : option nat;
  sy_threads : list Thread;
}.

Definition start g (programs : list (list gov_op)) : System :=
  mk_system g None ((fun p => mk_thread p Outside []) <$> programs).

(** One step: the constructor of the lock guard, the body, its destructor. *)
Inductive sys_step (s : System) : list Event -> System -> Prop :=
  | s_lock i op rest done :
      sy_owner s = None -> sy_threads s !! i = Some (mk_thread (op :: rest) Outside done) ->
      sys_step s []
        (mk_system (sy_gov s) (Some i) (<[i := mk_thread rest (Inside op) done]> (sy_threads s)))
  | s_body i op rest done g ok :
      sy_threads s !! i = Some (mk_thread rest (Inside op) done) ->
      gov_step be op (sy_gov s) = Some (g, ok) ->
      sys_step s [mk_event i op ok]
        (mk_system g (sy_owner s) (<[i := mk_thread rest (Leaving op ok) done]> (sy_threads s)))
  | s_unlock i op ok rest done :
      sy_threads s !! i = Some (mk_thread rest (Leaving op ok) done) ->
      sys_step s []
        (mk_system (sy_gov s) None
           (<[i := mk_thread rest Outside (done ++ [(op, ok)])]> (sy_threads s))).

Inductive runs (s0 : System) : list Event -> System -> Prop :=
  | runs_nil : runs s0 [] s0
  | runs_snoc es s es' s' : runs s0 es s -> sys_step s es' s' -> runs s0 (es ++ es') s'.

(** The same calls one after the other. *)
Inductive executes g : list (gov_op * bool) -> MemoryGovernor B -> Prop :=
  | ex_nil : executes g [] g
  | ex_snoc l g1 op g2 ok :
      executes g l g1 -> gov_step be op g1 = Some (g2, ok) -> executes g (l ++ [(op, ok)]) g2.

(** ** What holds in every run *)

(** The mutex is owned by the one thread that is in a call, if there is one. *)
Definition mutex_ok (s : System) : Prop :=
  (forall i t, sy_threads s !! i = Some t -> holds_mutex t = true <-> sy_owner s = Some i)
  /\ forall i, sy_owner s = Some i -> is_Some (sy_threads s !! i).

(** What a thread has returned or is about to return, and what it has still to run. *)
Definition returned (t : Thread) : list (gov_op * bool) :=
  th_done t ++ match th_phase t with Leaving op ok => [(op, ok)] | _ => [] end.

Definition remaining (t : Thread) : list gov_op :=
  match th_phase t with Inside op => op :: th_todo t | _ => th_todo t end.

(** Each thread has seen the results of its own calls, in its own order. *)
Definition threads_ok (programs : list (list gov_op)) (es : list Event) (s : System) : Prop :=
  length (sy_threads s) = length programs
  /\ forall i t p, sy_threads s !! i = Some t -> programs !! i = Some p ->
       events_of i es = returned t /\ p = (events_of i es).*1 ++ remaining t.

Lemma events_of_app i es es' : events_of i (es ++ es') = events_of i es ++ events_of i es'.
Proof. unfold events_of. by rewrite List.filter_app, fmap_app. Qed.

Lemma start_mutex g programs : mutex_ok (start g programs).
Proof.
  split; [|done]. intros i t Ht. apply list_lookup_fmap_Some in Ht as (p & -> & _). done.
Qed.

Lemma sys_step_mutex s es s' : mutex_ok s -> sys_step s es s' -> mutex_ok s'.
Proof.
  intros [Hm Hown] Hs. split; [|destruct Hs; simpl in *; intros j Hj; simplify_eq;
    apply lookup_lt_is_Some; rewrite length_insert; try (by eapply lookup_lt_Some);
    by apply lookup_lt_is_Some, Hown].
  destruct Hs as [i op rest dn Ho Ht|i op rest dn g ok Ht _|i op ok rest dn Ht];
    intros j t Hj; simpl in *; pose proof (lookup_lt_Some _ _ _ Ht) as Hlt;
    pose proof (Hm i _ Ht) as Hi; simpl in Hi;
    destruct (decide (j = i)) as [->|Hne];
    try (rewrite list_lookup_insert_eq in Hj by done; injection Hj as <-);
    try (rewrite list_lookup_insert_ne in Hj by done; specialize (Hm j t Hj)).
  - done.
  - rewrite Hm, Ho. split; [done|congruence].
  - done.
  - done.
  - done.
  - rewrite Hm. split; [|done]. destruct Hi as [Hi _]. specialize (Hi eq_refl). congruence.
Qed.

Lemma runs_mutex g programs es s : runs (start g programs) es s -> mutex_ok s.
Proof.
  induction 1 as [|es s es' s' _ IH Hs]; [apply start_mutex|by eapply sys_step_mutex].
Qed.

Lemma events_of_one i j op ok :
  events_of i [mk_event j op ok] = if decide (j = i) then [(op, ok)] else [].
Proof. unfold events_of; simpl. destruct (Nat.eqb_spec j i), (decide (j = i)); done. Qed.

Lemma sys_step_threads programs es0 s es s' :
  threads_ok programs es0 s -> sys_step s es s' -> threads_ok programs (es0 ++ es) s'.
Proof.
  intros [Hlen Hts] Hs. destruct Hs as [i op rest dn Ho Ht|i op rest dn g ok Ht _|i op ok rest dn Ht];
    (split; [simpl; by rewrite length_insert|]); intros j t p Hj Hp; simpl in *;
    pose proof (lookup_lt_Some _ _ _ Ht) as Hlt; rewrite events_of_app; rewrite ?events_of_one;
    destruct (decide (j = i)) as [->|Hne];
    first [rewrite list_lookup_insert_eq in Hj by done|rewrite list_lookup_insert_ne in Hj by done];
    try (injection Hj as <-; destruct (Hts i _ p Ht Hp) as [E1 E2]);
    try (destruct (Hts j t p Hj Hp) as [E1 E2]); unfold returned, remaining in *; simpl in *;
    rewrite ?decide_True, ?(decide_False (P := i = j)), ?app_nil_r in * by done; auto.
  - rewrite E1. split; [done|]. rewrite E2, E1, fmap_app. simpl. by rewrite <- app_assoc.
Qed.

Lemma start_threads g programs : threads_ok programs [] (start g programs).
Proof.
  split; [simpl; by rewrite length_fmap|]. intros i t p Ht Hp. simpl in Ht.
  rewrite list_lookup_fmap, Hp in Ht. injection Ht as <-. done.
Qed.

Lemma runs_threads g programs es s :
  runs (start g programs) es s -> threads_ok programs es s.
Proof.
  induction 1 as [|es s es' s' _ IH Hs]; [apply start_threads|by eapply sys_step_threads].
Qed.

Lemma runs_executes g programs es s :
  runs (start g programs) es s ->
  executes g ((fun e => (ev_op e, ev_ok e)) <$> es) (sy_gov s).
Proof.
  induction 1 as [|es s es' s' _ IH Hs]; [constructor|]. rewrite fmap_app.
  destruct Hs; simpl; rewrite ?app_nil_r; [done| |done]. by eapply ex_snoc.
Qed.

(** ** Progress *)

(** Steps a thread has still to take. *)
Definition cost (t : Thread) : Z :=
  3 * Z.of_nat (length (th_todo t))
  + match th_phase t with Outside => 0 | Inside _ => 2 | Leaving _ _ => 1 end.

Definition sys_cost (s : System) : Z := zsum cost (sy_threads s).

Lemma sys_step_cost s es s' : sys_step s es s' -> sys_cost s' = sys_cost s - 1.
Proof.
  intros Hs. unfold sys_cost. destruct Hs as [? ? ? ? ? Ht|? ? ? ? ? ? Ht ?|? ? ? ? ? Ht]; simpl;
    rewrite (zsum_insert cost _ _ _ _ Ht); unfold cost; simpl; lia.
Qed.

Lemma sys_cost_zero s : sys_cost s = 0 <-> forall i t, sy_threads s !! i = Some t -> cost t = 0.
Proof.
  unfold sys_cost. assert (Hn : forall t, 0 <= cost t) by (intros [todo [] dn]; unfold cost; simpl; lia).
  generalize (sy_threads s) as l. induction l as [|t l IH]; [split; [done|done]|].
  rewrite zsum_cons. pose proof (Hn t). pose proof (zsum_nonneg cost l (fun t _ => Hn t)). split.
  - intros Hz [|i] t' Ht; simplify_eq/=; [lia|]. apply (proj1 IH ltac:(lia) i t' Ht).
  - intros Hall. rewrite (Hall 0%nat t eq_refl). apply IH. intros i. apply (Hall (S i)).
Qed.

(** The bodies that are about to run are calls the governor's theorems cover. *)
Definition bodies_ok (s : System) : Prop :=
  forall i t op, sy_threads s !! i = Some t -> th_phase t = Inside op -> gov_op_ok op (sy_gov s).

Lemma sys_progress s :
  mutex_ok s -> gov_inv (sy_gov s) -> bodies_ok s -> sys_cost s <> 0 -> exists es s', sys_step s es s'.
Proof.
  intros [Hm Hown] Hi Hb Hc. destruct (sy_owner s) as [i|] eqn:Ho.
  - destruct (Hown i eq_refl) as [[todo ph dn] Ht]. pose proof (proj2 (Hm i _ Ht) eq_refl) as Hh.
    destruct ph as [|op|op ok]; [done| |].
    + destruct (gov_step_inv be op (sy_gov s) Hi (Hb i _ op Ht eq_refl)) as (g & ok & E & _).
      eexists _, _. by eapply s_body.
    + eexists _, _. by eapply s_unlock.
  - assert (Hex : exists i t, sy_threads s !! i = Some t /\ cost t <> 0).
    { destruct (decide (Exists (fun t => cost t <> 0) (sy_threads s))) as [He|He].
      - apply Exists_exists in He as (t & [i Hi']%list_elem_of_lookup & Ht). by exists i, t.
      - destruct Hc. apply sys_cost_zero. intros i t Ht. destruct (decide (cost t = 0)); [done|].
        destruct He. apply Exists_exists. exists t. split; [by eapply list_elem_of_lookup_2|done]. }
    destruct Hex as (i & [todo ph dn] & Ht & Hct). pose proof (Hm i _ Ht) as Hh.
    destruct ph as [|op|op ok]; [|by destruct Hh as [Hh _]; specialize (Hh eq_refl)..].
    destruct todo as [|op rest]; [done|]. eexists _, _. by eapply s_lock.
Qed.

(** ** Theorems *)

(** Threads that share a governor cannot tell it from one that serves
    one call at a time.  However the steps of the threads interleave, at most one thread is
    in a call, the state of the governor is the one that the bodies produce when the same
    calls run one after the other in the order in which they held the mutex, and each
    thread has got, in its own program order, exactly the results of that execution. *)
Theorem concurrent_linearizable g programs es s :
  runs (start g programs) es s ->
  executes g ((fun e => (ev_op e, ev_ok e)) <$> es) (sy_gov s)
  /\ (forall i t p, sy_threads s !! i = Some t -> programs !! i = Some p ->
        events_of i es = returned t /\ p = (events_of i es).*1 ++ remaining t)
  /\ forall i j t u, sy_threads s !! i = Some t -> sy_threads s !! j = Some u ->
        holds_mutex t = true -> holds_mutex u = true -> i = j.
Proof.
  intros Hr. split; [by eapply runs_executes|]. split; [by eapply runs_threads|].
  intros i j t u Hi Hj Ht Hu. destruct (runs_mutex _ _ _ _ Hr) as [Hm _].
  apply (Hm i t Hi) in Ht. apply (Hm j u Hj) in Hu. congruence.
Qed.

(** No call waits for ever.  As long as some thread has a call to make or to
    finish, and the bodies are calls on a consistent governor, some thread can take a step;
    every step brings the end one step nearer, and at the end every thread has returned
    from all its calls. *)
Theorem calls_return g programs es s :
  runs (start g programs) es s -> gov_inv (sy_gov s) -> bodies_ok s ->
  (sys_cost s <> 0 -> exists es' s', sys_step s es' s')
  /\ (forall es' s', sys_step s es' s' -> sys_cost s' = sys_cost s - 1)
  /\ (sys_cost s = 0 -> forall i t p, sy_threads s !! i = Some t -> programs !! i = Some p ->
        th_phase t = Outside /\ th_todo t = [] /\ (th_done t).*1 = p).
Proof.
  intros Hr Hi Hb. split; [|split].
  - apply sys_progress; [by eapply runs_mutex|done..].
  - intros es' s'. apply sys_step_cost.
  - intros Hz i t p Ht Hp. pose proof (proj1 (sys_cost_zero s) Hz i t Ht) as Hc.
    destruct (proj2 (runs_threads _ _ _ _ Hr) i t p Ht Hp) as [E1 E2].
    destruct t as [todo ph dn]. unfold cost in Hc; simpl in Hc.
    destruct ph, todo; simpl in Hc; try lia. rewrite E2, E1. unfold returned, remaining; simpl.
    by rewrite !app_nil_r.
Qed.
End concurrent.

(** ** Two threads, one allocation each *)

Definition demo_programs : list (list gov_op) :=
  [[GRequest (gov_req 100 64 false)]; [GRequest (gov_req 200 64 false)]].

(** The second thread has returned, the first is in its call. *)
Definition demo_system : System :=
  mk_system (gov_run [GInitialize; GRequest (gov_req 200 64 false)]) (Some 0%nat)
    [mk_thread [] (Inside (GRequest (gov_req 100 64 false))) [];
     mk_thread [] Outside [(GRequest (gov_req 200 64 false), true)]].

Definition demo_events : list Event := [mk_event 1 (GRequest (gov_req 200 64 false)) true].

Lemma demo_runs : runs demo_backend (start gov1 demo_programs) demo_events demo_system.
Proof.
  assert (E : gov_step demo_backend (GRequest (gov_req 200 64 false)) gov1
              = Some (gov_run [GInitialize; GRequest (gov_req 200 64 false)], true))
    by (vm_compute; reflexivity).
  pose proof (runs_nil demo_backend (start gov1 demo_programs)) as R.
  eapply runs_snoc in R; [|eapply (s_lock _ _ 1); reflexivity].
  eapply runs_snoc in R; [|eapply (s_body _ _ 1); [reflexivity|exact E]].
  eapply runs_snoc in R; [|eapply (s_unlock _ _ 1); reflexivity].
  eapply runs_snoc in R; [|eapply (s_lock _ _ 0); reflexivity].
  exact R.
Qed.

Lemma concurrent_linearizable_witness :
  executes demo_backend gov1 [(GRequest (gov_req 200 64 false), true)] (sy_gov demo_system).
Proof. apply (concurrent_linearizable demo_backend gov1 demo_programs demo_events demo_system demo_runs). Defined.

Lemma demo_gov_inv : gov_inv (sy_gov demo_system).
Proof.
  apply (gov_reachable_inv demo_backend gov_domain0 _ gov_domain0_ok).
  apply (gr_step _ _ gov1 (GRequest (gov_req 200 64 false)) _ true);
    [exact gov1_reachable|repeat split; vm_compute; congruence|vm_compute; reflexivity].
Qed.

Lemma demo_bodies : bodies_ok demo_system.
Proof.
  intros [|[|i]] t op Ht Hp; simplify_eq/=.
  repeat split; vm_compute; congruence.
Qed.

Lemma calls_return_witness : exists es' s', sys_step demo_backend demo_system es' s'.
Proof.
  apply (calls_return demo_backend gov1 demo_programs demo_events demo_system demo_runs demo_gov_inv
    demo_bodies). vm_compute. discriminate.
Defined.
