(* ===== verification/Contents.v ===== *)
(** What an allocation is for: its bytes.

    The governor hands out offsets into the arena of its backend; the bytes are written by its
    clients, and moved by them when they carry out a relocation (as tests/test_cuda_arena.cu
    does with [dev_at] and [cudaMemcpy]).  Here the memory of the arena is added to the
    governor, with clients that write through current handles, write into bytes that no allocation
    holds, call the governor, and copy an allocation before they call [apply_relocation], which
    other clients may interleave with.  The proofs use the ledger of Ledger.v,
    not the governor itself. *)
From S2P Require Import Prelude Words Ordered Types Floats Region RegionInv RegionAlloc RegionFree.
From S2P Require Import RegionReloc RegionQuery RegionSpec Pressure Request Bytes Persist.
From S2P Require Import PersistInv Governor GovernorInv GovernorOps GovernorSpec GovernorProps.
From S2P Require Import GovernorPolicy GovernorLaws Ledger LedgerProps.
Open Scope list_scope.
Open Scope Z_scope.

Section memory.
Context {V : Type}.
Implicit Types (mem : Z -> V).

(** A store at an offset of the arena. *)
Definition poke (a : Z) (v : V) mem : Z -> V := fun b => if b =? a then v else mem b.

(** [cudaMemcpy(base + dst, base + src, n, cudaMemcpyDeviceToDevice)]; the ranges are apart. *)
Definition copy (dst src n : Z) mem : Z -> V :=
  fun b => if (dst <=? b) && (b <? dst + n) then mem (src + (b - dst)) else mem b.

Lemma poke_same a v mem : poke a v mem a = v.
Proof. unfold poke. by rewrite Z.eqb_refl. Qed.

Lemma poke_other a v mem b : b <> a -> poke a v mem b = mem b.
Proof. intros Hn. unfold poke. by rewrite (proj2 (Z.eqb_neq _ _) Hn). Qed.

Lemma copy_inside dst src n mem i : 0 <= i < n -> copy dst src n mem (dst + i) = mem (src + i).
Proof.
  intros Hi. unfold copy. rewrite (proj2 (Z.leb_le _ _)), (proj2 (Z.ltb_lt _ _)) by lia. simpl. f_equal. lia.
Qed.

Lemma copy_outside dst src n mem b : ~ (dst <= b < dst + n) -> copy dst src n mem b = mem b.
Proof. intros Hn. unfold copy. destruct (Z.leb_spec dst b), (Z.ltb_spec b (dst + n)); simpl; try done. lia. Qed.

(** ** Clients of a governor *)

(** A byte written through a handle: the allocation, the index in it, and the value. *)
Abbreviation written := (AllocationId * Z * V)%type.

(** The last value written to each byte of each allocation. *)
Definition last_writes (tr : list written) : gmap (AllocationId * Z) V :=
  fold_left (fun m '(id, i, v) => <[(id, i) := v]> m) tr ∅.

Lemma last_writes_snoc tr id i v : last_writes (tr ++ [(id, i, v)]) = <[(id, i) := v]> (last_writes tr).
Proof. unfold last_writes. by rewrite fold_left_app. Qed.

Section clients.
Context {B : Type} (be : IBackend B).
Implicit Types (g : MemoryGovernor B) (h : AllocationHandle) (hs : list AllocationHandle).

(** The governor, the memory of its arena, and all handles it has given out. *)
Record Arena : Type := mk_arena {
  ar_gov : MemoryGovernor B;
  ar_mem : Z -> V;
  ar_handles : list AllocationHandle;
}.

(** Calls other than a move and a restore. *)
Definition in_place (op : gov_op) : bool :=
  match op with GRelocate _ _ _ _ | GRestore _ => false | _ => true end.

(** The handle of a granted request. *)
Definition granted (op : gov_op) g : list AllocationHandle :=
  match op with
  | GRequest req => match request req g with Some (_, Ok h) => [h] | _ => [] end
  | _ => []
  end.

(** [gov.get(h.id, h.generation).ok()]. *)
Definition current_handle h g : bool := result_ok (gov_get (h_id h) (h_generation h) g).

(** The bytes of the allocations are the same. *)
Definition allocations_kept g mem mem' : Prop :=
  forall id rec b, om_find id (gov_records g) = Some rec -> rec_offset rec <= b < rec_end rec -> mem' b = mem b.

(** A client calls the governor; writes a byte through a handle that is current; writes any bytes
    that no allocation holds (as when it copies to the target of a move); or has the governor
    apply a move to a place of at least the size, where the bytes of the allocation have been
    copied.  Between the copy and the move come any steps of others. *)
Inductive arena_step : Arena -> list written -> Arena -> Prop :=
  | as_call g mem hs op g' ok :
      in_place op = true -> gov_op_ok op g -> gov_step be op g = Some (g', ok) ->
      arena_step (mk_arena g mem hs) [] (mk_arena g' mem (granted op g ++ hs))
  | as_write g mem hs h i v :
      h ∈ hs -> current_handle h g = true -> 0 <= i < h_size h ->
      arena_step (mk_arena g mem hs) [(h_id h, i, v)] (mk_arena g (poke (h_offset h + i) v mem) hs)
  | as_scratch g mem hs mem' :
      allocations_kept g mem mem' -> arena_step (mk_arena g mem hs) [] (mk_arena g mem' hs)
  | as_move g mem hs h no ns g' h' :
      h ∈ hs -> gov_op_ok (GRelocate (h_id h) (h_generation h) no ns) g -> h_size h <= ns ->
      (forall i, 0 <= i < h_size h -> mem (no + i) = mem (h_offset h + i)) ->
      apply_relocation (h_id h) (h_generation h) no ns g = (g', Ok h') ->
      arena_step (mk_arena g mem hs) [] (mk_arena g' mem (h' :: hs)).

Inductive arena_runs (s0 : Arena) : list written -> Arena -> Prop :=
  | ar_nil : arena_runs s0 [] s0
  | ar_snoc tr s ws s' : arena_runs s0 tr s -> arena_step s ws s' -> arena_runs s0 (tr ++ ws) s'.
End clients.

(** ** On the ledger *)

Implicit Types (L : ledger) (h : AllocationHandle) (hs : list AllocationHandle).

(** A handle of an id that has been given out; when the account still has its generation, it
    says where the allocation is, and no account is of an older generation. *)
Definition handle_ok L h : Prop :=
  id_value (h_id h) < lg_next L
  /\ forall a, lg_accounts L !! h_id h = Some a ->
       gen_value (h_generation h) <= gen_value (ac_gen a)
       /\ (h_generation h = ac_gen a -> h_offset h = ac_off a /\ h_size h = ac_size a).

Definition apart (a1 a2 : account) : Prop := ac_off a1 + ac_size a1 <= ac_off a2 \/ ac_off a2 + ac_size a2 <= ac_off a1.

Record contents_ok L mem hs (m : gmap (AllocationId * Z) V) : Prop := {
  ct_ids id a : lg_accounts L !! id = Some a -> id_value id < lg_next L /\ 0 < ac_size a;
  ct_apart id1 id2 a1 a2 :
    lg_accounts L !! id1 = Some a1 -> lg_accounts L !! id2 = Some a2 -> id1 <> id2 -> apart a1 a2;
  ct_handles h : h ∈ hs -> handle_ok L h;
  ct_written id i v : m !! (id, i) = Some v ->
    id_value id < lg_next L
    /\ forall a, lg_accounts L !! id = Some a -> 0 <= i < ac_size a /\ mem (ac_off a + i) = v;
}.

(** An interval nobody holds is apart from every account. *)
Lemma vacant_apart L id a off n :
  lg_accounts L !! id = Some a -> 0 < ac_size a -> 0 < n -> vacant (lg_capacity L) (lg_arena L) off n ->
  ac_off a + ac_size a <= off \/ off + n <= ac_off a.
Proof.
  intros Ha Hs Hn (_ & _ & Hv). destruct (Z.le_gt_cases (ac_off a + ac_size a) off) as [|H1]; [by left|].
  destruct (Z.le_gt_cases (off + n) (ac_off a)) as [|H2]; [by right|]. exfalso.
  apply (Hv id (ac_extent a) (Z.max off (ac_off a))); [|lia|unfold in_extent, ac_extent; simpl; lia].
  unfold lg_arena. by rewrite lookup_fmap, Ha.
Qed.

(** What only the ids and accounts matter for. *)
Lemma contents_same L L' mem hs m :
  lg_accounts L' = lg_accounts L -> lg_next L <= lg_next L' -> contents_ok L mem hs m -> contents_ok L' mem hs m.
Proof.
  intros Ea Hn [Hi Hp Hh Hw]. constructor; unfold handle_ok; rewrite ?Ea; [|done|..].
  - intros id a Hf. destruct (Hi id a Hf). split; [lia|done].
  - intros h Hin. destruct (Hh h Hin). split; [lia|done].
  - intros id i v Hm. destruct (Hw id i v Hm). split; [lia|done].
Qed.

(** A new account where nobody is, with its handle. *)
Lemma contents_new L mem hs m a L' al :
  contents_ok L mem hs m ->
  lg_accounts L' = <[mk_id (lg_next L) := a]> (lg_accounts L) -> lg_next L' = lg_next L + 1 ->
  0 < ac_size a -> vacant (lg_capacity L) (lg_arena L) (ac_off a) (ac_size a) ->
  contents_ok L' mem (mk_handle (mk_id (lg_next L)) (ac_gen a) (ac_off a) (ac_size a) al :: hs) m.
Proof.
  intros [Hi Hp Hh Hw] Ea En Hs Hv. set (id := mk_id (lg_next L)) in *.
  assert (Hnew : forall id', id_value id' < lg_next L -> id' <> id) by (intros id' Hlt ->; simpl in Hlt; lia).
  assert (Hap : forall id' a', lg_accounts L !! id' = Some a' -> apart a a').
  { intros id' a' Hf. destruct (Hi _ _ Hf) as [_ Hs']. destruct (vacant_apart _ _ _ _ _ Hf Hs' Hs Hv); unfold apart; lia. }
  constructor; rewrite ?Ea, ?En.
  - intros id' a' [[<- <-]|[Hne Hf]]%lookup_insert_Some; [simpl; lia|]. destruct (Hi _ _ Hf). lia.
  - intros id1 id2 a1 a2 [[<- <-]|[Hn1 H1]]%lookup_insert_Some [[<- <-]|[Hn2 H2]]%lookup_insert_Some Hne; [done| | |].
    + by eapply Hap.
    + destruct (Hap _ _ H1); unfold apart; lia.
    + by eapply Hp.
  - intros h [->|Hin]%elem_of_cons; unfold handle_ok; rewrite Ea, En; simpl.
    + split; [lia|]. intros a'. rewrite lookup_insert_eq. by intros [= <-].
    + destruct (Hh _ Hin) as [Hlt Ha]. split; [lia|]. intros a'. rewrite lookup_insert_ne by (apply not_eq_sym; auto). apply Ha.
  - intros id' i v Hm. destruct (Hw _ _ _ Hm) as [Hlt Ha]. split; [lia|]. intros a'.
    rewrite lookup_insert_ne by (apply not_eq_sym; auto). apply Ha.
Qed.

(** An account that keeps its generation and its place. *)
Lemma contents_update L mem hs m id a a' :
  contents_ok L mem hs m -> lg_accounts L !! id = Some a ->
  ac_gen a' = ac_gen a -> ac_off a' = ac_off a -> ac_size a' = ac_size a ->
  contents_ok (lg_with_accounts (<[id := a']> (lg_accounts L)) L) mem hs m.
Proof.
  intros [Hi Hp Hh Hw] Ha Eg Eo Es.
  assert (Hback : forall id' b', <[id := a']> (lg_accounts L) !! id' = Some b' ->
    exists b, lg_accounts L !! id' = Some b /\ ac_gen b' = ac_gen b /\ ac_off b' = ac_off b /\ ac_size b' = ac_size b).
  { intros id' b' [[<- <-]|[Hne Hf]]%lookup_insert_Some; eauto. }
  constructor; simpl.
  - intros id' b' (b & Hf & _ & _ & ->)%Hback. eauto.
  - intros id1 id2 b1 b2 (c1 & H1 & _ & E1 & E1')%Hback (c2 & H2 & _ & E2 & E2')%Hback Hne.
    unfold apart. rewrite E1, E1', E2, E2'. by eapply Hp.
  - intros h Hin. destruct (Hh h Hin) as [Hlt Hb]. split; [done|]. simpl. intros b' (b & Hf & -> & -> & ->)%Hback. eauto.
  - intros id' i v Hm. destruct (Hw _ _ _ Hm) as [Hlt Hb]. split; [done|]. intros b' (b & Hf & _ & -> & ->)%Hback. eauto.
Qed.

(** An account that is closed. *)
Lemma contents_delete L mem hs m id L' :
  contents_ok L mem hs m -> lg_accounts L' = delete id (lg_accounts L) -> lg_next L' = lg_next L ->
  contents_ok L' mem hs m.
Proof.
  intros [Hi Hp Hh Hw] Ea En.
  assert (Hback : forall id' b, lg_accounts L' !! id' = Some b -> lg_accounts L !! id' = Some b).
  { intros id' b. rewrite Ea. by intros [_ Hf]%lookup_delete_Some. }
  constructor; rewrite ?En; eauto.
  - intros h Hin. destruct (Hh h Hin) as [Hlt Hb]. split; [by rewrite En|]. eauto.
  - intros id' i v Hm. destruct (Hw _ _ _ Hm). split; [done|]. eauto.
Qed.

(** Other bytes than those of the accounts. *)
Lemma contents_scratch L mem mem' hs m :
  contents_ok L mem hs m ->
  (forall id a i, lg_accounts L !! id = Some a -> 0 <= i < ac_size a -> mem' (ac_off a + i) = mem (ac_off a + i)) ->
  contents_ok L mem' hs m.
Proof.
  intros [Hi Hp Hh Hw] Hm. constructor; [done..|]. intros id i v Hv. destruct (Hw _ _ _ Hv) as [Hlt Hb].
  split; [done|]. intros a Ha. destruct (Hb a Ha) as [Hr <-]. split; [done|]. by apply (Hm id).
Qed.

(** A move to a place nobody holds, where the bytes are already. *)
Lemma contents_move L mem hs m id a no ns al :
  contents_ok L mem hs m -> lg_accounts L !! id = Some a -> ac_size a <= ns ->
  vacant (lg_capacity L) (lg_arena L) no ns ->
  0 <= gen_value (ac_gen a) -> gen_value (ac_gen a) + 1 < U64 ->
  (forall i, 0 <= i < ac_size a -> mem (no + i) = mem (ac_off a + i)) ->
  contents_ok (lg_with_accounts (<[id := ac_moved no ns a]> (lg_accounts L)) L)
    mem (mk_handle id (gen_next (ac_gen a)) no ns al :: hs) m.
Proof.
  intros [Hi Hp Hh Hw] Ha Hle Hv Hg0 Hg1 Hcp. assert (Hgn : gen_value (gen_next (ac_gen a)) = gen_value (ac_gen a) + 1)
    by (apply gen_next_value; unfold U64 in *; lia).
  destruct (Hi _ _ Ha) as [Hid Hs].
  assert (Hfar : forall id' b, lg_accounts L !! id' = Some b -> ac_off b + ac_size b <= no \/ no + ns <= ac_off b).
  { intros id' b Hf. destruct (Hi _ _ Hf) as [_ Hsb]. apply (vacant_apart L id'); try done. lia. }
  constructor; simpl.
  - intros id' b [[<- <-]|[_ Hf]]%lookup_insert_Some; simpl; [split; [done|lia]|eauto].
  - intros id1 id2 b1 b2 [[<- <-]|[Hn1 H1]]%lookup_insert_Some [[<- <-]|[Hn2 H2]]%lookup_insert_Some Hne;
      unfold apart; simpl; [done| | |by eapply Hp].
    + destruct (Hfar _ _ H2); lia.
    + destruct (Hfar _ _ H1); lia.
  - intros h [->|Hin]%elem_of_cons; unfold handle_ok; simpl.
    + split; [done|]. intros b. rewrite lookup_insert_eq. intros [= <-]. simpl. split; [lia|done].
    + destruct (Hh h Hin) as [Hlt Hb]. split; [done|].
      intros b [[E <-]|[_ Hf]]%lookup_insert_Some; [|by apply Hb]. simpl. subst id.
      destruct (Hb a Ha) as [Hge _]. split; [lia|]. intros E. rewrite E in Hge. lia.
  - intros id' i v Hm. destruct (Hw _ _ _ Hm) as [Hlt Hb]. split; [done|].
    intros b [[<- <-]|[Hne Hf]]%lookup_insert_Some; simpl.
    + destruct (Hb a Ha) as [Hr Hv']. split; [lia|]. by rewrite Hcp.
    + exact (Hb b Hf).
Qed.

(** A write through a handle whose generation the account has. *)
Lemma contents_write L mem hs m h a i v :
  contents_ok L mem hs m -> h ∈ hs -> lg_accounts L !! h_id h = Some a -> ac_gen a = h_generation h ->
  0 <= i < h_size h -> contents_ok L (poke (h_offset h + i) v mem) hs (<[(h_id h, i) := v]> m).
Proof.
  intros [Hi Hp Hh Hw] Hin Ha Hg Hr. destruct (Hh h Hin) as [Hid Hb].
  destruct (Hb a Ha) as [_ Hpl]. destruct (Hpl (eq_sym Hg)) as [Eo Es]. rewrite Eo. rewrite Es in Hr.
  constructor; [done|done|done|]. intros id' j v'. destruct (decide ((id', j) = (h_id h, i))) as [[= -> ->]|Hne].
  - rewrite lookup_insert_eq. intros [= <-]. split; [done|]. intros b Hf. rewrite Ha in Hf. injection Hf as <-.
    split; [done|]. apply poke_same.
  - rewrite lookup_insert_ne by done. intros Hm. destruct (Hw _ _ _ Hm) as [Hlt Hb']. split; [done|].
    intros b Hf. destruct (Hb' b Hf) as [Hj Hv]. split; [done|]. rewrite poke_other; [done|].
    destruct (decide (id' = h_id h)) as [->|Hid'].
    + rewrite Ha in Hf. injection Hf as <-. intros E. apply Hne. f_equal. lia.
    + pose proof (Hp _ _ _ _ Hf Ha Hid') as Hap. unfold apart in Hap. lia.
Qed.

(** The handles that a granted request may add. *)
Definition requested (op : gov_op) (ok : bool) L L' (new : list AllocationHandle) : Prop :=
  match op, ok with
  | GRequest req, true =>
      forall p, lg_accounts L' = <[mk_id (lg_next L) := new_account req p]> (lg_accounts L) ->
        new = [mk_handle (mk_id (lg_next L)) gen_first p (round_up (rq_bytes req) (rq_alignment req))
                 (rq_alignment req)]
  | _, _ => new = []
  end.

Lemma ledger_contents op L ok L' mem hs m new :
  ledger_step op L ok L' -> in_place op = true -> contents_ok L mem hs m -> requested op ok L L' new ->
  contents_ok L' mem (new ++ hs) m.
Proof.
  intros Hl Hp Hct Hn.
  destruct Hl as [L|L Ho|req L p Ho Hacc Hal Hv|req L n Hno Hle|op id gen a L Hh Ha Hg Hall|op id gen L Hh Hno|L|s L];
    simpl in Hn.
  - subst new. by eapply contents_same; [| |exact Hct].
  - by subst new.
  - rewrite (Hn p eq_refl). destruct Hacc as ([Hb _] & [k [Hk Ek]] & _).
    pose proof (round_up_bounds (rq_bytes req) (rq_alignment req) ltac:(rewrite Ek; lia)) as Hru.
    eapply (contents_new L mem hs m (new_account req p)); simpl; try done. lia.
  - subst new. eapply contents_same; [| |exact Hct]; simpl; [done|lia].
  - destruct op; try done; simpl in Hn, Hall |- *; subst new.
    + by eapply contents_delete.
    + by eapply contents_update.
    + by eapply contents_update.
  - destruct op; try done; simpl in Hn; by subst new.
  - by subst new.
  - done.
Qed.

Lemma ledger_move id gen no ns L L' :
  ledger_step (GRelocate id gen no ns) L true L' ->
  exists a, lg_accounts L !! id = Some a /\ ac_gen a = gen /\ vacant (lg_capacity L) (lg_arena L) no ns
    /\ L' = lg_with_accounts (<[id := ac_moved no ns a]> (lg_accounts L)) L.
Proof.
  intros Hl. inversion Hl as [| | | |op id' gen' a L0 Hh Ha Hg Hall| | |]; subst.
  simplify_eq/=. destruct Hall as (_ & _ & _ & Hv). by exists a.
Qed.

(** ** On the governor *)

Section governor.
Context {B : Type} (be : IBackend B).
Implicit Types (g : MemoryGovernor B).

(** The account of a granted request is the one its handle describes. *)
Lemma granted_handle g req g' h p :
  gov_inv g -> request_words req -> gov_next_alloc_id g + 1 < U64 -> request req g = Some (g', Ok h) ->
  lg_accounts (gov_abs g') = <[mk_id (gov_next_alloc_id g) := new_account req p]> (lg_accounts (gov_abs g)) ->
  h = mk_handle (mk_id (gov_next_alloc_id g)) gen_first p (round_up (rq_bytes req) (rq_alignment req)) (rq_alignment req).
Proof.
  intros Hi Hw Hn E Ea. destruct (request_cases g req Hi Hw Hn) as (g1 & res & E1 & _ & Hc).
  rewrite E in E1. injection E1 as <- <-. destruct Hc as (_ & r & Hq & ->). rewrite (aq_size _ _ _ _ Hq).
  assert (Hl : lg_accounts (gov_abs g') !! mk_id (gov_next_alloc_id g) = Some (new_account req p))
    by (rewrite Ea; apply lookup_insert_eq).
  simpl in Hl. rewrite lookup_fmap, om_to_map, (aq_records _ _ _ _ Hq), om_find_set_eq in Hl.
  apply (f_equal (fmap ac_off)) in Hl. simpl in Hl. by injection Hl as ->.
Qed.

Lemma moved_handle g id gen no ns g' h :
  gov_inv g -> gov_op_ok (GRelocate id gen no ns) g -> apply_relocation id gen no ns g = (g', Ok h) ->
  exists al, h = mk_handle id (gen_next gen) no ns al.
Proof.
  intros Hi (Hno & Hns & _) E. pose proof (apply_relocation_cases g id gen no ns Hi Hno Hns) as Hc.
  rewrite E in Hc. destruct Hc as [_ (rec & reg & _ & _ & _ & _ & _ & _ & _ & ->)]. by eexists.
Qed.

(** The generation of a handle that is current is that of the account. *)
Lemma current_handle_account h g :
  gov_inv g -> current_handle h g = true ->
  exists a, lg_accounts (gov_abs g) !! h_id h = Some a /\ ac_gen a = h_generation h.
Proof.
  intros Hi Hc. unfold current_handle in Hc. pose proof (gov_get_cases g (h_id h) (h_generation h) Hi) as Hg.
  destruct (gov_get _ _ g) as [rec|f]; [|done]. destruct Hg as [Hf Hg].
  eexists. simpl. rewrite lookup_fmap, om_to_map, Hf. split; [done|exact Hg].
Qed.

Lemma call_contents g op g' ok mem hs m :
  gov_inv g -> in_place op = true -> gov_op_ok op g -> gov_step be op g = Some (g', ok) ->
  contents_ok (gov_abs g) mem hs m -> contents_ok (gov_abs g') mem (granted op g ++ hs) m.
Proof.
  intros Hi Hp Hop E Hct. destruct (gov_step_keeps be g Hi op Hop) as (g1 & ok1 & E1 & Hl).
  rewrite E in E1. injection E1 as <- <-. apply (ledger_contents op (gov_abs g) ok); [done..|].
  unfold granted, requested. destruct op; try done. simpl in E.
  destruct (request req g) as [[g2 [h|f]]|] eqn:Er; simplify_eq/=; [|done]. intros p Ea. f_equal.
  destruct Hop. by apply (granted_handle g req g').
Qed.

Lemma move_contents g h no ns g' h' mem hs m :
  gov_inv g -> h ∈ hs -> gov_op_ok (GRelocate (h_id h) (h_generation h) no ns) g -> h_size h <= ns ->
  (forall i, 0 <= i < h_size h -> mem (no + i) = mem (h_offset h + i)) ->
  apply_relocation (h_id h) (h_generation h) no ns g = (g', Ok h') ->
  contents_ok (gov_abs g) mem hs m -> contents_ok (gov_abs g') mem (h' :: hs) m.
Proof.
  intros Hi Hin Hop Hle Hcp E Hct.
  destruct (gov_step_keeps be g Hi _ Hop) as (g1 & ok1 & E1 & Hl). simpl in E1. rewrite E in E1.
  injection E1 as <- <-. destruct (moved_handle _ _ _ _ _ _ _ Hi Hop E) as [al ->].
  destruct Hop as (_ & _ & Hg0 & Hg1). destruct (ledger_move _ _ _ _ _ _ Hl) as (a & Ha & Eg & Hv & ->).
  destruct (ct_handles _ _ _ _ Hct h Hin) as [_ Hb]. destruct (Hb a Ha) as [_ Hpl].
  destruct (Hpl (eq_sym Eg)) as [Eo Es]. rewrite <- Eg, Eo, Es in *. by apply contents_move.
Qed.

Lemma account_record g id a :
  gov_inv g -> lg_accounts (gov_abs g) !! id = Some a ->
  exists rec, om_find id (gov_records g) = Some rec /\ ac_off a = rec_offset rec /\ ac_size a = rec_region_size rec.
Proof. intros Hi (rec & reg & [Hf _] & _ & _ & ->)%abs_account; [|done]. by exists rec. Qed.

(** Nobody holds the target of a move that is granted: a copy to it is nobody's loss. *)
Lemma copy_kept g id gen no ns g' h src mem :
  gov_inv g -> gov_op_ok (GRelocate id gen no ns) g -> 0 < ns -> apply_relocation id gen no ns g = (g', Ok h) ->
  allocations_kept g mem (copy no src ns mem).
Proof.
  intros Hi Hop Hns E id' rec b Hf Hb.
  destruct (gov_step_keeps be g Hi _ Hop) as (g1 & ok1 & E1 & Hl). simpl in E1. rewrite E in E1.
  injection E1 as <- <-. destruct (ledger_move _ _ _ _ _ _ Hl) as (_ & _ & _ & Hv & _).
  assert (Ha : lg_accounts (gov_abs g) !! id' = Some (account_of (gov_arena g) rec))
    by (simpl; by rewrite lookup_fmap, om_to_map, Hf).
  destruct (record_placed g id' rec Hi Hf) as (_ & Hs & _).
  pose proof (vacant_apart (gov_abs g) id' _ no ns Ha Hs Hns Hv) as Hap. simpl in Hap.
  unfold rec_end in Hb. apply copy_outside. lia.
Qed.

(** Before any handle is given out. *)
Lemma contents_start g mem : gov_inv g -> contents_ok (gov_abs g) mem [] ∅.
Proof.
  intros Hi. pose proof (fun id a => account_record g id a Hi) as Hrec.
  constructor.
  - intros id a (rec & Hf & _ & ->)%Hrec. destruct (record_placed g id rec Hi Hf) as (_ & Hs & _).
    split; [|done]. by apply (rg_ids _ _ _ (gi_registry _ Hi) id rec (or_introl Hf)).
  - intros id1 id2 a1 a2 (r1 & H1 & E1 & E1')%Hrec (r2 & H2 & E2 & E2')%Hrec Hne.
    unfold apart. rewrite E1, E1', E2, E2'. exact (records_disjoint g id1 id2 r1 r2 Hi H1 H2 Hne).
  - by intros h ?%not_elem_of_nil.
  - by intros id i v ?%lookup_empty_Some.
Qed.

Lemma arena_step_contents s ws s' m :
  gov_inv (ar_gov s) -> contents_ok (gov_abs (ar_gov s)) (ar_mem s) (ar_handles s) m ->
  arena_step be s ws s' ->
  gov_inv (ar_gov s')
  /\ contents_ok (gov_abs (ar_gov s')) (ar_mem s') (ar_handles s')
       (fold_left (fun m '(id, i, v) => <[(id, i) := v]> m) ws m).
Proof.
  intros Hi Hct Hs. destruct Hs as [g mem hs op g' ok Hp Hop E|g mem hs h i v Hin Hc Hr|g mem hs mem' Hk
    |g mem hs h no ns g' h' Hin Hop Hle Hcp E];
    simpl in *.
  - destruct (gov_step_inv be op g Hi Hop) as (g1 & ok1 & E1 & Hi1). rewrite E in E1. injection E1 as <- <-.
    split; [done|]. by eapply call_contents.
  - split; [done|]. destruct (current_handle_account h g Hi Hc) as (a & Ha & Hg). by eapply contents_write.
  - split; [done|]. apply (contents_scratch _ mem); [done|].
    intros id a i (rec & Hf & -> & Es)%account_record Hr; [|done]. apply (Hk id rec); [done|]. unfold rec_end. lia.
  - destruct (gov_step_inv be (GRelocate (h_id h) (h_generation h) no ns) g Hi Hop) as (g1 & ok1 & E1 & Hi1).
    simpl in E1. rewrite E in E1.
    injection E1 as <- _. split; [done|]. by apply (move_contents g h no ns).
Qed.

Lemma arena_runs_contents g mem tr s :
  gov_inv g -> arena_runs be (mk_arena g mem []) tr s ->
  gov_inv (ar_gov s)
  /\ contents_ok (gov_abs (ar_gov s)) (ar_mem s) (ar_handles s) (last_writes tr).
Proof.
  intros Hi. induction 1 as [|tr s ws s' _ [Hi' Hct] Hs].
  - split; [done|]. by apply contents_start.
  - unfold last_writes. rewrite fold_left_app. by eapply arena_step_contents.
Qed.

Lemma arena_runs_inv g mem tr g' mem' hs :
  gov_inv g -> arena_runs be (mk_arena g mem []) tr (mk_arena g' mem' hs) -> gov_inv g'.
Proof. intros Hi Hr. exact (proj1 (arena_runs_contents g mem tr _ Hi Hr)). Qed.
End governor.
End memory.

(** ** Theorems *)

(** C4: an allocation is private memory, from any consistent governor on, among clients that keep to
    these rules: they write through the handles they were given and that are current, or into bytes that no allocation holds at
    that moment; they call the governor in any way but a restore; and they have a move applied only
    to a place of at least the size, to which they have copied the bytes of the allocation, and
    only while the copy is up to date.  However many of these steps happen, in whatever order, the
    copy and the move of one client interleaved with the steps of others: a current handle lies
    inside the arena, and reading through it gives, for every byte that was ever written through a
    handle of this allocation, the value written last, also when the allocation has been moved
    since.  And each step of a compaction plan of the current state, for a handle below the last
    generation and a capacity of at most 2^63, carried out at once by its client, is a copy and a
    move of this kind.  (A plan carried out on a later state need not be:
    [stale_plan_overwrites].) *)
Theorem allocations_private {V B} (be : IBackend B) (g : MemoryGovernor B) (mem : Z -> V) tr s :
  gov_inv g -> arena_runs be (mk_arena g mem []) tr s ->
  (forall h, h ∈ ar_handles s -> current_handle h (ar_gov s) = true ->
     0 <= h_offset h /\ h_offset h + h_size h <= managed_capacity (gov_domain (ar_gov s))
     /\ forall i v, 0 <= i < h_size h -> last_writes tr !! (h_id h, i) = Some v ->
          ar_mem s (h_offset h + i) = v)
  /\ (forall st h, managed_capacity (gov_domain (ar_gov s)) <= 2 ^ 63 ->
       st ∈ cp_steps (plan_compaction (ar_gov s)) -> h ∈ ar_handles s ->
       h_id h = cs_id st -> h_generation h = cs_generation st ->
       0 <= gen_value (h_generation h) -> gen_value (h_generation h) + 1 < U64 ->
       exists g' h',
         apply_relocation (cs_id st) (cs_generation st) (cs_new_offset st) (cs_new_size st) (ar_gov s)
         = (g', Ok h')
         /\ arena_runs be s []
              (mk_arena g' (copy (cs_new_offset st) (cs_old_offset st) (cs_new_size st) (ar_mem s))
                 (h' :: ar_handles s))).
Proof.
  intros Hi Hr. destruct (arena_runs_contents be g mem tr s Hi Hr) as [Hi' Hct].
  assert (Hplace : forall h rec, h ∈ ar_handles s -> current (ar_gov s) (h_id h) (h_generation h) rec ->
    h_offset h = rec_offset rec /\ h_size h = rec_region_size rec).
  { intros h rec Hin [Hf Hg]. destruct (ct_handles _ _ _ _ Hct h Hin) as [_ Hb].
    assert (Ha : lg_accounts (gov_abs (ar_gov s)) !! h_id h = Some (account_of (gov_arena (ar_gov s)) rec))
      by (simpl; by rewrite lookup_fmap, om_to_map, Hf).
    destruct (Hb _ Ha) as [_ Hp]. apply Hp. by symmetry. }
  split.
  - intros h Hin Hc. destruct (current_handle_account h (ar_gov s) Hi' Hc) as (a & Ha & Hg).
    destruct (proj1 (abs_account _ _ _ Hi') Ha) as (rec & reg & [Hf Hgr] & _ & _ & Ea).
    destruct (Hplace h rec Hin) as [Eo Es]; [split; congruence|].
    destruct (record_placed _ _ _ Hi' Hf) as (H0 & _ & H1 & _). unfold rec_end in H1.
    split; [lia|]. split; [lia|]. intros i v Hr' Hm. destruct (ct_written _ _ _ _ Hct _ _ _ Hm) as [_ Hb].
    destruct (Hb a Ha) as [_ <-]. subst a. simpl. by rewrite Eo.
  - intros st h Hcap Hst Hin Eid Eg Hg0 Hg1.
    destruct (plan_compaction_sound (ar_gov s) st Hi' Hcap Hst)
      as [(rec & Hcur & _ & _ & _ & Eoo & _ & Ens) (g' & h' & E & Hi1 & _)].
    destruct (plan_step_words (ar_gov s) st Hi' Hcap Hst) as [Hno Hns].
    rewrite <- Eid, <- Eg in Hcur, E |- *. destruct (Hplace h rec Hin Hcur) as [Ho Hs].
    exists g', h'. split; [done|]. rewrite Eoo, <- Ho. rewrite Ens, <- Hs in E, Hns |- *. destruct s as [gs ms hs].
    destruct (record_placed _ _ _ Hi' (proj1 Hcur)) as (_ & Hpos & _). rewrite <- Hs in Hpos.
    pose proof (copy_kept be gs _ _ _ _ g' h' (h_offset h) ms Hi' (conj Hno (conj Hns (conj Hg0 Hg1))) Hpos E) as Hk.
    set (s0 := mk_arena gs ms hs). set (s1 := mk_arena gs (copy (cs_new_offset st) (h_offset h) (h_size h) ms) hs).
    refine (ar_snoc be s0 [] s1 [] _ (ar_snoc be s0 [] s0 [] s1 (ar_nil be s0) _) _).
    + by apply as_scratch.
    + apply (as_move be gs _ hs h (cs_new_offset st) (h_size h) g' h'); try done.
      intros i Hr'. rewrite copy_inside by done. symmetry. apply (Hk (h_id h) rec); [apply Hcur|].
      simpl in Ho, Hs. unfold rec_end. lia.
Qed.

(** Two allocations; a byte of the second is written, the first is released, and the second is
    moved to its place. *)
Definition demo_memory : Arena (V := Z) (B := Z) := mk_arena gov1 (fun _ => 0) [].

Definition demo_calls : list gov_op :=
  [GRequest (gov_req 128 64 false); GRequest (gov_req 64 64 false); GRelease (mk_id 1) (mk_gen 1) (mk_gen 4) (mk_gen 5)].

Definition demo_gov (n : nat) : MemoryGovernor Z := gov_run (GInitialize :: take n demo_calls).
Definition demo_first : AllocationHandle := mk_handle (mk_id 1) (mk_gen 1) 0 128 64.
Definition demo_second : AllocationHandle := mk_handle (mk_id 2) (mk_gen 1) 128 64 64.
Definition demo_moved : AllocationHandle := mk_handle (mk_id 2) (mk_gen 2) 0 64 64.
Definition demo_move : MemoryGovernor Z * Result AllocationHandle :=
  apply_relocation (mk_id 2) (mk_gen 1) 0 64 (demo_gov 3).

Lemma demo_runs_before :
  arena_runs demo_backend demo_memory [(mk_id 2, 5, 42)]
    (mk_arena (demo_gov 3) (poke (128 + 5) 42 (fun _ => 0)) [demo_second; demo_first]).
Proof.
  pose proof (ar_nil demo_backend demo_memory) as R.
  eapply ar_snoc in R; [|apply (as_call _ gov1 _ [] (GRequest (gov_req 128 64 false)) (demo_gov 1) true);
    [reflexivity|by vm_compute|vm_compute; reflexivity]].
  eapply ar_snoc in R; [|apply (as_call _ (demo_gov 1) _ _ (GRequest (gov_req 64 64 false)) (demo_gov 2) true);
    [reflexivity|by vm_compute|vm_compute; reflexivity]].
  change (granted (GRequest (gov_req 64 64 false)) (demo_gov 1) ++ granted (GRequest (gov_req 128 64 false)) gov1 ++ [])
    with [demo_second; demo_first] in R.
  eapply ar_snoc in R; [|apply (as_write _ (demo_gov 2) _ _ demo_second 5 42);
    [left|vm_compute; reflexivity|simpl; lia]].
  eapply ar_snoc in R; [|apply (as_call _ (demo_gov 2) _ _ (GRelease (mk_id 1) (mk_gen 1) (mk_gen 4) (mk_gen 5)) (demo_gov 3) true);
    [reflexivity|done|vm_compute; reflexivity]].
  exact R.
Qed.

Lemma demo_gov_inv3 : gov_inv (demo_gov 3).
Proof. exact (arena_runs_inv demo_backend gov1 _ _ _ _ _ gov1_inv demo_runs_before). Qed.

Lemma demo_move_granted : apply_relocation (mk_id 2) (mk_gen 1) 0 64 (demo_gov 3) = (demo_move.1, Ok demo_moved).
Proof. vm_compute. reflexivity. Qed.

Lemma demo_copy (mem : Z -> Z) : allocations_kept (demo_gov 3) mem (copy 0 128 64 mem).
Proof.
  assert (Hop : gov_op_ok (GRelocate (mk_id 2) (mk_gen 1) 0 64) (demo_gov 3)) by (unfold gov_op_ok; by vm_compute).
  exact (copy_kept demo_backend _ _ _ _ _ _ _ 128 mem demo_gov_inv3 Hop eq_refl demo_move_granted).
Qed.

Lemma demo_runs_contents :
  arena_runs demo_backend demo_memory [(mk_id 2, 5, 42)]
    (mk_arena demo_move.1 (copy 0 128 64 (poke (128 + 5) 42 (fun _ => 0))) [demo_moved; demo_second; demo_first]).
Proof.
  pose proof demo_runs_before as R.
  eapply ar_snoc in R; [|apply (as_scratch _ (demo_gov 3) _ _ (copy 0 128 64 (poke (128 + 5) 42 (fun _ => 0)))), demo_copy].
  eapply ar_snoc in R; [|apply (as_move _ (demo_gov 3) _ _ demo_second 0 64 demo_move.1 demo_moved);
    [left|by vm_compute|done| |vm_compute; reflexivity]].
  - exact R.
  - intros i Hi. simpl h_size in Hi. simpl h_offset. rewrite (copy_inside 0) by done.
    by rewrite copy_outside by lia.
Qed.

Lemma allocations_private_witness :
  copy 0 128 64 (poke (128 + 5) 42 (fun _ => 0)) (h_offset demo_moved + 5) = 42.
Proof.
  destruct (allocations_private demo_backend gov1 (fun _ => 0) _ _ gov1_inv demo_runs_contents) as [Hr _].
  destruct (Hr demo_moved) as (_ & _ & Hv); [left|vm_compute; reflexivity|].
  exact (Hv 5 42 ltac:(simpl; lia) ltac:(vm_compute; reflexivity)).
Defined.

(** The plan must be carried out on the state it was made for: nothing reserves the target.  A
    request that comes between the plan and its execution can be given the very place, and
    the bytes that the client copies there, as the interface asks before [apply_relocation],
    overwrite it; only then is the move refused. *)
Example stale_plan_overwrites :
  exists st g h f,
    st ∈ cp_steps (plan_compaction gov6)
    /\ request (gov_req 100 64 false) gov6 = Some (g, Ok h)
    /\ apply_relocation (cs_id st) (cs_generation st) (cs_new_offset st) (cs_new_size st) g = (g, Err f)
    /\ current_handle h g = true
    /\ forall (mem : Z -> Z), copy (cs_new_offset st) (cs_old_offset st) (cs_new_size st) mem (h_offset h)
                              = mem (cs_old_offset st).
Proof.
  eexists _, _, _, _. split; [vm_compute; left|]. split; [vm_compute; reflexivity|].
  split; [vm_compute; reflexivity|]. split; [vm_compute; reflexivity|]. intros mem. vm_compute. reflexivity.
Qed.
