(* ===== verification/SharedLedger.v ===== *)
(** Threads and the ledger together: what threads that share one governor can rely on.

    Concurrent.v reduces an interleaving to a sequence of calls, LedgerProps.v a sequence of calls
    to a run of the abstract ledger.  Here both are composed, with conditions on the programs
    only: their arguments are words, no snapshot is restored while they run, and there are ids
    left for all their calls. *)
From S2P Require Import Prelude Words Ordered Types Floats Region RegionInv RegionAlloc RegionFree.
From S2P Require Import RegionReloc RegionQuery RegionSpec Pressure Request Bytes Persist.
From S2P Require Import PersistInv Governor GovernorInv GovernorOps GovernorSpec GovernorProps.
From S2P Require Import Ledger LedgerProps Concurrent.
Open Scope list_scope.
Open Scope Z_scope.

(** A call whose arguments are words of their types, and that is not a restore. *)
Definition plain (op : gov_op) : Prop :=
  match op with
  | GRequest req => request_words req
  | GRelocate id gen no ns => in_u64 no /\ in_u64 ns /\ 0 <= gen_value gen /\ gen_value gen + 1 < U64
  | GRestore _ => False
  | _ => True
  end.

Definition calls_left (t : Thread) : Z := Z.of_nat (length (remaining t)).

(** Calls of the ledger one after the other, with their answers. *)
Inductive ledger_run (L : ledger) : list (gov_op * bool) -> ledger -> Prop :=
  | lr_nil : ledger_run L [] L
  | lr_snoc l L1 op ok L2 :
      ledger_run L l L1 -> ledger_step op L1 ok L2 -> ledger_run L (l ++ [(op, ok)]) L2.

Section shared.
Context {B : Type} (be : IBackend B).
Implicit Types (g : MemoryGovernor B) (s : System (B := B)).

Lemma plain_ok op g : plain op -> gov_next_alloc_id g + 1 < U64 -> gov_op_ok op g.
Proof. by destruct op. Qed.

(** A call uses up at most one id. *)
Lemma plain_step op g :
  gov_inv g -> plain op -> gov_next_alloc_id g + 1 < U64 ->
  exists g' ok, gov_step be op g = Some (g', ok) /\ gov_inv g'
    /\ gov_next_alloc_id g' <= gov_next_alloc_id g + 1 /\ ledger_step op (gov_abs g) ok (gov_abs g').
Proof.
  intros Hi Hp Hn. pose proof (plain_ok op g Hp Hn) as Hop.
  destruct (gov_step_keeps be g Hi op Hop) as (g' & ok & E & Hk).
  destruct (gov_step_inv be op g Hi Hop) as (g2 & ok2 & E2 & Hi'). rewrite E in E2. injection E2 as <- <-.
  exists g', ok. split; [done|]. split; [done|]. split; [|done]. clear Hop.
  change (lg_next (gov_abs g') <= lg_next (gov_abs g) + 1).
  destruct Hk as [?|?|? ? ?|? ? ?|op ? ? ? ? Ho| | |]; simpl; try lia; try done.
  destruct op; try done; simpl; lia.
Qed.

Record shared_inv s : Prop := {
  sh_inv : gov_inv (sy_gov s);
  sh_plain i t : sy_threads s !! i = Some t -> Forall plain (remaining t);
  sh_ids : gov_next_alloc_id (sy_gov s) + zsum calls_left (sy_threads s) < U64;
}.

Lemma calls_left_nonneg t : 0 <= calls_left t.
Proof. unfold calls_left. lia. Qed.

Lemma zsum_member {A} (f : A -> Z) l i x : (forall y, 0 <= f y) -> l !! i = Some x -> f x <= zsum f l.
Proof.
  intros Hf Hi. rewrite <- (take_drop_middle l i x Hi), zsum_app, zsum_cons.
  pose proof (zsum_nonneg f (take i l) (fun y _ => Hf y)). pose proof (zsum_nonneg f (drop (S i) l) (fun y _ => Hf y)).
  lia.
Qed.

(** What a thread in a body is about to run. *)
Lemma inside_ok s i op rest dn :
  shared_inv s -> sy_threads s !! i = Some (mk_thread rest (Inside op) dn) ->
  plain op /\ gov_next_alloc_id (sy_gov s) + 1 < U64.
Proof.
  intros [Hi Hp Hn] Ht. pose proof (Hp i _ Ht) as Hpl. apply Forall_cons in Hpl as [Hpl _]. split; [done|].
  pose proof (zsum_member calls_left _ _ _ calls_left_nonneg Ht) as Hm.
  unfold calls_left at 1 in Hm. simpl in Hm. lia.
Qed.

Lemma shared_bodies_ok s : shared_inv s -> bodies_ok s.
Proof.
  intros Hs i [todo ph dn] op Ht Hph. simpl in Hph. subst ph.
  destruct (inside_ok s i op todo dn Hs Ht). by apply plain_ok.
Qed.

(** A step of a thread is no call of the ledger, or the one of its event. *)
Lemma sys_step_shared s es s' :
  shared_inv s -> sys_step be s es s' ->
  shared_inv s'
  /\ match es with
     | [] => gov_abs (sy_gov s') = gov_abs (sy_gov s)
     | [e] => ledger_step (ev_op e) (gov_abs (sy_gov s)) (ev_ok e) (gov_abs (sy_gov s'))
     | _ => False
     end.
Proof.
  intros Hs Hst. pose proof Hs as [Hi Hp Hn].
  assert (Hrem : forall i t t', sy_threads s !! i = Some t -> remaining t' = remaining t ->
    (forall j u, <[i := t']> (sy_threads s) !! j = Some u -> Forall plain (remaining u))
    /\ zsum calls_left (<[i := t']> (sy_threads s)) = zsum calls_left (sy_threads s)).
  { intros i t t' Ht E. split.
    - intros j u Hj. apply list_lookup_insert_Some in Hj as [(<- & <- & _)|[_ Hj]]; [rewrite E|]; eauto.
    - rewrite (zsum_insert calls_left _ _ _ _ Ht). unfold calls_left. rewrite E. lia. }
  destruct Hst as [i op rest dn Ho Ht|i op rest dn g ok Ht E|i op ok rest dn Ht].
  - destruct (Hrem i _ (mk_thread rest (Inside op) dn) Ht eq_refl) as [H1 H2].
    split; [|done]. constructor; simpl; [done|done|by rewrite H2].
  - destruct (inside_ok s i op rest dn Hs Ht) as [Hpl Hlt].
    destruct (plain_step op (sy_gov s) Hi Hpl Hlt) as (g' & ok' & E' & Hi' & Hle & Hl).
    rewrite E in E'. injection E' as <- <-. split; [|exact Hl]. constructor; simpl; [done| |].
    + intros j u Hj. apply list_lookup_insert_Some in Hj as [(<- & <- & _)|[_ Hj]]; [|by eapply Hp].
      pose proof (Hp i _ Ht) as Hall. by apply Forall_cons in Hall as [_ Hall].
    + rewrite (zsum_insert calls_left _ _ _ _ Ht). unfold calls_left at 2 3. cbn [remaining th_phase th_todo length]. lia.
  - destruct (Hrem i _ (mk_thread rest Outside (dn ++ [(op, ok)])) Ht eq_refl) as [H1 H2].
    split; [|done]. constructor; simpl; [done|done|by rewrite H2].
Qed.

Lemma runs_shared s0 es s :
  shared_inv s0 -> runs be s0 es s ->
  shared_inv s
  /\ ledger_run (gov_abs (sy_gov s0)) ((fun e => (ev_op e, ev_ok e)) <$> es) (gov_abs (sy_gov s)).
Proof.
  intros Hi0. induction 1 as [|es s es' s' _ [Hi Hl] Hs]; [split; [done|constructor]|].
  destruct (sys_step_shared _ _ _ Hi Hs) as [Hi' Hk]. split; [done|]. rewrite fmap_app.
  destruct es' as [|e [|]]; [|by eapply lr_snoc|done]. by rewrite app_nil_r, Hk.
Qed.

(** The number of calls in a list of programs. *)
Definition call_count (programs : list (list gov_op)) : Z := zsum (fun p => Z.of_nat (length p)) programs.

Lemma start_shared g programs :
  gov_inv g -> Forall (Forall plain) programs -> gov_next_alloc_id g + call_count programs < U64 ->
  shared_inv (start g programs).
Proof.
  intros Hi Hp Hn. constructor; simpl; [done| |].
  - intros i t Ht. apply list_lookup_fmap_Some in Ht as (p & -> & Hlk). by eapply Forall_lookup_1.
  - enough (zsum calls_left ((fun p => mk_thread p Outside []) <$> programs) = call_count programs) as -> by done.
    clear. unfold call_count. induction programs as [|p ps IH]; [done|].
    rewrite fmap_cons, !zsum_cons, IH. done.
Qed.
End shared.

(** C39: threads that share a governor share a ledger, and always finish.  For any programs whose
    arguments are words, that restore nothing, and for whose calls there are ids left, and
    however their steps interleave: the calls with their answers, in the order in which they
    held the mutex, are a run of the abstract ledger from the abstraction of the governor at
    the start to that of the governor now; each thread has got exactly its own answers of that
    run, in its program order; and as long as some thread has a call to make or to finish,
    some thread can take a step, while every step brings the end one nearer. *)
Theorem threads_share_ledger {B} (be : IBackend B) (g : MemoryGovernor B) programs es s :
  gov_inv g -> Forall (Forall plain) programs -> gov_next_alloc_id g + call_count programs < U64 ->
  runs be (start g programs) es s ->
  ledger_run (gov_abs g) ((fun e => (ev_op e, ev_ok e)) <$> es) (gov_abs (sy_gov s))
  /\ (forall i t p, sy_threads s !! i = Some t -> programs !! i = Some p ->
        events_of i es = returned t /\ p = (events_of i es).*1 ++ remaining t)
  /\ (sys_cost s <> 0 -> exists es' s', sys_step be s es' s')
  /\ (forall es' s', sys_step be s es' s' -> sys_cost s' = sys_cost s - 1)
  /\ (sys_cost s = 0 -> forall i t p, sy_threads s !! i = Some t -> programs !! i = Some p ->
        (th_done t).*1 = p).
Proof.
  intros Hi Hp Hn Hr. pose proof (start_shared g programs Hi Hp Hn) as Hs0.
  destruct (runs_shared be _ _ _ Hs0 Hr) as [Hs Hl]. pose proof (runs_threads be g programs es s Hr) as [_ Hts].
  split_and!; [done|done| |intros es' s'; apply sys_step_cost|].
  - apply sys_progress; [by eapply runs_mutex|apply Hs|by apply shared_bodies_ok].
  - intros Hz i t p Ht Hpi. destruct (Hts i t p Ht Hpi) as [E1 E2].
    pose proof (proj1 (sys_cost_zero s) Hz i t Ht) as Hc. destruct t as [todo ph dn]. unfold cost in Hc; simpl in Hc.
    destruct ph, todo; simpl in Hc; try lia. rewrite E2, E1. unfold returned, remaining; simpl. by rewrite !app_nil_r.
Qed.

Lemma threads_share_ledger_witness :
  exists es' s', sys_step demo_backend demo_system es' s'.
Proof.
  apply (threads_share_ledger demo_backend gov1 demo_programs demo_events demo_system gov1_inv).
  - repeat constructor; unfold in_u64, U64; simpl; lia.
  - vm_compute. reflexivity.
  - exact demo_runs.
  - vm_compute. discriminate.
Defined.
