(* ===== verification/Races.v ===== *)
(** The observers that take no lock.

    [domain()], [initialized()], [arena_base()] and [record_count()] of
    include/gpu_memory_service/governed_memory.hpp read a member of the governor without
    taking the mutex.  Here threads make such calls next to the locked ones of Concurrent.v.
    A data race is a state in which one thread is in the body of a call that writes a member
    and another is reading that member. *)
From S2P Require Import Prelude Words Ordered Types Floats Region RegionInv RegionAlloc RegionFree.
From S2P Require Import RegionReloc RegionQuery RegionSpec Pressure Request Bytes Persist.
From S2P Require Import PersistInv Governor GovernorInv GovernorOps GovernorSpec GovernorProps.
From S2P Require Import Concurrent.
Open Scope list_scope.
Open Scope Z_scope.

(** ** Who writes what *)

(** The public methods behind [gov_op]. *)
Inductive method : Set :=
  | M_initialize | M_request | M_release | M_pin | M_unpin | M_apply_relocation | M_summary | M_restore.

Definition method_of (op : gov_op) : method :=
  match op with
  | GInitialize => M_initialize
  | GRequest _ => M_request
  | GRelease _ _ _ _ => M_release
  | GPin _ _ => M_pin
  | GUnpin _ _ => M_unpin
  | GRelocate _ _ _ _ => M_apply_relocation
  | GPressure => M_summary
  | GRestore _ => M_restore
  end.

Inductive observer : Set := O_domain | O_initialized | O_arena_base | O_record_count.

(** Which methods assign to what an observer reads: [domain_], [initialized_], [arena_base_] and
    the number of entries of [records_]. *)
Definition writes (m : method) (o : observer) : bool :=
  match o, m with
  | O_domain, M_apply_relocation => false
  | O_domain, _ => true
  | O_initialized, (M_initialize | M_restore) => true
  | O_arena_base, M_initialize => true
  | O_record_count, (M_request | M_release | M_restore) => true
  | _, _ => false
  end.

(** What an observer returns. *)
Inductive seen : Set :=
  | Saw_domain (d : MemoryDomain)
  | Saw_flag (b : bool)
  | Saw_address (p : Z)
  | Saw_count (n : Z).

#[export] Instance WatermarkConfig_eq_dec : EqDecision WatermarkConfig.
Proof. solve_decision. Defined.

#[export] Instance MemoryDomain_eq_dec : EqDecision MemoryDomain.
Proof. solve_decision. Defined.

#[export] Instance seen_eq_dec : EqDecision seen.
Proof. solve_decision. Defined.

Definition observe {B} (o : observer) (g : MemoryGovernor B) : seen :=
  match o with
  | O_domain => Saw_domain (gov_domain g)
  | O_initialized => Saw_flag (gov_initialized g)
  | O_arena_base => Saw_address (gov_arena_base g)
  | O_record_count => Saw_count (Z.of_nat (length (gov_records g)))
  end.

Lemma om_set_length {V} (m : omap AllocationId V) id v v' :
  om_ok m -> om_find id m = Some v -> length (om_set id v' m) = length m.
Proof.
  intros Ho Hf. rewrite (Permutation_length (om_set_perm id v' m Ho)).
  by rewrite (Permutation_length (om_erase_perm _ _ _ Hf)).
Qed.

(** The branches of a method, for each observer. *)
Ltac unchanged o :=
  destruct o; try done; intros; simpl in *; repeat (case_match; simplify_eq/=); try done.

(** A method leaves alone what [writes] does not list. *)
Lemma writes_sound {B} (be : IBackend B) op g g' ok o :
  gov_inv g -> gov_op_ok op g -> gov_step be op g = Some (g', ok) ->
  writes (method_of op) o = false -> observe o g' = observe o g.
Proof.
  intros Hi Hop E Hw. pose proof (rg_records _ _ _ (gi_registry _ Hi)) as Hok.
  destruct op as [|req|id gen wb sb|id gen|id gen|id gen no ns| |s]; simpl in E.
  - simplify_eq. unfold initialize. unchanged o.
  - destruct (request req g) as [[g1 res]|] eqn:Er; simplify_eq/=. revert Er.
    unfold request, next_id_locked. unchanged o.
  - unfold release_for_worker, release_locked in E. unchanged o.
  - destruct (pin_locked id gen g) as [[g1 res]|] eqn:Er; simplify_eq/=. revert Er. unfold pin_locked.
    destruct (om_find id (gov_records g)) as [rec|] eqn:Hf; [|by intros; simplify_eq].
    unchanged o. by rewrite (om_set_length _ _ rec).
  - destruct (unpin_locked id gen g) as [[g1 res]|] eqn:Er; simplify_eq/=. revert Er. unfold unpin_locked.
    destruct (om_find id (gov_records g)) as [rec|] eqn:Hf; [|by intros; simplify_eq].
    unchanged o; by rewrite (om_set_length _ _ rec).
  - revert E. unfold apply_relocation.
    destruct (om_find id (gov_records g)) as [rec|] eqn:Hf; [|by intros; simplify_eq].
    unchanged o; by rewrite (om_set_length _ _ rec).
  - simplify_eq/=. unchanged o.
  - simplify_eq/=. unchanged o.
Qed.

(** And what it lists does change, in some state that is reached: the instances. *)
Definition gov_pinned : MemoryGovernor Z :=
  match gov_step demo_backend (GPin (mk_id 1) (mk_gen 1)) gov3 with Some (g, _) => g | None => gov3 end.

Lemma gov_pinned_reachable : gov_reachable demo_backend gov_domain0 gov_pinned.
Proof.
  apply (gr_step _ _ gov3 (GPin (mk_id 1) (mk_gen 1)) gov_pinned true);
    [exact gov3_reachable|exact I|vm_compute; reflexivity].
Qed.

(** An empty snapshot of another domain. *)
Definition other_snapshot : PersistSnapshot :=
  mk_snapshot kMagic kVersion (dom_with_status PressureState.LOW DeviceHealth.HEALTHY gov_domain0) [] [] 9 0.

Lemma other_restorable : restorable other_snapshot.
Proof. repeat split; try (vm_compute; congruence); try constructor; intros ? ?; by intros ?%not_elem_of_nil. Qed.

(** A reachable state and a call of [m] after which [o] sees something else. *)
Definition changes (m : method) (o : observer) : Prop :=
  exists g op g' ok, gov_reachable demo_backend gov_domain0 g /\ method_of op = m /\ gov_op_ok op g
    /\ gov_step demo_backend op g = Some (g', ok) /\ observe o g' <> observe o g.

(** Any state and call whose result computes to a changed one. *)
Lemma changes_by m o g op :
  gov_reachable demo_backend gov_domain0 g -> method_of op = m -> gov_op_ok op g ->
  match gov_step demo_backend op g with
  | Some (g', _) => bool_decide (observe o g' = observe o g) = false
  | None => False
  end -> changes m o.
Proof.
  intros Hr Hm Hop. destruct (gov_step demo_backend op g) as [[g' ok]|] eqn:E; [|done].
  intros Hne%bool_decide_eq_false. by exists g, op, g', ok.
Qed.

Lemma writes_changes m o : writes m o = true -> changes m o.
Proof.
  intros Hw. destruct o, m; try discriminate Hw;
    first
      [ apply (changes_by _ _ (MemoryGovernor_new gov_domain0 (Some 0)) GInitialize);
          [apply gr_new|reflexivity|exact I|vm_compute; reflexivity]
      | apply (changes_by _ _ gov1 (GRequest (gov_req 100 64 false)));
          [exact gov1_reachable|reflexivity|repeat split; vm_compute; congruence|vm_compute; reflexivity]
      | apply (changes_by _ _ gov3 (GRelease (mk_id 1) (mk_gen 1) (mk_gen 0) (mk_gen 0)));
          [exact gov3_reachable|reflexivity|exact I|vm_compute; reflexivity]
      | apply (changes_by _ _ gov3 (GPin (mk_id 1) (mk_gen 1)));
          [exact gov3_reachable|reflexivity|exact I|vm_compute; reflexivity]
      | apply (changes_by _ _ gov_pinned (GUnpin (mk_id 1) (mk_gen 1)));
          [exact gov_pinned_reachable|reflexivity|exact I|vm_compute; reflexivity]
      | apply (changes_by _ _ gov3 GPressure);
          [exact gov3_reachable|reflexivity|exact I|vm_compute; reflexivity]
      | apply (changes_by _ _ gov3 (GRestore other_snapshot));
          [exact gov3_reachable|reflexivity|exact other_restorable|vm_compute; reflexivity] ].
Qed.

(** ** Threads with both kinds of calls *)

Inductive item : Set := Call (op : gov_op) | Look (o : observer).

(** Where a thread is: [Body] and [Leave] hold the mutex, [Looking] does not. *)
Inductive place : Set :=
  | Idle
  | Body (op : gov_op)
  | Leave (op : gov_op) (ok : bool)
  | Looking (o : observer).

Record Client : Set := mk_client {
  cl_todo : list item;
  cl_place : place;
  cl_done : list (gov_op * bool);
  cl_seen : list (observer * seen);
}.

Section races.
Context {B : Type} (be : IBackend B).
Implicit Types (g : MemoryGovernor B).

Record Clients : Type := mk_clients {
  cs_gov : MemoryGovernor B;
  cs_owner : option nat;
  cs_threads : list Client;
}.

Definition clients g (programs : list (list item)) : Clients :=
  mk_clients g None ((fun p => mk_client p Idle [] []) <$> programs).

(** The three phases of a locked call, as in [sys_step], and the two ends of a look: what it
    returns is what the member holds when it is read. *)
Inductive client_step (s : Clients) : list Event -> Clients -> Prop :=
  | c_lock i op rest dn sn :
      cs_owner s = None -> cs_threads s !! i = Some (mk_client (Call op :: rest) Idle dn sn) ->
      client_step s []
        (mk_clients (cs_gov s) (Some i) (<[i := mk_client rest (Body op) dn sn]> (cs_threads s)))
  | c_body i op rest dn sn g ok :
      cs_threads s !! i = Some (mk_client rest (Body op) dn sn) -> gov_step be op (cs_gov s) = Some (g, ok) ->
      client_step s [mk_event i op ok]
        (mk_clients g (cs_owner s) (<[i := mk_client rest (Leave op ok) dn sn]> (cs_threads s)))
  | c_unlock i op ok rest dn sn :
      cs_threads s !! i = Some (mk_client rest (Leave op ok) dn sn) ->
      client_step s []
        (mk_clients (cs_gov s) None (<[i := mk_client rest Idle (dn ++ [(op, ok)]) sn]> (cs_threads s)))
  | c_look i o rest dn sn :
      cs_threads s !! i = Some (mk_client (Look o :: rest) Idle dn sn) ->
      client_step s []
        (mk_clients (cs_gov s) (cs_owner s) (<[i := mk_client rest (Looking o) dn sn]> (cs_threads s)))
  | c_seen i o rest dn sn :
      cs_threads s !! i = Some (mk_client rest (Looking o) dn sn) ->
      client_step s []
        (mk_clients (cs_gov s) (cs_owner s)
           (<[i := mk_client rest Idle dn (sn ++ [(o, observe o (cs_gov s))])]> (cs_threads s))).

Inductive client_runs (s0 : Clients) : list Event -> Clients -> Prop :=
  | cr_nil : client_runs s0 [] s0
  | cr_snoc es s es' s' : client_runs s0 es s -> client_step s es' s' -> client_runs s0 (es ++ es') s'.

(** A write and a read of the same member by two threads, with nothing to order them. *)
Definition races (s : Clients) : Prop :=
  exists i j ti tj op o,
    cs_threads s !! i = Some ti /\ cs_threads s !! j = Some tj
    /\ cl_place ti = Body op /\ cl_place tj = Looking o /\ writes (method_of op) o = true.

(** ** The locked calls alone *)

Definition locked_part (p : list item) : list gov_op :=
  base.omap (fun it => match it with Call op => Some op | Look _ => None end) p.

Definition phase_of (p : place) : Phase :=
  match p with Idle | Looking _ => Outside | Body op => Inside op | Leave op ok => Leaving op ok end.

Definition thread_of (t : Client) : Thread := mk_thread (locked_part (cl_todo t)) (phase_of (cl_place t)) (cl_done t).

Definition system_of (s : Clients) : System := mk_system (cs_gov s) (cs_owner s) (thread_of <$> cs_threads s).

Lemma system_of_clients g programs : system_of (clients g programs) = start g (locked_part <$> programs).
Proof. unfold system_of, clients, start. simpl. f_equal. by rewrite <- !list_fmap_compose. Qed.

(** A step of the clients is a step of the system of locked calls, or none. *)
Lemma client_step_locked s es s' :
  client_step s es s' ->
  sys_step be (system_of s) es (system_of s') \/ es = [] /\ system_of s' = system_of s.
Proof.
  assert (Hth : forall i t, cs_threads s !! i = Some t -> sy_threads (system_of s) !! i = Some (thread_of t)).
  { intros i t Ht. simpl. by rewrite list_lookup_fmap, Ht. }
  destruct 1 as [i op rest dn sn Ho Ht|i op rest dn sn g ok Ht E|i op ok rest dn sn Ht|i o rest dn sn Ht
    |i o rest dn sn Ht]; apply Hth in Ht as Ht'; unfold system_of; simpl; rewrite list_fmap_insert; simpl.
  - left. by apply (s_lock be (system_of s) i op (locked_part rest) dn).
  - left. by apply (s_body be (system_of s) i op (locked_part rest) dn g ok).
  - left. by apply (s_unlock be (system_of s) i op ok (locked_part rest) dn).
  - right. split; [done|]. f_equal. by apply list_insert_id.
  - right. split; [done|]. f_equal. by apply list_insert_id.
Qed.

Lemma client_runs_locked g programs es s :
  client_runs (clients g programs) es s -> runs be (start g (locked_part <$> programs)) es (system_of s).
Proof.
  rewrite <- system_of_clients. induction 1 as [|es s es' s' _ IH Hs]; [constructor|].
  destruct (client_step_locked _ _ _ Hs) as [Hl|[-> ->]]; [by eapply runs_snoc|by rewrite app_nil_r].
Qed.

(** ** Where races come from *)

(** A thread does nothing that is not in its program. *)
Definition in_program (p : list item) (t : Client) : Prop :=
  cl_todo t ⊆ p
  /\ match cl_place t with
     | Body op | Leave op _ => Call op ∈ p
     | Looking o => Look o ∈ p
     | Idle => True
     end.

Definition all_in_program (programs : list (list item)) (s : Clients) : Prop :=
  forall i t, cs_threads s !! i = Some t -> exists p, programs !! i = Some p /\ in_program p t.

Lemma in_program_step p t it rest pl dn sn :
  in_program p t -> cl_todo t = it :: rest ->
  match pl with Body op | Leave op _ => it = Call op | Looking o => it = Look o | Idle => True end ->
  in_program p (mk_client rest pl dn sn).
Proof.
  intros [Hs _] E Hp. rewrite E in Hs. split; [set_solver|].
  destruct pl; simpl; try subst it; try done; apply Hs; left.
Qed.

Lemma in_program_place p t pl dn sn :
  in_program p t ->
  match pl with Body op | Leave op _ => Call op ∈ p | Looking o => Look o ∈ p | Idle => True end ->
  in_program p (mk_client (cl_todo t) pl dn sn).
Proof. by intros [Hs _]. Qed.

Lemma client_step_in_program programs s es s' :
  all_in_program programs s -> client_step s es s' -> all_in_program programs s'.
Proof.
  intros Ha Hs. destruct Hs as [i op rest dn sn Ho Ht|i op rest dn sn g ok Ht _|i op ok rest dn sn Ht
    |i o rest dn sn Ht|i o rest dn sn Ht]; destruct (Ha i _ Ht) as (p & Hp & Hin);
    intros j t Hj; simpl in Hj; (destruct (decide (j = i)) as [->|Hne];
      [rewrite list_lookup_insert_eq in Hj by (by eapply lookup_lt_Some); injection Hj as <-; exists p; split; [done|]
      |rewrite list_lookup_insert_ne in Hj by done; by apply Ha]).
  - by eapply in_program_step.
  - apply (in_program_place _ _ _ _ _ Hin), Hin.
  - by apply (in_program_place _ _ _ _ _ Hin).
  - by eapply in_program_step.
  - by apply (in_program_place _ _ _ _ _ Hin).
Qed.

Lemma client_runs_in_program g programs es s :
  client_runs (clients g programs) es s -> all_in_program programs s.
Proof.
  induction 1 as [|es s es' s' _ IH Hs]; [|by eapply client_step_in_program].
  intros i t Ht. apply list_lookup_fmap_Some in Ht as (p & -> & Hp). exists p. split; [done|].
  split; simpl; done.
Qed.

(** No thread looks at what another one's calls write. *)
Definition compatible (programs : list (list item)) : Prop :=
  forall i j p q op o, programs !! i = Some p -> programs !! j = Some q -> i <> j ->
    Call op ∈ p -> Look o ∈ q -> writes (method_of op) o = false.

Lemma compatible_no_race g programs es s :
  compatible programs -> client_runs (clients g programs) es s -> ~ races s.
Proof.
  intros Hc Hr (i & j & ti & tj & op & o & Hi & Hj & Hb & Hl & Hw).
  pose proof (client_runs_in_program _ _ _ _ Hr) as Ha.
  destruct (Ha i ti Hi) as (p & Hp & _ & Hpi), (Ha j tj Hj) as (q & Hq & _ & Hqj).
  rewrite Hb in Hpi. rewrite Hl in Hqj.
  rewrite (Hc i j p q op o Hp Hq) in Hw; [done| |done|done]. intros ->. congruence.
Qed.

(** Two threads, one call and one look: the race is two steps away. *)
Lemma race_reached g op o :
  writes (method_of op) o = true ->
  exists s, client_runs (clients g [[Call op]; [Look o]]) [] s /\ races s.
Proof.
  intros Hw. pose proof (cr_nil (clients g [[Call op]; [Look o]])) as R.
  eapply cr_snoc in R; [|eapply (c_lock _ 0); reflexivity].
  eapply cr_snoc in R; [|eapply (c_look _ 1); reflexivity].
  eexists. split; [exact R|]. exists 0%nat, 1%nat. eexists _, _, op, o. by split_and!.
Qed.
End races.

(** ** Theorems *)

(** Which call can change what which observer returns.  A method is listed as writing what an
    observer reads exactly when some call of it, in some reachable state, changes the value;
    all other calls leave it as it is, over any backend.  So [record_count] is disturbed only by
    [request], [release] and [restore], [arena_base] only by [initialize], and no observer by
    [apply_relocation]. *)
Theorem observers_disturbed m o :
  writes m o = false <->
  forall B (be : IBackend B) d g op g' ok,
    0 < managed_capacity d < U64 -> gov_reachable be d g -> method_of op = m -> gov_op_ok op g ->
    gov_step be op g = Some (g', ok) -> observe o g' = observe o g.
Proof.
  split.
  - intros Hw B be d g op g' ok Hd Hr <- Hop E.
    exact (writes_sound be op g g' ok o (gov_reachable_inv be d g Hd Hr) Hop E Hw).
  - intros Hall. destruct (writes m o) eqn:Hw; [|done]. exfalso.
    destruct (writes_changes m o Hw) as (g & op & g' & ok & Hr & Hm & Hop & E & Hne).
    exact (Hne (Hall _ demo_backend gov_domain0 g op g' ok gov_domain0_ok Hr Hm Hop E)).
Qed.

(** A step that does not write what thread [j] is looking at leaves it as it is. *)
Lemma look_stable {B} (be : IBackend B) programs g es s es' s' j t o :
  compatible programs -> client_runs be (clients g programs) es s ->
  gov_inv (cs_gov s) -> bodies_ok (system_of s) -> client_step be s es' s' ->
  cs_threads s !! j = Some t -> cl_place t = Looking o -> observe o (cs_gov s') = observe o (cs_gov s).
Proof.
  intros Hc Hr Hi Hb Hs Hj Hl. destruct Hs as [?|i op rest dn sn g' ok Ht E|?|?|?]; try done.
  assert (Hop : gov_op_ok op (cs_gov s)).
  { apply (Hb i (thread_of (mk_client rest (Body op) dn sn))); [|done]. simpl. by rewrite list_lookup_fmap, Ht. }
  apply (writes_sound be op (cs_gov s) g' ok o Hi Hop E).
  destruct (writes (method_of op) o) eqn:Hw; [|done]. exfalso.
  apply (compatible_no_race be g programs es s Hc Hr). exists i, j. eexists _, _, op, o. by split_and!.
Qed.

(** The observers that take no lock are safe for exactly the programs in which no thread looks at
    what another thread's calls write.  For such programs no reachable state is a data race and
    a member does not change while it is looked at; for any other pair of a call and a look two
    threads that make just these race.  In every case the looks leave the locked calls alone:
    they are a run of the threads with the looks left out. *)
Theorem unlocked_observers {B} (be : IBackend B) g programs es s :
  client_runs be (clients g programs) es s ->
  runs be (start g (locked_part <$> programs)) es (system_of s)
  /\ (compatible programs -> ~ races s
      /\ (gov_inv (cs_gov s) -> bodies_ok (system_of s) ->
          forall es' s' j t o, client_step be s es' s' -> cs_threads s !! j = Some t ->
            cl_place t = Looking o -> observe o (cs_gov s') = observe o (cs_gov s)))
  /\ (forall op o, ~ compatible [[Call op]; [Look o]] ->
      exists s', client_runs be (clients g [[Call op]; [Look o]]) [] s' /\ races s').
Proof.
  intros Hr. split; [by apply client_runs_locked|]. split.
  - intros Hc. split; [by eapply compatible_no_race|]. intros Hi Hb es' s' j t o Hs.
    by apply (look_stable be programs g es s es' s' j t o).
  - intros op o Hn. apply race_reached. destruct (writes (method_of op) o) eqn:Hw; [done|]. destruct Hn.
    intros i j p q op' o' Hp Hq Hne Hop Ho. destruct i as [|[|i]], j as [|[|j]]; simplify_eq/=;
      apply list_elem_of_singleton in Hop, Ho; congruence.
Qed.

(** A thread in the body of a request while another one asks for the address of the arena. *)
Definition demo_clients : list (list item) := [[Call (GRequest (gov_req 100 64 false))]; [Look O_arena_base]].

Lemma demo_compatible : compatible demo_clients.
Proof.
  intros [|[|i]] [|[|j]] p q op o Hp Hq Hne Hop Ho; simplify_eq/=;
    apply list_elem_of_singleton in Hop, Ho; by simplify_eq.
Qed.

Lemma unlocked_observers_witness :
  exists s, client_runs demo_backend (clients gov1 demo_clients) [] s
    /\ map (fun t => cl_place t) (cs_threads s) = [Body (GRequest (gov_req 100 64 false)); Looking O_arena_base]
    /\ ~ races s.
Proof.
  pose proof (cr_nil demo_backend (clients gov1 demo_clients)) as R.
  eapply cr_snoc in R; [|eapply (c_lock _ _ 0); reflexivity].
  eapply cr_snoc in R; [|eapply (c_look _ _ 1); reflexivity].
  eexists. split; [exact R|]. split; [reflexivity|].
  apply (unlocked_observers demo_backend gov1 demo_clients _ _ R), demo_compatible.
Defined.
