(* ===== verification/GovernorTypes.v ===== *)
(** Types: every field of the governor's state keeps a value of its C++ type, words within
    their width and enumerations with a name, whatever is asked of it. *)
From S2P Require Import Prelude Words Ordered Types Floats Region RegionInv RegionAlloc RegionFree.
From S2P Require Import RegionReloc RegionQuery RegionSpec Pressure Request Bytes Persist.
From S2P Require Import PersistInv Governor GovernorInv GovernorOps GovernorSpec GovernorProps.
From S2P Require Import GovernorPolicy.
Open Scope Z_scope.

(** ** Words *)

Lemma sub_sat_range a b : in_u64 a -> in_u64 (sub_sat a b).
Proof. intros Ha. unfold sub_sat. destruct (a >=? b); [apply sub64_range|done]. Qed.

Lemma gen_next_range {tag} (g : TypedGeneration tag) :
  in_u64 (gen_value g) -> in_u64 (gen_value (gen_next g)).
Proof. unfold gen_next, in_u64, U64. destruct (Z.eqb_spec (gen_value g) (2 ^ 64 - 1)); simpl; lia. Qed.

(** A value the enumeration names. *)
Definition known {E} `{CEnum E} (e : E) : Prop := e ∈ cenum_named (E := E).

#[export] Instance known_dec {E} `{CEnum E} `{EqDecision E} (e : E) : Decision (known e).
Proof. unfold known. apply _. Defined.

Lemma known_canon {E} `{CEnum E} (e : E) : known e -> cenum_canon e.
Proof. by left. Qed.

Lemma known_ok {E} `{CEnum E} (e : E) : known e -> enum_ok e = true.
Proof.
  intros Hk. apply Z.leb_le. unfold cenum_max.
  apply (list_elem_of_fmap_2 cenum_to_u8) in Hk. rewrite cenum_named_seq in Hk.
  apply elem_of_seqZ in Hk. lia.
Qed.

#[export] Hint Resolve known_canon known_ok add64_range sub_sat_range gen_next_range : gms.

(** An enumerator written in the source. *)
Ltac named := solve [apply (bool_decide_unpack _); vm_compute; exact I].

(** ** Records *)

(** A record whose fields are of their types, and whose place is one. *)
Record rec_typed (managed : Z) (r : AllocationRecord) : Prop := {
  rt_ok : record_ok r;
  rt_bytes : 0 < rec_requested_bytes r;
  rt_align : is_pow2 (rec_alignment r) = true;
  rt_end : rec_end r <= managed;
  rt_aligned : rec_offset r mod rec_alignment r = 0;
  rt_enums : enum_ok (rec_mem_class r) && enum_ok (rec_reclaimability r)
             && enum_ok (rec_movability r) && enum_ok (rec_residency r)
             && enum_ok (rec_lifecycle r) && enum_ok (rec_provenance r) = true;
  rt_generation : gen_value (rec_generation r) <> 0;
}.

Lemma typed_with_state managed r res lc :
  rec_typed managed r -> known res -> known lc -> rec_typed managed (rec_with_state res lc r).
Proof.
  intros [Hok ???? He' ?]. intros Hr Hl. constructor; simpl; try done.
  - destruct Hok; constructor; simpl; eauto with gms.
  - rewrite !andb_true_iff in He' |- *. rewrite (known_ok res), (known_ok lc) by done. intuition.
Qed.

Lemma typed_with_pin managed r m pins lc :
  rec_typed managed r -> known m -> in_u32 pins -> known lc ->
  rec_typed managed (rec_with_pin m pins lc r).
Proof.
  intros [Hok ???? He' ?]. intros Hm Hp Hl. constructor; simpl; try done.
  - destruct Hok; constructor; simpl; eauto with gms.
  - rewrite !andb_true_iff in He' |- *. rewrite (known_ok lc), (known_ok m) by done. intuition.
Qed.

Lemma typed_with_place managed r off size rgen gen rel lc :
  rec_typed managed r -> in_u64 off -> in_u64 size -> in_u64 (gen_value rgen) ->
  in_u64 (gen_value gen) -> gen_value gen <> 0 -> in_u64 (gen_value rel) -> known lc ->
  off + size <= managed -> off mod rec_alignment r = 0 ->
  rec_typed managed (rec_with_place off size rgen gen rel lc r).
Proof.
  intros [Hok ???? He' ?]. intros Ho Hs Hrg Hg Hg0 Hrel Hl He Ha. constructor; simpl; try done.
  - destruct Hok; constructor; simpl; eauto with gms.
  - rewrite !andb_true_iff in He' |- *. rewrite (known_ok lc) by done. intuition.
Qed.

(** A request whose fields fit their types and name known values. *)
Record storable_request (req : AllocationRequest) : Prop := {
  sr_class : known (rq_mem_class req);
  sr_reclaim : known (rq_reclaimability req);
  sr_movability : known (rq_movability req);
  sr_provenance : known (rq_provenance req);
  sr_owner : str_size (rq_owner req) <= 2 ^ 20;
  sr_backing : str_size (rq_backing_ref req) <= 2 ^ 20;
  sr_worker : in_u64 (id_value (rq_worker req));
  sr_worker_boot : in_u64 (gen_value (rq_worker_boot req));
  sr_source_boot : in_u64 (gen_value (rq_source_boot req));
  sr_workload : in_u64 (id_value (rq_workload req));
  sr_execution : in_u64 (id_value (rq_execution req));
  sr_reservation : in_u64 (gen_value (rq_reservation_gen req));
  sr_claim : in_u64 (gen_value (rq_resource_claim_gen req));
  sr_placement : in_u64 (gen_value (rq_placement_gen req));
  sr_policy : in_u64 (gen_value (rq_policy_gen req));
}.

Lemma typed_new_record managed req id r :
  storable_request req -> request_words req -> in_u64 managed -> 0 < rq_bytes req ->
  is_pow2 (rq_alignment req) = true -> in_u64 (id_value id) ->
  in_u64 (id_value (ri_region_id r)) -> in_u64 (gen_value (ri_region_generation r)) ->
  0 <= ri_size r -> 0 <= ri_offset r -> ri_offset r + ri_size r <= managed ->
  ri_offset r mod rq_alignment req = 0 -> rec_typed managed (new_record req id r).
Proof.
  intros [] [Hb Ha] Hm Hb0 Hp Hid Hrid Hrg Hs Ho He Hal.
  assert (Hmov : known (if rq_requires_pin req then Movability.PINNED else rq_movability req)).
  { destruct (rq_requires_pin req); [named|done]. }
  assert (Hlc : known (if rq_requires_pin req then LifecycleState.PINNED else LifecycleState.RESIDENT)).
  { destruct (rq_requires_pin req); named. }
  assert (Hrs : known ResidencyState.RESIDENT) by named.
  assert (Hw : in_u64 (ri_size r) /\ in_u64 (ri_offset r)) by (unfold in_u64 in *; lia).
  destruct Hw. constructor; simpl; eauto with gms; try done.
  - constructor; simpl; eauto with gms; try done. destruct (rq_requires_pin req); done.
  - by rewrite (known_ok (rq_mem_class req)), (known_ok (rq_reclaimability req)),
      (known_ok (if rq_requires_pin req then _ else _)), (known_ok ResidencyState.RESIDENT),
      (known_ok (if rq_requires_pin req then _ else _)), (known_ok (rq_provenance req)).
Qed.

(** ** Regions *)

Record region_typed (r : RegionInfo) : Prop := {
  gt_id : in_u64 (id_value (ri_region_id r));
  gt_generation : in_u64 (gen_value (ri_region_generation r));
  gt_alignment : in_u64 (ri_alignment r);
  gt_pow2 : is_pow2 (ri_alignment r) = true;
  gt_alloc : in_u64 (id_value (ri_alloc_id r));
  gt_alloc_generation : in_u64 (gen_value (ri_alloc_generation r));
  gt_movability : known (ri_movability r);
  gt_pins : in_u32 (ri_pin_count r);
  gt_class : known (ri_mem_class r);
  gt_reclaim : known (ri_reclaimability r);
  gt_residency : known (ri_residency r);
  gt_lifecycle : known (ri_lifecycle r);
  gt_provenance : known (ri_provenance r);
  gt_boot : in_u64 (gen_value (ri_worker_boot r));
}.

Definition regions_typed (m : omap Z RegionInfo) : Prop := Forall (fun e => region_typed e.2) m.

(** The counter of region ids is a word, and so are the fields of every region, free ones
    included. *)
Record arena_typed (a : RegionAllocator) : Prop := {
  at_next : in_u64 (ra_next_region_id a);
  at_regions : regions_typed (ra_regions a);
}.

Lemma regions_typed_set k r m : regions_typed m -> region_typed r -> regions_typed (om_set k r m).
Proof.
  unfold regions_typed. rewrite !Forall_forall. intros Hm Hr e [->|He]%om_set_keys; [done|auto].
Qed.

Lemma regions_typed_emplace k r m :
  regions_typed m -> region_typed r -> regions_typed (om_emplace k r m).
Proof.
  intros Hm Hr. induction Hm as [|[k' r'] m Hr' Hm IH]; simpl; [by constructor|].
  unfold regions_typed in *. repeat case_decide; eauto using Forall_cons_2.
Qed.

Lemma regions_typed_erase k m : regions_typed m -> regions_typed (om_erase k m).
Proof. unfold regions_typed. rewrite !Forall_forall. intros Hm e He%om_erase_sub. auto. Qed.

Lemma regions_typed_find k m r : regions_typed m -> om_find k m = Some r -> region_typed r.
Proof. intros Hm. induction Hm as [|[k' r'] m Hr' _ IH]; simpl; [done|]. case_decide; naive_solver. Qed.

#[export] Hint Resolve regions_typed_set regions_typed_emplace regions_typed_erase regions_typed_find : gms.

Lemma free_region_typed off size id prov :
  in_u64 id -> known prov -> region_typed (free_region off size id prov).
Proof. intros Hid Hp. constructor; simpl; try done; named. Qed.

Lemma span_typed off size r : region_typed r -> region_typed (ri_with_span off size r).
Proof. by intros []. Qed.

Lemma pin_typed_region m pins r :
  region_typed r -> known m -> in_u32 pins -> region_typed (ri_with_pin m pins r).
Proof. by intros []. Qed.

Lemma add_free_typed off size prov a :
  arena_typed a -> known prov -> arena_typed (add_free off size prov a).
Proof.
  intros [Hn Hr] Hp. constructor; [apply add64_range|].
  apply regions_typed_emplace; [done|by apply free_region_typed].
Qed.

Lemma new_arena_typed cap : arena_typed (RegionAllocator_new cap).
Proof.
  unfold RegionAllocator_new. case_match; (constructor; [done|]);
    (constructor; [|constructor]); (apply free_region_typed; [done|named]).
Qed.

#[local] Hint Resolve add_free_typed free_region_typed span_typed add64_range : gms.

Lemma place_typed req aligned slot front a a' res :
  arena_typed a -> place req aligned slot front a = Some (a', res) ->
  (forall off id, in_u64 id -> region_typed (live_region off aligned id req)) ->
  arena_typed a' /\ forall r, res = Ok r -> region_typed r.
Proof.
  intros Ha E Hl. unfold place in E. cbv zeta in E.
  destruct (om_find (fs_offset slot) (ra_regions a)) as [frec|] eqn:Ef; [|done].
  pose proof (gt_provenance _ (regions_typed_find _ _ _ (at_regions _ Ha) Ef)) as Hp.
  set (b := if front >? 0 then _ else _) in E. assert (Hb : arena_typed b).
  { assert (Hb0 : arena_typed (ra_with_slots (os_erase slot (ra_free_slots a))
                    (ra_with_regions (om_erase (fs_offset slot) (ra_regions a)) a))).
    { constructor; [apply Ha|apply regions_typed_erase, Ha]. }
    unfold b. destruct (front >? 0); [by apply add_free_typed|done]. }
  clearbody b. pose proof (Hl (add64 (fs_offset slot) front) _ (at_next _ Hb)) as Hr.
  set (b1 := ra_with_regions (om_emplace _ _ _) _) in E. assert (Hb1 : arena_typed b1).
  { constructor; [apply add64_range|]. apply regions_typed_emplace; [apply Hb|done]. }
  clearbody b1. set (c := if sub64 _ _ >? 0 then _ else _) in E. assert (Hc : arena_typed c).
  { unfold c. destruct (_ >? 0); [by apply add_free_typed|done]. }
  clearbody c. injection E as <- <-. split; [|by intros ? [= <-]]. constructor; apply Hc.
Qed.

(** A request to the arena whose fields are of their types. *)
Record alloc_request_typed (req : AllocRequest) : Prop := {
  qt_alignment : in_u64 (aq_alignment req);
  qt_id : in_u64 (id_value (aq_alloc_id req));
  qt_generation : in_u64 (gen_value (aq_alloc_generation req));
  qt_movability : known (aq_movability req);
  qt_class : known (aq_mem_class req);
  qt_reclaim : known (aq_reclaimability req);
  qt_provenance : known (aq_provenance req);
  qt_boot : in_u64 (gen_value (aq_worker_boot req));
}.

Lemma allocate_typed req a a' res :
  arena_typed a -> alloc_request_typed req -> allocate req a = Some (a', res) ->
  arena_typed a' /\ forall r, res = Ok r -> region_typed r.
Proof.
  intros Ha Hq. unfold allocate, fail. cbv zeta.
  destruct (aq_bytes req =? 0); [by intros [= <- <-]|].
  destruct ((aq_alignment req =? 0) || _) eqn:Ep; [by intros [= <- <-]|].
  apply orb_false_iff in Ep as [_ Ep%negb_false_iff].
  destruct (_ >? _); [by intros [= <- <-]|]. destruct (_ || _); [by intros [= <- <-]|].
  destruct (_ >? _); [by intros [= <- <-]|].
  destruct (find_slot _ _ _) as [[slot front]|]; [|destruct (_ <? _); by intros [= <- <-]].
  intros E. apply (place_typed _ _ _ _ _ _ _ Ha E). intros off id Hid. destruct Hq.
  constructor; simpl; try done; named.
Qed.

Lemma merge_prev_typed off a : arena_typed a -> arena_typed (merge_prev off a).2.
Proof.
  intros [? ?]. unfold merge_prev. destruct (om_prev _ _) as [[pk pr]|]; [|done].
  destruct (_ && _); [|done]. constructor; [done|by apply regions_typed_erase].
Qed.

Lemma merge_next_typed off hi a : arena_typed a -> arena_typed (merge_next off hi a).2.
Proof.
  intros [? ?]. unfold merge_next. destruct (om_lower_bound _ _) as [|[nk nr] l]; [done|].
  destruct (_ && _); [|done]. constructor; [done|by apply regions_typed_erase].
Qed.

Lemma canonicalize_typed off size a : arena_typed a -> arena_typed (canonicalize_free off size a).1.
Proof.
  intros Ha. unfold canonicalize_free. destruct (size =? 0); [done|]. destruct (_ || _); [done|].
  pose proof (merge_prev_typed off a Ha) as H1. destruct (merge_prev off a) as [lo a1].
  pose proof (merge_next_typed off (add64 off size) a1 H1) as H2.
  destruct (merge_next _ _ a1) as [hi a2]. simpl.
  destruct (add_free_typed lo (sub64 hi lo) Provenance.DERIVED a2 H2) as [? ?]; [named|]. by constructor.
Qed.

Lemma free_typed id gen a : arena_typed a -> arena_typed (free id gen a).1.
Proof.
  intros Ha. unfold free. destruct (_ !! id) as [off|]; [|done].
  destruct (om_find off _) as [r|]; [|done]. destruct (negb _); [done|]. destruct (negb _); [done|].
  apply canonicalize_typed. constructor; [apply Ha|apply regions_typed_erase, Ha].
Qed.

(** The region of a handle, and the arena with it replaced. *)
Lemma repin_typed off r m pins a :
  arena_typed a -> om_find off (ra_regions a) = Some r -> known m -> in_u32 pins ->
  region_typed (ri_with_pin m pins r)
  /\ arena_typed (ra_with_regions (om_set off (ri_with_pin m pins r) (ra_regions a)) a).
Proof.
  intros [Hn Hr] Hf Hm Hp. pose proof (pin_typed_region m pins r) as Hx.
  split; [eauto with gms|]. constructor; [done|]. simpl. eauto with gms.
Qed.

Lemma pin_typed id gen a a' res :
  arena_typed a -> pin id gen a = Some (a', res) -> arena_typed a'.
Proof.
  intros Ha. unfold pin. intros E. repeat (case_match; simplify_eq/=; try done).
  eapply repin_typed; [done|done|named|apply Z.mod_pos_bound; done].
Qed.

Lemma unpin_typed id gen a a' res :
  arena_typed a -> unpin id gen a = Some (a', res) -> arena_typed a'.
Proof.
  intros Ha. unfold unpin. intros E. repeat (case_match; simplify_eq/=; try done);
    (eapply repin_typed; [done|done| |apply Z.mod_pos_bound; done]); [named|].
  by eapply gt_movability, regions_typed_find; [apply Ha|].
Qed.

Lemma carve_typed no hi a : arena_typed a -> arena_typed (carve no hi a).
Proof.
  intros [Hn Hr]. unfold carve.
  assert (Hf : forall l next b, regions_typed l -> regions_typed next -> in_u64 (ra_next_region_id b) ->
    regions_typed (fold_left (carve_step no hi) l (next, b)).1
    /\ in_u64 (ra_next_region_id (fold_left (carve_step no hi) l (next, b)).2)).
  { clear. induction l as [|[k r] l IH]; intros next b Hl Hx Hb; [done|]. apply Forall_cons in Hl as [Hk Hl].
    simpl in Hk |- *. destruct (ri_live r); [apply IH; eauto with gms|].
    destruct (_ >=? _); [apply IH; eauto with gms|].
    destruct (_ <? _), (_ <? _); apply IH; simpl; eauto with gms. }
  destruct (Hf (ra_regions a) [] a Hr ltac:(constructor) Hn) as [H1 H2].
  destruct (fold_left _ _ _) as [next b]. simpl in *. by constructor.
Qed.

Lemma relocate_typed id gen no ns na a :
  arena_typed a -> in_u64 na -> arena_typed (relocate id gen no ns na a).1.
Proof.
  intros Ha Hna. unfold relocate. destruct (_ !! id) as [off|]; [|done].
  destruct (om_find off _) as [r|] eqn:Ef; [|done]. destruct (negb _); [done|].
  destruct (negb _) eqn:Eg; [done|]. apply negb_false_iff, bool_decide_eq_true in Eg as Eg.
  destruct ((na =? 0) || _) eqn:Ep; [done|]. apply orb_false_iff in Ep as [_ Ep%negb_false_iff].
  destruct (_ || _); [done|]. destruct (_ || _); [done|]. cbv zeta.
  destruct (_ && _); [done|]. destruct (target_blocked _ _ _); [done|]. unfold do_relocate.
  pose proof (regions_typed_find _ _ _ (at_regions _ Ha) Ef) as Hr.
  match goal with |- context [canonicalize_free ?o ?s (carve ?x ?y ?c)] =>
    pose proof (canonicalize_typed o s (carve x y c)) as Hc; destruct (canonicalize_free o s (carve x y c)) as [b [q|f]] end.
  2: { apply Hc, carve_typed. constructor; [apply Ha|apply regions_typed_erase, Ha]. }
  destruct Hc as [Hc1 Hc2]; [apply carve_typed; constructor; [apply Ha|apply regions_typed_erase, Ha]|].
  constructor; [done|]. apply regions_typed_emplace; [done|].
  destruct Hr. constructor; simpl; eauto with gms; [|named]. by apply gen_next_range; rewrite <- Eg.
Qed.

(** ** Governors *)

Section governors.
Context {B : Type} (be : IBackend B).
Implicit Types (g : MemoryGovernor B).

Lemma domain_ok_counts c r m p d :
  domain_ok d -> in_u64 c -> in_u64 r -> in_u64 m -> in_u64 p -> domain_ok (dom_with_counts c r m p d).
Proof. intros [] ? ? ? ?. by constructor. Qed.

Lemma domain_ok_status p h d :
  domain_ok d -> cenum_canon p -> cenum_canon h -> domain_ok (dom_with_status p h d).
Proof. intros [] ? ?. by constructor. Qed.

Lemma evaluate_pressure_known ev last : known (evaluate_pressure ev last).
Proof. unfold evaluate_pressure, classify_pressure. repeat case_match; named. Qed.

Definition domain_storable (d : MemoryDomain) : Prop :=
  domain_ok d /\ WatermarkConfig_valid (dom_watermarks d) = true.

(** Counters that are words stay words. *)
#[local] Ltac counts :=
  apply domain_ok_counts; [done|..]; repeat case_match; eauto with gms; apply add64_range.

Lemma charge_storable m size d : domain_storable d -> domain_storable (charge m size d).
Proof. intros [Hd Hw]. split; [|done]. pose proof Hd as []. unfold charge. counts. Qed.

Lemma discharge_storable m size d : domain_storable d -> domain_storable (discharge m size d).
Proof. intros [Hd Hw]. split; [|done]. pose proof Hd as []. unfold discharge. counts. Qed.

(** A snapshot whose fields are of their types. *)
Definition snapshot_typed (s : PersistSnapshot) : Prop :=
  domain_storable (ps_domain s) /\ in_u64 (ps_history_count s)
  /\ Forall (rec_typed (managed_capacity (ps_domain s))) (ps_records s ++ ps_retired s).

(** An operation whose arguments are of their types. *)
Definition typed_op (op : gov_op) : Prop :=
  match op with
  | GRequest req => storable_request req
  | GRestore s => snapshot_typed s
  | _ => True
  end.

Lemma gov_step_domain op g g' ok :
  typed_op op -> domain_storable (gov_domain g) ->
  gov_step be op g = Some (g', ok) -> domain_storable (gov_domain g').
Proof.
  intros Hk Hd E. pose proof Hd as [Hok Hw]. pose proof Hok as Hok'. destruct Hok'.
  destruct op as [|req|id gen wb sb|id gen|id gen|id gen no ns| |s]; simpl in Hk, E.
  - simplify_eq/=. unfold initialize. repeat (case_match; simpl; try done). split; [|done].
    apply domain_ok_status; [done|done|apply known_canon; named].
  - unfold request, next_id_locked in E. destruct (failure_ok _), (gov_initialized g); simplify_eq/=; try done.
    destruct (_ || _); simplify_eq/=; [done|].
    destruct (allocate _ _) as [[a [r|f]]|] eqn:Ea; simplify_eq/=; by try apply charge_storable.
  - simplify_eq/=. unfold release_for_worker, release_locked.
    repeat (case_match; simpl; try done). by apply discharge_storable.
  - unfold pin_locked in E. repeat (case_match; simplify_eq/=; try done). split; [counts|done].
  - unfold unpin_locked in E. repeat (case_match; simplify_eq/=; try done). split; [counts|done].
  - simplify_eq/=. unfold apply_relocation. repeat (case_match; simpl; try done).
  - simplify_eq/=. split; [|done]. by apply domain_ok_status; [|apply known_canon, evaluate_pressure_known|].
  - simplify_eq/=. destruct Hk as [[[] Hw2] _]. split; [|done].
    apply domain_ok_status; [by apply domain_ok_counts|apply known_canon; named..].
Qed.

Lemma arena_request_typed g req :
  gov_inv g -> request_words req -> storable_request req ->
  alloc_request_typed (arena_request req (mk_id (gov_next_alloc_id g))).
Proof.
  intros Hi [_ Ha] []. constructor; simpl; try done; [apply Hi|]. case_match; [named|done].
Qed.

Lemma gov_step_arena op g g' ok :
  gov_inv g -> gov_op_ok op g -> typed_op op ->
  (forall id rec, om_find id (gov_records g) = Some rec -> in_u64 (rec_alignment rec)) ->
  arena_typed (gov_arena g) -> gov_step be op g = Some (g', ok) -> arena_typed (gov_arena g').
Proof.
  intros Hi Hop Hk Hal Ha E. destruct op as [|req|id gen wb sb|id gen|id gen|id gen no ns| |s]; simpl in Hop, Hk, E.
  - simplify_eq/=. unfold initialize. repeat (case_match; simpl; try done).
  - unfold request, next_id_locked in E. destruct (failure_ok _), (gov_initialized g); simplify_eq/=; try done.
    destruct (_ || _); simplify_eq/=; [done|].
    pose proof (arena_request_typed g req Hi (proj1 Hop) Hk) as Hq.
    destruct (allocate _ _) as [[a [r|f]]|] eqn:Ea; simplify_eq/=; by apply allocate_typed in Ea as [? _].
  - simplify_eq/=. unfold release_for_worker, release_locked.
    pose proof (free_typed id gen _ Ha) as Hf. repeat (case_match; simpl; try done).
  - unfold pin_locked in E. repeat (case_match; simplify_eq/=; try done); by eapply pin_typed.
  - unfold unpin_locked in E. repeat (case_match; simplify_eq/=; try done); by eapply unpin_typed.
  - simplify_eq/=. unfold apply_relocation.
    destruct (om_find id (gov_records g)) as [rec|] eqn:Ef; [|done].
    pose proof (relocate_typed id gen no ns _ _ Ha (Hal _ _ Ef)) as Hf.
    repeat (case_match; simpl; try done).
  - simplify_eq/=. unfold ensure_summary. destruct Ha. by case_match.
  - simplify_eq/=. apply new_arena_typed.
Qed.

Lemma gov_step_history op g g' ok :
  typed_op op -> in_u64 (gov_history_count g) -> gov_step be op g = Some (g', ok) ->
  in_u64 (gov_history_count g').
Proof.
  intros Hk Hh E. destruct op as [|req|id gen wb sb|id gen|id gen|id gen no ns| |s]; simpl in Hk, E.
  - simplify_eq/=. unfold initialize. repeat (case_match; simpl; try done).
  - unfold request, next_id_locked in E. repeat (case_match; simplify_eq/=; try done).
  - simplify_eq/=. unfold release_for_worker, release_locked.
    repeat (case_match; simpl; try done). apply add64_range.
  - unfold pin_locked in E. repeat (case_match; simplify_eq/=; try done).
  - unfold unpin_locked in E. repeat (case_match; simplify_eq/=; try done).
  - simplify_eq/=. unfold apply_relocation. repeat (case_match; simpl; try done).
  - by simplify_eq/=.
  - simplify_eq/=. apply Hk.
Qed.

(** Every record, live or retired. *)
Definition all_records (P : AllocationRecord -> Prop) g : Prop :=
  forall id rec, om_find id (gov_records g) = Some rec \/ om_find id (gov_retired g) = Some rec -> P rec.

Lemma all_records_same P g g' :
  gov_records g' = gov_records g -> gov_retired g' = gov_retired g -> all_records P g -> all_records P g'.
Proof. unfold all_records. by intros -> ->. Qed.

Lemma all_records_set P g g' id rec' :
  gov_records g' = om_set id rec' (gov_records g) -> gov_retired g' = gov_retired g ->
  all_records P g -> P rec' -> all_records P g'.
Proof.
  unfold all_records. intros -> -> Hg Hr id' rec.
  destruct (decide (id' = id)) as [->|Hne]; [|rewrite om_find_set_ne by done; eauto].
  rewrite om_find_set_eq. intros [[= <-]|?]; eauto.
Qed.

Lemma all_records_release P g g' id rec :
  gov_inv g -> om_find id (gov_records g) = Some rec -> after_release g id rec g' ->
  all_records P g -> (P rec -> P (released rec)) -> all_records P g'.
Proof.
  intros Hi Hf (Er & Et & _) Hg Hr id' rec'. rewrite Er, Et.
  destruct (decide (id' = id)) as [->|Hne].
  - rewrite om_find_erase_eq, om_find_set_eq by apply (gi_registry _ Hi).
    intros [?|[= <-]]; [done|]. eauto.
  - rewrite om_find_erase_ne, om_find_set_ne by done. eauto.
Qed.

Lemma all_records_restore P g s :
  restorable s -> Forall P (ps_records s ++ ps_retired s) -> (forall rec, P rec -> P (recovered rec)) ->
  all_records P (restore s g).1.
Proof.
  intros Hr Hs Hp id rec [Hf|Hf]; [discriminate Hf|]. apply Forall_app in Hs as [Hs1 Hs2].
  rewrite Forall_forall in Hs1, Hs2.
  apply (restored_find s g id rec Hr) in Hf as [_ [Hin|(r & Hin & ->)]]; auto.
Qed.

(** ** What a step does to a record *)

(** A record that a call changes in place. *)
Inductive record_change g : gov_op -> AllocationRecord -> AllocationRecord -> Prop :=
  | ch_pin op id gen reg rec m pins lc :
      held (gov_arena g) id gen reg ->
      m = Movability.PINNED \/ m = Movability.MOVABLE \/ m = ri_movability reg ->
      in_u32 pins -> known lc -> record_change g op rec (rec_with_pin m pins lc rec)
  | ch_move id gen no ns reg rec :
      current g id gen rec -> held (gov_arena g) id gen reg ->
      target_ok (gov_arena g) no ns (rec_alignment rec) ->
      record_change g (GRelocate id gen no ns) rec
        (relocated_record rec (moved_region no ns (rec_alignment rec) gen reg)).

Inductive records_step g (op : gov_op) g' : Prop :=
  | st_same :
      gov_records g' = gov_records g -> gov_retired g' = gov_retired g -> records_step g op g'
  | st_new req h r :
      op = GRequest req -> request req g = Some (g', Ok h) -> admitted g req ->
      after_request g req r g' -> records_step g op g'
  | st_change id rec rec' :
      om_find id (gov_records g) = Some rec -> record_change g op rec rec' ->
      gov_records g' = om_set id rec' (gov_records g) -> gov_retired g' = gov_retired g ->
      records_step g op g'
  | st_release id rec :
      om_find id (gov_records g) = Some rec -> after_release g id rec g' -> records_step g op g'.

Lemma gov_step_records op g g' ok :
  gov_inv g -> gov_op_ok op g -> is_restore op = false -> gov_step be op g = Some (g', ok) ->
  managed_capacity (gov_domain g') = managed_capacity (gov_domain g) /\ records_step g op g'.
Proof.
  intros Hi Hop Hr E. destruct op as [|req|id gen wb sb|id gen|id gen|id gen no ns| |s];
    simpl in Hop, Hr, E; try done.
  - pose proof (initialize_cases be g Hi) as Hc. destruct (initialize be g) as [g1 res].
    simplify_eq/=. destruct Hc as (_ & ? & ? & _ & _ & Ec & _). split; [done|]. by apply st_same.
  - destruct Hop as [Hw Hn]. destruct (request_cases g req Hi Hw Hn) as (g1 & res & E1 & _ & Hc).
    pose proof E1 as E2. rewrite E1 in E. simplify_eq/=. destruct res as [h|f].
    + destruct Hc as (Had & r & Ha & _). split; [by rewrite (aq_domain _ _ _ _ Ha)|]. by eapply st_new.
    + destruct Hc as [(n & -> & _) _]. split; [done|]. by apply st_same.
  - unfold release_for_worker in E. pose proof (release_cases g id gen wb sb Hi) as Hc.
    destruct (release_locked id gen wb sb g) as [g1 res]. simplify_eq/=. destruct res as [rel|f].
    + destruct Hc as (rec & [Hf _] & _ & _ & _ & Ha). pose proof Ha as (_ & _ & _ & _ & Ed & _).
      split; [by rewrite Ed|]. by eapply st_release.
    + destruct Hc as [-> _]. split; [done|]. by apply st_same.
  - destruct (pin_locked_cases g id gen Hi) as (g1 & res & E1 & _ & Hc).
    rewrite E1 in E. simplify_eq/=. destruct res as [u|f].
    + destruct Hc as (rec & reg & [Hf _] & Hh & _ & [] & _). split; [done|].
      eapply st_change; [done| |done|done]. eapply ch_pin; [done|by left|by apply Z.mod_pos_bound|named].
    + destruct Hc as [-> _]. split; [done|]. by apply st_same.
  - destruct (unpin_locked_cases g id gen Hi) as (g1 & res & E1 & _ & Hc).
    rewrite E1 in E. simplify_eq/=. destruct res as [u|f].
    + destruct Hc as (rec & reg & [Hf _] & Hh & _ & _ & [] & _). split; [done|].
      eapply st_change; [done| |done|done]. eapply ch_pin; [done| |by apply Z.mod_pos_bound|].
      * simpl. destruct (_ =? 0); auto.
      * destruct (_ =? 0); named.
    + destruct Hc as [-> _]. split; [done|]. by apply st_same.
  - destruct Hop as (Hno & Hns & _). pose proof (apply_relocation_cases g id gen no ns Hi Hno Hns) as Hc.
    destruct (apply_relocation id gen no ns g) as [g1 res]. simplify_eq/=. destruct Hc as [_ Hc].
    destruct res as [h|f].
    + destruct Hc as (rec & reg & Hcur & Hh & _ & _ & Ht & [] & _). split; [done|].
      eapply st_change; [apply Hcur| |done|done]. by eapply ch_move.
    + destruct Hc as [-> _]. split; [done|]. by apply st_same.
  - simplify_eq/=. split; [done|]. by apply st_same.
Qed.

(** A property of records that new, changed and released records keep. *)
Lemma records_step_all P op g g' :
  gov_inv g -> records_step g op g' -> all_records P g ->
  (forall req h r, op = GRequest req -> request req g = Some (g', Ok h) -> admitted g req ->
     after_request g req r g' -> P (new_record req (mk_id (gov_next_alloc_id g)) r)) ->
  (forall rec rec', P rec -> record_change g op rec rec' -> P rec') ->
  (forall rec, P rec -> P (released rec)) -> all_records P g'.
Proof.
  intros Hi Hs Ha Hn Hc Hr. destruct Hs as [Er Et|req h r Eo E Had Haf|id rec rec' Hf Hch Er Et|id rec Hf Haf].
  - by eapply all_records_same.
  - eapply all_records_set; [apply Haf|apply Haf|done|eauto].
  - eapply all_records_set; [done|done|done|]. eapply Hc; [|done]. eauto.
  - eapply all_records_release; eauto.
Qed.

(** ** Well-typed governors *)

(** Every region, free ones included, every record, the domain and the counters. *)
Record gov_typed g : Prop := {
  ty_arena : arena_typed (gov_arena g);
  ty_domain : domain_storable (gov_domain g);
  ty_next : in_u64 (gov_next_alloc_id g);
  ty_history : in_u64 (gov_history_count g);
  ty_records : all_records (rec_typed (managed_capacity (gov_domain g))) g;
}.

Lemma held_typed a id gen reg : arena_typed a -> held a id gen reg -> region_typed reg.
Proof. intros [_ Hr] [Hin _]. exact (proj1 (Forall_forall _ _) Hr _ Hin). Qed.

(** The region of a granted request. *)
Lemma request_region_typed req g g' h r :
  gov_typed g -> gov_inv g -> request_words req -> storable_request req ->
  request req g = Some (g', Ok h) -> after_request g req r g' ->
  in_u64 (id_value (ri_region_id r)) /\ in_u64 (gen_value (ri_region_generation r)).
Proof.
  intros Ht Hi Hw Hq E Ha. pose proof (aq_records _ _ _ _ Ha) as Er. clear Ha.
  unfold request, next_id_locked in E. destruct (failure_ok _), (gov_initialized g); simplify_eq/=; try done.
  destruct (_ || _); simplify_eq/=.
  destruct (allocate _ _) as [[a [r'|f]]|] eqn:Ea; simplify_eq/=.
  apply allocate_typed in Ea as [_ Hr]; [|apply Ht|by apply arena_request_typed].
  apply (f_equal (om_find (mk_id (gov_next_alloc_id g)))) in Er. rewrite !om_find_set_eq in Er.
  injection Er as _ _ E1 E2. destruct (Hr r' eq_refl). by rewrite <- E1, <- E2.
Qed.

Lemma new_record_typed req g g' h r :
  gov_typed g -> gov_inv g -> gov_op_ok (GRequest req) g -> storable_request req ->
  request req g = Some (g', Ok h) -> admitted g req -> after_request g req r g' ->
  rec_typed (managed_capacity (gov_domain g)) (new_record req (mk_id (gov_next_alloc_id g)) r).
Proof.
  intros Ht Hi [Hw Hn] Hq E [Hv _] Ha.
  destruct (request_region_typed _ _ _ _ _ Ht Hi Hw Hq E Ha) as [H1 H2].
  pose proof Hw as [Hb Hal]. unfold in_u64 in Hb. pose proof (proj1 (ty_domain _ Ht)) as Hd.
  apply validate_request_ok in Hv as (Hsz & Hp & _); [|done|lia].
  pose proof (round_up_bounds (rq_bytes req) (rq_alignment req) (is_pow2_pos _ Hal Hp)) as Hru.
  destruct Ha as [_ _ _ _ _ _ _ Hsize (P1 & P2 & P3) _ _].
  apply typed_new_record; auto; [apply Hd|lia|apply Hi|lia].
Qed.

Lemma record_change_typed g op rec rec' :
  gov_typed g -> gov_inv g -> gov_op_ok op g ->
  rec_typed (managed_capacity (gov_domain g)) rec -> record_change g op rec rec' ->
  rec_typed (managed_capacity (gov_domain g)) rec'.
Proof.
  intros Ht Hi Hop Hr Hc. destruct Hc as [op id gen reg rec m pins lc Hh Hm Hp Hl|id gen no ns reg rec [Hf Hg] Hh Htg].
  - apply typed_with_pin; [done| |done|done]. destruct Hm as [->|[->| ->]]; [named|named|].
    exact (gt_movability _ (held_typed _ _ _ _ (ty_arena _ Ht) Hh)).
  - destruct Hop as (Hno & Hns & Hg0 & Hg1), Htg as (_ & _ & Hmod & Hend & _).
    rewrite (gi_capacity _ Hi) in Hend. pose proof (held_typed _ _ _ _ (ty_arena _ Ht) Hh) as Hrt.
    apply typed_with_place; simpl; auto; [apply gen_next_range, Hrt| | | |named].
    + apply gen_next_range. unfold in_u64. lia.
    + rewrite gen_next_value by (unfold U64 in *; lia). lia.
    + destruct (gen_is_set _); [|done]. apply gen_next_range, Hr.
Qed.

Lemma gov_step_typed op g g' ok :
  gov_inv g -> gov_op_ok op g -> typed_op op -> gov_typed g -> gov_step be op g = Some (g', ok) ->
  gov_typed g'.
Proof.
  intros Hi Hop Hk Ht E. destruct (gov_step_inv be op g Hi Hop) as (g1 & ok1 & E1 & Hi').
  rewrite E in E1. injection E1 as <- <-. constructor.
  - apply (gov_step_arena op g g' ok Hi Hop Hk); [|apply Ht|exact E].
    intros id rec Hf. apply (ro_alignment rec), (rt_ok _ _ (ty_records _ Ht id rec (or_introl Hf))).
  - exact (gov_step_domain op g g' ok Hk (ty_domain _ Ht) E).
  - apply Hi'.
  - exact (gov_step_history op g g' ok Hk (ty_history _ Ht) E).
  - destruct (is_restore op) eqn:Er.
    + destruct op; try discriminate Er. simpl in E, Hop, Hk. injection E as <- _.
      apply all_records_restore; [done|apply Hk|]. intros rec Hr. apply typed_with_state; [done|named..].
    + destruct (gov_step_records op g g' ok Hi Hop Er E) as [-> Hs].
      apply (records_step_all _ op g g' Hi Hs (ty_records _ Ht)).
      * intros req h r -> Eq Had Ha. by eapply new_record_typed.
      * intros rec rec'. by apply record_change_typed.
      * intros rec Hr. apply typed_with_state; [done|named..].
Qed.

(** ** Every word *)

(** A region where the map has it, and of a size, that are words. *)
Definition region_placed (e : Z * RegionInfo) : Prop :=
  ri_offset e.2 = e.1 /\ in_u64 (ri_offset e.2) /\ in_u64 (ri_size e.2).

(** The words that [gov_typed] leaves out, for which the shape of the arena is needed: offsets and
    sizes, the index of the free slots, the table of offsets, the arena's counters and summary;
    and the enumerations of records have names. *)
Record gov_words g : Prop := {
  gw_capacity : in_u64 (ra_capacity (gov_arena g));
  gw_live_bytes : in_u64 (ra_live_bytes (gov_arena g));
  gw_live_count : in_u64 (ra_live_count (gov_arena g));
  gw_free_count : in_u64 (free_region_count (gov_arena g));
  gw_largest : in_u64 (largest_free_region (gov_arena g));
  gw_regions : Forall region_placed (ra_regions (gov_arena g));
  gw_slots s : s ∈ ra_free_slots (gov_arena g) -> in_u64 (fs_size s) /\ in_u64 (fs_offset s);
  gw_offsets id off : ra_alloc_offset (gov_arena g) !! id = Some off -> in_u64 (id_value id) /\ in_u64 off;
  gw_enums : all_records (fun r => known (rec_mem_class r) /\ known (rec_reclaimability r)
    /\ known (rec_movability r) /\ known (rec_residency r) /\ known (rec_lifecycle r)
    /\ known (rec_provenance r)) g;
}.

Lemma region_in_words g k r : gov_inv g -> (k, r) ∈ ra_regions (gov_arena g) -> region_placed (k, r).
Proof.
  intros Hi Hin. destruct (ra_wf_bounds _ _ _ (gi_arena _ Hi) Hin) as (Ek & ? & ? & ? & ?).
  unfold region_placed, in_u64; simpl. lia.
Qed.

Lemma gov_typed_words g : gov_inv g -> gov_typed g -> gov_words g.
Proof.
  intros Hi Ht. pose proof (gi_arena _ Hi) as Hwf. destruct (wf_cap _ Hwf) as [Hc0 Hc].
  pose proof (ra_wf_live_bytes _ Hwf) as Hlb. pose proof (live_sum_bounds _ _ _ (wf_tiled _ Hwf)) as Hs.
  pose proof (tiled_length _ _ _ (wf_tiled _ Hwf)) as Hl. rewrite (wf_end _ Hwf) in Hs, Hl.
  destruct (summary_values _ Hwf) as [Hfc Hlf]. pose proof (largest_free_le_free _ Hwf) as Hf.
  rewrite (ra_wf_free_bytes _ Hwf) in Hf.
  constructor; unfold in_u64.
  - lia.
  - lia.
  - rewrite (wf_live_count _ Hwf). lia.
  - rewrite Hfc, (proj2 (wf_indexed _ Hwf)). lia.
  - lia.
  - apply Forall_forall. intros [k r]. by apply region_in_words.
  - intros s Hin. pose proof (ra_wf_slot_in _ _ Hwf Hin) as (? & ? & ?). lia.
  - intros id off (r & Hin & _ & <-)%(wf_offsets _ Hwf).
    destruct (region_in_words g off r Hi Hin) as (E & Ho & _). simpl in E, Ho. rewrite E in Ho.
    split; [|exact Ho]. exact (gt_alloc _ (proj1 (Forall_forall _ _) (at_regions _ (ty_arena _ Ht)) _ Hin)).
  - intros id r Hr. pose proof (ty_records _ Ht id r Hr) as [Hok ? ? ? ? He ?]. destruct Hok.
    rewrite !andb_true_iff in He. destruct He as (((((H1 & H2) & H3) & H4) & H5) & H6).
    repeat match goal with H : enum_ok _ = true |- _ => apply Z.leb_le in H end.
    unfold known. by split_and!; apply cenum_ok_named.
Qed.

(** Executions whose arguments are of their types. *)
Definition gov_well_called : MemoryDomain -> MemoryGovernor B -> Prop := run_with be (fun op _ => typed_op op).

Lemma new_typed d b : domain_storable d -> gov_typed (MemoryGovernor_new d b).
Proof. intros Hd. constructor; try done; [apply new_arena_typed|].
  intros id rec [Hf|Hf]; discriminate Hf.
Qed.

Lemma gov_well_called_typed d g :
  0 < managed_capacity d < U64 -> domain_storable d -> gov_well_called d g -> gov_inv g /\ gov_typed g.
Proof.
  intros Hcap Hd. induction 1 as [b|g op g' ok _ [Hi Ht] Hop Hk E].
  - split; [by apply MemoryGovernor_new_inv|by apply new_typed].
  - destruct (gov_step_inv be op g Hi Hop) as (g1 & ok1 & E1 & Hi'). rewrite E in E1.
    injection E1 as <- <-. split; [done|exact (gov_step_typed op g g' ok Hi Hop Hk Ht E)].
Qed.
End governors.
