(* ===== verification/GovernorStore.v ===== *)
(** What a saved governor looks like: which governors have a snapshot that a reader accepts,
    and that every operation, moves to smaller places aside, keeps a governor so. *)
From S2P Require Import Prelude Words Ordered Types Floats Region RegionInv RegionAlloc RegionFree.
From S2P Require Import RegionReloc RegionQuery RegionSpec Pressure Request Bytes Persist.
From S2P Require Import PersistInv Governor GovernorInv GovernorOps GovernorSpec GovernorProps.
From S2P Require Import GovernorPolicy GovernorTypes.
Open Scope Z_scope.

(** ** Records *)

(** The record still holds the bytes that were asked for. *)
Definition rec_sized (r : AllocationRecord) : Prop := rec_requested_bytes r <= rec_region_size r.

Lemma typed_valid managed r :
  rec_typed managed r -> record_valid r managed <-> rec_sized r.
Proof. intros []. split; [intros [[_ Hs] _ _ _ _ _]; exact Hs|]. intros Hs. by constructor. Qed.

Lemma valid_typed managed r : record_ok r -> record_valid r managed -> rec_typed managed r.
Proof. intros Hok [[]]. by constructor. Qed.

Section storable.
Context {B : Type} (be : IBackend B).
Implicit Types (g : MemoryGovernor B).

(** Operations whose arguments a reader would accept. *)
Definition keeps_storable (op : gov_op) g : Prop :=
  match op with
  | GRequest req => storable_request req
  | GRelocate id _ _ ns =>
      forall rec, om_find id (gov_records g) = Some rec -> rec_requested_bytes rec <= ns
  | GRestore s => snapshot_ok s /\ snapshot_valid s
  | _ => True
  end.

Lemma snapshot_valid_typed s : snapshot_ok s -> snapshot_valid s -> snapshot_typed s.
Proof.
  intros [] [Hv _ _]. split; [done|]. split; [done|].
  assert (Hok : Forall record_ok (ps_records s ++ ps_retired s)) by by apply Forall_app.
  rewrite Forall_forall in Hv, Hok |- *. intros r Hr. apply valid_typed; auto.
Qed.

Lemma keeps_storable_typed op g : keeps_storable op g -> typed_op op.
Proof. destruct op; try done. intros [? ?]. by apply snapshot_valid_typed. Qed.

(** A governor whose snapshot a reader accepts. *)
Definition storable g : Prop := gov_typed g /\ all_records rec_sized g.

Lemma new_record_sized req g g' h r :
  gov_inv g -> request_words req -> in_u64 (managed_capacity (gov_domain g)) -> admitted g req ->
  after_request g req r g' -> request req g = Some (g', Ok h) ->
  rec_sized (new_record req (mk_id (gov_next_alloc_id g)) r).
Proof.
  intros Hi [Hb Hal] Hd [Hv _] Ha _. unfold in_u64 in Hb.
  apply validate_request_ok in Hv as (Hsz & Hp & _); [|done|lia].
  pose proof (round_up_bounds (rq_bytes req) (rq_alignment req) (is_pow2_pos _ Hal Hp)) as Hru.
  unfold rec_sized. simpl. rewrite (aq_size _ _ _ _ Ha). lia.
Qed.

Lemma gov_step_storable op g g' ok :
  gov_inv g -> gov_op_ok op g -> keeps_storable op g -> storable g ->
  gov_step be op g = Some (g', ok) -> storable g'.
Proof.
  intros Hi Hop Hk [Ht Hs] E.
  split; [exact (gov_step_typed be op g g' ok Hi Hop (keeps_storable_typed _ _ Hk) Ht E)|].
  destruct (is_restore op) eqn:Er.
  - destruct op; try discriminate Er. simpl in E, Hop, Hk. injection E as <- _.
    apply all_records_restore; [done| |done]. destruct Hk as [_ [Hv _ _]].
    eapply Forall_impl; [exact Hv|]. intros r Hr. apply (rv_bytes _ _ Hr).
  - destruct (gov_step_records be op g g' ok Hi Hop Er E) as [_ Hst].
    apply (records_step_all _ op g g' Hi Hst Hs).
    + intros req h r -> Eq Had Ha. eapply new_record_sized; try done; [apply Hop|].
      apply (do_managed _ (proj1 (ty_domain _ Ht))).
    + intros rec rec' Hr Hc. destruct Hc as [|id gen no ns reg rec [Hf _] _ _]; [done|]. exact (Hk _ Hf).
    + done.
Qed.

(** Executions made of such operations. *)
Definition gov_stored : MemoryDomain -> MemoryGovernor B -> Prop := run_with be keeps_storable.

Lemma gov_stored_storable d g :
  0 < managed_capacity d < U64 -> domain_storable d -> gov_stored d g -> gov_inv g /\ storable g.
Proof.
  intros Hcap Hd Hg. induction Hg as [b|g op g' ok _ [Hi Hs] Hop Hk E].
  - split; [by apply MemoryGovernor_new_inv|]. split; [by apply new_typed|].
    intros id rec [Hf|Hf]; discriminate Hf.
  - destruct (gov_step_inv be op g Hi Hop) as (g1 & ok1 & E1 & Hi1). rewrite E in E1.
    injection E1 as <- <-. split; [done|exact (gov_step_storable op g g' ok Hi Hop Hk Hs E)].
Qed.

(** ** Its snapshot *)

Lemma om_values_elem (m : omap AllocationId AllocationRecord) rec :
  om_ok m -> rec ∈ om_values m -> exists id, om_find id m = Some rec.
Proof.
  intros Hok ([id r] & -> & Hin)%list_elem_of_fmap. exists id. by apply om_find_elem.
Qed.

Lemma records_apart g : gov_inv g -> pairwise_apart (om_values (gov_records g)).
Proof.
  intros Hi. pose proof (records_ids g Hi) as Hn.
  assert (Hall : forall rec, rec ∈ om_values (gov_records g) -> om_find (rec_id rec) (gov_records g) = Some rec).
  { pose proof (gi_registry _ Hi) as [Hok _ Hids _]. intros rec (id & Hf)%om_values_elem; [|done].
    by destruct (Hids id rec (or_introl Hf)) as [-> _]. }
  revert Hn Hall. generalize (om_values (gov_records g)) as l.
  induction l as [|r l IH]; [constructor|]. rewrite fmap_cons, NoDup_cons. intros [Hr Hn] Hall.
  constructor; [apply IH; [done|]; intros; apply Hall; by right|].
  apply Forall_forall. intros r' Hin.
  apply (records_disjoint g (rec_id r) (rec_id r')); [done|apply Hall; by left|apply Hall; by right|].
  intros E. apply Hr. rewrite E. by apply list_elem_of_fmap_2.
Qed.

Lemma om_values_all P g :
  gov_inv g -> all_records P g ->
  Forall P (om_values (gov_records g)) /\ Forall P (om_values (gov_retired g)).
Proof.
  intros Hi Ha. pose proof (gi_registry _ Hi) as [Hok1 Hok2 _ _].
  split; apply Forall_forall; intros rec (id & Hf)%om_values_elem; eauto.
Qed.

(** The snapshot of a typed governor fits its fields. *)
Lemma snapshot_typed_fields g :
  gov_inv g -> gov_typed g ->
  Z.of_nat (length (gov_records g)) < U32 -> Z.of_nat (length (gov_retired g)) < U32 ->
  snapshot_fields (snapshot g).
Proof.
  intros Hi Ht Hn1 Hn2. destruct (om_values_all _ _ Hi (ty_records _ Ht)) as [H1 H2].
  pose proof (ty_domain _ Ht) as [? ?].
  constructor; try done; try apply Ht; try (simpl; unfold om_values; by rewrite length_fmap);
    (eapply Forall_impl; [eassumption|by intros ? []]).
Qed.

(** At most 2^20 live and 2^20 released allocations. *)
Definition few_records g : Prop :=
  Z.of_nat (length (gov_records g)) <= kMaxRecords /\ Z.of_nat (length (gov_retired g)) <= kMaxRecords.

Lemma snapshot_counts g : counts_ok (snapshot g) <-> few_records g.
Proof. unfold counts_ok, few_records. simpl. unfold om_values. by rewrite !length_fmap. Qed.

Lemma snapshot_typed_ok g : gov_inv g -> gov_typed g -> few_records g -> snapshot_ok (snapshot g).
Proof.
  intros Hi Ht Hn. apply snapshot_fields_ok; [|by apply snapshot_counts].
  apply snapshot_typed_fields; [done..| |]; unfold few_records, kMaxRecords, U32 in *; lia.
Qed.

(** It is valid exactly when every record is sized. *)
Lemma snapshot_typed_valid g :
  gov_inv g -> gov_typed g -> snapshot_valid (snapshot g) <-> all_records rec_sized g.
Proof.
  intros Hi Ht. pose proof (gi_registry _ Hi) as [Hok1 Hok2 Hids Hdis]. split.
  - intros [Hv _ _] id rec Hf.
    apply (typed_valid _ _ (ty_records _ Ht id rec Hf)), (proj1 (Forall_forall _ _) Hv), elem_of_app.
    destruct Hf as [Hf|Hf]; [left|right]; apply om_find_elem in Hf; try done;
      by apply (list_elem_of_fmap_2 snd _ (id, rec)).
  - intros Hs. assert (Ha : all_records (fun r => record_valid r (managed_capacity (gov_domain g))) g).
    { intros id rec Hf. apply typed_valid; [by apply (ty_records _ Ht id)|by apply (Hs id)]. }
    destruct (om_values_all _ _ Hi Ha) as [H1 H2].
    constructor; [by apply Forall_app|simpl; rewrite fmap_app|by apply records_apart].
    destruct (om_values_ids _ Hok1 (fun id rec Hf => proj1 (Hids id rec (or_introl Hf)))) as [E1 N1].
    destruct (om_values_ids _ Hok2 (fun id rec Hf => proj1 (Hids id rec (or_intror Hf)))) as [E2 N2].
    apply NoDup_app. split; [done|]. split; [|done]. intros i Hi1 Hi2.
    apply list_elem_of_fmap in Hi1 as (r1 & -> & (id1 & F1)%om_values_elem); [|done].
    apply list_elem_of_fmap in Hi2 as (r2 & Ei & (id2 & F2)%om_values_elem); [|done].
    destruct (Hids id1 r1 (or_introl F1)) as [I1 _]. destruct (Hids id2 r2 (or_intror F2)) as [I2 _].
    assert (id2 = id1) as -> by congruence. by rewrite (Hdis id1 (mk_is_Some _ _ F1)) in F2.
Qed.
End storable.
