(* ===== verification/StoreProps.v ===== *)
(** The types of the governor's state; saving and loading a governor: what survives a restart,
    and what cannot be loaded. *)
From S2P Require Import Prelude Words Ordered Types Floats Region RegionInv RegionAlloc RegionFree.
From S2P Require Import RegionReloc RegionQuery RegionSpec Pressure Request Bytes Persist.
From S2P Require Import PersistInv PersistSound Governor GovernorInv GovernorOps GovernorSpec.
From S2P Require Import GovernorProps GovernorPolicy GovernorTypes GovernorStore.
Open Scope Z_scope.















