(* ===== verification/Backend.v ===== *)
(** What the governor needs of its physical backend, and what it then does with the memory
    of the process: the contract behind include/gpu_memory_service/backend.hpp.

    The interface of the code is the record [IBackend] of Governor.v.  [BackendLaws] is what
    an implementation owes the governor; the host backend and the CUDA backend are its
    instances, and the life of the arena is proved here once for every backend. *)
From S2P Require Import Prelude Words Ordered Types Floats Region RegionInv RegionAlloc RegionFree.
From S2P Require Import RegionReloc RegionQuery RegionSpec Pressure Request Bytes Persist.
From S2P Require Import PersistInv Governor GovernorInv GovernorOps GovernorSpec.
Open Scope Z_scope.

(** The memory behind a base pointer: none behind null. *)
Definition arena_of (p : Z) : gset Z := if p =? 0 then ∅ else {[p]}.

Class BackendLaws {B : Type} (be : IBackend B) := {
  (** The addresses that are allocated. *)
  arenas : B -> gset Z;
  (** A granted arena is new memory; a refusal takes nothing. *)
  allocate_arena_law n al b :
    let '(b', res, _) := allocate_arena be n al b in
    match res with
    | Some p => arena_of p ## arenas b /\ arenas b' = arena_of p ∪ arenas b
    | None => arenas b' = arenas b
    end;
  (** An arena that is given back is gone. *)
  free_arena_law p b : p ∈ arenas b -> p <> 0 -> arenas (free_arena be p b) = arenas b ∖ {[p]};
}.
#[export] Hint Mode BackendLaws - ! : typeclass_instances.
Arguments arenas {B} be {_}.
Arguments allocate_arena_law {B} be {_}.
Arguments free_arena_law {B} be {_}.

Section lifetime.
Context {B : Type} (be : IBackend B) `{!BackendLaws be}.
Implicit Types (b : B) (g : MemoryGovernor B).

(** Since the backend was [b0], the governor has taken its arena and nothing else. *)
Definition holds_arena b0 g : Prop :=
  exists b, gov_backend g = Some b
    /\ if gov_initialized g
       then arena_of (gov_arena_base g) ## arenas be b0
            /\ arenas be b = arena_of (gov_arena_base g) ∪ arenas be b0
       else arenas be b = arenas be b0.

Lemma new_holds d b : holds_arena b (MemoryGovernor_new d (Some b)).
Proof. by exists b. Qed.

(** The three fields of the backend. *)
Definition backing g : option B * Z * bool := (gov_backend g, gov_arena_base g, gov_initialized g).

(** Only [initialize] and [restore] touch them. *)
Lemma gov_step_backing op g g' ok :
  op <> GInitialize -> is_restore op = false -> gov_step be op g = Some (g', ok) ->
  backing g' = backing g.
Proof.
  intros Hop Hr E. destruct op as [|req|id gen wb sb|id gen|id gen|id gen no ns| |s]; simpl in E; try done.
  - unfold request, next_id_locked in E. repeat (case_match; simplify_eq/=; try done).
  - unfold release_for_worker, release_locked in E. repeat (case_match; simplify_eq/=; try done).
  - unfold pin_locked in E. repeat (case_match; simplify_eq/=; try done).
  - unfold unpin_locked in E. repeat (case_match; simplify_eq/=; try done).
  - unfold apply_relocation in E. repeat (case_match; simplify_eq/=; try done).
  - by simplify_eq/=.
Qed.

Lemma initialize_holds b0 g : holds_arena b0 g -> holds_arena b0 (initialize be g).1.
Proof.
  intros (b & Eb & Hh). unfold initialize. destruct (gov_initialized g) eqn:Hin.
  { exists b. simpl. by rewrite Hin. }
  rewrite Eb. destruct (managed_capacity (gov_domain g) =? 0).
  { exists b. simpl. by rewrite Hin. }
  simpl. pose proof (allocate_arena_law be (managed_capacity (gov_domain g)) 256 b) as Ha.
  destruct (allocate_arena be _ _ b) as [[b' [p|]] err]; exists b'; (split; [done|]); simpl.
  - by rewrite <- Hh.
  - congruence.
Qed.

Lemma later_holds b0 g g' : later be g g' -> holds_arena b0 g -> holds_arena b0 g'.
Proof.
  intros Hl Hg. induction Hl as [|g g1 op g2 ok _ IH Hr _ E]; [done|]. specialize (IH Hg).
  assert (Hop : op = GInitialize \/ op <> GInitialize) by (destruct op; auto; right; discriminate).
  destruct Hop as [->|Hop].
  - simpl in E. injection E as <- _. by apply initialize_holds.
  - pose proof (gov_step_backing _ _ _ _ Hop Hr E) as Eb. injection Eb as E1 E2 E3.
    destruct IH as (b & Hb & Hh). exists b. rewrite E1, E2, E3. done.
Qed.

Lemma destroy_holds b0 g :
  holds_arena b0 g ->
  exists b, MemoryGovernor_destroy be g = Some b /\ arenas be b = arenas be b0.
Proof.
  intros (b & Eb & Hh). unfold MemoryGovernor_destroy. rewrite Eb.
  destruct (gov_initialized g); [|rewrite andb_false_r; by exists b].
  unfold arena_of in Hh. destruct (Z.eqb_spec (gov_arena_base g) 0) as [|Hn]; simpl; eexists; (split; [done|]).
  - rewrite (proj2 Hh). set_solver.
  - rewrite free_arena_law; set_solver.
Qed.

(** What a restore of an initialised governor leaves behind. *)
Lemma restore_leaks b0 g s :
  holds_arena b0 g -> gov_initialized g = true ->
  exists b, MemoryGovernor_destroy be (restore s g).1 = Some b
    /\ arenas be b = arena_of (gov_arena_base g) ∪ arenas be b0 /\ arena_of (gov_arena_base g) ## arenas be b0.
Proof.
  intros (b & Eb & Hh) Hin. rewrite Hin in Hh. exists b. unfold MemoryGovernor_destroy; simpl.
  rewrite Eb, andb_false_r. by destruct Hh.
Qed.
End lifetime.
