(* ===== verification/HostBackend.v ===== *)
(** [HostBackend]: include/gpu_memory_service/host_backend.hpp and src/host_backend.cpp, as an
    instance of the contract of Backend.v.

    The aligned allocator of the C runtime is a parameter; an address is an integer and the
    null pointer is 0. *)
From S2P Require Import Prelude Words Ordered Types Floats Region RegionInv RegionAlloc RegionFree.
From S2P Require Import RegionReloc RegionQuery RegionSpec Pressure Request Bytes Persist.
From S2P Require Import PersistInv Governor GovernorInv GovernorOps GovernorSpec Backend.
Open Scope Z_scope.

(** [_aligned_malloc(size, alignment)] and [_aligned_free(p)]. *)
Class AlignedHeap (H : Type) := {
  aligned_malloc : Z -> Z -> H -> H * Z;
  aligned_free : Z -> H -> H;
}.
#[export] Hint Mode AlignedHeap ! : typeclass_instances.

Section host_backend.
Context {H : Type} `{!AlignedHeap H}.

(** [err] is left as the caller's empty string. *)
Definition HostBackend_allocate_arena (bytes alignment : Z) (h : H) : H * option Z * string :=
  if bytes =? 0 then (h, None, ""%string)
  else
    let '(h, p) := aligned_malloc bytes alignment h in
    if p =? 0 then (h, None, ""%string) else (h, Some p, ""%string).

Definition HostBackend_free_arena (base : Z) (h : H) : H :=
  if negb (base =? 0) then aligned_free base h else h.

Definition HostBackend : IBackend H := mk_backend H HostBackend_allocate_arena HostBackend_free_arena.
End host_backend.

(** ** What the allocator promises *)

Class AlignedHeapLaws (H : Type) `{!AlignedHeap H} := {
  (** The blocks that are allocated. *)
  blocks : H -> gset Z;
  (** A block that is not null is a new one; a null result allocates nothing. *)
  aligned_malloc_law n al h :
    let '(h', p) := aligned_malloc n al h in
    (p = 0 /\ blocks h' = blocks h) \/ ((p ∉ blocks h) /\ p <> 0 /\ blocks h' = {[p]} ∪ blocks h);
  (** Freeing an allocated block removes it. *)
  aligned_free_law p h : p ∈ blocks h -> blocks (aligned_free p h) = blocks h ∖ {[p]};
}.
#[export] Hint Mode AlignedHeapLaws ! - : typeclass_instances.

(** ** Its contract with the governor *)

#[export] Instance HostBackend_laws {H : Type} `{!AlignedHeap H, !AlignedHeapLaws H} :
  BackendLaws (HostBackend (H := H)).
Proof.
  refine {| arenas := blocks |}.
  - intros n al h. simpl. unfold HostBackend_allocate_arena, arena_of. destruct (n =? 0); [done|].
    pose proof (aligned_malloc_law n al h) as Hm. destruct (aligned_malloc n al h) as [h' p].
    destruct (Z.eqb_spec p 0) as [|Hp], Hm as [[? ?]|(? & ? & ?)]; try done.
    rewrite (proj2 (Z.eqb_neq _ _) Hp). set_solver.
  - intros p h Hp Hn. simpl. unfold HostBackend_free_arena.
    rewrite (proj2 (Z.eqb_neq _ _) Hn). by apply aligned_free_law.
Defined.

(** ** A concrete heap *)

(** The allocated addresses; blocks of more than 16 MiB are refused. *)
Definition demo_heap : Type := list Z.

#[export] Instance demo_aligned_heap : AlignedHeap demo_heap := {
  aligned_malloc n al h :=
    if n >? 2 ^ 24 then (h, 0) else let p := foldr Z.max 0 h + 4096 in (p :: h, p);
  aligned_free p h := List.filter (fun q => negb (q =? p)) h;
}.

#[export] Instance demo_heap_laws : AlignedHeapLaws demo_heap.
Proof.
  refine {| blocks h := list_to_set h : gset Z |}; cbn [aligned_malloc aligned_free demo_aligned_heap].
  - intros n al h. destruct (n >? 2 ^ 24); [by left|]. right. set (p := foldr Z.max 0 h + 4096).
    pose proof (max_nonneg h). split; [|split; [lia|done]].
    intros Hp%elem_of_list_to_set%max_bound. lia.
  - intros p h _. apply set_eq. intros q.
    rewrite elem_of_difference, !elem_of_list_to_set, elem_of_singleton.
    rewrite !list_elem_of_In, filter_In, negb_true_iff, Z.eqb_neq. done.
Defined.
