(* ===== verification/Cuda.v ===== *)
(** The CUDA runtime: its calls as a class on the state of the device, and what its
    documentation promises about them. *)
From S2P Require Import Prelude.
Open Scope Z_scope.

Class Cuda (D : Type) := {
  (** A pointer, or [cudaGetErrorString] of the error. *)
  cudaMalloc : Z -> D -> (Z + string) * D;
  cudaFree : Z -> D -> D;
}.
#[export] Hint Mode Cuda ! : typeclass_instances.

Class CudaLaws (D : Type) `{!Cuda D} := {
  (** The pointers that are allocated on the device. *)
  device : D -> gset Z;
  device_nonnull d : 0 ∉ device d;
  (** A successful allocation returns a fresh pointer, or null. *)
  cudaMalloc_law n d :
    match cudaMalloc n d with
    | (inl p, d') =>
        (p = 0 /\ device d' = device d) \/ ((p ∉ device d) /\ device d' = {[p]} ∪ device d)
    | (inr _, d') => device d' = device d
    end;
  (** Freeing an allocated pointer, or null, removes it. *)
  cudaFree_law p d : p = 0 \/ p ∈ device d -> device (cudaFree p d) = (device d ∖ {[p]});
}.
#[export] Hint Mode CudaLaws ! - : typeclass_instances.

(** ** A concrete device *)

(** The allocated pointers; requests above 4096 bytes fail. *)
Definition demo_device : Type := list Z.

#[export] Instance demo_cuda : Cuda demo_device := {
  cudaMalloc n d :=
    if n >? 4096 then (inr "out of memory"%string, d)
    else let p := foldr Z.max 0 d + 1 in (inl p, p :: d);
  cudaFree p d := filter (fun q => q <> p) d;
}.

#[export] Instance demo_cuda_laws : CudaLaws demo_device.
Proof.
  refine {| device d := list_to_set d ∖ {[0]} : gset Z |}; cbn [cudaMalloc cudaFree demo_cuda].
  - set_solver.
  - intros n d. destruct (n >? 4096); [done|]. right. set (p := foldr Z.max 0 d + 1).
    pose proof (max_nonneg d). split.
    + intros Hp. apply elem_of_difference in Hp as [Hp%elem_of_list_to_set%max_bound _]. unfold p in Hp. lia.
    + simpl. assert (p <> 0) by (unfold p; lia). set_solver.
  - intros p d _. apply set_eq. intros q.
    rewrite !elem_of_difference, !elem_of_list_to_set, list_elem_of_filter, !elem_of_singleton. naive_solver.
Defined.
