(* ===== verification/CudaBackend.v ===== *)
(** [CudaBackend]: include/gpu_memory_service/cuda/cuda_backend.hpp and the first half of
    src/cuda/cuda_backend.cu, as an instance of the contract of Backend.v. *)
From S2P Require Import Prelude Words Ordered Types Floats Region Pressure Request Bytes.
From S2P Require Import Persist Governor Backend Cuda.
Open Scope Z_scope.

Section cuda_backend.
Context {D : Type} `{!Cuda D}.

(** The alignment is ignored, and a granted base is not compared with null. *)
Definition CudaBackend_allocate_arena (bytes alignment : Z) (d : D) : D * option Z * string :=
  if bytes =? 0 then (d, None, "zero-byte arena"%string)
  else
    match cudaMalloc bytes d with
    | (inr e, d) => (d, None, e)
    | (inl p, d) => (d, Some p, ""%string)
    end.

Definition CudaBackend_free_arena (base : Z) (d : D) : D :=
  if negb (base =? 0) then cudaFree base d else d.

Definition CudaBackend : IBackend D := mk_backend D CudaBackend_allocate_arena CudaBackend_free_arena.
End cuda_backend.

(** ** Its contract with the governor *)

#[export] Instance CudaBackend_laws {D : Type} `{!Cuda D, !CudaLaws D} :
  BackendLaws (CudaBackend (D := D)).
Proof.
  refine {| arenas := device |}.
  - intros n al d. simpl. unfold CudaBackend_allocate_arena, arena_of. destruct (n =? 0); [done|].
    pose proof (cudaMalloc_law n d) as Hm. destruct (cudaMalloc n d) as [[p|e] d']; [|done].
    destruct Hm as [[-> ->]|[Hp Hd]]; [set_solver|].
    destruct (Z.eqb_spec p 0) as [->|]; [|set_solver].
    exfalso. apply (device_nonnull d'). set_solver.
  - intros p d Hp Hn. simpl. unfold CudaBackend_free_arena.
    rewrite (proj2 (Z.eqb_neq _ _) Hn). apply cudaFree_law. by right.
Defined.
