(* ===== verification/BackendProps.v ===== *)
(** The life of the arena, over the host backend and over the CUDA backend alike. *)
From S2P Require Import Prelude Words Ordered Types Floats Region RegionInv RegionAlloc RegionFree.
From S2P Require Import RegionReloc RegionQuery RegionSpec Pressure Request Bytes Persist.
From S2P Require Import PersistInv Governor GovernorInv GovernorOps GovernorSpec GovernorProps.
From S2P Require Import Backend HostBackend Cuda CudaBackend.
Open Scope Z_scope.

(** C22: the arena is taken once and given back once.  Over any backend that keeps the
    contract, and the host and the CUDA backend do, a governor that has been used in any way
    short of a restore holds exactly its arena while it is initialised, and nothing
    otherwise; its destructor leaves the backend's memory as it was before.  But a restore of
    an initialised governor forgets the arena: the destructor then leaves it allocated for
    ever. *)
Theorem arena_lifetime {B} (be : IBackend B) `{!BackendLaws be} d b0 g :
  later be (MemoryGovernor_new d (Some b0)) g ->
  (exists b, gov_backend g = Some b
     /\ arenas be b = (if gov_initialized g then arena_of (gov_arena_base g) ∪ arenas be b0 else arenas be b0))
  /\ (exists b, MemoryGovernor_destroy be g = Some b /\ arenas be b = arenas be b0)
  /\ forall s, gov_initialized g = true ->
       exists b, MemoryGovernor_destroy be (restore s g).1 = Some b
         /\ arenas be b = arena_of (gov_arena_base g) ∪ arenas be b0
         /\ arena_of (gov_arena_base g) ## arenas be b0.
Proof.
  intros Hl. pose proof (later_holds be b0 _ _ Hl (new_holds be d b0)) as Hh. split; [|split].
  - destruct Hh as (b & Eb & Hh). exists b. split; [done|]. destruct (gov_initialized g); apply Hh.
  - by apply destroy_holds.
  - intros s. by apply restore_leaks.
Qed.

Definition arena_domain : MemoryDomain := gov_domain0.

Definition host_governor : MemoryGovernor demo_heap :=
  (initialize HostBackend (MemoryGovernor_new arena_domain (Some [8192]))).1.

Definition cuda_governor : MemoryGovernor demo_device :=
  (initialize CudaBackend (MemoryGovernor_new arena_domain (Some [7]))).1.

(** Initialised and destroyed: on either backend only what was there before is left. *)
Lemma arena_lifetime_witness :
  (exists h, MemoryGovernor_destroy HostBackend host_governor = Some h /\ arenas HostBackend h = arenas HostBackend [8192])
  /\ exists d, MemoryGovernor_destroy CudaBackend cuda_governor = Some d /\ arenas CudaBackend d = arenas CudaBackend [7].
Proof.
  split.
  - apply (arena_lifetime HostBackend arena_domain [8192] host_governor).
    apply (later_step _ _ (MemoryGovernor_new arena_domain (Some [8192])) GInitialize _ true);
      [constructor|done|exact I|vm_compute; reflexivity].
  - apply (arena_lifetime CudaBackend arena_domain [7] cuda_governor).
    apply (later_step _ _ (MemoryGovernor_new arena_domain (Some [7])) GInitialize _ true);
      [constructor|done|exact I|vm_compute; reflexivity].
Defined.
