(* ===== verification/Kernels.v ===== *)
(** The two kernels of src/cuda/cuda_backend.cu and the wrappers that launch them.

    A thread of a kernel is a small program of loads and stores on the array [data] points
    to; a launch is the list of the programs of its threads, and an execution lets any thread
    make its next access at any time.  An access outside the array is undefined: the thread
    is stuck.  A [float] is a binary32 value of [SpecFloat]. *)
From S2P Require Import Prelude Words Ordered Types Floats.
Open Scope Z_scope.

(** ** Binary32 *)

Definition f32_prec : Z := 24.
Definition f32_emax : Z := 128.
Definition f32_of_u64 (n : Z) : spec_float := binary_normalize f32_prec f32_emax n 0 false.
Definition f32_add := SFadd f32_prec f32_emax.
Definition f32_mul := SFmul f32_prec f32_emax.

(** ** Threads *)

Inductive Kernel : Set :=
  | KRet
  | KLoad (i : Z) (k : spec_float -> Kernel)
  | KStore (i : Z) (v : spec_float) (k : Kernel).

(** [blockIdx.x], [blockDim.x] and [threadIdx.x]. *)
Record ThreadIdx : Set := mk_thread { block_idx : Z; block_dim : Z; thread_idx : Z }.

Definition global_index (t : ThreadIdx) : Z :=
  add64 (mul64 (block_idx t) (block_dim t)) (thread_idx t).

Definition gms_fill_kernel (n : Z) (value : spec_float) (t : ThreadIdx) : Kernel :=
  let i := global_index t in
  if i <? n then KStore i (f32_add value (f32_of_u64 i)) KRet else KRet.

Definition gms_scale_kernel (n : Z) (value : spec_float) (t : ThreadIdx) : Kernel :=
  let i := global_index t in
  if i <? n then KLoad i (fun v => KStore i (f32_mul v value) KRet) else KRet.

(** The next access of a thread. *)
Definition kernel_step (p : Kernel) (data : list spec_float) : option (Kernel * list spec_float) :=
  match p with
  | KRet => None
  | KLoad i k => if (i <? 0) then None else (fun v => (k v, data)) <$> data !! Z.to_nat i
  | KStore i v k =>
      if (i <? 0) || (Z.of_nat (length data) <=? i) then None
      else Some (k, <[Z.to_nat i := v]> data)
  end.

(** A grid in execution: any thread takes its next step. *)
Inductive grid_step : list Kernel * list spec_float -> list Kernel * list spec_float -> Prop :=
  | grid_step_thread ts data j p p' data' :
      ts !! j = Some p -> kernel_step p data = Some (p', data') ->
      grid_step (ts, data) (<[j := p']> ts, data').

(** The threads of a grid, block after block. *)
Definition grid_threads (kernel : ThreadIdx -> Kernel) (grid block : Z) : list Kernel :=
  (fun k => kernel (mk_thread (k / block) block (k mod block))) <$> seqZ 0 (grid * block).

(** ** Launches *)

Class CudaLaunch (D : Type) := {
  (** [<<<grid, block>>>]: is the configuration accepted? *)
  cudaLaunchKernel : Z -> Z -> D -> bool * D;
  cudaGetLastError : D -> Z * D;
}.
#[export] Hint Mode CudaLaunch ! : typeclass_instances.

Class CudaLaunchLaws (D : Type) `{!CudaLaunch D} := {
  (** A grid without blocks is an invalid configuration. *)
  launch_empty block (d : D) : (cudaLaunchKernel 0 block d).1 = false;
  (** A refused launch is the last error; 0 is [cudaSuccess]. *)
  launch_refused grid block (d : D) :
    (cudaLaunchKernel grid block d).1 = false ->
    (cudaGetLastError (cudaLaunchKernel grid block d).2).1 <> 0;
}.
#[export] Hint Mode CudaLaunchLaws ! - : typeclass_instances.

Section wrappers.
Context {D : Type} `{!CudaLaunch D}.

(** [(n + threads - 1) / threads] in [std::size_t]. *)
Definition grid_blocks (n threads : Z) : Z := sub64 (add64 n threads) 1 / threads.

(** The grid is cut to 32 bits; the result is the error code, the threads that now run on
    the stream, and the runtime. *)
Definition gms_cuda_fill (n : Z) (value : spec_float) (d : D) : Z * list Kernel * D :=
  let threads := 256 in
  let blocks := grid_blocks n threads mod U32 in
  let '(ok, d) := cudaLaunchKernel blocks threads d in
  let '(e, d) := cudaGetLastError d in
  (e, if ok then grid_threads (gms_fill_kernel n value) blocks threads else [], d).

Definition gms_cuda_scale (n : Z) (value : spec_float) (d : D) : Z * list Kernel * D :=
  let threads := 256 in
  let blocks := grid_blocks n threads mod U32 in
  let '(ok, d) := cudaLaunchKernel blocks threads d in
  let '(e, d) := cudaGetLastError d in
  (e, if ok then grid_threads (gms_scale_kernel n value) blocks threads else [], d).
End wrappers.

(** ** What a grid computes *)

(** Programs left to run that turn the value [orig] of element [i] into [f orig], when the
    element now holds [cur]. *)
Inductive updates (f : spec_float -> spec_float) (i : Z) : Kernel -> spec_float -> spec_float -> Prop :=
  | up_done v : updates f i KRet (f v) v
  | up_store v : updates f i (KStore i (f v) KRet) v v
  | up_load v : updates f i (KLoad i (fun x => KStore i (f x) KRet)) v v.

(** The accesses left. *)
Fixpoint accesses (p : Kernel) : nat :=
  match p with
  | KRet => 0
  | KLoad _ k => S (accesses (k S754_nan))
  | KStore _ _ k => S (accesses k)
  end.

Definition accesses_left (ts : list Kernel) : nat := sum_list_with accesses ts.

(** The first [n] elements updated, the others kept. *)
Definition updated (f : Z -> spec_float -> spec_float) (n : Z) (data : list spec_float) : list spec_float :=
  imap (fun k v => if Z.of_nat k <? n then f (Z.of_nat k) v else v) data.

(** However the threads interleave, the grid runs to its end without a fault, in the number
    of steps it has accesses, and leaves this in [data]. *)
Definition computes (ts : list Kernel) (data result : list spec_float) : Prop :=
  forall m ts' data', nsteps grid_step m (ts, data) (ts', data') ->
    (m + accesses_left ts' = accesses_left ts)%nat
    /\ ((exists s, grid_step (ts', data') s) \/ (Forall (eq KRet) ts' /\ data' = result)).

Section grid.
Context (f : Z -> spec_float -> spec_float) (n : Z) (data0 : list spec_float).

(** Thread [k] owns element [k]; the elements from [n] on belong to nobody. *)
Record grid_inv (T : nat) (ts : list Kernel) (data : list spec_float) : Prop := {
  gr_threads : length ts = T;
  gr_length : length data = length data0;
  gr_own k p : ts !! k = Some p -> Z.of_nat k < n ->
    exists cur orig, data !! k = Some cur /\ data0 !! k = Some orig
      /\ updates (f (Z.of_nat k)) (Z.of_nat k) p cur orig;
  gr_idle k p : ts !! k = Some p -> n <= Z.of_nat k -> p = KRet;
  gr_rest k : (T <= k)%nat \/ n <= Z.of_nat k -> data !! k = data0 !! k;
}.

(** A step of a thread that owns element [i]. *)
Lemma updates_step g i p cur orig data p' data' :
  updates g (Z.of_nat i) p cur orig -> data !! i = Some cur -> kernel_step p data = Some (p', data') ->
  exists cur', data' = <[i := cur']> data /\ updates g (Z.of_nat i) p' cur' orig
    /\ accesses p = S (accesses p').
Proof.
  intros Hu Hd. destruct Hu as [v|v|v]; simpl; [done|..];
    rewrite (proj2 (Z.ltb_ge _ _) (Nat2Z.is_nonneg i)), Nat2Z.id; simpl.
  - case_match; [done|]. intros [= <- <-]. exists (g v). split; [done|]. split; [constructor|done].
  - rewrite Hd. intros [= <- <-]. exists v. split; [by rewrite list_insert_id|]. split; [constructor|done].
Qed.

Lemma updates_enabled g i p cur orig data :
  updates g (Z.of_nat i) p cur orig -> data !! i = Some cur -> p <> KRet ->
  is_Some (kernel_step p data).
Proof.
  intros Hu Hd Hp. pose proof (lookup_lt_Some _ _ _ Hd) as Hl. destruct Hu as [v|v|v]; simpl; [done|..];
    rewrite (proj2 (Z.ltb_ge _ _) (Nat2Z.is_nonneg i)), ?Nat2Z.id; simpl.
  - rewrite (proj2 (Z.leb_gt _ _)) by lia. eauto.
  - rewrite Hd. eauto.
Qed.

Lemma grid_inv_step T ts data ts' data' :
  grid_inv T ts data -> grid_step (ts, data) (ts', data') ->
  grid_inv T ts' data' /\ accesses_left ts = S (accesses_left ts').
Proof.
  intros [Ht Hl Ho Hi Hr] Hs. inversion Hs as [? ? j p p' ? Hj Hp]; subst.
  assert (Hjn : Z.of_nat j < n).
  { destruct (Z.lt_ge_cases (Z.of_nat j) n) as [|Hge]; [done|]. by rewrite (Hi _ _ Hj Hge) in Hp. }
  destruct (Ho _ _ Hj Hjn) as (cur & orig & Hd & Hd0 & Hu).
  destruct (updates_step _ _ _ _ _ _ _ _ Hu Hd Hp) as (cur' & -> & Hu' & Ha).
  pose proof (lookup_lt_Some _ _ _ Hj) as Hjt. pose proof (lookup_lt_Some _ _ _ Hd) as Hjd. split.
  - constructor.
    + by rewrite length_insert.
    + by rewrite length_insert.
    + intros k q Hk Hkn. destruct (decide (k = j)) as [->|Hne].
      * rewrite list_lookup_insert_eq in Hk by done. injection Hk as <-. exists cur', orig.
        by rewrite list_lookup_insert_eq.
      * rewrite list_lookup_insert_ne in Hk by done. rewrite list_lookup_insert_ne by done. eauto.
    + intros k q Hk Hkn. rewrite list_lookup_insert_ne in Hk by lia. eauto.
    + intros k Hk. rewrite list_lookup_insert_ne; [auto|]. intros ->. lia.
  - unfold accesses_left. rewrite <- (take_drop_middle ts j p Hj) at 1.
    rewrite insert_take_drop by done. rewrite !sum_list_with_app. simpl. lia.
Qed.

(** While a thread is not done, some thread can go on. *)
Lemma grid_inv_progress T ts data :
  grid_inv T ts data -> (exists s, grid_step (ts, data) s) \/ Forall (eq KRet) ts.
Proof.
  intros [_ _ Ho Hi _]. destruct (decide (Forall (fun p => accesses p = 0%nat) ts)) as [Hz|Hz].
  - right. rewrite !Forall_lookup in Hz |- *. intros k p Hk. specialize (Hz k p Hk). by destruct p.
  - left. apply not_Forall_Exists, Exists_exists in Hz as (p & (j & Hj)%list_elem_of_lookup & Hp); [|tc_solve].
    assert (Hr : p <> KRet) by (intros ->; by apply Hp).
    destruct (Z.lt_ge_cases (Z.of_nat j) n) as [Hjn|Hge]; [|by rewrite (Hi _ _ Hj Hge) in Hr].
    destruct (Ho _ _ Hj Hjn) as (cur & orig & Hd & _ & Hu).
    destruct (updates_enabled _ _ _ _ _ _ Hu Hd Hr) as [[p' data'] E]. eexists. by econstructor.
Qed.

Lemma grid_inv_done T ts data :
  grid_inv T ts data -> Forall (eq KRet) ts -> data = updated f (n `min` Z.of_nat T) data0.
Proof.
  intros [Ht Hl Ho _ Hr] Hd. rewrite Forall_lookup in Hd. apply list_eq. intros k.
  unfold updated. rewrite list_lookup_imap.
  destruct (decide (Z.of_nat k < n `min` Z.of_nat T)) as [Hk|Hk].
  - destruct (lookup_lt_is_Some_2 ts k ltac:(lia)) as [p Hp].
    destruct (Ho _ _ Hp ltac:(lia)) as (cur & orig & -> & -> & Hu). rewrite <- (Hd _ _ Hp) in Hu.
    simpl. rewrite (proj2 (Z.ltb_lt _ _) Hk). by inversion Hu.
  - rewrite Hr by lia. destruct (data0 !! k); [|done]. simpl. by rewrite (proj2 (Z.ltb_ge _ _)) by lia.
Qed.

Lemma grid_computes T ts :
  grid_inv T ts data0 -> computes ts data0 (updated f (n `min` Z.of_nat T) data0).
Proof.
  intros Hi m ts' data' Hs.
  assert (Hgen : forall a b, nsteps grid_step m a b -> grid_inv T a.1 a.2 ->
    grid_inv T b.1 b.2 /\ (m + accesses_left b.1 = accesses_left a.1)%nat).
  { clear. intros a b Hs. induction Hs as [a|m [ts data] [ts1 data1] b H1 _ IH]; intros Hi; [done|].
    destruct (grid_inv_step _ _ _ _ _ Hi H1) as [Hi1 Ea]. destruct (IH Hi1) as [Hb Eb].
    split; [done|]. simpl in *. lia. }
  destruct (Hgen _ _ Hs Hi) as [Hi' Em]. simpl in *. split; [done|].
  destruct (grid_inv_progress _ _ _ Hi') as [|Hd]; [by left|right].
  split; [done|]. by eapply grid_inv_done.
Qed.
End grid.
