(* ===== verification/KernelProps.v ===== *)
(** What the CUDA kernels compute when they are launched through their wrappers. *)
From S2P Require Import Prelude Words Ordered Types Floats Kernels.
Open Scope Z_scope.

Lemma global_index_split k :
  0 <= k < 2 ^ 40 -> global_index (mk_thread (k / 256) 256 (k mod 256)) = k.
Proof.
  intros Hk. unfold global_index, mul64, add64. simpl.
  pose proof (Z.mod_pos_bound k 256 ltac:(done)). pose proof (Z.div_mod k 256 ltac:(done)).
  rewrite (Z.mod_small (k / 256 * 256)) by (unfold U64; lia).
  rewrite Z.mod_small by (unfold U64; lia). lia.
Qed.

Lemma grid_blocks_spec n : 0 <= n <= 2 ^ 64 - 257 -> grid_blocks n 256 = (n + 255) / 256.
Proof.
  intros Hn. unfold grid_blocks. rewrite add64_small by (unfold U64; lia).
  rewrite sub64_small by (unfold U64; lia). f_equal. lia.
Qed.

(** A kernel whose thread with index [i] updates element [i] of the first [n]. *)
Definition elementwise (kernel : ThreadIdx -> Kernel) (f : Z -> spec_float -> spec_float) (n : Z) : Prop :=
  forall t, let i := global_index t in
    if i <? n then forall orig, updates (f i) i (kernel t) orig orig else kernel t = KRet.

Lemma fill_elementwise n value :
  elementwise (gms_fill_kernel n value) (fun i _ => f32_add value (f32_of_u64 i)) n.
Proof.
  intros t. cbv zeta. unfold gms_fill_kernel. destruct (_ <? n); [|done]. intros orig.
  apply (up_store (fun _ => f32_add value (f32_of_u64 (global_index t)))).
Qed.

Lemma scale_elementwise n value : elementwise (gms_scale_kernel n value) (fun _ v => f32_mul v value) n.
Proof.
  intros t. cbv zeta. unfold gms_scale_kernel. destruct (_ <? n); [|done]. intros orig.
  apply (up_load (fun v => f32_mul v value)).
Qed.

(** The elements that a launch over [n] reaches: the number of blocks is cut to 32 bits. *)
Definition covered (n : Z) : Z := Z.min n (256 * (grid_blocks n 256 mod U32)).

Lemma covered_all n : in_u64 n -> covered n = n <-> n < 2 ^ 40 - 255.
Proof.
  intros [Hn0 Hn]. unfold covered.
  pose proof (Z.mod_pos_bound (grid_blocks n 256) U32 ltac:(done)) as Hb. split; [unfold U32 in *; lia|].
  intros Hlt. rewrite grid_blocks_spec by lia. pose proof (Z.div_mod (n + 255) 256 ltac:(done)).
  pose proof (Z.mod_pos_bound (n + 255) 256 ltac:(done)). rewrite Z.mod_small by (unfold U32; lia). lia.
Qed.

Section elementwise.
Context (kernel : ThreadIdx -> Kernel) (f : Z -> spec_float -> spec_float) (n : Z).
Context (Hk : elementwise kernel f n).

Lemma elementwise_grid blocks data :
  0 <= blocks < U32 -> Z.min n (256 * blocks) <= Z.of_nat (length data) ->
  computes (grid_threads kernel blocks 256) data (updated f (Z.min n (256 * blocks)) data).
Proof.
  intros Hb Hl. unfold U32 in Hb.
  assert (Ht : forall k p, grid_threads kernel blocks 256 !! k = Some p ->
    Z.of_nat k < 256 * blocks /\ exists t, global_index t = Z.of_nat k /\ p = kernel t).
  { unfold grid_threads. intros k p Hp. rewrite list_lookup_fmap in Hp.
    destruct (seqZ 0 (blocks * 256) !! k) as [z|] eqn:Ez; [|done]. apply lookup_seqZ in Ez as [-> Hz].
    injection Hp as <-. split; [lia|]. eexists. split; [|done]. rewrite global_index_split; lia. }
  assert (El : length (grid_threads kernel blocks 256) = Z.to_nat (256 * blocks)).
  { unfold grid_threads. rewrite length_fmap, length_seqZ. lia. }
  replace (256 * blocks) with (Z.of_nat (Z.to_nat (256 * blocks))) by lia.
  apply grid_computes. constructor; [done|done| | |done].
  - intros k p (Hkt & t & Ei & ->)%Ht Hn.
    destruct (lookup_lt_is_Some_2 data k ltac:(lia)) as [v Hv].
    exists v, v. split; [done|]. split; [done|]. pose proof (Hk t) as Hu. cbv zeta in Hu.
    rewrite Ei, (proj2 (Z.ltb_lt _ _) Hn) in Hu. apply Hu.
  - intros k p (Hkt & t & Ei & ->)%Ht Hn. pose proof (Hk t) as Hu. cbv zeta in Hu.
    by rewrite Ei, (proj2 (Z.ltb_ge _ _) Hn) in Hu.
Qed.

(** A launch over [n] elements that the wrapper reports as successful. *)
Lemma elementwise_launch {D} `{CudaLaunchLaws D} (d d1 d2 : D) ok e data :
  in_u64 n -> covered n <= Z.of_nat (length data) ->
  cudaLaunchKernel (grid_blocks n 256 mod U32) 256 d = (ok, d1) -> cudaGetLastError d1 = (e, d2) ->
  e = 0 ->
  0 < covered n /\ computes (if ok then grid_threads kernel (grid_blocks n 256 mod U32) 256 else []) data
                     (updated f (covered n) data).
Proof.
  intros [Hn0 _] Hl E1 E2 ->. unfold covered in *.
  pose proof (Z.mod_pos_bound (grid_blocks n 256) U32 ltac:(done)) as Hb.
  pose proof (launch_refused (grid_blocks n 256 mod U32) 256 d) as Hr. rewrite E1 in Hr. simpl in Hr.
  rewrite E2 in Hr. simpl in Hr. destruct ok; [|by destruct Hr]. split; [|by apply elementwise_grid].
  assert (Hb0 : grid_blocks n 256 mod U32 <> 0).
  { intros E. rewrite E in E1. pose proof (launch_empty 256 d) as He. by rewrite E1 in He. }
  destruct (Z.eq_dec n 0) as [->|]; [by destruct Hb0|lia].
Qed.
End elementwise.

(** C34: the kernels do what a loop would, over the elements they reach.  When [gms_cuda_fill] or
    [gms_cuda_scale] is called for [n] floats of an array that has those that are reached, and
    returns [cudaSuccess], then some are reached and, in whatever order the threads of the grid
    make their accesses, none leaves the array, all finish, and at the end element [i] of the
    elements reached holds the rounded [value + i], or its old value times [value] rounded, while
    the others are untouched.  All of the first [n] are reached exactly when [n] is below
    2^40 - 255; from there on a successful call leaves some of them as they were. *)
Theorem cuda_kernels_elementwise {D} `{CudaLaunchLaws D} n value (d : D) data :
  in_u64 n -> covered n <= Z.of_nat (length data) ->
  (forall ts d', gms_cuda_fill n value d = (0, ts, d') ->
     0 < covered n /\ computes ts data (updated (fun i _ => f32_add value (f32_of_u64 i)) (covered n) data))
  /\ (forall ts d', gms_cuda_scale n value d = (0, ts, d') ->
     0 < covered n /\ computes ts data (updated (fun _ v => f32_mul v value) (covered n) data))
  /\ (covered n = n <-> n < 2 ^ 40 - 255).
Proof.
  intros Hn Hl. split; [|split; [|by apply covered_all]];
    intros ts d'; unfold gms_cuda_fill, gms_cuda_scale; cbv zeta;
    destruct (cudaLaunchKernel _ _ d) as [ok d1] eqn:E1; destruct (cudaGetLastError d1) as [e d2] eqn:E2;
    intros [= -> <- <-].
  - exact (elementwise_launch _ _ n (fill_elementwise n value) _ _ _ _ _ data Hn Hl E1 E2 eq_refl).
  - exact (elementwise_launch _ _ n (scale_elementwise n value) _ _ _ _ _ data Hn Hl E1 E2 eq_refl).
Qed.

(** A device that accepts one to 2^31 - 1 blocks; its state is the last error. *)
#[export] Instance demo_launch : CudaLaunch Z := {
  cudaLaunchKernel grid block d := if (0 <? grid) && (grid <? 2 ^ 31) then (true, d) else (false, 9);
  cudaGetLastError d := (d, 0);
}.

#[export] Instance demo_launch_laws : CudaLaunchLaws Z.
Proof.
  constructor.
  - done.
  - intros grid block d. simpl. by destruct (_ && _).
Defined.

Definition f32_two : spec_float := f32_of_u64 2.

(** Three floats of four: the fourth keeps its value. *)
Lemma cuda_kernels_elementwise_witness :
  let data := [f32_of_u64 5; f32_of_u64 6; f32_of_u64 7; f32_of_u64 8] in
  let '(e, ts, _) := gms_cuda_scale 3 f32_two (0 : Z) in
  e = 0 /\ computes ts data [f32_of_u64 10; f32_of_u64 12; f32_of_u64 14; f32_of_u64 8].
Proof.
  split; [reflexivity|].
  apply (cuda_kernels_elementwise 3 f32_two (0 : Z)
           [f32_of_u64 5; f32_of_u64 6; f32_of_u64 7; f32_of_u64 8]
           ltac:(unfold in_u64, U64; lia) ltac:(vm_compute; discriminate)) with (d' := 0).
  reflexivity.
Defined.

(** A launch over nothing is reported as an error. *)
Example empty_fill_fails : (gms_cuda_fill 0 f32_two (0 : Z)).1.1 = 9.
Proof. reflexivity. Qed.

(** From 2^40 elements on the number of blocks is cut to 32 bits: the call succeeds and
    runs a single block. *)
Example huge_fill_truncated :
  let '(e, ts, _) := gms_cuda_fill (2 ^ 40 + 256) f32_two (0 : Z) in e = 0 /\ length ts = 256%nat.
Proof. split; vm_compute; reflexivity. Qed.
