(* ===== verification/Programs.v ===== *)
(** The programs that come with the library: consumer/main.cpp, examples/basic.cpp,
    examples/recovery.cpp and benchmarks/benchmark.cpp.

    Each [main] is a function of the heap of its [HostBackend] (and of the file system); it
    gives the exit code, the lines printed and what is left, or [None] when it does something
    undefined.  A line of measured times is a parameter. *)
From S2P Require Import Prelude Words Ordered Types Floats Region RegionInv RegionAlloc RegionFree.
From S2P Require Import RegionReloc RegionQuery RegionSpec Pressure Request Bytes Persist.
From S2P Require Import PersistInv Governor GovernorInv GovernorOps GovernorSpec Backend HostBackend.
Open Scope string_scope.
Open Scope Z_scope.

(** The domain and the request that the programs fill in, the other members at their defaults. *)
Definition program_domain (id cap : Z) : MemoryDomain :=
  mk_domain (mk_id id) (mk_gen 1) (mk_id 0) (mk_gen 1) 0 0 0 cap 0 0 0 0 0 0 d_zero
    PressureState.UNKNOWN DeviceHealth.UNKNOWN WatermarkConfig_default Provenance.MEASURED.

Definition program_request (bytes alignment : Z) (owner : string) : AllocationRequest :=
  mk_request bytes 0 alignment true MemoryClass.USER_BUFFER Reclaimability.RECLAIM_IF_COLD
    Movability.MOVABLE false owner (mk_id 0) (mk_gen 0) (mk_gen 0) (mk_id 0) (mk_id 0)
    gen_none gen_none gen_none gen_none "" Provenance.DERIVED.

(** [%u] of a [static_cast<unsigned>]. *)
Definition show_u (n : Z) : string := pretty (n mod U32).
Definition show_flag (b : bool) : string := if b then "1" else "0".

Section programs.
Context {H : Type} `{!AlignedHeap H} (timing : Z -> Z -> Z -> string).
Implicit Types (h : H) (g : MemoryGovernor H).

Definition program_start (id cap : Z) h : MemoryGovernor H * Result unit :=
  initialize HostBackend (MemoryGovernor_new (program_domain id cap) (Some h)).

(** A [main] that returns [code]: the governor goes out of scope. *)
Definition finish (code : Z) (out : list string) g : option (Z * list string * option H) :=
  Some (code, out, MemoryGovernor_destroy HostBackend g).

(** ** consumer/main.cpp *)

Definition consumer_line (h : AllocationHandle) (s : MemorySummary) : string :=
  "requested=" ++ pretty (h_size h) ++ " committed=" ++ pretty (ms_committed s)
  ++ " free=" ++ pretty (ms_free s) ++ " largest=" ++ pretty (ms_largest_free s)
  ++ " pressure=" ++ PressureState.to_string (ms_pressure s) ++ nl.

Definition consumer_main (h : H) : option (Z * list string * option H) :=
  let '(g, init) := program_start 1 (4 * 2 ^ 20) h in
  match init with
  | Err _ => finish 1 ["init failed" ++ nl] g
  | Ok _ =>
      match request (program_request (2 * 2 ^ 20) 4096 "consumer") g with
      | None => None
      | Some (g, Err f) => finish 1 ["request failed: " ++ RejectReason.to_string (reason f) ++ nl] g
      | Some (g, Ok hd) =>
          let '(g, s) := summary_locked g in
          let out := [consumer_line hd s] in
          if negb (ms_committed s =? 2 * 2 ^ 20) then finish 1 (out ++ ["committed mismatch" ++ nl]) g
          else
            match release (h_id hd) (h_generation hd) g with
            | (g, Err _) => finish 1 (out ++ ["release failed" ++ nl]) g
            | (g, Ok _) =>
                let '(g, s2) := summary_locked g in
                if negb (ms_committed s2 =? 0) || negb (ms_free s2 =? ms_managed_capacity s2) then
                  finish 1 (out ++ ["accounting mismatch after release" ++ nl]) g
                else finish 0 (out ++ ["consumer: PASS" ++ nl]) g
            end
      end
  end.

(** ** examples/basic.cpp *)

(** [h->size] reads the value of an optional without asking whether there is one. *)
Definition basic_main (h : H) : option (Z * list string * option H) :=
  let g := (program_start 7 (8 * 2 ^ 20) h).1 in
  match request (program_request (2 * 2 ^ 20) 4096 "example") g with
  | None => None
  | Some (_, Err _) => None
  | Some (g, Ok hd) =>
      let size := "alloc ok=1 size=" ++ show_u (h_size hd) ++ nl in
      let '(g, s) := summary_locked g in
      let status := "committed=" ++ show_u (ms_committed s) ++ " free=" ++ show_u (ms_free s)
                    ++ " pressure=" ++ PressureState.to_string (ms_pressure s) ++ nl in
      let '(g, rel) := release (h_id hd) (h_generation hd) g in
      finish 0 [size; status; "release ok=" ++ show_flag (result_ok rel) ++ nl] g
  end.

(** ** examples/recovery.cpp *)

Definition recovery_path : string := "gms_recovery_example.bin".

(** The two blocks: the heap and, for the first, the file system they leave. *)
Definition recovery_save (out : WriteOutcome) (fs : FileSystem) h :
    option (string * FileSystem * option H) :=
  let g := (program_start 9 (4 * 2 ^ 20) h).1 in
  '(g, _) ← request (program_request (2 ^ 20) 4096 "recovery") g;
  let '(g, s) := summary_locked g in
  let fs := (save out recovery_path fs g).1 in
  Some ("saved, committed=" ++ show_u (ms_committed s) ++ nl, fs, MemoryGovernor_destroy HostBackend g).

Definition recovery_load (readable : bool) (fs : FileSystem) h : option (string * option H) :=
  '(g, _) ← load readable recovery_path fs (MemoryGovernor_new (program_domain 9 (4 * 2 ^ 20)) (Some h));
  let '(g, s) := summary_locked g in
  Some ("recovered committed=" ++ show_u (ms_committed s)
        ++ " (conservative, physical bytes are not silently current)" ++ nl,
        MemoryGovernor_destroy HostBackend g).

Definition recovery_main (out : WriteOutcome) (readable : bool) (fs : FileSystem) h :
    option (Z * list string * FileSystem * H) :=
  '(l1, fs, h) ← recovery_save out fs h;
  h ← h;
  '(l2, h) ← recovery_load readable fs h;
  h ← h;
  Some (0, [l1; l2], delete recovery_path fs, h).

(** ** benchmarks/benchmark.cpp *)

(** The first loop of [bench], from round [i] on, [n] rounds left. *)
Fixpoint bench_alloc (n : nat) (i bytes alignment : Z) (v : list AllocationHandle) g :
    option (MemoryGovernor H * (string + list AllocationHandle)) :=
  match n with
  | O => Some (g, inr v)
  | S n' =>
      match request (program_request bytes alignment "bench") g with
      | None => None
      | Some (g, Err f) =>
          Some (g, inl ("  unexpected failure at " ++ pretty i ++ ": "
                        ++ RejectReason.to_string (reason f) ++ nl))
      | Some (g, Ok hd) => bench_alloc n' (i + 1) bytes alignment (v ++ [hd]) g
      end
  end.

Definition bench_free (v : list AllocationHandle) g : MemoryGovernor H :=
  fold_left (fun g hd => (release (h_id hd) (h_generation hd) g).1) v g.

Definition bench (n bytes alignment : Z) g : option (MemoryGovernor H * string) :=
  '(g, r) ← bench_alloc (Z.to_nat n) 0 bytes alignment [] g;
  match r with
  | inl failure => Some (g, failure)
  | inr v => Some (bench_free v g, timing n bytes alignment)
  end.

Definition benchmark_main (h : H) : option (Z * list string * option H) :=
  let g := (program_start 1 (2 ^ 26) h).1 in
  '(g, l1) ← bench 100 (64 * 1024) 256 g;
  '(g, l2) ← bench 1000 (16 * 1024) 256 g;
  '(g, l3) ← bench 10000 4096 256 g;
  '(g, l4) ← bench 100000 512 64 g;
  finish 0 ["--- allocation/free benchmark (governed, host backend) ---" ++ nl; l1; l2; l3; l4] g.
End programs.
