(* ===== verification/ProgramProps.v ===== *)
(** What the programs that come with the library do. *)
From S2P Require Import Prelude Words Ordered Types Floats Region RegionInv RegionAlloc RegionFree.
From S2P Require Import RegionReloc RegionQuery RegionSpec Pressure Request Bytes Persist.
From S2P Require Import PersistInv Governor GovernorInv GovernorOps GovernorSpec Pages Backend.
From S2P Require Import HostBackend Programs.
Open Scope string_scope.
Open Scope Z_scope.

(** ** The benchmark *)

Section bench.
Context {H : Type} `{!AlignedHeap H, !AlignedHeapLaws H} (g0 : MemoryGovernor H) (cap : Z).
Implicit Types (g : MemoryGovernor H) (v : list AllocationHandle).

(** Between two calls of [bench], and inside it: the handles [v], each of one page of [s]
    bytes, are all that is live; the next id is [next]. *)
Record bench_inv (s next : Z) v g : Prop := {
  bi_later : later HostBackend g0 g;
  bi_inv : gov_inv g;
  bi_initialized : gov_initialized g = true;
  bi_capacity : managed_capacity (gov_domain g) = cap;
  bi_paged : paged s (gov_arena g);
  bi_live : ra_live_bytes (gov_arena g) = Z.of_nat (length v) * s;
  bi_next : gov_next_alloc_id g = next;
  bi_distinct : NoDup (h_id <$> v);
  bi_handles hd : hd ∈ v -> exists rec, current g (h_id hd) (h_generation hd) rec
    /\ rec_pin_count rec = 0 /\ rec_region_size rec = s;
}.

(** Nothing live: any page size will do. *)
Lemma bench_inv_empty s s' next g : bench_inv s next [] g -> bench_inv s' next [] g.
Proof.
  intros [? Hi ? ? _ Hlv ? ? ?]. constructor; try done.
  - intros id gen r (Hin & Hl & _). pose proof (live_region_bytes _ _ _ (gi_arena _ Hi) Hin Hl). simpl in Hlv. lia.
  - intros hd Hin. by apply not_elem_of_nil in Hin.
Qed.

Section run.
Context (bytes al : Z) (s := round_up bytes al).
Context (Hs : 0 < s) (Hw : request_words (program_request bytes al "bench")).
Context (Hv : failure_ok (validate_request (program_request bytes al "bench") cap) = true).
Abbreviation req := (program_request bytes al "bench").

Lemma bench_request next v g :
  bench_inv s next v g -> (Z.of_nat (length v) + 1) * s <= cap -> next + 1 < U64 ->
  exists g' hd, request req g = Some (g', Ok hd) /\ bench_inv s (next + 1) (v ++ [hd]) g'.
Proof.
  intros [Hlat Hi Hin Hcap Hp Hlv Hn Hnd Hh] Hroom Hid.
  assert (Hadm : admitted g req) by (split; [by rewrite Hcap|done]).
  assert (Hid' : gov_next_alloc_id g + 1 < U64) by (by rewrite Hn).
  destruct (page_request s Hs g req Hi Hp Hw Hid' Hadm eq_refl) as (g1 & res & E & Hi1 & Hok).
  assert (Hres : result_ok res = true) by (apply Hok; rewrite Hcap; lia).
  destruct res as [hd|f]; [|done]. exists g1, hd. split; [done|].
  destruct (request_cases g req Hi Hw Hid') as (g2 & res & E2 & _ & Hc). rewrite E in E2.
  injection E2 as <- <-. destruct Hc as (_ & r & Hr & Ehd).
  assert (Hstep : gov_step HostBackend (GRequest req) g = Some (g1, true)) by (simpl; by rewrite E).
  assert (Hmod : s mod al = 0).
  { unfold s, round_up in *. apply Z.mod_mul. intros ->. lia. }
  assert (Hfresh : forall hd, hd ∈ v -> h_id hd <> mk_id (gov_next_alloc_id g)).
  { intros hd0 (rec & [Hf _] & _)%Hh Heq. rewrite Heq in Hf.
    destruct (registry_fresh _ _ _ (gi_registry _ Hi)) as [Hnone _]. congruence. }
  constructor; try done.
  - by apply (later_step _ _ g (GRequest req) _ true).
  - by rewrite (aq_initialized _ _ _ _ Hr).
  - by rewrite (aq_domain _ _ _ _ Hr).
  - apply (gov_step_paged HostBackend s Hs (GRequest req) g g1 true); try done.
    split; [apply Z.mod_same; lia|done].
  - rewrite (aq_live_bytes _ _ _ _ Hr), (aq_size _ _ _ _ Hr), Hlv, length_app. simpl. fold s. lia.
  - rewrite (aq_next _ _ _ _ Hr). lia.
  - rewrite fmap_app. simpl. apply NoDup_app. split; [done|]. split; [|apply NoDup_singleton].
    intros id (hd0 & -> & Hin0)%list_elem_of_fmap. rewrite list_elem_of_singleton, Ehd.
    by apply Hfresh.
  - intros hd0 [Hin0|Hin0]%elem_of_app; [|apply list_elem_of_singleton in Hin0 as ->].
    + destruct (Hh hd0 Hin0) as (rec & [Hf Hg] & Hpc & Hsz). exists rec. split; [|done]. split; [|done].
      rewrite (aq_records _ _ _ _ Hr), om_find_set_ne; [done|]. by apply Hfresh.
    + rewrite Ehd. simpl. exists (new_record req (mk_id (gov_next_alloc_id g)) r). split; [split; [|done]|].
      * rewrite (aq_records _ _ _ _ Hr). apply om_find_set_eq.
      * simpl. split; [done|]. apply (aq_size _ _ _ _ Hr).
Qed.

Lemma bench_alloc_ok n i next v g :
  bench_inv s next v g -> (Z.of_nat (length v) + Z.of_nat n) * s <= cap -> next + Z.of_nat n < U64 ->
  exists g' v', bench_alloc n i bytes al v g = Some (g', inr v') /\ bench_inv s (next + Z.of_nat n) v' g'.
Proof.
  revert i next v g. induction n as [|n IH]; intros i next v g Hb Hroom Hid.
  { exists g, v. split; [done|]. by rewrite Z.add_0_r. }
  destruct (bench_request next v g Hb) as (g1 & hd & E & Hb1); [nia|lia|].
  cbn [bench_alloc]. rewrite E.
  destruct (IH (i + 1) (next + 1) (v ++ [hd])%list g1 Hb1) as (g2 & v2 & E2 & Hb2);
    [rewrite length_app; simpl; nia|lia|].
  exists g2, v2. split; [done|]. by replace (next + Z.of_nat (S n)) with (next + 1 + Z.of_nat n) by lia.
Qed.

Lemma bench_free_ok next v g : bench_inv s next v g -> bench_inv s next [] (bench_free v g).
Proof.
  revert g. induction v as [|hd v IH]; intros g Hb; [done|]. simpl. apply IH.
  destruct Hb as [Hlat Hi Hin Hcap Hp Hlv Hn Hnd Hh].
  destruct (Hh hd ltac:(left)) as (rec & Hcur & Hpc & Hsz). rewrite fmap_cons in Hnd. apply NoDup_cons in Hnd as [Hni Hnd].
  pose proof (release_cases g (h_id hd) (h_generation hd) gen_none gen_none Hi) as Hc. unfold release.
  set (op := GRelease (h_id hd) (h_generation hd) gen_none gen_none).
  assert (Hstep : gov_step HostBackend op g
    = Some ((release_locked (h_id hd) (h_generation hd) gen_none gen_none g).1,
            result_ok (release_locked (h_id hd) (h_generation hd) gen_none gen_none g).2)) by done.
  pose proof (gov_step_paged HostBackend s Hs op g _ _ Hi I I Hstep Hp) as Hp'.
  pose proof (later_step _ _ g op _ _ Hlat eq_refl I Hstep) as Hlat'.
  destruct (release_locked _ _ _ _ g) as [g1 [rel|f]]; simpl in *.
  2: { exfalso. destruct Hc as (_ & [[(ret & Hf & _) _]|[(Hno & _)|(rec' & Hc' & [[Hna _]|(_ & Hpp & _)])]]).
       - destruct Hcur as [Hf' _]. assert (om_find (h_id hd) (gov_retired g) = None)
           by (apply (gi_registry _ Hi); eauto). congruence.
       - by apply (Hno rec).
       - apply Hna. split; done.
       - destruct Hcur, Hc'. simplify_eq. lia. }
  destruct Hc as (rec' & Hc' & _ & _ & _ & Ha).
  assert (rec' = rec) as -> by (destruct Hcur, Hc'; congruence).
  pose proof (after_release_inv g _ rec g1 Hi (proj1 Hcur) Ha) as Hi'.
  destruct Ha as (Er & _ & _ & Elb & Ed & En & Ein).
  constructor; try done.
  - by rewrite Ein.
  - by rewrite Ed.
  - rewrite Elb, Hlv, Hsz. lia.
  - by rewrite En.
  - intros hd0 Hin0. destruct (Hh hd0 ltac:(by right)) as (rec0 & [Hf0 Hg0] & Hx). exists rec0.
    split; [|done]. split; [|done]. rewrite Er, om_find_erase_ne; [done|]. intros Heq. apply Hni.
    rewrite <- Heq. apply list_elem_of_fmap. by exists hd0.
Qed.

Lemma bench_ok timing n next s' g :
  0 <= n -> bench_inv s' next [] g -> n * s <= cap -> next + n < U64 ->
  exists g', bench timing n bytes al g = Some (g', timing n bytes al) /\ bench_inv s (next + n) [] g'.
Proof.
  intros Hn0 Hb Hroom Hid. unfold bench.
  destruct (bench_alloc_ok (Z.to_nat n) 0 next [] g (bench_inv_empty _ _ _ _ Hb)) as (g1 & v & -> & Hb1);
    [simpl; rewrite Z2Nat.id; lia|lia|].
  exists (bench_free v g1). split; [done|]. rewrite Z2Nat.id in Hb1 by done. by apply bench_free_ok.
Qed.
End run.
End bench.

(** ** The start of a program *)

Definition started {H} (id cap : Z) (h : H) (p : Z) : MemoryGovernor H :=
  mk_governor (dom_with_health DeviceHealth.HEALTHY (program_domain id cap)) (Some h)
    (RegionAllocator_new cap) [] [] p true 1 0.

Definition unstarted {H} (id cap : Z) (h : H) : MemoryGovernor H :=
  mk_governor (program_domain id cap) (Some h) (RegionAllocator_new cap) [] [] 0 false 1 0.

Section start.
Context {H : Type} `{!AlignedHeap H, !AlignedHeapLaws H}.
Implicit Types (h : H).

Lemma start_cases id cap h :
  0 < cap ->
  let '(h', p) := aligned_malloc cap 256 h in
  program_start id cap h = if p =? 0 then (unstarted id cap h', fail RejectReason.PHYSICAL_OOM "")
                   else (started id cap h' p, Ok tt).
Proof.
  intros Hc. unfold program_start, initialize. cbn -[RegionAllocator_new Z.eqb aligned_malloc].
  rewrite (proj2 (Z.eqb_neq cap 0)) by lia. cbn -[RegionAllocator_new Z.eqb aligned_malloc].
  unfold HostBackend_allocate_arena. rewrite (proj2 (Z.eqb_neq cap 0)) by lia.
  destruct (aligned_malloc cap 256 h) as [h' p]. by destruct (p =? 0).
Qed.

(** The arena was granted; freeing it brings the heap back. *)
Definition granted (cap : Z) h : bool := negb ((aligned_malloc cap 256 h).2 =? 0).

Lemma start_blocks cap h :
  let '(h', p) := aligned_malloc cap 256 h in
  if p =? 0 then blocks h' = blocks h else blocks (aligned_free p h') = blocks h.
Proof.
  pose proof (aligned_malloc_law cap 256 h) as Hm. destruct (aligned_malloc cap 256 h) as [h' p].
  destruct (Z.eqb_spec p 0) as [->|Hp], Hm as [[? ?]|(? & ? & Hb)]; try done.
  rewrite aligned_free_law; rewrite Hb; set_solver.
Qed.

(** ** consumer *)

Definition consumer_out : list string :=
  ["requested=2097152 committed=2097152 free=2097152 largest=2097152 pressure=NORMAL" ++ nl;
   "consumer: PASS" ++ nl].

Lemma consumer_runs h :
  exists h', consumer_main h = (if granted (4 * 2 ^ 20) h then Some (0, consumer_out, Some h')
                                else Some (1, ["init failed" ++ nl], Some h'))
    /\ blocks h' = blocks h.
Proof.
  pose proof (start_cases 1 (4 * 2 ^ 20) h ltac:(lia)) as Es. pose proof (start_blocks (4 * 2 ^ 20) h) as Hb.
  unfold granted, consumer_main. destruct (aligned_malloc _ _ h) as [h1 p]. rewrite Es.
  change ((h1, p).2) with p. destruct p as [|p|p].
  - exists h1. split; [vm_compute; reflexivity|exact Hb].
  - exists (aligned_free (Z.pos p) h1). split; [vm_compute; reflexivity|exact Hb].
  - exists (aligned_free (Z.neg p) h1). split; [vm_compute; reflexivity|exact Hb].
Qed.

(** ** basic *)

Definition basic_out : list string :=
  ["alloc ok=1 size=2097152" ++ nl; "committed=2097152 free=6291456 pressure=LOW" ++ nl;
   "release ok=1" ++ nl].

(** Without an arena the request is refused, and the program reads a value that is not there. *)
Lemma basic_runs h :
  if granted (8 * 2 ^ 20) h
  then exists h', basic_main h = Some (0, basic_out, Some h') /\ blocks h' = blocks h
  else basic_main h = None.
Proof.
  pose proof (start_cases 7 (8 * 2 ^ 20) h ltac:(lia)) as Es. pose proof (start_blocks (8 * 2 ^ 20) h) as Hb.
  unfold granted, basic_main. destruct (aligned_malloc _ _ h) as [h1 p]. rewrite Es.
  change ((h1, p).2) with p. destruct p as [|p|p].
  - vm_compute. reflexivity.
  - exists (aligned_free (Z.pos p) h1). split; [vm_compute; reflexivity|exact Hb].
  - exists (aligned_free (Z.neg p) h1). split; [vm_compute; reflexivity|exact Hb].
Qed.

(** ** recovery *)

Definition recovery_out (committed : string) : list string :=
  ["saved, committed=" ++ committed ++ nl;
   "recovered committed=0 (conservative, physical bytes are not silently current)" ++ nl].

(** What the first block writes. *)
Definition recovery_file (granted : bool) : PersistSnapshot :=
  let g := if granted then started 9 (4 * 2 ^ 20) tt 1 else unstarted 9 (4 * 2 ^ 20) tt in
  match request (program_request (2 ^ 20) 4096 "recovery") g with
  | Some (g, _) => snapshot (summary_locked g).1
  | None => snapshot g
  end.

Lemma recovery_file_reads b : decode (encode (recovery_file b)) = Some (Ok (recovery_file b)).
Proof. destruct b; vm_compute; reflexivity. Qed.

(** The first block, for any effect of a successful write. *)
Lemma recovery_save_written fs h :
  recovery_save Written fs h
  = let write b := <[recovery_path := b]> fs in
    '(g, _) ← request (program_request (2 ^ 20) 4096 "recovery") (program_start 9 (4 * 2 ^ 20) h).1;
    let '(g, s) := summary_locked g in
    Some ("saved, committed=" ++ show_u (ms_committed s) ++ nl, write (encode (snapshot g)),
          MemoryGovernor_destroy HostBackend g).
Proof. reflexivity. Qed.

Lemma recovery_save_runs fs h :
  exists h', recovery_save Written fs h
    = Some ("saved, committed=" ++ (if granted (4 * 2 ^ 20) h then "1048576" else "0") ++ nl,
            <[recovery_path := encode (recovery_file (granted (4 * 2 ^ 20) h))]> fs, Some h')
    /\ blocks h' = blocks h.
Proof.
  pose proof (start_cases 9 (4 * 2 ^ 20) h ltac:(lia)) as Es. pose proof (start_blocks (4 * 2 ^ 20) h) as Hb.
  rewrite recovery_save_written. cbv zeta.
  change (<[recovery_path := encode (recovery_file (granted (4 * 2 ^ 20) h))]> fs)
    with ((fun b => <[recovery_path := b]> fs) (encode (recovery_file (granted (4 * 2 ^ 20) h)))).
  generalize (fun b : Bytes.bytes => <[recovery_path := b]> fs) as write.
  intros write. unfold granted. destruct (aligned_malloc _ _ h) as [h1 p]. rewrite Es.
  change ((h1, p).2) with p. destruct p as [|p|p].
  - exists h1. split; [vm_compute; reflexivity|exact Hb].
  - exists (aligned_free (Z.pos p) h1). split; [vm_compute; reflexivity|exact Hb].
  - exists (aligned_free (Z.neg p) h1). split; [vm_compute; reflexivity|exact Hb].
Qed.

Lemma recovery_load_runs readable b fs h :
  recovery_load readable (<[recovery_path := encode (recovery_file b)]> fs) h
  = Some ("recovered committed=0 (conservative, physical bytes are not silently current)" ++ nl, Some h).
Proof.
  assert (Hr : read_file readable recovery_path (<[recovery_path := encode (recovery_file b)]> fs)
    = Some (if readable then Ok (recovery_file b) else internal "read failed")).
  { unfold read_file. replace (_ !! recovery_path) with (Some (encode (recovery_file b)))
      by (symmetry; exact (lookup_insert_eq fs recovery_path _)).
    pose proof (recovery_file_reads b) as Hd. destruct (encode (recovery_file b)) as [|x l] eqn:Ee.
    - destruct b; vm_compute in Ee; discriminate Ee.
    - destruct readable; [exact Hd|reflexivity]. }
  unfold recovery_load, load. rewrite Hr. destruct readable, b; vm_compute; reflexivity.
Qed.

Lemma recovery_runs readable fs h :
  exists h', recovery_main Written readable fs h
    = Some (0, recovery_out (if granted (4 * 2 ^ 20) h then "1048576" else "0"), delete recovery_path fs, h')
    /\ blocks h' = blocks h.
Proof.
  destruct (recovery_save_runs fs h) as (h' & E & Hb). exists h'. split; [|exact Hb].
  unfold recovery_main. rewrite E. cbn [mbind option_bind]. rewrite recovery_load_runs.
  cbn [mbind option_bind]. 
  replace (delete recovery_path (<[recovery_path := encode (recovery_file (granted (4 * 2 ^ 20) h))]> fs))
    with (delete recovery_path fs) by (symmetry; exact (delete_insert_eq fs recovery_path _)).
  reflexivity.
Qed.

(** ** benchmark *)

Definition bench_title : string := "--- allocation/free benchmark (governed, host backend) ---" ++ nl.

Lemma bench_inv_started h h' p s :
  p <> 0 -> aligned_malloc (2 ^ 26) 256 h = (h', p) ->
  bench_inv (MemoryGovernor_new (program_domain 1 (2 ^ 26)) (Some h)) (2 ^ 26) s 1 [] (started 1 (2 ^ 26) h' p).
Proof.
  intros Hp Em. pose proof (start_cases 1 (2 ^ 26) h ltac:(lia)) as Es. rewrite Em in Es.
  rewrite (proj2 (Z.eqb_neq p 0) Hp) in Es.
  assert (Hl : later HostBackend (MemoryGovernor_new (program_domain 1 (2 ^ 26)) (Some h)) (started 1 (2 ^ 26) h' p)).
  { apply (later_step _ _ (MemoryGovernor_new (program_domain 1 (2 ^ 26)) (Some h)) GInitialize _ true);
      [constructor|done|exact I|].
    unfold program_start in Es. simpl gov_step. by rewrite Es. }
  assert (Hi : gov_inv (started 1 (2 ^ 26) h' p)).
  { apply (later_inv HostBackend _ _ (MemoryGovernor_new_inv (program_domain 1 (2 ^ 26)) (Some h) ltac:(simpl; unfold U64; lia)) Hl). }
  constructor; try done.
  - apply paged_new. unfold U64. lia.
  - apply NoDup_nil_2.
  - intros hd Hin. by apply not_elem_of_nil in Hin.
Qed.

Definition bench_failure : string := "  unexpected failure at 0: INTERNAL_ERROR" ++ nl.

Lemma bench_unstarted timing n bytes al h :
  0 < n -> failure_ok (validate_request (program_request bytes al "bench") (2 ^ 26)) = true ->
  bench timing n bytes al (unstarted 1 (2 ^ 26) h) = Some (unstarted 1 (2 ^ 26) h, bench_failure).
Proof.
  intros Hn Hv. unfold bench. replace (Z.to_nat n) with (S (Z.to_nat (n - 1))) by lia.
  cbn [bench_alloc]. unfold request.
  change (managed_capacity (gov_domain (unstarted 1 (2 ^ 26) h))) with (2 ^ 26). rewrite Hv. reflexivity.
Qed.

Lemma benchmark_runs timing h :
  exists h', benchmark_main timing h
    = Some (0, bench_title :: (if granted (2 ^ 26) h
         then [timing 100 65536 256; timing 1000 16384 256; timing 10000 4096 256; timing 100000 512 64]
         else replicate 4 bench_failure), Some h')
    /\ blocks h' = blocks h.
Proof.
  pose proof (start_cases 1 (2 ^ 26) h ltac:(lia)) as Es. pose proof (start_blocks (2 ^ 26) h) as Hb.
  unfold granted, benchmark_main. destruct (aligned_malloc _ _ h) as [h1 p] eqn:Em. rewrite Es.
  change ((h1, p).2) with p. destruct (Z.eqb_spec p 0) as [->|Hp]; cbn [fst negb].
  { exists h1. split; [|exact Hb].
    do 4 (rewrite bench_unstarted; [cbn [mbind option_bind]|lia|vm_compute; reflexivity]). reflexivity. }
  pose proof (bench_inv_started h h1 p 65536 Hp Em) as H0.
  set (g0 := MemoryGovernor_new _ _) in H0.
  assert (Hstep : forall bytes al n next s' g, bench_inv g0 (2 ^ 26) s' next [] g ->
    0 < round_up bytes al -> request_words (program_request bytes al "bench") ->
    failure_ok (validate_request (program_request bytes al "bench") (2 ^ 26)) = true ->
    0 <= n -> n * round_up bytes al <= 2 ^ 26 -> next + n < U64 ->
    exists g', bench timing n bytes al g = Some (g', timing n bytes al)
      /\ bench_inv g0 (2 ^ 26) (round_up bytes al) (next + n) [] g').
  { intros bytes al n next s' g Hi Hs Hw Hv Hn Hroom Hid. by apply (bench_ok g0 (2 ^ 26) bytes al Hs Hw Hv timing n next s'). }
  destruct (Hstep (64 * 1024) 256 100 _ _ _ H0) as (g1 & -> & H1); [by vm_compute..|].
  cbn [mbind option_bind].
  destruct (Hstep (16 * 1024) 256 1000 _ _ _ H1) as (g2 & -> & H2); [by vm_compute..|].
  cbn [mbind option_bind].
  destruct (Hstep 4096 256 10000 _ _ _ H2) as (g3 & -> & H3); [by vm_compute..|].
  cbn [mbind option_bind].
  destruct (Hstep 512 64 100000 _ _ _ H3) as (g4 & -> & H4); [by vm_compute..|].
  cbn [mbind option_bind].
  destruct (destroy_holds HostBackend h g4 (later_holds _ _ _ _ (bi_later _ _ _ _ _ _ H4) (new_holds _ _ h)))
    as (h' & Ed & Hb').
  exists h'. split; [|exact Hb']. unfold finish. rewrite Ed. reflexivity.
Qed.
End start.

(** C37: what the four programs do, over any heap that keeps its promises.  Each leaves
    the heap as it found it.  The consumer passes all its checks and returns 0 when it is given
    its arena, and otherwise says so and returns 1.  The basic example does the same, but without an arena it
    reads the value of a refused request, which is undefined.  The recovery example, once its
    file has been written, always returns 0, shows that nothing is committed after the restart,
    and removes the file.  None of the 111100 requests of the benchmark ever fails when it has
    its arena, and the first of every round fails when it has not. *)
Theorem programs_run {H} `{AlignedHeapLaws H} (h : H) (readable : bool) (fs : FileSystem)
    (timing : Z -> Z -> Z -> string) :
  (exists h', consumer_main h = (if granted (4 * 2 ^ 20) h then Some (0, consumer_out, Some h')
                                 else Some (1, ["init failed" ++ nl], Some h'))
     /\ blocks h' = blocks h)
  /\ (if granted (8 * 2 ^ 20) h
      then exists h', basic_main h = Some (0, basic_out, Some h') /\ blocks h' = blocks h
      else basic_main h = None)
  /\ (exists h', recovery_main Written readable fs h
        = Some (0, recovery_out (if granted (4 * 2 ^ 20) h then "1048576" else "0"),
                delete recovery_path fs, h')
      /\ blocks h' = blocks h)
  /\ exists h', benchmark_main timing h
       = Some (0, bench_title :: (if granted (2 ^ 26) h
            then [timing 100 65536 256; timing 1000 16384 256; timing 10000 4096 256; timing 100000 512 64]
            else replicate 4 bench_failure), Some h')
       /\ blocks h' = blocks h.
Proof.
  split; [exact (consumer_runs h)|]. split; [exact (basic_runs h)|].
  split; [exact (recovery_runs readable fs h)|exact (benchmark_runs timing h)].
Qed.

(** The demonstration heap refuses the 64 MiB of the benchmark. *)
Lemma programs_run_witness :
  (exists h', consumer_main ([8192] : demo_heap) = Some (0, consumer_out, Some h') /\ blocks h' = blocks [8192])
  /\ exists h', benchmark_main (fun _ _ _ => "") ([8192] : demo_heap)
       = Some (0, bench_title :: replicate 4 bench_failure, Some h').
Proof.
  destruct (programs_run ([8192] : demo_heap) true ∅ (fun _ _ _ => "")) as (Hc & _ & _ & Hb).
  assert (E1 : granted (4 * 2 ^ 20) ([8192] : demo_heap) = true) by (vm_compute; reflexivity).
  assert (E2 : granted (2 ^ 26) ([8192] : demo_heap) = false) by (vm_compute; reflexivity).
  rewrite E1 in Hc. rewrite E2 in Hb. split; [exact Hc|]. destruct Hb as (h' & Hb & _). exists h'. exact Hb.
Defined.
