(* ===== verification/Text.v ===== *)
(** The text of command lines and of what is printed: [strtoull] and [atoi] of the C library,
    C strings and lines. *)
From Stdlib Require Import Ascii.
From S2P Require Import Prelude Words.
Open Scope string_scope.
Open Scope Z_scope.

(** ** Scanning *)

Definition is_space (c : ascii) : bool :=
  bool_decide (c ∈ [" "; "009"; "010"; "011"; "012"; "013"]%char).

Fixpoint skip_space (s : string) : string :=
  match s with
  | String c s' => if is_space c then skip_space s' else s
  | EmptyString => s
  end.

Definition digit_value (c : ascii) : option Z :=
  let n := Z.of_N (Ascii.N_of_ascii c) - 48 in
  if (0 <=? n) && (n <=? 9) then Some n else None.

(** The value of the leading digits. *)
Fixpoint read_digits (acc : Z) (s : string) : Z :=
  match s with
  | String c s' => match digit_value c with
                   | Some d => read_digits (acc * 10 + d) s'
                   | None => acc
                   end
  | EmptyString => acc
  end.

(** An optional sign: is it a minus? *)
Definition scan_sign (s : string) : bool * string :=
  match s with
  | String c s' => if bool_decide (c = "-"%char) then (true, s')
                   else if bool_decide (c = "+"%char) then (false, s') else (false, s)
  | EmptyString => (false, s)
  end.

(** [strtoull(s, nullptr, 10)]: blanks, a sign, digits; a value that does not fit gives the
    largest one, and a minus sign negates in [unsigned long long]. *)
Definition strtoull (s : string) : Z :=
  let '(minus, s) := scan_sign (skip_space s) in
  let v := read_digits 0 s in
  if v >=? U64 then U64 - 1 else if minus then sub64 0 v else v.

(** [atoi(s)]: undefined when the value is not an [int]. *)
Definition atoi (s : string) : option Z :=
  let '(minus, s) := scan_sign (skip_space s) in
  let v := if minus then - read_digits 0 s else read_digits 0 s in
  if (- 2 ^ 31 <=? v) && (v <? 2 ^ 31) then Some v else None.

(** ** What is printed *)

(** A line of output. *)
Definition line (s : string) : string := s +:+ String "010"%char EmptyString.

(** [s.c_str()] as the C library reads it: up to the first null character. *)
Fixpoint c_str (s : string) : string :=
  match s with
  | String c s' => if bool_decide (c = "000"%char) then EmptyString else String c (c_str s')
  | EmptyString => EmptyString
  end.

(** ** Lemmas *)

(** The ten digits, one by one. *)
Lemma digit_forall (P : N -> Prop) : Forall P (N.of_nat <$> seq 0 10) -> forall n, (n < 10)%N -> P n.
Proof.
  intros HP n Hn. apply (proj1 (Forall_forall _ _) HP), list_elem_of_fmap.
  exists (N.to_nat n). split; [lia|]. apply elem_of_seq. lia.
Qed.

Lemma digit_value_char n : (n < 10)%N -> digit_value (pretty_N_char n) = Some (Z.of_N n).
Proof. revert n. apply digit_forall. by repeat constructor. Qed.

(** A digit is no blank, no sign and no suffix. *)
Lemma digit_plain n :
  (n < 10)%N -> is_space (pretty_N_char n) = false
  /\ pretty_N_char n ∉ ["-"; "+"; "M"; "G"; "K"]%char.
Proof.
  revert n. apply digit_forall. apply (bool_decide_unpack _). vm_compute. exact I.
Qed.

Lemma read_digits_go x s : read_digits 0 (pretty_N_go x s) = read_digits (Z.of_N x) s.
Proof.
  revert s. induction (N.lt_wf_0 x) as [x _ IH]. intros s.
  destruct (decide (x = 0)%N) as [->|Hx]; [done|].
  rewrite pretty_N_go_step by lia. rewrite IH by (apply N.div_lt; lia). simpl.
  rewrite digit_value_char by (apply N.mod_lt; lia).
  f_equal. rewrite N2Z.inj_div, N2Z.inj_mod. pose proof (Z.div_mod (Z.of_N x) 10 ltac:(lia)). lia.
Qed.

Lemma string_app_cons c (s t : string) : String c s +:+ t = String c (s +:+ t).
Proof. done. Qed.

Lemma string_app_assoc (s t u : string) : (s +:+ t) +:+ u = s +:+ (t +:+ u).
Proof. induction s as [|c s IH]; [done|]. by rewrite !string_app_cons, IH. Qed.

Lemma string_app_nil (s : string) : s +:+ "" = s.
Proof. induction s as [|c s IH]; [done|]. by rewrite string_app_cons, IH. Qed.

(** A number is printed with a digit first and a digit last. *)
Lemma pretty_go_ends x s :
  (0 < x)%N -> exists d s', (d < 10)%N /\ pretty_N_go x s = String (pretty_N_char d) s'.
Proof.
  revert s. induction (N.lt_wf_0 x) as [x _ IH]. intros s Hx. rewrite pretty_N_go_step by done.
  destruct (decide (x `div` 10 = 0)%N) as [->|Hd].
  - eexists _, _. split; [|done]. apply N.mod_lt. lia.
  - apply IH; [apply N.div_lt; lia|by apply N.neq_0_lt_0].
Qed.

Lemma pretty_go_tail x s : exists t, pretty_N_go x s = t +:+ s.
Proof.
  revert s. induction (N.lt_wf_0 x) as [x _ IH]. intros s.
  destruct (decide (x = 0)%N) as [->|Hx]; [by exists ""|]. rewrite pretty_N_go_step by lia.
  destruct (IH (x `div` 10)%N (N.div_lt x 10 ltac:(lia) ltac:(lia))
              (String (pretty_N_char (x `mod` 10)) s)) as [t ->].
  exists (t +:+ String (pretty_N_char (x `mod` 10)) ""). by rewrite string_app_assoc.
Qed.

Lemma pretty_N_shape (n : N) :
  exists d s t e, (d < 10)%N /\ (e < 10)%N /\ pretty n = String (pretty_N_char d) s
    /\ pretty n = t +:+ String (pretty_N_char e) "" /\ read_digits 0 (pretty n) = Z.of_N n.
Proof.
  unfold pretty, pretty_N. destruct (decide (n = 0)%N) as [->|Hn].
  { exists 0%N, "", "", 0%N. by split_and!. }
  destruct (pretty_go_ends n "") as (d & s & Hd & E1); [lia|].
  pose proof (pretty_N_go_step n "" ltac:(lia)) as E2.
  destruct (pretty_go_tail (n `div` 10) (String (pretty_N_char (n `mod` 10)) "")) as [t Et].
  exists d, s, t, (n `mod` 10)%N. split; [done|]. split; [apply N.mod_lt; lia|].
  split; [done|]. split; [by rewrite E2|]. by rewrite read_digits_go.
Qed.

Lemma strtoull_pretty (n : N) : (n < 2 ^ 64)%N -> strtoull (pretty n) = Z.of_N n.
Proof.
  intros Hn. destruct (pretty_N_shape n) as (d & s & t & e & Hd & _ & E & _ & Hr).
  destruct (digit_plain d Hd) as [Hsp Hni]. rewrite !not_elem_of_cons in Hni.
  unfold strtoull. rewrite E. cbn [skip_space]. rewrite Hsp. unfold scan_sign.
  rewrite !bool_decide_false by apply Hni. rewrite <- E, Hr.
  destruct (Z.geb_spec (Z.of_N n) U64); [unfold U64 in *; lia|done].
Qed.

Lemma read_digits_nonneg s acc : 0 <= acc -> 0 <= read_digits acc s.
Proof.
  revert acc. induction s as [|c s IH]; intros acc Ha; [done|]. simpl. unfold digit_value.
  destruct (0 <=? _) eqn:E1; [|done]. destruct (_ <=? 9); [|done]. apply IH. cbv zeta. lia.
Qed.

Lemma strtoull_range s : in_u64 (strtoull s).
Proof.
  unfold strtoull. destruct (scan_sign (skip_space s)) as [minus t].
  pose proof (read_digits_nonneg t 0 ltac:(done)).
  destruct (Z.geb_spec (read_digits 0 t) U64); [done|]. destruct minus; [apply sub64_range|done].
Qed.

Lemma atoi_pretty (n : N) : (n < 2 ^ 31)%N -> atoi (pretty n) = Some (Z.of_N n).
Proof.
  intros Hn. destruct (pretty_N_shape n) as (d & s & t & e & Hd & _ & E & _ & Hr).
  destruct (digit_plain d Hd) as [Hsp Hni]. rewrite !not_elem_of_cons in Hni.
  unfold atoi. rewrite E. cbn [skip_space]. rewrite Hsp. unfold scan_sign.
  rewrite !bool_decide_false by apply Hni. rewrite <- E, Hr.
  rewrite (proj2 (Z.leb_le _ _)), (proj2 (Z.ltb_lt _ _)); [done|lia|lia].
Qed.
