(* ===== verification/PropertyTest.v ===== *)
(** The seeded property test of the arena: tests/test_property.cpp.

    The test drives a [RegionAllocator] with requests and releases that a pseudo-random
    generator chooses, next to a vector with one byte per byte of the arena, and compares the
    two after every step.  Here is the whole program, with the theorem that it passes for
    every seed, not only for those it was run with. *)
From S2P Require Import Prelude Words Ordered Types Floats Region RegionInv RegionAlloc.
From S2P Require Import RegionFree RegionQuery RegionSpec Text.
Open Scope Z_scope.

(** ** The generator *)

(** [Rng(seed)]: xorshift64 star. *)
Definition Rng_new (seed : Z) : Z := if seed =? 0 then 0x9E3779B97F4A7C15 else seed.

(** The next state and the number drawn. *)
Definition rng_next (s : Z) : Z * Z :=
  let s := Z.lxor s (Z.shiftr s 12) in
  let s := Z.lxor s (Z.shiftl s 25 mod U64) in
  let s := Z.lxor s (Z.shiftr s 27) in
  (s, mul64 s 0x2545F4914F6CDD1D).

Definition rng_below (n s : Z) : Z * Z :=
  if n =? 0 then (s, 0) else let '(s, v) := rng_next s in (s, v mod n).

(** ** The reference *)

(** [std::vector<std::uint8_t> occ(capacity, 0)]: its size and the elements written so far;
    an index outside the vector is undefined. *)
Record Occupancy : Set := mk_occ { occ_size : Z; occ_set : gmap Z Z }.

Definition occ_get (i : Z) (o : Occupancy) : option Z :=
  if (0 <=? i) && (i <? occ_size o) then Some (default 0 (occ_set o !! i)) else None.

Definition occ_put (i v : Z) (o : Occupancy) : option Occupancy :=
  if (0 <=? i) && (i <? occ_size o) then Some (mk_occ (occ_size o) (<[i := v]> (occ_set o)))
  else None.

(** How a step of the test ends: with the next state, with a call of [fail], or in undefined
    behaviour. *)
Inductive Verdict (A : Type) : Type :=
  | Continue (x : A)
  | Failure_at (msg : string)
  | Undefined.
Arguments Continue {A}.
Arguments Failure_at {A}.
Arguments Undefined {A}.

Definition bindv {A A'} (m : Verdict A) (f : A -> Verdict A') : Verdict A' :=
  match m with Continue x => f x | Failure_at msg => Failure_at msg | Undefined => Undefined end.

Definition of_option {A} (m : option A) : Verdict A :=
  match m with Some x => Continue x | None => Undefined end.

Definition require (ok : bool) (msg : string) : Verdict unit :=
  if ok then Continue tt else Failure_at msg.

Notation "x <~ m ; k" := (bindv m (fun x => k))
  (at level 20, m at level 100, k at level 200, right associativity) : gms_scope.
Open Scope gms_scope.

(** [for (i = 0; i < n; ++i) { if (occ[off + i] != 0) return fail(...); occ[off + i] = 1; }]
    for the last [n] bytes before [hi]. *)
Fixpoint occupy (off : Z) (n : nat) (o : Occupancy) : Verdict Occupancy :=
  match n with
  | O => Continue o
  | S n =>
      v <~ of_option (occ_get off o);
      _ <~ require (v =? 0) "allocate into occupied byte";
      o <~ of_option (occ_put off 1 o);
      occupy (off + 1) n o
  end.

(** [for (i = 0; i < sz; ++i) occ[off + i] = 0]. *)
Fixpoint vacate (off : Z) (n : nat) (o : Occupancy) : Verdict Occupancy :=
  match n with
  | O => Continue o
  | S n => o <~ of_option (occ_put off 0 o); vacate (off + 1) n o
  end.

(** [cnt += occ[off + i]] over the bytes of a region. *)
Fixpoint count_bytes (off : Z) (n : nat) (o : Occupancy) (cnt : Z) : Verdict Z :=
  match n with
  | O => Continue cnt
  | S n => v <~ of_option (occ_get off o); count_bytes (off + 1) n o (add64 cnt v)
  end.

(** ** The program *)

(** The variables of [main] that the loop changes. *)
Record Harness : Set := mk_harness {
  hn_rng : Z;
  hn_ra : RegionAllocator;
  hn_occ : Occupancy;
  hn_live_ref : Z;
  hn_live_ids : oset Z;
  hn_next_id : Z;
}.

Definition aligns : list Z := [1; 8; 64; 256; 1024; 4096].

Definition test_request (id bytes align : Z) : AllocRequest :=
  mk_alloc_request bytes align Movability.MOVABLE MemoryClass.UNKNOWN Reclaimability.UNKNOWN
    (mk_id id) (mk_gen 1) gen_none Provenance.DERIVED.

(** The branch that allocates. *)
Definition allocate_branch (h : Harness) : Verdict Harness :=
  let '(s, n) := rng_below (48 * 1024) (hn_rng h) in
  let bytes := add64 n 1 in
  let '(s, k) := rng_below (Z.of_nat (length aligns)) s in
  align <~ of_option (aligns !! Z.to_nat k);
  let id := hn_next_id h in
  let '(s, _) := rng_below 10 s in
  p <~ of_option (allocate (test_request id bytes align) (hn_ra h));
  let next := add64 id 1 in
  match p.2 with
  | Err _ => Continue (mk_harness s p.1 (hn_occ h) (hn_live_ref h) (hn_live_ids h) next)
  | Ok r =>
      o <~ occupy (ri_offset r) (Z.to_nat (ri_size r)) (hn_occ h);
      Continue (mk_harness s p.1 o (add64 (hn_live_ref h) (ri_size r))
                  (os_insert id (hn_live_ids h)) next)
  end.

(** A release under a generation that was never given out. *)
Definition stale_branch (id s : Z) (h : Harness) : Verdict Harness :=
  let before := free_bytes (hn_ra h) in
  let '(ra, sf) := free (mk_id id) (mk_gen 999) (hn_ra h) in
  _ <~ require (negb (result_ok sf)) "stale free unexpectedly succeeded";
  _ <~ require (free_bytes ra =? before) "stale free mutated state";
  Continue (mk_harness s ra (hn_occ h) (hn_live_ref h) (hn_live_ids h) (hn_next_id h)).

Definition free_branch (id s : Z) (h : Harness) : Verdict Harness :=
  let '(off, sz) :=
    match get (mk_id id) (mk_gen 1) (hn_ra h) with
    | Ok g => (ri_offset g, ri_size g)
    | Err _ => (0, 0)
    end in
  let '(ra, fr) := free (mk_id id) (mk_gen 1) (hn_ra h) in
  if result_ok fr then
    o <~ vacate off (Z.to_nat sz) (hn_occ h);
    Continue (mk_harness s ra o (sub64 (hn_live_ref h) sz) (os_erase id (hn_live_ids h)) (hn_next_id h))
  else Continue (mk_harness s ra (hn_occ h) (hn_live_ref h) (hn_live_ids h) (hn_next_id h)).

(** The branch that releases a live id chosen at random; with no live id it does nothing. *)
Definition release_branch (h : Harness) : Verdict Harness :=
  match hn_live_ids h with
  | [] => Continue h
  | _ =>
      let '(s, k) := rng_below (Z.of_nat (length (hn_live_ids h))) (hn_rng h) in
      id <~ of_option (hn_live_ids h !! Z.to_nat k);
      let '(s, k) := rng_below 100 s in
      if k <? 20 then stale_branch id s h else free_branch id s h
  end.

Definition with_rng (s : Z) (h : Harness) : Harness :=
  mk_harness s (hn_ra h) (hn_occ h) (hn_live_ref h) (hn_live_ids h) (hn_next_id h).

(** [largest_free_region] refreshes the cached summary. *)
Definition with_summary (h : Harness) : Harness :=
  mk_harness (hn_rng h) (ensure_summary (hn_ra h)) (hn_occ h) (hn_live_ref h) (hn_live_ids h) (hn_next_id h).

(** The loop over [snapshot_live]. *)
Fixpoint live_occupied (l : list RegionInfo) (o : Occupancy) : Verdict unit :=
  match l with
  | [] => Continue tt
  | lr :: l =>
      cnt <~ count_bytes (ri_offset lr) (Z.to_nat (ri_size lr)) o 0;
      _ <~ require (cnt =? ri_size lr) "live region not fully occupied";
      live_occupied l o
  end.

(** The checks after every step. *)
Definition check_step (capacity : Z) (h : Harness) : Verdict Harness :=
  let ra := hn_ra h in
  _ <~ require (bool_decide (verify ra = ""%string)) (verify ra);
  _ <~ require (ra_live_bytes ra =? hn_live_ref h) "live_bytes != reference";
  _ <~ require (free_bytes ra =? sub64 capacity (hn_live_ref h)) "free_bytes != capacity - live";
  _ <~ require (largest_free_region ra <=? free_bytes ra) "largest_free > free_bytes";
  let h := with_summary h in
  _ <~ require (ra_live_count (hn_ra h) =? Z.of_nat (length (hn_live_ids h)))
         "live_count != reference";
  _ <~ live_occupied (snapshot_live (hn_ra h)) (hn_occ h);
  Continue h.

Definition test_step (capacity : Z) (h : Harness) : Verdict Harness :=
  let '(s, k) := rng_below 100 (hn_rng h) in
  let h := with_rng s h in
  h <~ (if k <? 72 then allocate_branch h else release_branch h);
  check_step capacity h.

Fixpoint test_loop (capacity : Z) (steps : nat) (h : Harness) : Verdict Harness :=
  match steps with
  | O => Continue h
  | S n => h <~ test_step capacity h; test_loop capacity n h
  end.

Definition test_start (capacity seed : Z) : Harness :=
  mk_harness (Rng_new seed) (RegionAllocator_new capacity) (mk_occ capacity ∅) 0 [] 1.

(** [main]: the seed is the argument, if there is one; 4000 steps on 1 MiB. *)
Definition property_seed (argv1 : option string) : Z :=
  match argv1 with Some s => strtoull s | None => 0x1234567890ABCDEF end.

Definition property_test (argv1 : option string) : Verdict string :=
  let seed := property_seed argv1 in
  _ <~ test_loop (2 ^ 20) 4000 (test_start (2 ^ 20) seed);
  Continue ("property test: PASS (seed=" ++ pretty seed ++ ")")%string.

Example test_loop_runs :
  match test_loop 4096 40 (test_start 4096 7) with Continue h => negb (hn_next_id h =? 1) | _ => false end = true.
Proof. vm_compute. reflexivity. Qed.

(** ** Loops over the reference *)

Definition occ_at (o : Occupancy) (b : Z) : Z := default 0 (occ_set o !! b).

Definition in_span (off n b : Z) : bool := (off <=? b) && (b <? off + n).

Lemma in_span_cons off n b : in_span off (Z.of_nat (S n)) b = (off =? b) || in_span (off + 1) (Z.of_nat n) b.
Proof.
  unfold in_span.
  destruct (Z.leb_spec off b), (Z.ltb_spec b (off + Z.of_nat (S n))), (Z.eqb_spec off b),
    (Z.leb_spec (off + 1) b), (Z.ltb_spec b (off + 1 + Z.of_nat n)); simpl; lia.
Qed.

Lemma in_span_spec off n b : in_span off n b = true <-> off <= b < off + n.
Proof. unfold in_span. rewrite andb_true_iff, Z.leb_le, Z.ltb_lt. lia. Qed.

Lemma occ_in i o : 0 <= i < occ_size o ->
  occ_get i o = Some (occ_at o i)
  /\ forall v, occ_put i v o = Some (mk_occ (occ_size o) (<[i := v]> (occ_set o))).
Proof.
  intros [H0 H1]. unfold occ_get, occ_put.
  rewrite (proj2 (Z.leb_le _ _)), (proj2 (Z.ltb_lt _ _)) by lia. done.
Qed.

Lemma occ_at_put i v o b :
  occ_at (mk_occ (occ_size o) (<[i := v]> (occ_set o))) b = if i =? b then v else occ_at o b.
Proof.
  unfold occ_at. simpl. destruct (Z.eqb_spec i b) as [->|Hne].
  - by rewrite lookup_insert_eq.
  - by rewrite lookup_insert_ne.
Qed.

Lemma occupy_spec n off o :
  0 <= off -> off + Z.of_nat n <= occ_size o ->
  (forall b, off <= b < off + Z.of_nat n -> occ_at o b = 0) ->
  exists o', occupy off n o = Continue o' /\ occ_size o' = occ_size o
    /\ forall b, occ_at o' b = if in_span off (Z.of_nat n) b then 1 else occ_at o b.
Proof.
  revert off o. induction n as [|n IH]; intros off o H0 Hs Hz.
  { exists o. split_and!; [done|done|]. intros b. unfold in_span.
    destruct (Z.leb_spec off b), (Z.ltb_spec b (off + Z.of_nat 0)); simpl; try done; lia. }
  cbn [occupy]. destruct (occ_in off o) as [-> Hput]; [lia|]. cbn [bindv of_option].
  rewrite (Hz off) by lia. cbn [Z.eqb require bindv]. rewrite Hput. cbn [bindv].
  destruct (IH (off + 1) (mk_occ (occ_size o) (<[off := 1]> (occ_set o)))) as (o' & E & Es & Ha);
    [lia|simpl; lia| |].
  { intros b Hb. rewrite occ_at_put. destruct (Z.eqb_spec off b); [lia|]. apply Hz. lia. }
  exists o'. split_and!; [done|done|]. intros b. rewrite Ha, occ_at_put, in_span_cons.
  by destruct (off =? b), (in_span (off + 1) (Z.of_nat n) b).
Qed.

Lemma vacate_spec n off o :
  0 <= off -> off + Z.of_nat n <= occ_size o ->
  exists o', vacate off n o = Continue o' /\ occ_size o' = occ_size o
    /\ forall b, occ_at o' b = if in_span off (Z.of_nat n) b then 0 else occ_at o b.
Proof.
  revert off o. induction n as [|n IH]; intros off o H0 Hs.
  { exists o. split_and!; [done|done|]. intros b. unfold in_span.
    destruct (Z.leb_spec off b), (Z.ltb_spec b (off + Z.of_nat 0)); simpl; try done; lia. }
  cbn [vacate]. destruct (occ_in off o) as [_ Hput]; [lia|]. rewrite Hput. cbn [bindv of_option].
  destruct (IH (off + 1) (mk_occ (occ_size o) (<[off := 0]> (occ_set o)))) as (o' & E & Es & Ha);
    [lia|simpl; lia|].
  exists o'. split_and!; [done|done|]. intros b. rewrite Ha, occ_at_put, in_span_cons.
  by destruct (off =? b), (in_span (off + 1) (Z.of_nat n) b).
Qed.

Lemma count_bytes_spec n off o cnt :
  0 <= off -> off + Z.of_nat n <= occ_size o -> 0 <= cnt -> cnt + Z.of_nat n < U64 ->
  (forall b, off <= b < off + Z.of_nat n -> occ_at o b = 1) ->
  count_bytes off n o cnt = Continue (cnt + Z.of_nat n).
Proof.
  revert off cnt. induction n as [|n IH]; intros off cnt H0 Hs Hc Hu Ha.
  { simpl. f_equal. lia. }
  cbn [count_bytes]. destruct (occ_in off o) as [-> _]; [lia|]. cbn [bindv of_option].
  rewrite (Ha off) by lia. rewrite add64_small by lia. rewrite IH; [f_equal; lia|lia..|].
  intros b Hb. apply Ha. lia.
Qed.

(** ** The ids of the live regions *)

Definition live_ids_of (a : RegionAllocator) : list AllocationId := ri_alloc_id <$> snapshot_live a.

Lemma snapshot_live_NoDup a : ra_wf a -> NoDup (snapshot_live a).
Proof.
  intros Hwf. assert (Hv : NoDup (om_values (ra_regions a))).
  { unfold om_values. apply NoDup_fmap_2_strong.
    - intros [k r] [k' r'] Hin Hin' Er. simpl in Er. subst r'.
      destruct (ra_wf_bounds _ _ _ Hwf Hin) as [<- _]. by destruct (ra_wf_bounds _ _ _ Hwf Hin') as [<- _].
    - apply om_ok_NoDup, ra_wf_om_ok, Hwf. }
  unfold snapshot_live. revert Hv. induction (om_values (ra_regions a)) as [|r l IH]; [done|].
  intros [Hn Hl]%NoDup_cons. simpl. destruct (ri_live r); [|by apply IH].
  apply NoDup_cons. split; [|by apply IH]. intros Hin. apply Hn.
  apply list_elem_of_In, filter_In in Hin as [Hin _]. by apply list_elem_of_In.
Qed.

Lemma live_held a r : ra_wf a -> r ∈ snapshot_live a -> held a (ri_alloc_id r) (ri_alloc_generation r) r.
Proof. intros Hwf [Hin Hl]%snapshot_live_elem; [|done]. done. Qed.

Lemma live_ids_NoDup a : ra_wf a -> NoDup (live_ids_of a).
Proof.
  intros Hwf. apply NoDup_fmap_2_strong; [|by apply snapshot_live_NoDup].
  intros r r' Hr Hr' E. apply live_held in Hr, Hr'; [|done..]. rewrite E in Hr.
  by eapply held_unique.
Qed.

Lemma live_ids_elem a id : ra_wf a -> id ∈ live_ids_of a <-> is_Some (ra_alloc_offset a !! id).
Proof.
  intros Hwf. unfold live_ids_of. rewrite list_elem_of_fmap. split.
  - intros (r & -> & Hr%live_held); [|done]. apply held_lookup in Hr as [-> _]; [|done]. by eexists.
  - intros (off & Hlk). destruct (ra_wf_lookup _ _ _ Hwf Hlk) as (r & Hin & _ & Hl & <-).
    exists r. split; [done|]. apply snapshot_live_elem; [done|].
    by destruct (ra_wf_bounds _ _ _ Hwf Hin) as [-> _].
Qed.

Lemma live_count_ids a : ra_wf a -> ra_live_count a = Z.of_nat (length (live_ids_of a)).
Proof.
  intros Hwf. rewrite (wf_live_count _ Hwf). unfold live_ids_of, snapshot_live, om_values, live_cnt.
  rewrite length_fmap. induction (ra_regions a) as [|[k r] l IH]; [done|].
  rewrite zsum_cons, IH. cbn [fmap list_fmap snd List.filter]. destruct (ri_live r); [|done].
  cbn [length]. lia.
Qed.

(** ** What holds between two steps *)

Record hn_inv (capacity : Z) (h : Harness) : Prop := {
  hi_wf : ra_wf (hn_ra h);
  hi_cap : ra_capacity (hn_ra h) = capacity;
  hi_size : occ_size (hn_occ h) = capacity;
  hi_occ b : occ_at (hn_occ h) b =
    match owner_at (ra_regions (hn_ra h)) b with Some _ => 1 | None => 0 end;
  hi_ref : hn_live_ref h = ra_live_bytes (hn_ra h);
  hi_ids_ok : os_ok (hn_live_ids h);
  hi_ids id : is_Some (ra_alloc_offset (hn_ra h) !! mk_id id) <-> id ∈ hn_live_ids h;
  hi_gen k r : (k, r) ∈ ra_regions (hn_ra h) -> ri_live r = true -> ri_alloc_generation r = mk_gen 1;
  hi_next id : id ∈ hn_live_ids h -> id < hn_next_id h;
}.

Lemma start_inv capacity seed : 0 < capacity < U64 -> hn_inv capacity (test_start capacity seed).
Proof.
  intros Hc. unfold test_start. constructor; simpl.
  - by apply RegionAllocator_new_wf.
  - unfold RegionAllocator_new. by destruct (capacity >? 0).
  - done.
  - intros b. unfold RegionAllocator_new. by destruct (capacity >? 0).
  - unfold RegionAllocator_new. by destruct (capacity >? 0).
  - constructor.
  - intros id. unfold RegionAllocator_new. split; [|by intros ?%not_elem_of_nil].
    destruct (capacity >? 0); simpl; rewrite lookup_empty; by intros [? ?].
  - unfold RegionAllocator_new. intros k r. destruct (capacity >? 0); simpl; intros Hin;
      apply list_elem_of_singleton in Hin; by injection Hin as -> ->.
  - intros id Hin. by apply not_elem_of_nil in Hin.
Qed.

Lemma with_rng_inv capacity s h : hn_inv capacity h -> hn_inv capacity (with_rng s h).
Proof. intros []. by constructor. Qed.

Lemma ensure_summary_same a :
  ra_regions (ensure_summary a) = ra_regions a /\ ra_capacity (ensure_summary a) = ra_capacity a
  /\ ra_live_bytes (ensure_summary a) = ra_live_bytes a
  /\ ra_alloc_offset (ensure_summary a) = ra_alloc_offset a.
Proof. unfold ensure_summary. by destruct (negb (ra_summary_dirty a)). Qed.

Lemma with_summary_inv capacity h : hn_inv capacity h -> hn_inv capacity (with_summary h).
Proof.
  intros []. destruct (ensure_summary_same (hn_ra h)) as (Er & Ec & Eb & Eo).
  constructor; simpl; rewrite ?Er, ?Ec, ?Eb, ?Eo; auto using ensure_summary_wf.
Qed.

Lemma next_id_fresh capacity h : hn_inv capacity h -> ra_alloc_offset (hn_ra h) !! mk_id (hn_next_id h) = None.
Proof.
  intros Hi. destruct (ra_alloc_offset (hn_ra h) !! mk_id (hn_next_id h)) eqn:E; [|done].
  assert (Hin : hn_next_id h ∈ hn_live_ids h) by (apply (hi_ids _ _ Hi); by eexists).
  apply (hi_next _ _ Hi) in Hin. lia.
Qed.

Lemma rng_below_bound n s : 0 < n -> 0 <= (rng_below n s).2 < n.
Proof.
  intros Hn. unfold rng_below. rewrite (proj2 (Z.eqb_neq _ _)) by lia.
  destruct (rng_next s) as [s' v]. by apply Z.mod_pos_bound.
Qed.

Lemma aligns_in_u64 : Forall in_u64 aligns.
Proof. repeat constructor; unfold in_u64, U64; lia. Qed.

(** ** The branches *)

(** A branch continues in the invariant and uses up at most one id. *)
Definition continues capacity (h : Harness) (v : Verdict Harness) : Prop :=
  exists h', v = Continue h' /\ hn_inv capacity h' /\ hn_next_id h <= hn_next_id h' <= hn_next_id h + 1.

Lemma allocate_branch_continues capacity h :
  hn_inv capacity h -> 0 <= hn_next_id h -> hn_next_id h + 1 < U64 ->
  continues capacity h (allocate_branch h).
Proof.
  intros Hi Hn0 Hn. unfold allocate_branch.
  pose proof (rng_below_bound (48 * 1024) (hn_rng h) ltac:(lia)) as Hb.
  destruct (rng_below (48 * 1024) (hn_rng h)) as [s1 n]. simpl in Hb.
  pose proof (rng_below_bound (Z.of_nat (length aligns)) s1 ltac:(done)) as Hk.
  destruct (rng_below (Z.of_nat (length aligns)) s1) as [s2 k]. simpl in Hk.
  destruct (lookup_lt_is_Some_2 aligns (Z.to_nat k)) as [al Hal]; [simpl; lia|]. rewrite Hal.
  cbn [bindv of_option]. destruct (rng_below 10 s2) as [s3 x].
  assert (Hreq : request_ok (test_request (hn_next_id h) (add64 n 1) al) (hn_ra h)).
  { split; [|split].
    - simpl. rewrite add64_small; unfold in_u64, U64; lia.
    - exact (proj1 (Forall_lookup _ _) aligns_in_u64 _ _ Hal).
    - by eapply next_id_fresh. }
  destruct (allocate_cases _ _ (hi_wf _ _ Hi) Hreq) as (a' & res & -> & Hcase). cbn [bindv of_option fst snd].
  rewrite (add64_small (hn_next_id h) 1) by lia.
  destruct res as [r|f].
  2: { destruct Hcase as (-> & _). eexists. split; [done|]. split; [|simpl; lia].
       destruct Hi as [? ? ? ? ? ? ? ? Hnx]. constructor; simpl; auto. intros id Hin. specialize (Hnx id Hin). lia. }
  destruct Hcase as (_ & _ & _ & Hwf' & Hc & H0 & _ & _ & Hend & Hin & Hr & Hoff & Hlive & Hown & Hfree & _ & Hlb).
  destruct (ra_wf_bounds _ _ _ Hwf' Hin) as (_ & _ & Hpos & _ & Hcu).
  destruct (occupy_spec (Z.to_nat (ri_size r)) (ri_offset r) (hn_occ h)) as (o' & -> & Es & Ha).
  { done. }
  { rewrite (hi_size _ _ Hi), <- (hi_cap _ _ Hi). lia. }
  { intros b Hbb. rewrite (hi_occ _ _ Hi), Hfree by lia. done. }
  rewrite Z2Nat.id in Ha by lia. eexists. split; [done|]. split; [|simpl; lia].
  pose proof (ra_wf_live_bytes _ Hwf'). pose proof (ra_wf_live_bytes _ (hi_wf _ _ Hi)).
  destruct Hi as [Hwf Hcap Hsz Hocc Href Hok Hids Hgen Hnx].
  constructor; simpl.
  - done.
  - congruence.
  - congruence.
  - intros b. rewrite Ha, Hown. fold (in_span (ri_offset r) (ri_size r) b). by destruct (in_span _ _ b).
  - rewrite Href, Hlb. apply add64_small. lia.
  - by apply os_ok_insert.
  - intros id. rewrite Hoff. simpl. rewrite os_insert_perm by (intros Hx%Hnx; lia). rewrite elem_of_cons, <- Hids.
    destruct (decide (id = hn_next_id h)) as [->|Hne].
    + rewrite lookup_insert_eq. split; [by left|by eexists].
    + rewrite lookup_insert_ne by congruence. naive_solver.
  - intros k0 r0 Hin0 Hl0. apply Hlive in Hin0 as [Hin0|[= _ ->]]; [by eapply Hgen| |done].
    by rewrite Hr.
  - intros id [->|Hx%Hnx]%os_insert_elem; lia.
Qed.

Lemma live_id_held capacity h id :
  hn_inv capacity h -> id ∈ hn_live_ids h -> exists r, held (hn_ra h) (mk_id id) (mk_gen 1) r.
Proof.
  intros Hi Hin. apply (hi_ids _ _ Hi) in Hin as [off Hlk].
  destruct (ra_wf_lookup _ _ _ (hi_wf _ _ Hi) Hlk) as (r & Hr & _ & Hl & Hid).
  destruct (ra_wf_bounds _ _ _ (hi_wf _ _ Hi) Hr) as (<- & _).
  exists r. split_and!; auto. by apply (hi_gen _ _ Hi) in Hr.
Qed.

Lemma stale_branch_continues capacity h id s :
  hn_inv capacity h -> id ∈ hn_live_ids h -> continues capacity h (stale_branch id s h).
Proof.
  intros Hi Hin. unfold stale_branch. pose proof (free_cases _ (mk_id id) (mk_gen 999) (hi_wf _ _ Hi)) as Hcase.
  destruct (free (mk_id id) (mk_gen 999) (hn_ra h)) as [ra [f|f]].
  - destruct Hcase as (r & (Hr & Hl & _ & Hg) & _). by rewrite (hi_gen _ _ Hi _ _ Hr Hl) in Hg.
  - destruct Hcase as (-> & _). simpl. rewrite Z.eqb_refl. simpl. eexists. split; [done|].
    split; [by apply (with_rng_inv capacity s h)|simpl; lia].
Qed.

Lemma free_branch_continues capacity h id s :
  hn_inv capacity h -> id ∈ hn_live_ids h -> continues capacity h (free_branch id s h).
Proof.
  intros Hi Hin. unfold free_branch. destruct (live_id_held _ _ _ Hi Hin) as (r & Hh).
  pose proof (get_cases _ (mk_id id) (mk_gen 1) (hi_wf _ _ Hi)) as Hget.
  destruct (get (mk_id id) (mk_gen 1) (hn_ra h)) as [g|f]; [|by destruct Hget as [_ Hno]; apply Hno in Hh].
  rewrite (held_unique _ _ _ _ _ _ (hi_wf _ _ Hi) Hget Hh). clear g Hget.
  pose proof (free_cases _ (mk_id id) (mk_gen 1) (hi_wf _ _ Hi)) as Hcase.
  destruct (free (mk_id id) (mk_gen 1) (hn_ra h)) as [ra [f|f]];
    [|by destruct Hcase as (_ & _ & Hno); apply Hno in Hh].
  destruct Hcase as (r' & Hh' & Hwf' & Hc & Hlb & Hoff & _ & _ & _ & _ & Hlive & Hown).
  rewrite (held_unique _ _ _ _ _ _ (hi_wf _ _ Hi) Hh' Hh) in *. clear r' Hh'. cbn [result_ok].
  destruct Hh as (Hr & Hl & _).
  destruct (ra_wf_bounds _ _ _ (hi_wf _ _ Hi) Hr) as (_ & H0 & Hpos & Hend & Hcu).
  destruct (vacate_spec (Z.to_nat (ri_size r)) (ri_offset r) (hn_occ h)) as (o' & -> & Es & Ha);
    [done|rewrite (hi_size _ _ Hi), <- (hi_cap _ _ Hi); lia|].
  rewrite Z2Nat.id in Ha by lia. eexists. split; [done|]. split; [|simpl; lia].
  pose proof (live_region_bytes _ _ _ (hi_wf _ _ Hi) Hr Hl). pose proof (ra_wf_live_bytes _ (hi_wf _ _ Hi)).
  destruct Hi as [Hwf Hcap Hsz Hocc Href Hok Hids Hgen Hnx].
  pose proof (os_erase_perm id (hn_live_ids h) Hin) as Hp.
  assert (Hnd : id ∉ os_erase id (hn_live_ids h)).
  { apply os_ok_NoDup in Hok. rewrite <- Hp in Hok. by apply NoDup_cons in Hok as [? _]. }
  constructor; simpl.
  - done.
  - congruence.
  - congruence.
  - intros b. rewrite Ha, Hown. fold (in_span (ri_offset r) (ri_size r) b). by destruct (in_span _ _ b).
  - rewrite Href, Hlb. apply sub64_small. lia.
  - by apply os_ok_erase.
  - intros id'. rewrite Hoff. destruct (decide (id' = id)) as [->|Hne].
    + rewrite lookup_delete_eq. split; [by intros [? ?]|done].
    + rewrite lookup_delete_ne by congruence. rewrite Hids, <- Hp at 1. rewrite elem_of_cons. naive_solver.
  - intros k0 r0 Hin0 Hl0. apply Hlive in Hin0 as [Hin0 _]; [|done]. by eapply Hgen.
  - intros id' Hx%os_erase_elem. by apply Hnx.
Qed.

Lemma release_branch_continues capacity h : hn_inv capacity h -> continues capacity h (release_branch h).
Proof.
  intros Hi. unfold release_branch. destruct (hn_live_ids h) as [|i ids] eqn:E.
  { exists h. split_and!; [done|done|lia|lia]. }
  pose proof (rng_below_bound (Z.of_nat (length (i :: ids))) (hn_rng h) ltac:(simpl; lia)) as Hk.
  destruct (rng_below (Z.of_nat (length (i :: ids))) (hn_rng h)) as [s k]. simpl in Hk.
  destruct (lookup_lt_is_Some_2 (i :: ids) (Z.to_nat k)) as [id Hid]; [simpl; lia|]. rewrite Hid.
  cbn [bindv of_option]. apply list_elem_of_lookup_2 in Hid. rewrite <- E in Hid.
  destruct (rng_below 100 s) as [s' k'].
  destruct (k' <? 20); [by apply stale_branch_continues|by apply free_branch_continues].
Qed.

(** ** The checks *)

Lemma live_occupied_passes capacity h :
  hn_inv capacity h -> live_occupied (snapshot_live (hn_ra h)) (hn_occ h) = Continue tt.
Proof.
  intros Hi. assert (Hl : Forall (fun r => held (hn_ra h) (ri_alloc_id r) (ri_alloc_generation r) r)
    (snapshot_live (hn_ra h))).
  { apply Forall_forall. intros r Hr. apply live_held; [apply Hi|done]. }
  induction Hl as [|r l Hh _ IH]; [done|]. cbn [live_occupied].
  pose proof Hh as (Hr & _). destruct (ra_wf_bounds _ _ _ (hi_wf _ _ Hi) Hr) as (_ & H0 & Hpos & Hend & Hcu).
  rewrite count_bytes_spec; try lia.
  - cbn [bindv]. rewrite Z2Nat.id, Z.eqb_refl by lia. simpl. apply IH.
  - rewrite (hi_size _ _ Hi), <- (hi_cap _ _ Hi). lia.
  - intros b Hb. rewrite (hi_occ _ _ Hi).
    rewrite (proj2 (owner_at_held _ b (ri_alloc_id r) (ri_alloc_generation r) (hi_wf _ _ Hi))); [done|]. exists r. split; [done|lia].
Qed.

Lemma hn_count capacity h : hn_inv capacity h -> ra_live_count (hn_ra h) = Z.of_nat (length (hn_live_ids h)).
Proof.
  intros Hi. rewrite live_count_ids by apply Hi. f_equal.
  transitivity (length (@mk_id AllocationIdTag <$> hn_live_ids h)); [|by rewrite length_fmap].
  apply Permutation_length, NoDup_Permutation.
  - apply live_ids_NoDup, Hi.
  - apply NoDup_fmap_2; [by intros x y [=]|apply os_ok_NoDup, Hi].
  - intros [id]. rewrite live_ids_elem by apply Hi. rewrite (hi_ids _ _ Hi), list_elem_of_fmap. split.
    + intros Hin. by exists id.
    + by intros (? & [= ->] & ?).
Qed.

Lemma check_step_passes capacity h :
  hn_inv capacity h -> check_step capacity h = Continue (with_summary h).
Proof.
  intros Hi. unfold check_step. pose proof (hi_wf _ _ Hi) as Hwf.
  rewrite bool_decide_true by (by apply ra_wf_verify). cbn [require bindv].
  rewrite (proj2 (Z.eqb_eq _ _)) by (by rewrite (hi_ref _ _ Hi)). cbn [require bindv].
  unfold free_bytes at 1. rewrite (hi_cap _ _ Hi), <- (hi_ref _ _ Hi), Z.eqb_refl. cbn [require bindv].
  rewrite (proj2 (Z.leb_le _ _)) by (by apply largest_free_le_free). cbn [require bindv].
  pose proof (with_summary_inv _ _ Hi) as Hi'. rewrite (proj2 (Z.eqb_eq _ _)) by (by eapply hn_count).
  cbn [require bindv]. by rewrite (live_occupied_passes capacity).
Qed.

Lemma test_step_continues capacity h :
  hn_inv capacity h -> 0 <= hn_next_id h -> hn_next_id h + 1 < U64 ->
  continues capacity h (test_step capacity h).
Proof.
  intros Hi H0 Hn. unfold test_step. destruct (rng_below 100 (hn_rng h)) as [s k].
  assert (Hb : continues capacity h (if k <? 72 then allocate_branch (with_rng s h) else release_branch (with_rng s h))).
  { destruct (k <? 72); [apply (allocate_branch_continues capacity (with_rng s h))
      |apply (release_branch_continues capacity (with_rng s h))]; by try apply with_rng_inv. }
  destruct Hb as (h' & -> & Hi' & Hn'). cbn [bindv]. exists (with_summary h').
  rewrite check_step_passes by done. split_and!; [done|by apply with_summary_inv|apply Hn'|apply Hn'].
Qed.

Lemma test_loop_continues capacity steps h :
  hn_inv capacity h -> 0 <= hn_next_id h -> hn_next_id h + Z.of_nat steps < U64 ->
  exists h', test_loop capacity steps h = Continue h' /\ hn_inv capacity h'.
Proof.
  revert h. induction steps as [|n IH]; intros h Hi H0 Hn; [by exists h|]. cbn [test_loop].
  destruct (test_step_continues capacity h Hi H0) as (h1 & -> & Hi1 & Hn1); [lia|].
  cbn [bindv]. apply IH; [done|lia..].
Qed.

(** ** The theorem *)

(** C38: the property test of the repository passes for every seed.  Whatever the argument is, the
    4000 random requests, releases and stale releases on one MiB never meet undefined
    behaviour, a byte handed out twice, a stale release that is granted or changes anything, a
    self-check that fires, or a difference between the counters, the live regions and the
    byte-by-byte reference: the program prints that it passed. *)
Theorem property_test_passes argv1 :
  property_test argv1
  = Continue ("property test: PASS (seed=" ++ pretty (property_seed argv1) ++ ")")%string.
Proof.
  unfold property_test.
  destruct (test_loop_continues (2 ^ 20) 4000 (test_start (2 ^ 20) (property_seed argv1))) as (h & E & _).
  - apply start_inv. unfold U64. lia.
  - done.
  - unfold U64. simpl. lia.
  - by rewrite E.
Qed.
