(* ===== verification/Cli.v ===== *)
(** The command line tool: src/tools/gms.cpp.

    [main] is a function of the arguments and of the heap of its [HostBackend]; it gives the
    exit code, what it prints and the heap it leaves, or [None] if a call it makes is
    undefined.  How [printf] renders a [double] is a parameter. *)
From Stdlib Require Import Ascii.
From S2P Require Import Prelude Words Ordered Types Floats Region RegionInv RegionAlloc RegionFree.
From S2P Require Import RegionReloc RegionQuery RegionSpec Pressure Request Bytes Persist.
From S2P Require Import PersistInv Governor GovernorInv GovernorOps GovernorSpec HostBackend Text.
Open Scope string_scope.
Open Scope Z_scope.

(** ** Arguments *)

(** [t.back()] and [t] after [t.pop_back()]. *)
Fixpoint split_back (s : string) : option (string * ascii) :=
  match s with
  | EmptyString => None
  | String c s' => match split_back s' with
                   | None => Some (EmptyString, c)
                   | Some (t, b) => Some (String c t, b)
                   end
  end.

Definition parse_cap (s : string) : Z :=
  let '(t, mult) :=
    match split_back s with
    | Some (t, b) =>
        if bool_decide (b = "M"%char) then (t, 1024 * 1024)
        else if bool_decide (b = "G"%char) then (t, 1024 * 1024 * 1024)
        else if bool_decide (b = "K"%char) then (t, 1024)
        else (s, 1)
    | None => (s, 1)
    end in
  mul64 (strtoull t) mult.

Record Options : Set := mk_options {
  opt_cap : Z;
  opt_summary : bool;
  opt_dump : bool;
  opt_alloc : string;
}.

Fixpoint parse_args (args : list string) (o : Options) : Options :=
  match args with
  | [] => o
  | a :: rest =>
      match rest with
      | v :: rest' =>
          if String.eqb a "--cap" then
            parse_args rest' (mk_options (parse_cap v) (opt_summary o) (opt_dump o) (opt_alloc o))
          else if String.eqb a "--summary" then
            parse_args rest (mk_options (opt_cap o) true (opt_dump o) (opt_alloc o))
          else if String.eqb a "--dump" then
            parse_args rest (mk_options (opt_cap o) (opt_summary o) true (opt_alloc o))
          else if String.eqb a "--alloc" then
            parse_args rest' (mk_options (opt_cap o) (opt_summary o) (opt_dump o) v)
          else parse_args rest o
      | [] =>
          if String.eqb a "--summary" then mk_options (opt_cap o) true (opt_dump o) (opt_alloc o)
          else if String.eqb a "--dump" then mk_options (opt_cap o) (opt_summary o) true (opt_alloc o)
          else o
      end
  end.

Definition default_options : Options := mk_options (16 * 2 ^ 20) false false "".

(** [s] up to the first comma, and what follows the comma if there is one. *)
Fixpoint split_comma (s : string) : string * option string :=
  match s with
  | EmptyString => (EmptyString, None)
  | String c s' =>
      if bool_decide (c = ","%char) then (EmptyString, Some s')
      else let '(t, r) := split_comma s' in (String c t, r)
  end.

Definition cli_request (spec : string) : AllocationRequest :=
  let '(b, al) := split_comma spec in
  mk_request (parse_cap b) 0 (match al with Some a => strtoull a | None => 4096 end) true
    MemoryClass.USER_BUFFER Reclaimability.RECLAIM_IF_COLD Movability.MOVABLE false "cli"
    (mk_id 0) (mk_gen 0) (mk_gen 0) (mk_id 0) (mk_id 0) gen_none gen_none gen_none gen_none
    "" Provenance.DERIVED.

Definition cli_domain (cap : Z) : MemoryDomain :=
  mk_domain (mk_id 1) (mk_gen 1) (mk_id 0) (mk_gen 1) 0 0 0 cap 0 0 0 0 0 0 d_zero
    PressureState.UNKNOWN DeviceHealth.UNKNOWN WatermarkConfig_default Provenance.MEASURED.

(** ** main *)

Section main.
Context {H : Type} `{!AlignedHeap H} (show_frag : spec_float -> string).

Definition allocated_line (h : AllocationHandle) : string :=
  "allocated id=" ++ pretty (id_value (h_id h)) ++ " gen=" ++ pretty (gen_value (h_generation h))
  ++ " off=" ++ pretty (h_offset h) ++ " size=" ++ pretty (h_size h)
  ++ " align=" ++ pretty (h_alignment h) ++ nl.

Definition summary_line (s : MemorySummary) : string :=
  "summary: managed=" ++ pretty (ms_managed_capacity s) ++ " free=" ++ pretty (ms_free s)
  ++ " committed=" ++ pretty (ms_committed s) ++ " largest=" ++ pretty (ms_largest_free s)
  ++ " free_regions=" ++ pretty (ms_free_regions s) ++ " live=" ++ pretty (ms_live_allocations s)
  ++ " frag=" ++ show_frag (ms_external_fragmentation s)
  ++ " pressure=" ++ PressureState.to_string (ms_pressure s) ++ nl.

Definition dump_line (a : AllocationRecord) : string :=
  "  alloc id=" ++ pretty (id_value (rec_id a)) ++ " gen=" ++ pretty (gen_value (rec_generation a))
  ++ " off=" ++ pretty (rec_offset a) ++ " size=" ++ pretty (rec_region_size a)
  ++ " pin=" ++ pretty (rec_pin_count a) ++ " mov=" ++ Movability.to_string (rec_movability a)
  ++ " class=" ++ MemoryClass.to_string (rec_mem_class a) ++ " owner=" ++ rec_owner a ++ nl.

(** What follows the allocation: the two reports, then the release of the handles. *)
Definition cli_report (o : Options) (handles : list AllocationHandle) (g : MemoryGovernor H) :
    list string * MemoryGovernor H :=
  let '(g, out) := if opt_summary o then let '(g, s) := summary_locked g in (g, [summary_line s])
                   else (g, []) in
  let out := (out ++ if opt_dump o then dump_line <$> allocations g else [])%list in
  let g := fold_left (fun g h => (release (h_id h) (h_generation h) g).1) handles g in
  (out, g).

(** Exit code, lines printed and heap after the governor's destructor. *)
Definition cli_run (o : Options) (h : H) : option (Z * list string * option H) :=
  let '(g, init) := initialize HostBackend (MemoryGovernor_new (cli_domain (opt_cap o)) (Some h)) in
  match init with
  | Err _ => Some (1, ["init failed" ++ nl], MemoryGovernor_destroy HostBackend g)
  | Ok _ =>
      if String.eqb (opt_alloc o) "" then
        let '(out, g) := cli_report o [] g in Some (0, out, MemoryGovernor_destroy HostBackend g)
      else
        match request (cli_request (opt_alloc o)) g with
        | None => None
        | Some (g, Err f) =>
            Some (1, ["request failed: " ++ RejectReason.to_string (reason f) ++ nl],
                  MemoryGovernor_destroy HostBackend g)
        | Some (g, Ok hd) =>
            let '(out, g) := cli_report o [hd] g in
            Some (0, allocated_line hd :: out, MemoryGovernor_destroy HostBackend g)
        end
  end.

Definition cli_main (args : list string) (h : H) : option (Z * list string * option H) :=
  cli_run (parse_args args default_options) h.
End main.
