(* ===== verification/CliProps.v ===== *)
(** The properties of the command line tool. *)
From Stdlib Require Import Ascii.
From S2P Require Import Prelude Words Ordered Types Floats Region RegionInv RegionAlloc RegionFree.
From S2P Require Import RegionReloc RegionQuery RegionSpec Pressure Request Bytes Persist.
From S2P Require Import PersistInv Governor GovernorInv GovernorOps GovernorSpec Backend HostBackend.
From S2P Require Import Text Cli.
Open Scope string_scope.
Open Scope Z_scope.

(** ** Numbers on the command line *)

Lemma split_back_app t c : split_back (t +:+ String c "") = Some (t, c).
Proof. induction t as [|b t IH]; [done|]. rewrite string_app_cons. simpl. by rewrite IH. Qed.

(** The factor of a suffix. *)
Definition suffixes : list (string * Z) := [("", 1); ("K", 2 ^ 10); ("M", 2 ^ 20); ("G", 2 ^ 30)].

(** What a size on the command line means.  A decimal number that fits in 64 bits,
    followed by nothing or by one of K, M and G, is read as that number of bytes, KiB, MiB
    or GiB, modulo 2^64: an oversized capacity wraps around without a complaint. *)
Theorem parse_cap_spec (n : N) suf mult :
  (n < 2 ^ 64)%N -> (suf, mult) ∈ suffixes ->
  parse_cap (pretty n +:+ suf) = (Z.of_N n * mult) mod U64.
Proof.
  intros Hn Hs. assert (Hu : forall m, strtoull (pretty n) * m = Z.of_N n * m)
    by (intros; by rewrite strtoull_pretty).
  unfold suffixes in Hs. rewrite !elem_of_cons in Hs. unfold parse_cap, mul64.
  destruct Hs as [[= -> ->]|[[= -> ->]|[[= -> ->]|[[= -> ->]|[]%elem_of_nil]]]];
    [|rewrite split_back_app; cbn [bool_decide]; rewrite <- Hu; done..].
  rewrite string_app_nil. destruct (pretty_N_shape n) as (d & s & t & e & _ & He & _ & E & _).
  destruct (digit_plain e He) as [_ Hni]. rewrite !not_elem_of_cons in Hni.
  rewrite E, split_back_app, !bool_decide_false by apply Hni. by rewrite <- E, <- Hu.
Qed.

Lemma parse_cap_spec_witness : parse_cap (pretty 16%N +:+ "G") = 17179869184.
Proof.
  rewrite (parse_cap_spec 16 "G" (2 ^ 30)); [vm_compute; reflexivity|vm_compute; reflexivity|].
  right; right; right; left.
Defined.

(** ** The whole tool *)

Section arena.
Context {H : Type} `{!AlignedHeap H, !AlignedHeapLaws H}.
Implicit Types (h : H) (g : MemoryGovernor H).

Lemma parse_cap_range s : in_u64 (parse_cap s).
Proof. unfold parse_cap. case_match. apply Z.mod_pos_bound. done. Qed.

Lemma parse_args_two a v rest o :
  parse_args (a :: v :: rest) o
  = if String.eqb a "--cap" then
      parse_args rest (mk_options (parse_cap v) (opt_summary o) (opt_dump o) (opt_alloc o))
    else if String.eqb a "--summary" then
      parse_args (v :: rest) (mk_options (opt_cap o) true (opt_dump o) (opt_alloc o))
    else if String.eqb a "--dump" then
      parse_args (v :: rest) (mk_options (opt_cap o) (opt_summary o) true (opt_alloc o))
    else if String.eqb a "--alloc" then
      parse_args rest (mk_options (opt_cap o) (opt_summary o) (opt_dump o) v)
    else parse_args (v :: rest) o.
Proof. reflexivity. Qed.

Lemma parse_args_range args o : in_u64 (opt_cap o) -> in_u64 (opt_cap (parse_args args o)).
Proof.
  remember (length args) as n eqn:Hn. revert args o Hn.
  induction (lt_wf n) as [n _ IH]. intros [|a [|v rest]] o -> Ho; [done|cbn; by repeat case_match|].
  assert (I1 : forall o, in_u64 (opt_cap o) -> in_u64 (opt_cap (parse_args rest o))).
  { intros o'. apply (IH (length rest)); [simpl; lia|done]. }
  assert (I2 : forall o, in_u64 (opt_cap o) -> in_u64 (opt_cap (parse_args (v :: rest) o))).
  { intros o'. apply (IH (S (length rest))); [simpl; lia|done]. }
  pose proof (parse_cap_range v). rewrite parse_args_two.
  destruct (String.eqb a "--cap"), (String.eqb a "--summary"), (String.eqb a "--dump"),
    (String.eqb a "--alloc"); (apply I1 || apply I2); done.
Qed.

(** Reports and releases are calls on the governor. *)
Lemma releases_later hs g0 g :
  later HostBackend g0 g ->
  later HostBackend g0 (fold_left (fun g hd => (release (h_id hd) (h_generation hd) g).1) hs g).
Proof.
  revert g. induction hs as [|hd hs IH]; intros g Hl; [done|]. apply IH.
  by apply (later_step _ _ g (GRelease (h_id hd) (h_generation hd) gen_none gen_none) _
    (result_ok (release (h_id hd) (h_generation hd) g).2)).
Qed.

Lemma cli_report_later show_frag o hs g0 g :
  later HostBackend g0 g -> later HostBackend g0 (cli_report show_frag o hs g).2.
Proof.
  intros Hl. unfold cli_report. destruct (opt_summary o); [|by apply releases_later].
  destruct (summary_locked g) as [g1 s] eqn:E. apply releases_later.
  apply (later_step _ _ g GPressure _ true Hl); [done|done|]. simpl. do 2 f_equal.
  apply (f_equal fst) in E. exact E.
Qed.

(** What an arena of [cap] bytes without allocations can hold. *)
Definition fits (req : AllocationRequest) (cap : Z) : Prop :=
  0 < rq_bytes req /\ is_pow2 (rq_alignment req) = true
  /\ round_up (rq_bytes req) (rq_alignment req) <= cap.

Lemma cli_request_words spec : request_words (cli_request spec).
Proof.
  unfold cli_request. destruct (split_comma spec) as [b [al|]]; split; simpl;
    first [apply parse_cap_range|apply strtoull_range|done].
Qed.

Lemma cli_request_plain spec :
  rq_min_bytes (cli_request spec) = 0 /\ rq_requires_pin (cli_request spec) = false.
Proof. unfold cli_request. by destruct (split_comma spec). Qed.

Lemma cli_admitted g spec :
  gov_initialized g = true ->
  admitted g (cli_request spec) <->
  0 < rq_bytes (cli_request spec) <= managed_capacity (gov_domain g)
  /\ is_pow2 (rq_alignment (cli_request spec)) = true.
Proof.
  intros Hin. destruct (cli_request_words spec) as [Hb Ha]. destruct (cli_request_plain spec) as [Hm Hp].
  unfold in_u64 in Hb. unfold admitted. rewrite validate_request_ok, Hm, Hp by (done || lia).
  split; [tauto|]. intros [? ?]. split; [|done]. split_and!; try done; lia || (by intros [? _]).
Qed.

(** An arena without allocations places whatever fits in it. *)
Lemma empty_placeable g req :
  gov_inv g -> request_words req -> gov_arena g = RegionAllocator_new (managed_capacity (gov_domain g)) ->
  admitted g req -> placeable (next_arena_request g req) (gov_arena g)
  <-> round_up (rq_bytes req) (rq_alignment req) <= managed_capacity (gov_domain g).
Proof.
  intros Hi [Hb Ha] Ea [Hv _]. unfold in_u64 in Hb. apply validate_request_ok in Hv as (_ & Hp & _); [|done|lia].
  pose proof (is_pow2_pos _ Ha Hp) as Hpos. pose proof (wf_cap _ (gi_arena _ Hi)) as Hcap.
  unfold placeable, footprint. simpl. rewrite (gi_capacity _ Hi). rewrite (gi_capacity _ Hi) in Hcap. split.
  - intros (p & H0 & _ & Hle & _). lia.
  - intros Hle. exists 0. split; [done|]. split; [apply Z.mod_0_l; lia|]. split; [lia|]. intros b _.
    destruct (owner_at (ra_regions (gov_arena g)) b) as [[id gen]|] eqn:Ho; [|done]. exfalso.
    apply owner_at_held in Ho as (reg & Hh & _); [|apply Hi]. rewrite Ea in Hh.
    destruct (proj2 (tracks_new _ Hcap) _ _ _ Hh) as [? Hf]. discriminate Hf.
Qed.

(** When the arena is granted. *)
Lemma cli_initialize cap h :
  let g0 := MemoryGovernor_new (cli_domain cap) (Some h) in
  result_ok (initialize HostBackend g0).2 = true <-> cap <> 0 /\ (aligned_malloc cap 256 h).2 <> 0.
Proof.
  cbn. unfold HostBackend_allocate_arena. destruct (Z.eqb_spec cap 0) as [->|Hc].
  { simpl. split; [done|by intros [? _]]. }
  destruct (aligned_malloc cap 256 h) as [h' p]. simpl. destruct (Z.eqb_spec p 0); simpl; naive_solver.
Qed.

(** The request of the tool, on a governor just initialised. *)
Lemma cli_requests g spec :
  gov_inv g -> gov_initialized g = true -> gov_next_alloc_id g = 1 ->
  gov_arena g = RegionAllocator_new (managed_capacity (gov_domain g)) ->
  exists g' res, request (cli_request spec) g = Some (g', res)
    /\ (result_ok res = true <-> fits (cli_request spec) (managed_capacity (gov_domain g))).
Proof.
  intros Hi Hin Hn Ea. pose proof (cli_request_words spec) as Hw. pose proof Hw as [Hb Ha].
  destruct (request_cases g (cli_request spec) Hi Hw) as (g' & res & E & _ & Hc); [by rewrite Hn|].
  exists g', res. split; [done|].
  pose proof (cli_admitted g spec Hin) as Had. pose proof (empty_placeable g _ Hi Hw Ea) as Hpl.
  assert (Hbig : is_pow2 (rq_alignment (cli_request spec)) = true ->
    rq_bytes (cli_request spec) <= round_up (rq_bytes (cli_request spec)) (rq_alignment (cli_request spec))).
  { intros Hp. apply round_up_bounds. by apply is_pow2_pos. }
  unfold fits. destruct res as [hd|f]; simpl.
  - destruct Hc as (Hadm & r & Hr & _). split; [intros _|done]. pose proof (aq_place _ _ _ _ Hr).
    pose proof (aq_size _ _ _ _ Hr). apply Had in Hadm. split; [lia|]. split; [apply Hadm|lia].
  - split; [done|]. intros (H1 & H2 & H3). specialize (Hbig H2).
    assert (Hadm : admitted g (cli_request spec)) by (apply Had; split; [lia|done]).
    destruct Hc as (_ & [(Hf & Ef)|[[Hf _]|(_ & Hno & _)]]).
    + destruct Hadm as [Hv _]. rewrite <- Ef in Hv. congruence.
    + congruence.
    + destruct Hno. by apply Hpl.
Qed.

(** C36: the tool as a whole.  Over a heap that keeps its promises [main] always returns,
    with exit code 0 or 1, and leaves the heap as it found it, on the error paths too.  The
    code is 0 exactly when the capacity is not zero, the heap granted the arena, and the
    allocation asked for, if any, is not empty, has a power of two as its alignment and
    fits the capacity when its size is rounded up to the alignment. *)
Theorem cli_main_spec show_frag args (h : H) :
  let o := parse_args args default_options in
  exists code out h', cli_main show_frag args h = Some (code, out, Some h')
    /\ blocks h' = blocks h /\ (code = 0 \/ code = 1)
    /\ (code = 0 <-> opt_cap o <> 0 /\ (aligned_malloc (opt_cap o) 256 h).2 <> 0
          /\ (opt_alloc o = ""%string \/ fits (cli_request (opt_alloc o)) (opt_cap o))).
Proof.
  intros o. assert (Hcap : in_u64 (opt_cap o)) by (by apply parse_args_range).
  unfold cli_main, cli_run. fold o. set (g0 := MemoryGovernor_new (cli_domain (opt_cap o)) (Some h)).
  assert (Hfin : forall g, later HostBackend g0 g ->
    exists h', MemoryGovernor_destroy HostBackend g = Some h' /\ blocks h' = blocks h).
  { intros g Hl. exact (destroy_holds HostBackend h g (later_holds _ _ _ _ Hl (new_holds _ _ h))). }
  pose proof (cli_initialize (opt_cap o) h) as Hinit. fold g0 in Hinit. cbv zeta in Hinit.
  assert (Hl : later HostBackend g0 (initialize HostBackend g0).1)
    by (by apply (later_step _ _ g0 GInitialize _ (result_ok (initialize HostBackend g0).2)); [constructor|..]).
  destruct (initialize HostBackend g0) as [g [u|f]] eqn:Ei; simpl in Hl, Hinit.
  2: { destruct (Hfin g Hl) as (h' & -> & Hb). eexists _, _, h'. split; [done|]. split; [done|].
       split; [by right|]. split; [done|]. intros (H1 & H2 & _).
       discriminate (proj2 Hinit (conj H1 H2)). }
  destruct (proj1 Hinit eq_refl) as [Hc0 Hm0].
  assert (Hi0 : gov_inv g0) by (apply MemoryGovernor_new_inv; simpl; unfold in_u64 in Hcap; lia).
  pose proof (initialize_cases HostBackend g0 Hi0) as Hc. rewrite Ei in Hc.
  destruct Hc as (Hi & _ & _ & Ea & En & Ec & _ & Hin).
  assert (Eq : managed_capacity (gov_domain g) = opt_cap o) by (by rewrite Ec).
  destruct (String.eqb_spec (opt_alloc o) "") as [Es|Es].
  { pose proof (cli_report_later show_frag o [] g0 g Hl) as Hl'.
    destruct (cli_report show_frag o [] g) as [out g']. destruct (Hfin g' Hl') as (h' & -> & Hb).
    eexists _, _, h'. split; [done|]. split; [done|]. split; [by left|]. tauto. }
  destruct (cli_requests g (opt_alloc o)) as (g' & res & E & Hres); [done..|by rewrite Ea, Eq|].
  rewrite E. rewrite Eq in Hres.
  assert (Hl' : later HostBackend g0 g').
  { apply (later_step _ _ g (GRequest (cli_request (opt_alloc o))) _ (result_ok res) Hl); [done| |].
    - split; [apply cli_request_words|by rewrite En].
    - simpl. by rewrite E. }
  destruct res as [hd|f]; simpl in Hres.
  - pose proof (cli_report_later show_frag o [hd] g0 g' Hl') as Hl2.
    destruct (cli_report show_frag o [hd] g') as [out g2]. destruct (Hfin g2 Hl2) as (h' & -> & Hb).
    eexists _, _, h'. split; [done|]. split; [done|]. split; [by left|]. tauto.
  - destruct (Hfin g' Hl') as (h' & -> & Hb). eexists _, _, h'. split; [done|]. split; [done|].
    split; [by right|]. split; [done|]. intros (_ & _ & [?|Hf]); [done|]. by discriminate (proj2 Hres Hf).
Qed.
End arena.

(** ** On a concrete heap *)

(** [gms --cap 1M --alloc 100,64 --dump]. *)
Lemma cli_main_spec_witness :
  exists out h', cli_main (fun _ => ""%string) ["--cap"; "1M"; "--alloc"; "100,64"; "--dump"]%string [8192]
                 = Some (0, out, Some h') /\ blocks h' = blocks [8192].
Proof.
  destruct (cli_main_spec (fun _ => ""%string) ["--cap"; "1M"; "--alloc"; "100,64"; "--dump"]%string [8192])
    as (code & out & h' & E & Hb & _ & Hc).
  assert (E0 : code = 0).
  { apply Hc. split; [vm_compute; discriminate|]. split; [vm_compute; discriminate|]. right.
    split; [vm_compute; reflexivity|]. split; [vm_compute; reflexivity|vm_compute; discriminate]. }
  subst code. exists out, h'. split; [exact E|exact Hb].
Defined.

(** What it prints. *)
Example cli_output :
  option_map (fun r => r.1.2) (cli_main (fun _ => ""%string)
    ["--cap"; "1M"; "--alloc"; "100,64"; "--dump"]%string ([] : demo_heap))
  = Some ["allocated id=1 gen=1 off=0 size=128 align=64" +:+ nl;
          "  alloc id=1 gen=1 off=0 size=128 pin=0 mov=MOVABLE class=USER_BUFFER owner=cli" +:+ nl]%string.
Proof. vm_compute. reflexivity. Qed.

(** 2^34 GiB wraps to nothing, and the tool fails. *)
Example cli_wraps :
  option_map (fun r => r.1.1) (cli_main (fun _ => ""%string) ["--cap"; "17179869184G"]%string ([] : demo_heap))
  = Some 1.
Proof. vm_compute. reflexivity. Qed.
