(* ===== verification/Protocol.v ===== *)
(** The wire protocol: include/gpu_memory_service/protocol.hpp and src/protocol.cpp.

    A [take_*] helper reads at a cursor [p] that it advances; the cursor is the suffix of
    the buffer from [p] on, and the answer is the value (or nothing, when the helper
    returns false) with the new cursor.  A caller that ignores the returned flag keeps the
    value it had. *)
From S2P Require Import Prelude Words Bytes.
Open Scope Z_scope.

Definition kMagic : Z := 0x47534d50.
Definition kVersion : Z := 1.
Definition kMaxFrame : Z := 2 ^ 20.

Module Msg.

Inductive t : Set :=
| HELLO
| REGISTER
| PUBLISH_CAPACITY
| ALLOCATE
| ALLOCATE_RESULT
| RELEASE
| RELEASE_RESULT
| FENCE_WORKER
| QUERY
| QUERY_RESULT
| SHUTDOWN
| RAW (value : Z).

#[global] Instance t_eq_dec : EqDecision t.
Proof. solve_decision. Defined.

Definition to_u8 (m : t) : Z :=
  match m with
  | HELLO => 1
  | REGISTER => 2
  | PUBLISH_CAPACITY => 3
  | ALLOCATE => 4
  | ALLOCATE_RESULT => 5
  | RELEASE => 6
  | RELEASE_RESULT => 7
  | FENCE_WORKER => 8
  | QUERY => 9
  | QUERY_RESULT => 10
  | SHUTDOWN => 11
  | RAW n => n
  end.

(** [static_cast<Msg>(t)]: a byte that names no enumerator is kept. *)
Definition of_u8 (n : Z) : t :=
  match n with
  | 1 => HELLO
  | 2 => REGISTER
  | 3 => PUBLISH_CAPACITY
  | 4 => ALLOCATE
  | 5 => ALLOCATE_RESULT
  | 6 => RELEASE
  | 7 => RELEASE_RESULT
  | 8 => FENCE_WORKER
  | 9 => QUERY
  | 10 => QUERY_RESULT
  | 11 => SHUTDOWN
  | _ => RAW n
  end.

Lemma to_of n : to_u8 (of_u8 n) = n.
Proof. unfold of_u8. repeat case_match; reflexivity. Qed.

End Msg.

Record Frame : Set := mk_frame { frame_type : Msg.t; frame_payload : bytes }.

(** ** Checksum and codecs *)

Definition crc32 (data : bytes) : Z := Z.lxor (fold_left crc_byte data 0xFFFFFFFF) 0xFFFFFFFF.

Definition append_u8 (b : bytes) (v : Z) : bytes := b ++ put_u8 v.
Definition append_u32 (b : bytes) (v : Z) : bytes := b ++ put_u32 v.
Definition append_u64 (b : bytes) (v : Z) : bytes := b ++ put_u64 v.

(** [static_cast<std::uint32_t>] of a signed value. *)
Definition u32_of_i32 (v : Z) : Z := v mod U32.
Definition i32_of_u32 (v : Z) : Z := if v <? 2 ^ 31 then v else v - U32.

Definition append_i32 (b : bytes) (v : Z) : bytes := append_u32 b (u32_of_i32 v).

Definition append_str (b : bytes) (s : string) : bytes :=
  append_u32 b (str_size s mod U32) ++ bytes_of_string s.

Definition pack_u8 (v : Z) : bytes := append_u8 [] v.
Definition pack_u32 (v : Z) : bytes := append_u32 [] v.
Definition pack_u64 (v : Z) : bytes := append_u64 [] v.
Definition pack_i32 (v : Z) : bytes := append_i32 [] v.
Definition pack_str (s : string) : bytes := append_str [] s.

Abbreviation Taken A := (option A * bytes)%type.

Definition take_u8 (b : bytes) : Taken Z :=
  match b with [] => (None, b) | v :: rest => (Some v, rest) end.

Definition take_le (n : nat) (b : bytes) : Taken Z :=
  if (length b <? n)%nat then (None, b) else (Some (get_le (take n b)), drop n b).

Definition take_u32 : bytes -> Taken Z := take_le 4.
Definition take_u64 : bytes -> Taken Z := take_le 8.

Definition take_i32 (b : bytes) : Taken Z :=
  match take_u32 b with
  | (Some t, rest) => (Some (i32_of_u32 t), rest)
  | (None, rest) => (None, rest)
  end.

(** A refused string has already consumed its length. *)
Definition take_str (b : bytes) : Taken string :=
  match take_u32 b with
  | (None, rest) => (None, rest)
  | (Some n, rest) =>
      if n >? kMaxFrame then (None, rest)
      else if n >? Z.of_nat (length rest) then (None, rest)
      else (Some (string_of_bytes (take (Z.to_nat n) rest)), drop (Z.to_nat n) rest)
  end.

(** ** Frames *)

Definition encode (type : Msg.t) (payload : bytes) : bytes :=
  let b := append_u32 [] kMagic in
  let b := append_u32 b kVersion in
  let b := append_u8 b (Msg.to_u8 type) in
  let b := append_u32 b (Z.of_nat (length payload) mod U32) in
  let b := b ++ payload in
  append_u32 b (crc32 (drop 4 b)).

(** One [if (!take_x(buf, p, v)) return false]. *)
Definition with_take {A B} (r : Taken A) (k : A -> bytes -> option B) : option B :=
  match r with (None, _) => None | (Some v, rest) => k v rest end.

(** [Some (out, consumed)] when the code returns true. *)
Definition decode (buf : bytes) : option (Frame * Z) :=
  let size := Z.of_nat (length buf) in
  if size <? 4 + 4 + 1 + 4 + 4 then None else
  with_take (take_u32 buf) (fun magic b1 =>
  if negb (magic =? kMagic) then None else
  with_take (take_u32 b1) (fun ver b2 =>
  if negb (ver =? kVersion) then None else
  with_take (take_u8 b2) (fun t b3 =>
  with_take (take_u32 b3) (fun len b4 =>
  if len >? kMaxFrame then None else
  let payload_start := size - Z.of_nat (length b4) in
  if payload_start + len + 4 >? size then None else
  with_take (take_u32 (drop (Z.to_nat len) b4)) (fun crcval b6 =>
  let expect_crc := crc32 (take (Z.to_nat (payload_start + len - 4)) (drop 4 buf)) in
  if negb (crcval =? expect_crc) then None
  else Some (mk_frame (Msg.of_u8 t) (take (Z.to_nat len) b4), size - Z.of_nat (length b6))))))).

(** ** The codec lemmas *)

Lemma crc32_persist data : crc32 data = Bytes.crc32 data.
Proof. reflexivity. Qed.

Lemma take_le_put n v rest :
  0 <= v < 256 ^ Z.of_nat n -> take_le n (put_le_from n 0 v ++ rest) = (Some v, rest).
Proof.
  intros Hv. unfold take_le.
  assert (E : (length (put_le_from n 0 v ++ rest) <? n)%nat = false).
  { rewrite length_app, put_le_from_length. apply Nat.ltb_ge. lia. }
  rewrite E, take_app_length', drop_app_length' by (symmetry; apply put_le_from_length).
  by rewrite get_put_le.
Qed.

Lemma take_u32_put v rest : 0 <= v < U32 -> take_u32 (put_u32 v ++ rest) = (Some v, rest).
Proof. apply (take_le_put 4). Qed.

Lemma take_u64_put v rest : in_u64 v -> take_u64 (put_u64 v ++ rest) = (Some v, rest).
Proof. apply (take_le_put 8). Qed.

Lemma take_str_put s rest :
  str_size s <= kMaxFrame -> take_str (append_str [] s ++ rest) = (Some s, rest).
Proof.
  intros Hs. unfold append_str, append_u32. rewrite app_nil_l, <- app_assoc.
  assert (Hr : 0 <= str_size s) by (unfold str_size; lia).
  unfold kMaxFrame in Hs. rewrite Z.mod_small by (unfold U32; lia).
  unfold take_str. rewrite take_u32_put by (unfold U32; lia).
  pose proof (bytes_of_string_length s) as Hl.
  destruct (Z.gtb_spec (str_size s) kMaxFrame); [unfold kMaxFrame in *; lia|].
  destruct (Z.gtb_spec (str_size s) (Z.of_nat (length (bytes_of_string s ++ rest))));
    [rewrite length_app in *; lia|].
  rewrite take_app_length', drop_app_length' by lia. by rewrite string_bytes_roundtrip.
Qed.

Lemma take_le_inv n b v rest :
  bytes_ok b -> take_le n b = (Some v, rest) ->
  b = put_le_from n 0 v ++ rest /\ 0 <= v < 256 ^ Z.of_nat n.
Proof.
  intros Hb. unfold take_le. destruct (Nat.ltb_spec (length b) n) as [|Hn]; [done|].
  intros [= <- <-]. assert (Hl : length (take n b) = n) by (rewrite length_take; lia).
  assert (Ht : bytes_ok (take n b)) by (by apply Forall_take).
  pose proof (put_get_le _ Ht) as E. rewrite Hl in E. rewrite E, take_drop. split; [done|].
  pose proof (le_value_bounds _ Ht) as Hv. rewrite Hl in Hv. by rewrite get_le_value.
Qed.

(** ** The shape of a frame *)

(** What the checksum covers: version, type, length and payload. *)
Definition frame_body (type : Msg.t) (payload : bytes) : bytes :=
  put_u32 kVersion ++ put_u8 (Msg.to_u8 type) ++ put_u32 (Z.of_nat (length payload) mod U32)
  ++ payload.

(** A frame that [decode] can return. *)
Record frame_ok (f : Frame) : Prop := {
  fo_type : is_byte (Msg.to_u8 (frame_type f)) /\ Msg.of_u8 (Msg.to_u8 (frame_type f)) = frame_type f;
  fo_payload : bytes_ok (frame_payload f);
  fo_size : Z.of_nat (length (frame_payload f)) <= kMaxFrame;
}.

Definition frame_size (f : Frame) : Z := 17 + Z.of_nat (length (frame_payload f)).
Definition frame_bytes (f : Frame) : bytes := encode (frame_type f) (frame_payload f).

#[global] Arguments encode : simpl never.
#[global] Arguments frame_bytes : simpl never.

Lemma encode_shape type payload :
  encode type payload
  = put_u32 kMagic ++ frame_body type payload ++ put_u32 (crc32 (frame_body type payload)).
Proof.
  unfold encode, append_u32, append_u8, frame_body. rewrite app_nil_l, <- !app_assoc.
  done.
Qed.

Lemma encode_length type payload : length (encode type payload) = (17 + length payload)%nat.
Proof.
  rewrite encode_shape. unfold frame_body, put_u32, put_u8.
  rewrite !length_app, !put_le_from_length. simpl. lia.
Qed.

Lemma frame_body_ok f : frame_ok f -> bytes_ok (frame_body (frame_type f) (frame_payload f)).
Proof.
  intros [[Ht _] Hp _]. unfold frame_body, put_u32, put_u8.
  apply Forall_app; split; [apply put_le_from_ok|]. apply Forall_app; split; [by constructor|].
  apply Forall_app; split; [apply put_le_from_ok|done].
Qed.

Lemma frame_bytes_ok f : frame_ok f -> bytes_ok (frame_bytes f).
Proof.
  intros Hf. unfold frame_bytes. rewrite encode_shape.
  apply Forall_app; split; [apply put_le_from_ok|].
  apply Forall_app; split; [by apply frame_body_ok|apply put_le_from_ok].
Qed.

(** [decode], with the header fields read: the rest is a matter of lengths. *)
Lemma decode_header t len rest :
  is_byte t -> 0 <= len < U32 ->
  decode (put_u32 kMagic ++ put_u32 kVersion ++ t :: put_u32 len ++ rest)
  = if len >? kMaxFrame then None
    else if len + 4 >? Z.of_nat (length rest) then None
    else with_take (take_u32 (drop (Z.to_nat len) rest)) (fun crcval b6 =>
         if negb (crcval =? crc32 (put_u32 kVersion ++ t :: put_u32 len ++ take (Z.to_nat len) rest))
         then None
         else Some (mk_frame (Msg.of_u8 t) (take (Z.to_nat len) rest),
                    13 + Z.of_nat (length rest) - Z.of_nat (length b6))).
Proof.
  intros Ht Hlen. unfold decode.
  set (buf := put_u32 kMagic ++ _).
  assert (Hl : Z.of_nat (length buf) = 13 + Z.of_nat (length rest)).
  { unfold buf. rewrite !length_app, length_cons, length_app. unfold put_u32.
    rewrite !put_le_from_length. lia. }
  rewrite Hl. unfold buf at 1. rewrite take_u32_put by (unfold kMagic, U32; lia).
  unfold with_take at 1. rewrite Z.eqb_refl. simpl negb. cbv iota.
  rewrite take_u32_put by (unfold kVersion, U32; lia).
  unfold with_take at 1. rewrite Z.eqb_refl. simpl negb. cbv iota.
  unfold take_u8, with_take at 1. rewrite take_u32_put by done. unfold with_take at 1.
  replace (13 + Z.of_nat (length rest) - Z.of_nat (length rest)) with 13 by lia.
  destruct (Z.gtb_spec len kMaxFrame) as [Hg|Hg].
  { by destruct (_ <? _). }
  destruct (Z.ltb_spec (13 + Z.of_nat (length rest)) (4 + 4 + 1 + 4 + 4)) as [Hs|Hs];
    destruct (Z.gtb_spec (len + 4) (Z.of_nat (length rest))) as [Hb|Hb]; try done; try lia.
  { by destruct (Z.gtb_spec (13 + len + 4) (13 + Z.of_nat (length rest))); [|lia]. }
  destruct (Z.gtb_spec (13 + len + 4) (13 + Z.of_nat (length rest))); [lia|].
  replace (Z.to_nat (13 + len - 4)) with (9 + Z.to_nat len)%nat by lia. reflexivity.
Qed.

Lemma frame_bytes_split f rest :
  frame_ok f ->
  frame_bytes f ++ rest
  = put_u32 kMagic ++ put_u32 kVersion ++ Msg.to_u8 (frame_type f)
      :: put_u32 (Z.of_nat (length (frame_payload f))) ++ frame_payload f
      ++ put_u32 (crc32 (frame_body (frame_type f) (frame_payload f))) ++ rest.
Proof.
  intros [_ _ Hs]. unfold frame_bytes. rewrite encode_shape. unfold frame_body at 1.
  rewrite Z.mod_small by (unfold kMaxFrame, U32 in *; lia).
  rewrite <- !app_assoc. reflexivity.
Qed.

Lemma decode_frame f rest : frame_ok f -> decode (frame_bytes f ++ rest) = Some (f, frame_size f).
Proof.
  intros Hf. rewrite frame_bytes_split by done.
  pose proof (crc32_u32 _ (frame_body_ok f Hf)) as Hc.
  destruct f as [t p]. destruct (Hf) as [[Ht Hc'] Hp Hs].
  cbn [frame_type frame_payload] in *. unfold kMaxFrame in Hs.
  rewrite decode_header by (try done; unfold U32; lia).
  destruct (Z.gtb_spec (Z.of_nat (length p)) kMaxFrame); [unfold kMaxFrame in *; lia|].
  assert (Hl : length (put_u32 (crc32 (frame_body t p)) ++ rest) = (4 + length rest)%nat).
  { rewrite length_app. unfold put_u32. by rewrite put_le_from_length. }
  rewrite length_app, Hl.
  destruct (Z.gtb_spec (Z.of_nat (length p) + 4) (Z.of_nat (length p + (4 + length rest)))); [lia|].
  rewrite Nat2Z.id, drop_app_length, take_app_length, take_u32_put by done. unfold with_take.
  unfold frame_body. rewrite Z.mod_small by (unfold U32; lia).
  change (put_u8 (Msg.to_u8 t) ++ put_u32 (Z.of_nat (length p)) ++ p)
    with (Msg.to_u8 t :: put_u32 (Z.of_nat (length p)) ++ p).
  rewrite Z.eqb_refl. simpl negb. cbv iota. rewrite Hc'. unfold frame_size. simpl.
  do 2 f_equal. lia.
Qed.

Lemma with_take_inv {A B} (r : Taken A) (k : A -> bytes -> option B) x :
  with_take r k = Some x -> exists v rest, r = (Some v, rest) /\ k v rest = Some x.
Proof. destruct r as [[v|] rest]; simpl; [eauto|done]. Qed.

(** A header that [decode] does not refuse has this shape. *)
Lemma decode_prefix buf x :
  bytes_ok buf -> decode buf = Some x ->
  exists t len rest, is_byte t /\ 0 <= len < U32
    /\ buf = put_u32 kMagic ++ put_u32 kVersion ++ t :: put_u32 len ++ rest.
Proof.
  intros Hb H. unfold decode in H. destruct (_ <? _) in H; [done|].
  apply with_take_inv in H as (magic & b1 & E1 & H). destruct (Z.eqb_spec magic kMagic) as [->|]; [|done].
  simpl negb in H. cbv iota in H.
  apply (take_le_inv 4) in E1 as [-> _]; [|done]. apply Forall_app in Hb as [_ Hb].
  apply with_take_inv in H as (ver & b2 & E2 & H). destruct (Z.eqb_spec ver kVersion) as [->|]; [|done].
  apply (take_le_inv 4) in E2 as [-> _]; [|done]. apply Forall_app in Hb as [_ Hb].
  simpl negb in H. cbv iota in H.
  apply with_take_inv in H as (t & b3 & E3 & H). destruct b2 as [|t' b2]; [done|].
  injection E3 as -> ->. apply Forall_cons in Hb as [Ht Hb].
  apply with_take_inv in H as (len & b4 & E4 & H).
  apply (take_le_inv 4) in E4 as [-> Hlen]; [|done]. by exists t, len, b4.
Qed.

Lemma decode_frame_inv buf f n :
  bytes_ok buf -> decode buf = Some (f, n) ->
  frame_ok f /\ n = frame_size f /\ exists rest, buf = frame_bytes f ++ rest.
Proof.
  intros Hb H. destruct (decode_prefix _ _ Hb H) as (t & len & rest & Ht & Hlen & ->).
  rewrite decode_header in H by done.
  destruct (Z.gtb_spec len kMaxFrame) as [|Hmax]; [done|].
  destruct (Z.gtb_spec (len + 4) (Z.of_nat (length rest))) as [|Hsize]; [done|].
  apply with_take_inv in H as (crcval & b6 & E & H).
  destruct (crcval =? _) eqn:Ecrc in H; [|done]. apply Z.eqb_eq in Ecrc as ->.
  injection H as <- <-. do 2 (apply Forall_app in Hb as [_ Hb]). apply Forall_cons in Hb as [_ Hb].
  apply Forall_app in Hb as [_ Hb].
  set (p := take (Z.to_nat len) rest) in *.
  assert (Hp : Z.of_nat (length p) = len) by (unfold p; rewrite length_take; lia).
  assert (Hok : frame_ok (mk_frame (Msg.of_u8 t) p)).
  { constructor; simpl; [by rewrite Msg.to_of|by apply Forall_take|lia]. }
  apply (take_le_inv 4) in E as [E _]; [|by apply Forall_drop].
  split_and!; [done| |].
  - unfold frame_size. simpl. apply (f_equal length) in E.
    rewrite length_drop, length_app, put_le_from_length in E. lia.
  - exists b6. rewrite frame_bytes_split by done. simpl. rewrite Msg.to_of, Hp.
    unfold frame_body. rewrite Msg.to_of, Hp, Z.mod_small by done.
    rewrite <- (take_drop (Z.to_nat len) rest) at 1. fold p. by rewrite E.
Qed.

(** Where the fields of a frame are. *)
Lemma frame_fields f :
  frame_ok f ->
  take 4 (frame_bytes f) = put_u32 kMagic
  /\ take 4 (drop 9 (frame_bytes f)) = put_u32 (Z.of_nat (length (frame_payload f)))
  /\ sealed (drop 4 (frame_bytes f)).
Proof.
  intros Hf. split_and!.
  - rewrite <- (app_nil_r (frame_bytes f)), frame_bytes_split by done. reflexivity.
  - rewrite <- (app_nil_r (frame_bytes f)), frame_bytes_split by done. reflexivity.
  - unfold frame_bytes. rewrite encode_shape. by eexists.
Qed.
