(* ===== verification/UnitTests.v ===== *)
(** The unit tests of the repository, run on the model: tests/test_region.cpp,
    test_pressure.cpp, test_governed.cpp, test_reclaim_compact.cpp, test_persist.cpp and
    test_protocol.cpp.

    Each [main] is translated with its checks in their order; its value is the list of the
    messages of the checks that fail, or [None] when it dereferences an empty result.  That
    all lists are empty says that the definitions this library reasons about do what the
    authors of the code expect of it. *)
From S2P Require Import Prelude Words Ordered Types Floats Region RegionInv RegionAlloc RegionFree.
From S2P Require Import RegionReloc RegionQuery RegionSpec Pressure Request Bytes Persist.
From S2P Require Import PersistInv Governor GovernorInv GovernorOps GovernorSpec Backend HostBackend.
From S2P Require Import Programs Protocol.
Open Scope list_scope.
Open Scope Z_scope.

(** [check(cond, msg)]. *)
Definition check (ok : bool) (msg : string) : list string := if ok then [] else [msg].

(** [r->] on a [Result] without asking whether it holds a value. *)
Definition deref {A} (r : Result A) : option A := match r with Ok x => Some x | Err _ => None end.

Definition refused_with {A} (why : RejectReason.t) (r : Result A) : bool :=
  match r with Ok _ => false | Err f => bool_decide (reason f = why) end.

(** ** tests/test_region.cpp *)

Definition region_test_request (id bytes align : Z) : AllocRequest :=
  mk_alloc_request bytes align Movability.MOVABLE MemoryClass.USER_BUFFER Reclaimability.RECLAIM_IF_COLD
    (mk_id id) (mk_gen 1) gen_none Provenance.DERIVED.

Definition verified (ra : RegionAllocator) : bool := String.eqb (verify ra) "".

Definition region_test : option (list string) :=
  let ra := RegionAllocator_new (1024 * 1024) in
  let c := check (ra_capacity ra =? 1024 * 1024) "capacity"
           ++ check (free_bytes ra =? 1024 * 1024) "initial free"
           ++ check (ra_live_count ra =? 0) "initial live count"
           ++ check (largest_free_region ra =? 1024 * 1024) "initial largest free"
           ++ check (verified ra) "initial verify" in
  let ra := ensure_summary ra in
  '(ra, a) ← allocate (region_test_request 1 (128 * 1024) 256) ra;
  let c := c ++ check (result_ok a) "alloc1 ok" in
  '(ra, b) ← allocate (region_test_request 2 (64 * 1024) 1024) ra;
  let c := c ++ check (result_ok b) "alloc2 ok" in
  '(ra, d) ← allocate (region_test_request 3 (256 * 1024) 4096) ra;
  let c := c ++ check (result_ok d) "alloc3 ok"
           ++ check (ra_live_count ra =? 3) "live count 3"
           ++ check (verified ra) "verify after 3 allocs" in
  a ← deref a; b ← deref b; d ← deref d;
  let c := c ++ check (ri_offset a mod 256 =? 0) "a aligned"
           ++ check (ri_offset b mod 1024 =? 0) "b aligned"
           ++ check (ri_offset d mod 4096 =? 0) "c aligned"
           ++ check ((ri_size a =? 128 * 1024) && (ri_size b =? 64 * 1024) && (ri_size d =? 256 * 1024))
                "sizes" in
  let '(ra, fb) := free (mk_id 2) (mk_gen 1) ra in
  let c := c ++ check (result_ok fb) "free b ok"
           ++ check (ra_live_count ra =? 2) "live count 2 after free"
           ++ check (verified ra) "verify after free b" in
  let '(ra, df) := free (mk_id 2) (mk_gen 1) ra in
  let c := c ++ check (negb (result_ok df)) "double free rejected"
           ++ check (refused_with RejectReason.STALE_GENERATION df) "double free reason" in
  let '(ra, sf) := free (mk_id 1) (mk_gen 99) ra in
  let c := c ++ check (negb (result_ok sf)) "stale free rejected"
           ++ check (negb (result_ok (get (mk_id 1) (mk_gen 77) ra))) "stale query rejected"
           ++ check (result_ok (get (mk_id 1) (mk_gen 1) ra)) "current query ok" in
  let live := ra_live_bytes ra in
  Some (c ++ check (live =? 128 * 1024 + 256 * 1024) "live bytes exact"
          ++ check (free_bytes ra =? 1024 * 1024 - live) "free bytes exact").

Lemma region_test_passes : region_test = Some [].
Proof. vm_compute. reflexivity. Qed.

(** ** tests/test_pressure.cpp *)

(** The literals of the test as doubles. *)
Definition d_0_10 := mk_double 0x3FB999999999999A.
Definition d_0_25 := mk_double 0x3FD0000000000000.
Definition d_0_30 := mk_double 0x3FD3333333333333.
Definition d_0_40 := mk_double 0x3FD999999999999A.
Definition d_0_60 := mk_double 0x3FE3333333333333.
Definition d_0_80 := mk_double 0x3FE999999999999A.
Definition d_0_82 := mk_double 0x3FEA3D70A3D70A3D.
Definition d_0_95 := mk_double 0x3FEE666666666666.
Definition d_0_98 := mk_double 0x3FEF5C28F5C28F5C.
Definition d_nan := mk_double 0x7FF8000000000000.
Definition d_inf := mk_double 0x7FF0000000000000.

Definition pressure_test : list string :=
  let wm := WatermarkConfig_default in
  let expect u last p msg := check (bool_decide (classify_pressure (d_val u) wm last = p)) msg in
  check (WatermarkConfig_valid wm) "default watermarks valid"
  ++ check (negb (WatermarkConfig_valid (mk_watermarks d_0_90 d_0_40 d_0_97 gen_first))) "reject high < low"
  ++ check (negb (WatermarkConfig_valid (mk_watermarks d_0_70 d_0_90 d_nan gen_first))) "reject NaN critical"
  ++ check (negb (WatermarkConfig_valid (mk_watermarks d_inf d_0_90 d_0_97 gen_first))) "reject Inf low"
  ++ expect d_0_25 PressureState.NORMAL PressureState.LOW "low util -> LOW"
  ++ expect d_0_60 PressureState.NORMAL PressureState.NORMAL "mid util -> NORMAL"
  ++ expect d_0_95 PressureState.NORMAL PressureState.HIGH "above high -> HIGH"
  ++ expect d_0_98 PressureState.NORMAL PressureState.CRITICAL "above critical -> CRITICAL"
  ++ expect d_0_80 PressureState.HIGH PressureState.HIGH "hysteresis stays HIGH at high"
  ++ expect d_0_82 PressureState.HIGH PressureState.HIGH "hysteresis stays HIGH"
  ++ expect d_0_40 PressureState.HIGH PressureState.NORMAL "below LOW drops to NORMAL"
  ++ expect d_0_10 PressureState.HIGH PressureState.LOW "well below LOW -> LOW"
  ++ check (bool_decide (evaluate_pressure
                           (mk_evidence 0 0 0 0 0 (d_val d_zero) WatermarkConfig_default)
                           PressureState.UNKNOWN = PressureState.UNKNOWN))
       "no evidence stays UNKNOWN".

Lemma pressure_test_passes : pressure_test = [].
Proof. vm_compute. reflexivity. Qed.

(** ** tests/test_governed.cpp *)

(** A governor on the heap of HostBackend.v. *)
Abbreviation TestGovernor := (MemoryGovernor demo_heap).

Definition test_governor (d : MemoryDomain) : TestGovernor * Result unit :=
  initialize HostBackend (MemoryGovernor_new d (Some [])).

Definition governed_domain (cap : Z) : MemoryDomain :=
  mk_domain (mk_id 7) (mk_gen 3) (mk_id 0) (mk_gen 2) 0 0 0 cap 0 0 0 0 0 0 d_zero
    PressureState.UNKNOWN DeviceHealth.UNKNOWN (mk_watermarks d_half d_0_80 d_0_95 gen_first)
    Provenance.MEASURED.

(** A request with only its size and alignment set. *)
Definition bare_request (bytes alignment : Z) : AllocationRequest :=
  mk_request bytes 0 alignment true MemoryClass.UNKNOWN Reclaimability.UNKNOWN
    Movability.MOVABLE false "" (mk_id 0) (mk_gen 0) (mk_gen 0) (mk_id 0) (mk_id 0)
    gen_none gen_none gen_none gen_none "" Provenance.DERIVED.

Definition governed_test : option (list string) :=
  let '(g, init) := test_governor (governed_domain (2 ^ 20)) in
  let c := check (result_ok init) "initialize ok" in
  '(g, h) ← request (program_request (256 * 1024) 1024 "client-a") g;
  let c := c ++ check (result_ok h) "request ok" in
  h ← deref h;
  let c := c ++ check (h_size h =? 256 * 1024) "size exact"
           ++ check (h_offset h mod 1024 =? 0) "aligned"
           ++ check (bool_decide (h_generation h = gen_first)) "gen first"
           ++ check (negb (result_ok (gov_get (h_id h) (mk_gen 999) g))) "stale get rejects"
           ++ check (result_ok (gov_get (h_id h) (h_generation h) g)) "current get ok" in
  let '(g, rel) := release (h_id h) (h_generation h) g in
  let c := c ++ check (result_ok rel) "release ok" in
  let '(g, dup) := release (h_id h) (h_generation h) g in
  let c := c ++ check (negb (result_ok dup)) "duplicate release rejects"
           ++ check (refused_with RejectReason.DOUBLE_FREE dup) "duplicate is double free" in
  let '(g, st) := release (h_id h) (mk_gen 5) g in
  let c := c ++ check (negb (result_ok st)) "stale release rejects" in
  let '(g, s) := summary_locked g in
  let c := c ++ check (ms_committed s =? 0) "committed back to zero"
           ++ check (ms_free s =? ms_managed_capacity s) "free back to managed" in
  '(g, big) ← request (bare_request (2 ^ 20 + 1) 64) g;
  let c := c ++ check (negb (result_ok big)) "over-capacity request rejects" in
  '(g, z) ← request (bare_request 0 64) g;
  Some (c ++ check (negb (result_ok z)) "zero-byte rejects").

Lemma governed_test_passes : governed_test = Some [].
Proof. vm_compute. reflexivity. Qed.

(** ** tests/test_reclaim_compact.cpp *)

Definition compact_domain (cap : Z) : MemoryDomain :=
  mk_domain (mk_id 4) (mk_gen 1) (mk_id 0) (mk_gen 1) 0 0 0 cap 0 0 0 0 0 0 d_zero
    PressureState.UNKNOWN DeviceHealth.UNKNOWN (mk_watermarks d_0_30 d_0_70 d_0_95 gen_first)
    Provenance.MEASURED.

(** The lambda [req]. *)
Definition compact_request (bytes : Z) (rec : Reclaimability.t) (mov : Movability.t) (pin : bool) :
    AllocationRequest :=
  mk_request bytes 0 4096 true MemoryClass.USER_BUFFER rec mov pin "t" (mk_id 0) (mk_gen 0) (mk_gen 0)
    (mk_id 0) (mk_id 0) gen_none gen_none gen_none gen_none "" Provenance.DERIVED.

(** Six blocks of 128 KiB, each with its check. *)
Fixpoint request_blocks (blocks : list (Reclaimability.t * Movability.t * string)) (g : TestGovernor) :
    option (TestGovernor * list AllocationHandle * list string) :=
  match blocks with
  | [] => Some (g, [], [])
  | (rec, mov, msg) :: blocks =>
      '(g, h) ← request (compact_request (128 * 1024) rec mov false) g;
      h' ← deref h;
      '(g, hs, c) ← request_blocks blocks g;
      Some (g, h' :: hs, check (result_ok h) msg ++ c)
  end.

Definition movable_block (name : string) : Reclaimability.t * Movability.t * string :=
  (Reclaimability.RECLAIM_IF_COLD, Movability.MOVABLE, name).

(** The block that applies the first step of the plan. *)
Definition apply_first (k1 : AllocationHandle) (plan : CompactionPlan) (g : TestGovernor) :
    option (TestGovernor * list string) :=
  match cp_steps plan with
  | [] => Some (g, [])
  | st :: _ =>
      let '(g, rel) := apply_relocation (cs_id st) (cs_generation st) (cs_new_offset st) (cs_new_size st) g in
      hd ← deref rel;
      Some (g,
        check (bool_decide (cs_movability st = Movability.MOVABLE)) "plan moves movable only"
        ++ check (negb (bool_decide (cs_id st = h_id k1))) "plan excludes pinned K1"
        ++ check (result_ok rel) "apply relocation ok"
        ++ check (negb (bool_decide (h_generation hd = cs_generation st))) "relocation advances generation"
        ++ check (negb (result_ok (gov_get (cs_id st) (cs_generation st) g))) "old handle stale after relocate"
        ++ check (result_ok (gov_get (cs_id st) (h_generation hd) g)) "new handle resolves"
        ++ check (region_size (cs_id st) g =? cs_new_size st) "region size preserved")
  end.

Definition reclaim_compact_test : option (list string) :=
  let '(g, init) := test_governor (compact_domain (2 ^ 20)) in
  let c := check (result_ok init) "init" in
  '(g, ks, ck) ← request_blocks
    [(Reclaimability.BEST_EFFORT, Movability.PINNED, "K1"); movable_block "K2"; movable_block "K3";
     movable_block "K4"; movable_block "K5"; movable_block "K6"] g;
  k1 ← ks !! 0%nat; k2 ← ks !! 1%nat; k3 ← ks !! 2%nat; k5 ← ks !! 4%nat; k6 ← ks !! 5%nat;
  '(g, pinned) ← pin_locked (h_id k1) (h_generation k1) g;
  let '(g, r2) := release (h_id k2) (h_generation k2) g in
  let '(g, r5) := release (h_id k5) (h_generation k5) g in
  let cands := reclaim_candidates 100 g in
  let has k := bool_decide (h_id k ∈ cands) in
  let c := c ++ ck ++ check (result_ok pinned) "pin K1" ++ check (result_ok r2) "free K2"
           ++ check (result_ok r5) "free K5"
           ++ check (negb (has k1)) "pinned excluded from reclaim"
           ++ check (has k3 && has k6) "movable reclaimable included" in
  let '(g, r1) := release (h_id k1) (h_generation k1) g in
  let '(g, before) := summary_locked g in
  let plan1 := plan_compaction g in
  let plan2 := plan_compaction g in
  s1 ← cp_steps plan1 !! 0%nat; s2 ← cp_steps plan2 !! 0%nat;
  let c := c ++ check (negb (result_ok r1)) "release pinned rejected"
           ++ check (1 <=? Z.of_nat (length (cp_steps plan1))) "compaction plan non-empty"
           ++ check ((length (cp_steps plan1) =? length (cp_steps plan2))%nat
                     && bool_decide (cs_id s1 = cs_id s2)) "plan deterministic"
           ++ check (cp_largest_free_after plan1 >? ms_largest_free before) "compaction improves largest free" in
  '(g, cm) ← apply_first k1 plan1 g;
  let '(g, after) := summary_locked g in
  Some (c ++ cm ++ check (ms_largest_free after >? ms_largest_free before) "largest free increased"
          ++ check (ms_committed after =? 5 * 128 * 1024 - 128 * 1024) "committed correct").

Lemma reclaim_compact_test_passes : reclaim_compact_test = Some [].
Proof. vm_compute. reflexivity. Qed.

(** ** tests/test_persist.cpp *)

Definition persist_path : string := "gms_persist_test.bin".

(** The first block: two allocations, saved. *)
Definition persist_save : option (FileSystem * list string) :=
  let '(g, init) := test_governor (program_domain 9 (2 ^ 20)) in
  '(g, h1) ← request (program_request (128 * 1024) 4096 "alice") g;
  '(g, h2) ← request
    (mk_request (64 * 1024) 0 1024 true MemoryClass.KV_CACHE Reclaimability.RECLAIM_IF_CHECKPOINTED
       Movability.MOVABLE false "bob" (mk_id 0) (mk_gen 0) (mk_gen 0) (mk_id 0) (mk_id 0)
       gen_none gen_none gen_none gen_none "kv-bucket/123" Provenance.DERIVED) g;
  let '(fs, saved) := save Written persist_path ∅ g in
  Some (fs, check (result_ok init) "init" ++ check (result_ok h1) "req1" ++ check (result_ok h2) "req2"
              ++ check (result_ok saved) "save ok").

(** The record of the second block, with the members its variants set as arguments. *)
Definition persist_record (alignment : Z) (lc : LifecycleState.t) : AllocationRecord :=
  mk_record (mk_id 3) (mk_gen 1) 4096 4096 0 alignment (mk_id 0) gen_none MemoryClass.USER_BUFFER
    Reclaimability.RECLAIM_IF_COLD Movability.MOVABLE 0 ResidencyState.RESIDENT lc "" (mk_id 0) (mk_gen 0)
    (mk_gen 0) (mk_id 0) (mk_id 0) gen_none gen_none gen_none gen_none gen_none "" Provenance.MEASURED false.

Definition persist_snapshot (cap : Z) (records : list AllocationRecord) : PersistSnapshot :=
  mk_snapshot Persist.kMagic Persist.kVersion (program_domain 9 cap) records [] 1 0.

(** [decode(b).ok()]. *)
Definition decodes (b : bytes) : option bool := r ← Persist.decode b; Some (result_ok r).

(** [b[i] = v] for each pair. *)
Definition patch (l : list (nat * Z)) (b : bytes) : bytes := fold_left (fun b '(i, v) => <[i := v]> b) l b.

Definition rejects (b : bytes) (msg : string) : option (list string) :=
  ok ← decodes b; Some (check (negb ok) msg).

Definition persist_raw : option (list string) :=
  let r := persist_record 4096 LifecycleState.RESIDENT in
  let snap := persist_snapshot (2 ^ 20) [r] in
  let bs := Persist.encode snap in
  dec ← Persist.decode bs;
  s ← deref dec;
  id0 ← ps_records s !! 0%nat;
  b15 ← bs !! 15%nat;
  c1 ← rejects (patch [(15%nat, Z.lxor b15 0xFF)] bs) "checksum mismatch rejects";
  c2 ← rejects (patch [(0%nat, 0); (1%nat, 0); (2%nat, 0); (3%nat, 0)] bs) "bad magic rejects";
  c3 ← rejects (patch [(4%nat, 0xFF); (5%nat, 0xFF); (6%nat, 0xFF); (7%nat, 0xFF)] bs) "bad version rejects";
  c4 ← rejects (take (length bs - 8) bs) "truncation rejects";
  c5 ← rejects (bs ++ [0x42]) "trailing garbage rejects";
  c6 ← rejects (Persist.encode (persist_snapshot (2 ^ 20) [r; r])) "duplicate id rejects";
  c7 ← rejects (Persist.encode (persist_snapshot (2 ^ 20) [persist_record 4096 (LifecycleState.RAW 200)]))
         "invalid enum rejects";
  c8 ← rejects (Persist.encode (persist_snapshot (2 ^ 20) [persist_record 3 LifecycleState.RESIDENT]))
         "invalid alignment rejects";
  c9 ← rejects (Persist.encode (persist_snapshot 1024 [r])) "capacity exceed rejects";
  Some (check (result_ok dec) "decode ok"
        ++ check ((length (ps_records s) =? 1)%nat && bool_decide (rec_id id0 = mk_id 3)) "round-trip id"
        ++ c1 ++ c2 ++ c3 ++ c4 ++ c5 ++ c6 ++ c7 ++ c8 ++ c9).

(** The last block: a fresh governor loads the file. *)
Definition persist_load (fs : FileSystem) : option (list string) :=
  '(g, lr) ← load true persist_path fs (MemoryGovernor_new (program_domain 9 (2 ^ 20)) (Some ([] : demo_heap)));
  let '(g, s) := summary_locked g in
  Some (check (result_ok lr) "load ok"
        ++ check (ms_committed s =? 0) "conservative recovery: committed 0"
        ++ check (ms_free s =? ms_managed_capacity s) "conservative recovery: arena empty"
        ++ check (bool_decide (allocations g = [])) "no live allocations after recovery").

Definition persist_test : option (list string) :=
  '(fs, c1) ← persist_save; c2 ← persist_raw; c3 ← persist_load fs; Some (c1 ++ c2 ++ c3).

Lemma persist_test_passes : persist_test = Some [].
Proof. vm_compute. reflexivity. Qed.

(** ** tests/test_protocol.cpp *)

(** The payload of an ALLOCATE_RESULT, field by field. *)
Definition result_bytes (id gen status : Z) (e : string) : bytes :=
  append_str (append_u32 (append_u64 (append_u64 [] id) gen) status) e.

(** [take_u64(..., a) && take_u64(..., b) && take_u32(..., st) && take_str(..., e)], with what
    is left of the payload. *)
Definition take_result (p : bytes) : option (Z * Z * Z * string * bytes) :=
  match take_u64 p with (None, _) => None | (Some a, p) =>
  match take_u64 p with (None, _) => None | (Some b, p) =>
  match take_u32 p with (None, _) => None | (Some st, p) =>
  match take_str p with (None, _) => None | (Some e, p) => Some (a, b, st, e, p) end end end end.

(** The fields read back are these, and nothing is left. *)
Definition reads_back (p : bytes) (id gen status : Z) (e : string) : bool :=
  bool_decide (take_result p = Some (id, gen, status, e, [])).

(** A frame with such a payload, decoded and read again. *)
Definition frame_test (id gen status : Z) (e : string) (msg1 msg2 : string) : list string :=
  match Protocol.decode (Protocol.encode Msg.ALLOCATE_RESULT (result_bytes id gen status e)) with
  | None => [msg1]
  | Some (f, used) =>
      check (bool_decide (frame_type f = Msg.ALLOCATE_RESULT)) "message type preserved"
      ++ check (reads_back (frame_payload f) id gen status e) msg2
  end.

Definition protocol_test : list string :=
  check (reads_back (result_bytes 1 2 0 "") 1 2 0 "") "decode payload with trailing empty err string"
  ++ frame_test 7 3 0 "" "decode ALLOCATE_RESULT frame" "ALLOCATE_RESULT fields preserved"
  ++ frame_test 1 1 0xFFFFFFF6 "worker dead" "decode frame with non-empty err" "non-empty err preserved"
  ++ match take_str (append_u32 [] 0) with
     | (Some e, rest) =>
         check (String.eqb e "") "take_str empty at tail produced empty string"
         ++ check (bool_decide (rest = [])) "take_str empty consumed past length"
     | (None, _) => ["take_str empty at tail succeeds"%string]
     end.

Lemma protocol_test_passes : protocol_test = [].
Proof. vm_compute. reflexivity. Qed.
