(* ===== verification/ConcurrencyTest.v ===== *)
(** The concurrency test of the repository: tests/test_concurrency.cpp.

    Eight threads request and release their own allocations of one governor while a ninth
    queries it.  A schedule says which thread makes the next call; Concurrent.v shows that a
    call is one step.  Here is the program with its schedule as an argument, and the theorem
    that it passes under every schedule.  The flag the threads wait for before they start is
    left out. *)
From S2P Require Import Prelude Words Ordered Types Floats Region RegionInv RegionAlloc RegionFree.
From S2P Require Import RegionReloc RegionQuery RegionSpec Pressure Request Bytes Persist.
From S2P Require Import PersistInv Governor GovernorInv GovernorOps GovernorSpec GovernorProps.
From S2P Require Import GovernorBooks Backend HostBackend Programs Protocol UnitTests.
Open Scope list_scope.
Open Scope Z_scope.

(** ** The threads *)

(** [mine.back()] and [mine.pop_back()]. *)
Definition pop_back {A} (l : list A) : option (A * list A) :=
  match rev l with [] => None | x :: r => Some (x, rev r) end.

(** A writer before its next call.  [W_loop todo mine]: at the top of its loop with [todo]
    rounds to go; with none to go it is in its last loop, with [mine] to release.
    [W_pop todo mine h]: about to release [h]. *)
Inductive Writer : Set :=
  | W_loop (todo : nat) (mine : list AllocationHandle)
  | W_pop (todo : nat) (mine : list AllocationHandle) (h : AllocationHandle).

(** The reader before its next call, with what it will add to the checksum. *)
Inductive Reader : Set :=
  | R_summary (todo : nat)
  | R_candidates (todo : nat) (sum : Z)
  | R_plan (todo : nat) (sum : Z)
  | R_explain (todo : nat) (sum : Z).

Definition writer_request (t : Z) : AllocationRequest :=
  program_request (4096 + t mod 3 * 1024) 4096 "".

(** After a request of the loop: a fifth allocation is taken back off the list. *)
Definition after_push (todo : nat) (mine : list AllocationHandle) : Writer :=
  if (4 <? length mine)%nat then
    match pop_back mine with
    | Some (h, mine) => W_pop todo mine h
    | None => W_loop todo mine
    end
  else W_loop todo mine.

Section test.
Context {H : Type} `{!AlignedHeap H} (show_double : spec_float -> string).
Implicit Types (g : MemoryGovernor H).

(** One call of a writer with its local statements; the number is what it adds to [errors]. *)
Definition call_release (h : AllocationHandle) g : MemoryGovernor H * Z :=
  let '(g, rel) := release (h_id h) (h_generation h) g in (g, if result_ok rel then 0 else 1).

Definition writer_call (t : Z) (w : Writer) g : option (Writer * MemoryGovernor H * Z) :=
  match w with
  | W_loop (S todo) mine =>
      match request (writer_request t) g with
      | None => None
      | Some (g, Ok h) => Some (after_push todo (mine ++ [h]), g, 0)
      | Some (g, Err _) => Some (after_push todo mine, g, 0)
      end
  | W_pop todo mine h => let '(g, e) := call_release h g in Some (W_loop todo mine, g, e)
  | W_loop O (h :: mine) => let '(g, e) := call_release h g in Some (W_loop O mine, g, e)
  | W_loop O [] => None
  end.

(** One call of the reader; the number is what it adds to [checksum]. *)
Definition reader_call (r : Reader) g : option (Reader * MemoryGovernor H * Z) :=
  match r with
  | R_summary O => None
  | R_summary (S todo) =>
      let '(g, s) := summary_locked g in
      Some (R_candidates todo (add64 (ms_committed s) (ms_free s)), g, 0)
  | R_candidates todo sum =>
      Some (R_plan todo (add64 sum (Z.of_nat (length (reclaim_candidates 4 g)))), g, 0)
  | R_plan todo sum =>
      Some (R_explain todo (add64 sum (Z.of_nat (length (cp_steps (plan_compaction g))))), g, 0)
  | R_explain todo sum =>
      let '(g, ex) := explain show_double g in
      Some (R_summary todo, g, add64 sum (Z.of_nat (String.length ex)))
  end.

(** ** The program *)

(** What the threads share, and the threads. *)
Record TestRun : Type := mk_run {
  tr_gov : MemoryGovernor H;
  tr_errors : Z;
  tr_checksum : Z;
  tr_writers : list Writer;
  tr_reader : Reader;
}.

(** Thread [i] makes its next call; the reader is the one after the writers. *)
Definition thread_call (i : nat) (s : TestRun) : option TestRun :=
  match tr_writers s !! i with
  | Some w =>
      '(w, g, e) ← writer_call (Z.of_nat i) w (tr_gov s);
      Some (mk_run g (add64 (tr_errors s) e) (tr_checksum s) (<[i := w]> (tr_writers s)) (tr_reader s))
  | None =>
      if decide (i = length (tr_writers s)) then
        '(r, g, c) ← reader_call (tr_reader s) (tr_gov s);
        Some (mk_run g (tr_errors s) (add64 (tr_checksum s) c) (tr_writers s) r)
      else None
  end.

Fixpoint run_schedule (schedule : list nat) (s : TestRun) : option TestRun :=
  match schedule with
  | [] => Some s
  | i :: schedule => s ← thread_call i s; run_schedule schedule s
  end.

(** All threads can be joined. *)
Definition writer_done (w : Writer) : bool := match w with W_loop O [] => true | _ => false end.
Definition reader_done (r : Reader) : bool := match r with R_summary O => true | _ => false end.
Definition all_done (s : TestRun) : bool := forallb writer_done (tr_writers s) && reader_done (tr_reader s).

Definition test_begin (writers iters : nat) (h : H) : list string * TestRun :=
  let '(g, init) := program_start 11 (8 * 2 ^ 20) h in
  (check (result_ok init) "init",
   mk_run g 0 0 (replicate writers (W_loop iters [])) (R_summary (iters * 4))).

(** After the joins: the checks, with the drain of what is left. *)
Definition test_end (s : TestRun) : list string :=
  let c1 := check (tr_errors s =? 0) "no release errors under contention" in
  let g := fold_left (fun g rec => (release (rec_id rec) (rec_generation rec) g).1)
             (allocations (tr_gov s)) (tr_gov s) in
  let '(g, s) := summary_locked g in
  (c1 ++ check (ms_committed s =? 0) "committed drained to zero"
      ++ check (ms_free s =? ms_managed_capacity s) "free back to capacity")%list.

(** The failed checks of a run under [schedule]; [None] when it leaves a thread unfinished. *)
Definition concurrency_test (writers iters : nat) (h : H) (schedule : list nat) : option (list string) :=
  let '(c0, s) := test_begin writers iters h in
  s ← run_schedule schedule s;
  if all_done s then Some (c0 ++ test_end s)%list else None.
End test.

(** ** What the threads hold *)

Definition held_by (w : Writer) : list AllocationHandle :=
  match w with W_loop _ mine => mine | W_pop _ mine h => h :: mine end.

Definition all_held (ws : list Writer) : list AllocationHandle := concat (held_by <$> ws).

Lemma all_held_split ws i w :
  ws !! i = Some w ->
  exists rest, all_held ws ≡ₚ held_by w ++ rest
    /\ forall w', all_held (<[i := w']> ws) ≡ₚ held_by w' ++ rest.
Proof.
  intros Hi. exists (concat (held_by <$> take i ws) ++ concat (held_by <$> drop (S i) ws)). unfold all_held. split.
  - rewrite <- (take_drop_middle ws i w Hi) at 1. rewrite fmap_app, concat_app. simpl.
    rewrite !app_assoc. apply Permutation_app_tail, Permutation_app_comm.
  - intros w'. rewrite insert_take_drop by (by eapply lookup_lt_Some).
    rewrite fmap_app, concat_app. simpl. rewrite !app_assoc. apply Permutation_app_tail, Permutation_app_comm.
Qed.

Lemma pop_back_spec {A} (l : list A) x l' : pop_back l = Some (x, l') -> l = l' ++ [x].
Proof.
  unfold pop_back. intros E. destruct (rev l) as [|y r] eqn:Er; [done|]. injection E as -> <-.
  rewrite <- (rev_involutive l), Er. done.
Qed.

Lemma after_push_held k mine : held_by (after_push k mine) ≡ₚ mine.
Proof.
  unfold after_push. destruct (4 <? length mine)%nat; [|done].
  destruct (pop_back mine) as [[h mine']|] eqn:E; [|done]. apply pop_back_spec in E as ->.
  simpl. apply Permutation_cons_append.
Qed.

(** Requests a writer has still to make. *)
Definition requests_left (w : Writer) : Z := Z.of_nat (match w with W_loop k _ | W_pop k _ _ => k end).

Lemma after_push_left k mine : requests_left (after_push k mine) = Z.of_nat k.
Proof.
  unfold after_push. destruct (4 <? length mine)%nat; [|done]. by destruct (pop_back mine) as [[h mine']|].
Qed.

(** Steps a thread has at most still to take. *)
Definition writer_cost (w : Writer) : Z := 2 * requests_left w + Z.of_nat (length (held_by w)).

Definition reader_cost (r : Reader) : Z :=
  match r with
  | R_summary k => 4 * Z.of_nat k
  | R_candidates k _ => 4 * Z.of_nat k + 3
  | R_plan k _ => 4 * Z.of_nat k + 2
  | R_explain k _ => 4 * Z.of_nat k + 1
  end.

(** ** The governor under them *)

Section invariant.
Context {H : Type} `{!AlignedHeap H} (show_double : spec_float -> string).
Implicit Types (g : MemoryGovernor H).

(** A consistent governor whose records can all be released by whoever knows their ids. *)
Record releasable_gov g : Prop := {
  rl_inv : gov_inv g;
  rl_balanced : balanced g;
  rl_records id rec : om_find id (gov_records g) = Some rec ->
    rec_generation rec = gen_first /\ rec_pin_count rec = 0;
}.

(** The handles held by the threads are exactly the records. *)
Definition handles_match (hs : list AllocationHandle) g : Prop :=
  (h_id <$> hs) ≡ₚ (gov_records g).*1 /\ Forall (fun h => h_generation h = gen_first) hs.

Lemma gov_step_balanced op g g' ok :
  gov_inv g -> balanced g -> gov_op_ok op g -> gov_step HostBackend op g = Some (g', ok) ->
  gov_inv g' /\ balanced g'.
Proof.
  intros Hi Hb Hop E. destruct (gov_step_inv HostBackend op g Hi Hop) as (g0 & ok0 & E0 & Hi').
  rewrite E in E0. injection E0 as <- <-. split; [done|].
  by apply (proj1 (gov_step_books HostBackend op g g' ok Hi Hop E)).
Qed.

Lemma keys_erase (m : omap AllocationId AllocationRecord) id rec :
  om_find id m = Some rec -> m.*1 ≡ₚ id :: (om_erase id m).*1.
Proof. intros E%om_erase_perm. by rewrite E at 1. Qed.

Lemma request_releasable req g :
  releasable_gov g -> request_words req -> rq_requires_pin req = false ->
  gov_next_alloc_id g + 1 < U64 ->
  exists g' res, request req g = Some (g', res) /\ releasable_gov g'
    /\ gov_next_alloc_id g' <= gov_next_alloc_id g + 1
    /\ forall hs, handles_match hs g ->
         match res with Ok h => handles_match (h :: hs) g' | Err _ => handles_match hs g' end.
Proof.
  intros [Hi Hb Hr] Hw Hp Hn. destruct (request_cases g req Hi Hw Hn) as (g' & res & E & Hi' & Hc).
  assert (Hb' : balanced g').
  { eapply (gov_step_balanced (GRequest req) g g' (result_ok res)); [done|done|by split|].
    cbn [gov_step]. by rewrite E. }
  exists g', res. split; [done|]. destruct res as [h|f].
  - destruct Hc as (_ & r & Ha & ->). pose proof (registry_fresh _ _ _ (gi_registry _ Hi)) as [Hf _].
    assert (Er : gov_records g' = om_set (mk_id (gov_next_alloc_id g))
      (new_record req (mk_id (gov_next_alloc_id g)) r) (gov_records g)) by apply Ha.
    split_and!.
    + constructor; [done|done|]. intros id rec. rewrite Er. destruct (decide (id = mk_id (gov_next_alloc_id g))) as [->|Hne].
      * rewrite om_find_set_eq. intros [= <-]. simpl. by rewrite Hp.
      * rewrite om_find_set_ne by done. apply Hr.
    + rewrite (aq_next _ _ _ _ Ha). lia.
    + intros hs [Hk Hg]. split; [|by constructor]. simpl. rewrite Er, om_set_perm by apply (gi_registry _ Hi).
      rewrite om_erase_absent by done. simpl. by rewrite Hk.
  - destruct Hc as [(n & -> & Hle) _]. split_and!; [by constructor|simpl; lia|done].
Qed.

Lemma release_releasable g h hs :
  releasable_gov g -> handles_match (h :: hs) g ->
  exists g', call_release h g = (g', 0) /\ releasable_gov g' /\ handles_match hs g'
    /\ gov_next_alloc_id g' = gov_next_alloc_id g.
Proof.
  intros [Hi Hb Hr] [Hk Hg]. apply Forall_cons in Hg as [Hg Hgs]. simpl in Hk.
  assert (Hin : h_id h ∈ (gov_records g).*1) by (rewrite <- Hk; left).
  apply list_elem_of_fmap in Hin as ([id rec] & Eid & Hin). simpl in Eid. subst id.
  apply om_find_elem in Hin as Hf; [|apply (gi_registry _ Hi)]. destruct (Hr _ _ Hf) as [Hgen Hpin].
  assert (Hcur : current g (h_id h) (h_generation h) rec) by (split; [done|congruence]).
  unfold call_release, release. pose proof (release_cases g (h_id h) (h_generation h) gen_none gen_none Hi) as Hc.
  destruct (release_locked (h_id h) (h_generation h) gen_none gen_none g) as [g' res] eqn:E.
  destruct res as [rel|f].
  - destruct Hc as (rec' & Hcur' & _ & _ & _ & Ha).
    assert (rec' = rec) as -> by (destruct Hcur as [? _], Hcur' as [? _]; congruence).
    assert (Hs : gov_inv g' /\ balanced g').
    { eapply (gov_step_balanced (GRelease (h_id h) (h_generation h) gen_none gen_none) g g' true); [done..|].
      cbn [gov_step]. unfold release_for_worker. by rewrite E. }
    destruct Hs as [Hi' Hb']. destruct Ha as (Er & _ & _ & _ & _ & En & _).
    exists g'. split; [done|]. split_and!; [|split; [|done]|done].
    + constructor; [done|done|]. intros id rec'. rewrite Er. destruct (decide (id = h_id h)) as [->|Hne].
      * by rewrite om_find_erase_eq by apply (gi_registry _ Hi).
      * rewrite om_find_erase_ne by done. apply Hr.
    + rewrite Er. rewrite (keys_erase _ _ _ Hf) in Hk. by apply Permutation_cons_inv in Hk.
  - exfalso. destruct Hc as [_ [[(ret & Ht & _) _]|[(Hno & _ & _)|(rec' & Hcur' & [[Hna _]|(_ & Hp & _)])]]].
    + rewrite (rg_disjoint _ _ _ (gi_registry _ Hi)) in Ht; [done|]. by eexists.
    + by eapply Hno.
    + by apply Hna.
    + assert (rec' = rec) as -> by (destruct Hcur as [? _], Hcur' as [? _]; congruence). lia.
Qed.

Lemma summary_releasable g hs :
  releasable_gov g -> handles_match hs g ->
  releasable_gov (summary_locked g).1 /\ handles_match hs (summary_locked g).1
  /\ gov_next_alloc_id (summary_locked g).1 = gov_next_alloc_id g.
Proof.
  intros [Hi Hb Hr] Hm. change (summary_locked g).1 with (pressure_locked g).1.
  destruct (gov_step_balanced GPressure g (pressure_locked g).1 true Hi Hb I eq_refl) as [Hi' Hb'].
  split_and!; [by constructor|done|done].
Qed.

Lemma explain_state g : (explain show_double g).1 = (summary_locked g).1.
Proof. unfold explain. by destruct (summary_locked g). Qed.

(** ** Every schedule *)

Record run_inv (s : TestRun (H := H)) : Prop := {
  ri_gov : releasable_gov (tr_gov s);
  ri_handles : handles_match (all_held (tr_writers s)) (tr_gov s);
  ri_errors : tr_errors s = 0;
  ri_ids : gov_next_alloc_id (tr_gov s) + zsum requests_left (tr_writers s) < U64;
}.

Definition run_cost (s : TestRun (H := H)) : Z := zsum writer_cost (tr_writers s) + reader_cost (tr_reader s).

(** A call keeps the invariant, ends a step nearer the end, and changes nobody else's list. *)
Lemma handles_perm hs hs' g : hs ≡ₚ hs' -> handles_match hs g -> handles_match hs' g.
Proof. intros E [Hk Hg]. split; [by rewrite <- E|by rewrite <- E]. Qed.

Lemma writer_request_words t : request_words (writer_request t).
Proof.
  pose proof (Z.mod_pos_bound t 3 ltac:(lia)). split; simpl; unfold in_u64, U64; lia.
Qed.

Lemma request_case t k mine g rest :
  releasable_gov g -> handles_match (mine ++ rest) g ->
  gov_next_alloc_id g + requests_left (W_loop (S k) mine) < U64 ->
  exists w' g', writer_call t (W_loop (S k) mine) g = Some (w', g', 0) /\ releasable_gov g'
    /\ handles_match (held_by w' ++ rest) g'
    /\ gov_next_alloc_id g' + requests_left w' <= gov_next_alloc_id g + requests_left (W_loop (S k) mine)
    /\ writer_cost w' < writer_cost (W_loop (S k) mine).
Proof.
  intros Hr Hm Hn. unfold requests_left in Hn. cbn [writer_call].
  destruct (request_releasable (writer_request t) g Hr (writer_request_words t) eq_refl)
    as (g' & res & -> & Hr' & Hle & Hms); [lia|]. specialize (Hms _ Hm).
  set (mine' := match res with Ok h => mine ++ [h] | Err _ => mine end).
  exists (after_push k mine'), g'. split; [by destruct res|]. split; [done|]. split_and!.
  - eapply handles_perm; [symmetry; apply Permutation_app_tail, after_push_held|].
    unfold mine'. destruct res as [h|f]; [|done]. eapply handles_perm; [|exact Hms].
    rewrite Permutation_app_comm. simpl. rewrite (Permutation_app_comm mine [h]). simpl. f_equiv.
    apply Permutation_app_comm.
  - rewrite after_push_left. unfold requests_left. lia.
  - unfold writer_cost. rewrite after_push_left, (Permutation_length (after_push_held k mine')).
    unfold requests_left, mine'. simpl held_by. destruct res; rewrite ?length_app; simpl length; lia.
Qed.

Lemma requests_le ws i w : ws !! i = Some w -> requests_left w <= zsum requests_left ws.
Proof.
  intros Hw. pose proof (zsum_insert requests_left ws i w (W_loop 0 []) Hw) as E.
  pose proof (zsum_nonneg requests_left (<[i := W_loop 0 []]> ws)) as Hz.
  assert (0 <= zsum requests_left (<[i:=W_loop 0 []]> ws)) by (apply Hz; intros; unfold requests_left; lia).
  change (requests_left (W_loop 0 [])) with 0 in E. lia.
Qed.

Lemma writer_call_inv t w g rest :
  releasable_gov g -> handles_match (held_by w ++ rest) g -> writer_done w = false ->
  gov_next_alloc_id g + requests_left w < U64 ->
  exists w' g', writer_call t w g = Some (w', g', 0) /\ releasable_gov g'
    /\ handles_match (held_by w' ++ rest) g'
    /\ gov_next_alloc_id g' + requests_left w' <= gov_next_alloc_id g + requests_left w
    /\ writer_cost w' < writer_cost w.
Proof.
  intros Hr Hm Hd Hn. destruct w as [[|k] [|h mine]|k mine h]; try done; cbn [writer_call].
  - destruct (release_releasable g h (mine ++ rest) Hr Hm) as (g' & -> & Hr' & Hm' & En).
    eexists _, g'. split; [done|]. split_and!; [done|done|unfold requests_left in *; lia|].
    unfold writer_cost, requests_left. simpl. lia.
  - apply (request_case t k [] g rest Hr Hm Hn).
  - apply (request_case t k (h :: mine) g rest Hr Hm Hn).
  - destruct (release_releasable g h (mine ++ rest) Hr Hm) as (g' & -> & Hr' & Hm' & En).
    eexists _, g'. split; [done|]. split_and!; [done|done|unfold requests_left in *; lia|].
    unfold writer_cost, requests_left. simpl. lia.
Qed.

Lemma reader_call_inv r g hs :
  releasable_gov g -> handles_match hs g -> reader_done r = false ->
  exists r' g' c, reader_call show_double r g = Some (r', g', c) /\ releasable_gov g'
    /\ handles_match hs g' /\ gov_next_alloc_id g' = gov_next_alloc_id g
    /\ reader_cost r' = reader_cost r - 1.
Proof.
  intros Hr Hm Hd. pose proof (summary_releasable g hs Hr Hm) as (Hr' & Hm' & En).
  destruct r as [[|k]|k c|k c|k c]; [done|..]; cbn [reader_call].
  - destruct (summary_locked g) as [g' sm]. eexists _, g', _. split; [done|]. split_and!; [done..|].
    unfold reader_cost. lia.
  - eexists _, g, _. split; [done|]. split_and!; [done..|]. unfold reader_cost. lia.
  - eexists _, g, _. split; [done|]. split_and!; [done..|]. unfold reader_cost. lia.
  - pose proof (explain_state g) as Ee. destruct (explain show_double g) as [g' ex]. simpl in Ee. subst g'.
    eexists _, _, _. split; [done|]. split_and!; [done..|]. unfold reader_cost. lia.
Qed.

Lemma thread_call_inv i s s' :
  run_inv s -> thread_call show_double i s = Some s' -> run_inv s' /\ run_cost s' < run_cost s.
Proof.
  intros [Hr Hm He Hn]. unfold thread_call. destruct (tr_writers s !! i) as [w|] eqn:Hw.
  - destruct (writer_done w) eqn:Hd; [by destruct w as [[|?] [|??]|???]|].
    destruct (all_held_split _ _ _ Hw) as (rest & E1 & E2).
    pose proof (requests_le _ _ _ Hw) as Hle.
    destruct (writer_call_inv (Z.of_nat i) w (tr_gov s) rest Hr (handles_perm _ _ _ E1 Hm) Hd)
      as (w' & g' & -> & Hr' & Hm' & Hn' & Hc); [lia|]. intros [= <-]. split.
    + constructor; simpl; [done| |by rewrite He|].
      * eapply handles_perm; [symmetry; apply E2|done].
      * rewrite (zsum_insert requests_left _ _ _ _ Hw). lia.
    + unfold run_cost. simpl. rewrite (zsum_insert writer_cost _ _ _ _ Hw). lia.
  - case_decide; [|done]. destruct (reader_done (tr_reader s)) eqn:Hd.
    { by destruct (tr_reader s) as [[|?]| | |]. }
    destruct (reader_call_inv (tr_reader s) (tr_gov s) _ Hr Hm Hd) as (r' & g' & c & -> & Hr' & Hm' & En & Hc).
    intros [= <-]. split; [|unfold run_cost; simpl; lia]. constructor; simpl; [done|done|done|]. by rewrite En.
Qed.

Lemma run_schedule_inv schedule s s' :
  run_inv s -> run_schedule show_double schedule s = Some s' ->
  run_inv s' /\ Z.of_nat (length schedule) + run_cost s' <= run_cost s.
Proof.
  revert s. induction schedule as [|i l IH]; intros s Hi; [intros [= <-]; simpl; split; [done|lia]|].
  intros (s1 & E1 & E)%bind_Some. destruct (thread_call_inv i s s1 Hi E1) as [Hi1 Hc].
  destruct (IH s1 Hi1 E) as [Hi' Hl]. split; [done|]. cbn [length]. lia.
Qed.

(** Some thread can go on until all are done. *)
Lemma run_progress s :
  run_inv s -> all_done s = false -> exists i s', thread_call show_double i s = Some s'.
Proof.
  intros [Hr Hm He Hn] Hd. unfold all_done in Hd. apply andb_false_iff in Hd as [Hd|Hd].
  - assert (Hex : exists i w, tr_writers s !! i = Some w /\ writer_done w = false).
    { clear -Hd. induction (tr_writers s) as [|w l IH]; [done|]. simpl in Hd.
      destruct (writer_done w) eqn:Ew; [|by exists 0%nat, w]. destruct (IH Hd) as (i & w' & ? & ?). by exists (S i), w'. }
    destruct Hex as (i & w & Hw & Hwd). destruct (all_held_split _ _ _ Hw) as (rest & E1 & E2).
    pose proof (requests_le _ _ _ Hw) as Hle.
    destruct (writer_call_inv (Z.of_nat i) w (tr_gov s) rest Hr (handles_perm _ _ _ E1 Hm) Hwd)
      as (w' & g' & E & _); [lia|]. exists i. unfold thread_call. rewrite Hw, E. simpl. by eexists.
  - destruct (reader_call_inv (tr_reader s) (tr_gov s) _ Hr Hm Hd) as (r' & g' & c & E & _).
    exists (length (tr_writers s)). unfold thread_call. rewrite lookup_ge_None_2 by done.
    rewrite decide_True by done. rewrite E. simpl. by eexists.
Qed.

Lemma test_end_passes s : run_inv s -> all_done s = true -> test_end s = [].
Proof.
  intros [Hr [Hk _] He _] Hd. unfold all_done in Hd. apply andb_true_iff in Hd as [Hd _].
  assert (Hh : all_held (tr_writers s) = []).
  { clear -Hd. unfold all_held. induction (tr_writers s) as [|w l IH]; [done|]. simpl in *.
    apply andb_true_iff in Hd as [Hw Hl]. destruct w as [[|?] [|??]|???]; try done. simpl. by apply IH. }
  rewrite Hh in Hk. simpl in Hk. apply Permutation_nil_l in Hk.
  assert (Hrec : gov_records (tr_gov s) = []) by (by destruct (gov_records (tr_gov s))).
  unfold test_end, allocations. rewrite He, Hrec. simpl.
  pose proof (rl_balanced _ Hr) as Hb. unfold balanced in Hb. rewrite Hrec in Hb. cbn in Hb.
  pose proof (rl_inv _ Hr) as Hi. rewrite (ra_wf_free_bytes _ (gi_arena _ Hi)), Hb.
  by rewrite (gi_capacity _ Hi), Z.sub_0_r, !Z.eqb_refl.
Qed.

Lemma test_begin_inv writers iters h :
  Z.of_nat writers * Z.of_nat iters + 1 < U64 -> run_inv (test_begin writers iters h).2.
Proof.
  intros Hn. unfold test_begin, program_start. set (g0 := MemoryGovernor_new _ _).
  assert (Hi0 : gov_inv g0) by (apply MemoryGovernor_new_inv; simpl; unfold U64; lia).
  pose proof (initialize_cases HostBackend g0 Hi0) as Hc.
  assert (Hb0 : balanced g0) by (unfold balanced, g0; reflexivity).
  pose proof (fun E => proj2 (gov_step_balanced GInitialize g0 (initialize HostBackend g0).1
    (result_ok (initialize HostBackend g0).2) Hi0 Hb0 I E)) as Hb.
  specialize (Hb eq_refl). destruct (initialize HostBackend g0) as [g init]. simpl in Hb.
  destruct Hc as (Hi & Er & _ & _ & En & _).
  assert (Hz : forall n, zsum requests_left (replicate n (W_loop iters [])) = Z.of_nat n * Z.of_nat iters).
  { induction n as [|n IH]; [done|]. cbn [replicate]. rewrite zsum_cons, IH. unfold requests_left. lia. }
  assert (Hh : forall n, all_held (replicate n (W_loop iters [])) = []) by (unfold all_held; induction n; done).
  constructor; simpl.
  - constructor; [done|done|]. intros id rec. by rewrite Er.
  - rewrite Hh. split; [by rewrite Er|constructor].
  - done.
  - rewrite Hz, En. simpl. lia.
Qed.
End invariant.

(** ** The theorem *)

(** C40: the concurrency test of the repository passes under every schedule.  Whichever thread makes
    each next call, no release of a thread's own allocation is refused, and when all threads
    are done the drained governor has nothing committed and all of its capacity free: the only
    check that can fail is the initialisation, when there is no memory.  And the joins return:
    as long as a thread is not done some thread can make its next call, and no schedule makes
    more calls than the start allows. *)
Theorem concurrency_test_passes {H} `{!AlignedHeap H} show_double writers iters (h : H) schedule s :
  Z.of_nat writers * Z.of_nat iters + 1 < U64 ->
  run_schedule show_double schedule (test_begin writers iters h).2 = Some s ->
  Z.of_nat (length schedule) + run_cost s <= run_cost (test_begin writers iters h).2
  /\ (all_done s = false -> exists i s', thread_call show_double i s = Some s')
  /\ (all_done s = true ->
      concurrency_test show_double writers iters h schedule
      = Some (check (result_ok (program_start 11 (8 * 2 ^ 20) h).2) "init")).
Proof.
  intros Hn E. pose proof (test_begin_inv writers iters h Hn) as Hi0.
  destruct (run_schedule_inv show_double schedule _ s Hi0 E) as [Hi Hl]. split_and!; [done| |].
  - by apply run_progress.
  - intros Hd. unfold concurrency_test. unfold test_begin in *.
    destruct (program_start 11 (8 * 2 ^ 20) h) as [g init]. cbn [snd] in E. cbn [fst snd].
    by rewrite E; cbn [mbind option_bind]; rewrite Hd, test_end_passes, app_nil_r by done.
Qed.

(** Two writers of two rounds each and the reader, interleaved. *)
Definition demo_schedule : list nat :=
  [0; 1; 2; 0; 2; 2; 1; 2; 0; 2; 1; 2; 2; 2; 0; 1]%nat ++ replicate 24 2%nat.

Lemma concurrency_test_passes_witness :
  concurrency_test (H := demo_heap) (fun _ => ""%string) 2 2 [] demo_schedule = Some [].
Proof.
  assert (Hd : exists s, run_schedule (fun _ => ""%string) demo_schedule (test_begin 2 2 ([] : demo_heap)).2 = Some s
                 /\ all_done s = true) by (eexists; split; vm_compute; reflexivity).
  destruct Hd as (s & E & Hd).
  destruct (concurrency_test_passes (fun _ => ""%string) 2 2 ([] : demo_heap) demo_schedule s)
    as (_ & _ & Hc); [unfold U64; lia|exact E|exact (Hc Hd)].
Defined.
