(* ===== verification/Net.v ===== *)
(** The framed streams of src/net.hpp.

    Winsock is a parameter: a class gives its three calls on a state [W] of the network as
    this process sees it, and a second class states what the documentation of stream
    sockets promises about them.  Each connection has the bytes its peer will have sent
    ([peer]) and the bytes handed to it so far ([sent]); how a stream is cut into [recv]
    results and how much a [send] takes is left open. *)
From S2P Require Import Prelude Words Bytes Protocol.
Open Scope Z_scope.

Abbreviation SOCKET := Z.
Definition INVALID_SOCKET : SOCKET := -1.

Class Winsock (W : Type) := {
  (** [recv(s, p, n, 0)]: the bytes read, [None] for a result that is not positive. *)
  recv : SOCKET -> nat -> W -> option bytes * W;
  (** [send(s, p, n, 0)]: the bytes from [p] on, the [int n], and the result. *)
  send : SOCKET -> bytes -> Z -> W -> Z * W;
  (** [shutdown(s, SD_BOTH); closesocket(s)]. *)
  close : SOCKET -> W -> W;
}.
#[export] Hint Mode Winsock ! : typeclass_instances.

Section net.
Context {W : Type} `{!Winsock W}.

(** [static_cast<int>] of a [std::size_t]: the low 32 bits, as a signed word. *)
Definition int_of_size (n : Z) : Z := i32_of_u32 (n mod U32).

(** The length argument of the next [send]. *)
Definition send_len (data : bytes) : Z := int_of_size (Z.of_nat (length data)).

(** The loop of [send_exact]; [data] is what is still to be sent. *)
Fixpoint send_loop (s : SOCKET) (fuel : nat) (data : bytes) (w : W) : bool * W :=
  match data with
  | [] => (true, w)
  | _ =>
      match fuel with
      | O => (false, w)
      | S fuel' =>
          let '(n, w') := send s data (send_len data) w in
          if n <=? 0 then (false, w') else send_loop s fuel' (drop (Z.to_nat n) data) w'
      end
  end.

(** A call takes at least a byte or fails, so the length is enough fuel. *)
Definition send_exact (s : SOCKET) (data : bytes) (w : W) : bool * W :=
  send_loop s (length data) data w.

(** The loop of [recv_exact]; [n] is what is still to be read, [got] what was.  ([recv_frame] reads at
    most [kMaxFrame] bytes at a time, which an [int] holds.) *)
Fixpoint recv_loop (s : SOCKET) (fuel n : nat) (got : bytes) (w : W) : option bytes * W :=
  match n with
  | O => (Some got, w)
  | _ =>
      match fuel with
      | O => (None, w)
      | S fuel' =>
          match recv s n w with
          | (None, w') => (None, w')
          | (Some r, w') => recv_loop s fuel' (n - length r) (got ++ r) w'
          end
      end
  end.

Definition recv_exact (s : SOCKET) (n : nat) (w : W) : option bytes * W := recv_loop s n n [] w.

Definition send_frame (s : SOCKET) (type : Msg.t) (payload : bytes) (w : W) : bool * W :=
  send_exact s (encode type payload) w.

(** The four guards on the 13 header bytes; the payload length when none refuses. *)
Definition check_header (hb : bytes) : option Z :=
  with_take (take_u32 hb) (fun magic h1 =>
  if negb (magic =? kMagic) then None else
  with_take (take_u32 h1) (fun ver h2 =>
  if negb (ver =? kVersion) then None else
  with_take (take_u8 h2) (fun _ h3 =>
  with_take (take_u32 h3) (fun len _ =>
  if len >? kMaxFrame then None else Some len)))).

Definition recv_frame (s : SOCKET) (w : W) : option Frame * W :=
  match recv_exact s 13 w with
  | (None, w) => (None, w)
  | (Some hb, w) =>
      match check_header hb with
      | None => (None, w)
      | Some len =>
          match recv_exact s (Z.to_nat len) w with
          | (None, w) => (None, w)
          | (Some payload, w) =>
              match recv_exact s 4 w with
              | (None, w) => (None, w)
              | (Some crcb, w) => (fst <$> decode (hb ++ payload ++ crcb), w)
              end
          end
      end
  end.

Definition shutdown_sock (s : SOCKET) (w : W) : W :=
  if s =? INVALID_SOCKET then w else close s w.

End net.

(** ** What Winsock promises *)

Class WinsockLaws (W : Type) `{!Winsock W} := {
  (** The bytes that the peer will have sent and that are not read yet. *)
  peer : SOCKET -> W -> bytes;
  (** The bytes handed to the connection. *)
  sent : SOCKET -> W -> bytes;
  (** The connection is open, and stays so until the peer's last byte. *)
  is_open : SOCKET -> W -> Prop;
  (** [recv] waits for data, and returns some of the next bytes. *)
  recv_law s n w : is_open s w -> (0 < n)%nat ->
    is_open s (recv s n w).2
    /\ match (recv s n w).1 with
       | None => peer s w = [] /\ peer s (recv s n w).2 = []
       | Some r => peer s w = r ++ peer s (recv s n w).2 /\ (0 < length r <= n)%nat
       end;
  (** It touches nothing else. *)
  recv_frame_law s n w s' :
    sent s' (recv s n w).2 = sent s' w
    /\ (s' <> s -> peer s' (recv s n w).2 = peer s' w
                   /\ (is_open s' w -> is_open s' (recv s n w).2));
  (** [send] takes a first part of the data, of the length it returns. *)
  send_law s data n w : data <> [] -> n <= Z.of_nat (length data) ->
    sent s (send s data n w).2
    = sent s w ++ take (Z.to_nat (Z.max 0 (send s data n w).1)) data
    /\ (send s data n w).1 <= Z.of_nat (length data);
  send_frame_law s data n w s' :
    peer s' (send s data n w).2 = peer s' w
    /\ (s' <> s -> sent s' (send s data n w).2 = sent s' w)
    /\ (is_open s' w -> is_open s' (send s data n w).2);
  (** Closing a connection leaves the others alone. *)
  close_law s w s' : s' <> s ->
    peer s' (close s w) = peer s' w /\ sent s' (close s w) = sent s' w
    /\ (is_open s' w -> is_open s' (close s w));
}.
#[export] Hint Mode WinsockLaws ! - : typeclass_instances.

Section net_lemmas.
Context {W : Type} `{!Winsock W, !WinsockLaws W}.
Implicit Types (s : SOCKET) (w : W).

(** Only the stream of [s] was read. *)
Definition unread s w w' : Prop :=
  forall s', sent s' w' = sent s' w
    /\ (s' <> s -> peer s' w' = peer s' w /\ (is_open s' w -> is_open s' w')).

(** A [send] of [bs] on [s] fails when [s] has been sent what it has in [w]. *)
Definition send_refused s bs w : Prop :=
  exists w0, sent s w0 = sent s w /\ (send s bs (send_len bs) w0).1 <= 0.

(** Exactly [bs] was sent on [s], or the first part of it up to a [send] that failed. *)
Definition delivered s bs w w' : Prop :=
  exists k, sent s w' = sent s w ++ take k bs
    /\ (k = length bs \/ (k < length bs)%nat /\ send_refused s (drop k bs) w').

(** No [send] of [bs], or of what is left of it, fails on [s]. *)
Definition accepts s bs : Prop :=
  forall k w, (k < length bs)%nat -> 0 < (send s (drop k bs) (send_len (drop k bs)) w).1.

(** There the whole of it was sent. *)
Lemma delivered_whole s bs w w' :
  delivered s bs w w' -> accepts s bs -> sent s w' = sent s w ++ bs.
Proof.
  intros (k & E & [->|[Hk (w0 & _ & Hf)]]) Hs; [by rewrite firstn_all in E|].
  specialize (Hs k w0 Hk). lia.
Qed.

Lemma delivered_after s bs w w1 w' : sent s w1 = sent s w -> delivered s bs w1 w' -> delivered s bs w w'.
Proof. intros E (k & Hk & Hc). exists k. by rewrite Hk, E. Qed.

Lemma delivered_before s bs w w1 w' : sent s w' = sent s w1 -> delivered s bs w w1 -> delivered s bs w w'.
Proof.
  intros E (k & Hk & Hc). exists k. split; [congruence|]. destruct Hc as [?|[? (w0 & E0 & Hf)]]; [by left|].
  right. split; [done|]. exists w0. by rewrite E.
Qed.

(** Only [bs] was sent, on [s]. *)
Definition wrote s bs w w' : Prop :=
  sent s w' = sent s w ++ bs
  /\ forall s', peer s' w' = peer s' w /\ (s' <> s -> sent s' w' = sent s' w)
      /\ (is_open s' w -> is_open s' w').

Lemma unread_refl s w : unread s w w.
Proof. done. Qed.

Lemma unread_trans s w1 w2 w3 : unread s w1 w2 -> unread s w2 w3 -> unread s w1 w3.
Proof.
  intros H1 H2 s'. destruct (H1 s') as [E1 F1], (H2 s') as [E2 F2]. split; [congruence|].
  intros Hne. destruct (F1 Hne) as [P1 O1], (F2 Hne) as [P2 O2]. split; [congruence|auto].
Qed.

Lemma wrote_refl s w : wrote s [] w w.
Proof. split; [by rewrite app_nil_r|done]. Qed.

Lemma wrote_trans s l1 l2 w1 w2 w3 :
  wrote s l1 w1 w2 -> wrote s l2 w2 w3 -> wrote s (l1 ++ l2) w1 w3.
Proof.
  intros [E1 F1] [E2 F2]. split; [by rewrite E2, E1, app_assoc|]. intros s'.
  destruct (F1 s') as (P1 & S1 & O1), (F2 s') as (P2 & S2 & O2).
  split_and!; [congruence| |auto]. intros Hne. rewrite S2, S1; done.
Qed.

Lemma recv_loop_spec s fuel n got w :
  is_open s w -> (n <= fuel)%nat ->
  exists w', recv_loop s fuel n got w =
      ((if (n <=? length (peer s w))%nat then Some (got ++ take n (peer s w)) else None), w')
    /\ is_open s w' /\ unread s w w' /\ peer s w' = drop n (peer s w).
Proof.
  revert n got w. induction fuel as [|fuel IH]; intros [|n] got w Ho Hf; try lia.
  1, 2: exists w; rewrite take_0, app_nil_r; auto using unread_refl.
  cbn [recv_loop]. pose proof (recv_law s (S n) w Ho ltac:(lia)) as [Ho1 Hr].
  pose proof (recv_frame_law s (S n) w : unread s w _) as Hu.
  destruct (recv s (S n) w) as [[r|] w1]; cbn [fst snd] in *.
  - destruct Hr as (E & Hl).
    destruct (IH (S n - length r)%nat (got ++ r) w1) as (w' & -> & Ho' & Hu' & Es'); [done|lia|].
    exists w'. rewrite E. split_and!; [|done|by eapply unread_trans|].
    + rewrite length_app, <- app_assoc, take_app_ge by lia. f_equal.
      destruct (Nat.leb_spec (S n - length r) (length (peer s w1)));
        destruct (Nat.leb_spec (S n) (length r + length (peer s w1))); auto; lia.
    + by rewrite drop_app_ge by lia.
  - destruct Hr as [E E1]. exists w1. by rewrite E, E1.
Qed.

(** Reading never touches the other connections, whatever comes. *)
Lemma recv_loop_unread s fuel n got w : unread s w (recv_loop s fuel n got w).2.
Proof.
  revert n got w. induction fuel as [|fuel IH]; intros [|n] got w; try apply unread_refl.
  cbn [recv_loop]. pose proof (recv_frame_law s (S n) w : unread s w _) as Hu.
  destruct (recv s (S n) w) as [[r|] w1]; cbn [snd] in *; [|done]. by eapply unread_trans.
Qed.

Lemma recv_exact_unread s n w o w' : recv_exact s n w = (o, w') -> unread s w w'.
Proof. intros E. pose proof (recv_loop_unread s n n [] w) as Hu. unfold recv_exact in E. by rewrite E in Hu. Qed.

Lemma recv_frame_unread s w o w' : recv_frame s w = (o, w') -> unread s w w'.
Proof.
  unfold recv_frame. intros E.
  destruct (recv_exact s 13 w) as [[hb|] w1] eqn:E1; apply recv_exact_unread in E1;
    [|by injection E as <- <-].
  destruct (check_header hb) as [len|]; [|by injection E as <- <-].
  destruct (recv_exact s (Z.to_nat len) w1) as [[p|] w2] eqn:E2; apply recv_exact_unread in E2;
    [|injection E as <- <-; by eapply unread_trans].
  destruct (recv_exact s 4 w2) as [[c|] w3] eqn:E3; apply recv_exact_unread in E3;
    injection E as <- <-; eauto using unread_trans.
Qed.

Lemma recv_exact_spec s n w :
  is_open s w ->
  exists w', recv_exact s n w =
      ((if (n <=? length (peer s w))%nat then Some (take n (peer s w)) else None), w')
    /\ is_open s w' /\ unread s w w' /\ peer s w' = drop n (peer s w).
Proof. intros Ho. exact (recv_loop_spec s n n [] w Ho (Nat.le_refl n)). Qed.

(** The common case: the bytes asked for are the next ones. *)
Lemma recv_exact_app s w l rest :
  is_open s w -> peer s w = l ++ rest ->
  exists w', recv_exact s (length l) w = (Some l, w') /\ is_open s w' /\ unread s w w'
    /\ peer s w' = rest.
Proof.
  intros Ho E. destruct (recv_exact_spec s (length l) w Ho) as (w' & Er & Ho' & Hr & Es).
  exists w'. rewrite Er, Es, E, take_app_length, drop_app_length, length_app.
  by destruct (Nat.leb_spec (length l) (length l + length rest)); [|lia].
Qed.

Lemma recv_exact_inv s n w l w' :
  is_open s w -> recv_exact s n w = (l, w') ->
  is_open s w' /\ unread s w w'
  /\ forall l', l = Some l' -> peer s w = l' ++ peer s w' /\ length l' = n.
Proof.
  intros Ho E. destruct (recv_exact_spec s n w Ho) as (w1 & Er & Ho' & Hr & Es).
  rewrite Er in E. injection E as <- <-. split_and!; [done..|]. intros l' El.
  destruct (Nat.leb_spec n (length (peer s w))) as [Hn|]; [|done].
  injection El as <-. rewrite Es, take_drop, length_take. split; [done|lia].
Qed.

(** The cast to [int] never makes the length larger. *)
Lemma send_len_le data : send_len data <= Z.of_nat (length data).
Proof.
  unfold send_len, int_of_size, i32_of_u32.
  pose proof (Z.mod_pos_bound (Z.of_nat (length data)) U32 ltac:(done)) as Hb.
  pose proof (Z.mod_le (Z.of_nat (length data)) U32 ltac:(lia) ltac:(done)) as Hle.
  unfold U32 in *. case_match; lia.
Qed.

Lemma send_loop_spec s fuel data w :
  (length data <= fuel)%nat ->
  exists (ok : bool) (w' : W) (k : nat), send_loop s fuel data w = (ok, w')
    /\ wrote s (take k data) w w'
    /\ (if ok then k = length data else (k < length data)%nat /\ send_refused s (drop k data) w').
Proof.
  revert data w. induction fuel as [|fuel IH]; intros [|b data0] w Hf.
  1, 3: exists true, w, 0%nat; rewrite take_0; auto using wrote_refl.
  { simpl in Hf. lia. }
  cbn [send_loop]. set (data := b :: data0) in *. assert (Hl : (0 < length data)%nat) by (simpl; lia).
  assert (Hd : data <> []) by done. clearbody data.
  pose proof (send_law s data (send_len data) w Hd (send_len_le data)) as [Es Hn].
  pose proof (send_frame_law s data (send_len data) w) as Hfr.
  destruct (send s data (send_len data) w) as [n w1] eqn:En; cbn [fst snd] in *.
  assert (Hw1 : wrote s (take (Z.to_nat (Z.max 0 n)) data) w w1) by done.
  destruct (Z.leb_spec n 0) as [Hn0|Hn0].
  { replace (Z.to_nat (Z.max 0 n)) with 0%nat in Hw1, Es by lia. rewrite take_0, app_nil_r in Es.
    exists false, w1, 0%nat. split_and!; [done..|]. rewrite drop_0. exists w. by rewrite En. }
  rewrite Z.max_r in Hw1 by lia.
  destruct (IH (drop (Z.to_nat n) data) w1) as (ok & w' & k & -> & Hw' & Hk);
    [rewrite length_drop; lia|].
  exists ok, w', (Z.to_nat n + k)%nat. split_and!; [done| |].
  - rewrite <- (take_drop (Z.to_nat n) (take (Z.to_nat n + k) data)).
    rewrite take_take, skipn_firstn_comm, (Nat.min_l (Z.to_nat n)), Nat.add_comm, Nat.add_sub by lia.
    by eapply wrote_trans.
  - rewrite length_drop in Hk. destruct ok; [lia|]. rewrite drop_drop in Hk. split; [lia|apply Hk].
Qed.

Lemma send_frame_spec s type payload w ok w' :
  send_frame s type payload w = (ok, w') ->
  exists k, wrote s (take k (encode type payload)) w w'
    /\ (if ok then k = length (encode type payload)
        else (k < length (encode type payload))%nat /\ send_refused s (drop k (encode type payload)) w').
Proof.
  unfold send_frame, send_exact. intros E.
  destruct (send_loop_spec s _ (encode type payload) w (Nat.le_refl _)) as (ok' & w1 & k & E' & Hw & Hk).
  rewrite E in E'. injection E' as <- <-. by exists k.
Qed.

Lemma send_frame_wrote s type payload w :
  exists k, wrote s (take k (encode type payload)) w (send_frame s type payload w).2.
Proof.
  destruct (send_frame s type payload w) as [ok w'] eqn:E.
  by apply send_frame_spec in E as (k & Hw & _); exists k.
Qed.

Lemma send_frame_delivered s type payload w :
  delivered s (encode type payload) w (send_frame s type payload w).2.
Proof.
  destruct (send_frame s type payload w) as [ok w'] eqn:E.
  apply send_frame_spec in E as (k & [Hw _] & Hk). exists k. split; [done|]. destruct ok; auto.
Qed.

(** Closing a connection. *)
Lemma shutdown_sock_spec s w s' :
  s' <> s ->
  peer s' (shutdown_sock s w) = peer s' w /\ sent s' (shutdown_sock s w) = sent s' w
  /\ (is_open s' w -> is_open s' (shutdown_sock s w)).
Proof. intros Hne. unfold shutdown_sock. destruct (s =? INVALID_SOCKET); [done|]. by apply close_law. Qed.

Lemma send_frame_true s type payload w w' :
  send_frame s type payload w = (true, w') -> wrote s (encode type payload) w w'.
Proof. intros (k & Hw & ->)%send_frame_spec. by rewrite firstn_all in Hw. Qed.

(** ** Receiving a frame *)

Lemma check_header_put t len :
  is_byte t -> 0 <= len < U32 ->
  check_header (put_u32 kMagic ++ put_u32 kVersion ++ t :: put_u32 len)
  = if len >? kMaxFrame then None else Some len.
Proof.
  intros Ht Hlen. unfold check_header.
  rewrite take_u32_put by (unfold kMagic, U32; lia). unfold with_take at 1.
  rewrite Z.eqb_refl. simpl negb. cbv iota.
  rewrite take_u32_put by (unfold kVersion, U32; lia). unfold with_take at 1.
  rewrite Z.eqb_refl. simpl negb. cbv iota. unfold take_u8, with_take at 1.
  rewrite <- (app_nil_r (put_u32 len)), take_u32_put by done. reflexivity.
Qed.

(** The 13 bytes [recv_frame] reads first. *)
Definition frame_header (f : Frame) : bytes :=
  put_u32 kMagic ++ put_u32 kVersion ++ Msg.to_u8 (frame_type f)
    :: put_u32 (Z.of_nat (length (frame_payload f))).

Lemma check_frame_header f :
  frame_ok f -> check_header (frame_header f) = Some (Z.of_nat (length (frame_payload f))).
Proof.
  intros Hf. pose proof (fo_size f Hf) as Hs. destruct (fo_type f Hf) as [Ht _].
  unfold kMaxFrame in Hs. unfold frame_header.
  rewrite check_header_put by (try done; unfold U32; lia).
  by destruct (Z.gtb_spec (Z.of_nat (length (frame_payload f))) kMaxFrame); [unfold kMaxFrame in *; lia|].
Qed.

Lemma check_header_bound hb len : bytes_ok hb -> check_header hb = Some len -> 0 <= len.
Proof.
  intros Hb H. unfold check_header in H.
  apply with_take_inv in H as (v & h1 & E1 & H). destruct (negb _) in H; [done|].
  apply (take_le_inv 4) in E1 as [-> _]; [|done]. apply Forall_app in Hb as [_ Hb].
  apply with_take_inv in H as (v' & h2 & E2 & H). destruct (negb _) in H; [done|].
  apply (take_le_inv 4) in E2 as [-> _]; [|done]. apply Forall_app in Hb as [_ Hb].
  apply with_take_inv in H as (t & h3 & E3 & H).
  destruct h2 as [|t' h2]; [done|]. injection E3 as -> ->. apply Forall_cons in Hb as [_ Hb].
  apply with_take_inv in H as (l & h4 & E4 & H). apply (take_le_inv 4) in E4 as [_ ?]; [|done].
  destruct (_ >? _); [done|]. injection H as <-. lia.
Qed.

Lemma frame_bytes_parts f :
  frame_ok f ->
  frame_bytes f = frame_header f ++ frame_payload f
                  ++ put_u32 (crc32 (frame_body (frame_type f) (frame_payload f))).
Proof.
  intros Hf. rewrite <- (app_nil_r (frame_bytes f)), frame_bytes_split by done.
  unfold frame_header. rewrite app_nil_r, <- !app_assoc. reflexivity.
Qed.

Lemma recv_frame_complete s f w rest :
  frame_ok f -> is_open s w -> peer s w = frame_bytes f ++ rest ->
  exists w', recv_frame s w = (Some f, w') /\ is_open s w' /\ unread s w w' /\ peer s w' = rest.
Proof.
  intros Hf Ho Es. rewrite frame_bytes_parts, <- !app_assoc in Es by done.
  set (crc := put_u32 (crc32 _)) in Es.
  destruct (recv_exact_app s w _ _ Ho Es) as (w1 & E1 & Ho1 & Hu1 & Es1).
  destruct (recv_exact_app s w1 _ _ Ho1 Es1) as (w2 & E2 & Ho2 & Hu2 & Es2).
  destruct (recv_exact_app s w2 _ _ Ho2 Es2) as (w3 & E3 & Ho3 & Hu3 & Es3).
  exists w3. change (length (frame_header f)) with 13%nat in E1. change (length crc) with 4%nat in E3.
  unfold recv_frame. rewrite E1, check_frame_header, Nat2Z.id, E2, E3 by done.
  unfold crc. rewrite <- frame_bytes_parts by done.
  rewrite <- (app_nil_r (frame_bytes f)), decode_frame by done.
  split_and!; [done..| |done]. eauto using unread_trans.
Qed.

Lemma decode_reassembled f n hb payload crcb :
  bytes_ok (hb ++ payload ++ crcb) -> length hb = 13%nat -> length crcb = 4%nat ->
  check_header hb = Some (Z.of_nat (length payload)) ->
  decode (hb ++ payload ++ crcb) = Some (f, n) -> frame_ok f /\ hb ++ payload ++ crcb = frame_bytes f.
Proof.
  intros Hb Hl1 Hl3 Eh Ed. destruct (decode_frame_inv _ _ _ Hb Ed) as (Hf & -> & rest & Er).
  split; [done|].
  assert (Hh : hb = frame_header f).
  { pose proof Er as Er'. rewrite frame_bytes_parts, <- app_assoc in Er' by done.
    by apply app_inj_1 in Er' as [? _]. }
  rewrite Hh, check_frame_header in Eh by done. injection Eh as Eh.
  assert (rest = []) as ->; [|by rewrite app_nil_r in Er].
  apply nil_length_inv. apply (f_equal length) in Er. rewrite !length_app in Er.
  unfold frame_bytes in Er. rewrite encode_length in Er. lia.
Qed.

Lemma recv_frame_inv s o w w' :
  is_open s w -> bytes_ok (peer s w) -> recv_frame s w = (o, w') ->
  is_open s w' /\ unread s w w'
  /\ forall f, o = Some f -> frame_ok f /\ peer s w = frame_bytes f ++ peer s w'.
Proof.
  intros Ho Hb E. unfold recv_frame in E.
  destruct (recv_exact s 13 w) as [o1 w1] eqn:E1.
  destruct (recv_exact_inv _ _ _ _ _ Ho E1) as (Ho1 & Hu1 & H1).
  destruct o1 as [hb|]; [|by injection E as <- <-]. destruct (H1 _ eq_refl) as [Es1 Hl1].
  destruct (check_header hb) as [len|] eqn:Eh; [|by injection E as <- <-].
  destruct (recv_exact s (Z.to_nat len) w1) as [o2 w2] eqn:E2.
  destruct (recv_exact_inv _ _ _ _ _ Ho1 E2) as (Ho2 & Hu2 & H2).
  assert (Hu12 : unread s w w2) by (by eapply unread_trans).
  destruct o2 as [payload|]; [|by injection E as <- <-]. destruct (H2 _ eq_refl) as [Es2 Hl2].
  destruct (recv_exact s 4 w2) as [o3 w3] eqn:E3.
  destruct (recv_exact_inv _ _ _ _ _ Ho2 E3) as (Ho3 & Hu3 & H3).
  assert (Hu13 : unread s w w3) by (by eapply unread_trans).
  destruct o3 as [crcb|]; [|by injection E as <- <-]. destruct (H3 _ eq_refl) as [Es3 Hl3].
  injection E as <- <-. split_and!; [done..|]. intros f Ef.
  destruct (decode (hb ++ payload ++ crcb)) as [[f' n]|] eqn:Ed; [|done]. injection Ef as ->.
  assert (Es : peer s w = (hb ++ payload ++ crcb) ++ peer s w3)
    by (rewrite Es1, Es2, Es3, <- !app_assoc; done).
  rewrite Es in Hb |- *. apply Forall_app in Hb as [Hb _].
  destruct (decode_reassembled f n hb payload crcb) as [Hf ->]; try done.
  assert (0 <= len); [|by rewrite Hl2, Z2Nat.id].
  eapply check_header_bound; [|done]. by apply Forall_app in Hb as [? _].
Qed.

(** ** Conversations *)

(** [send_frame] and [recv_frame] called once per message, stopping at a failure. *)
Fixpoint send_frames s (fs : list Frame) w : bool * W :=
  match fs with
  | [] => (true, w)
  | f :: fs' =>
      match send_frame s (frame_type f) (frame_payload f) w with
      | (true, w') => send_frames s fs' w'
      | (false, w') => (false, w')
      end
  end.

Fixpoint recv_frames s (n : nat) w : option (list Frame) * W :=
  match n with
  | O => (Some [], w)
  | S n' =>
      match recv_frame s w with
      | (Some f, w') =>
          match recv_frames s n' w' with
          | (Some fs, w'') => (Some (f :: fs), w'')
          | (None, w'') => (None, w'')
          end
      | (None, w') => (None, w')
      end
  end.

Lemma send_frames_wrote s fs w w' :
  send_frames s fs w = (true, w') -> wrote s (concat (frame_bytes <$> fs)) w w'.
Proof.
  revert w. induction fs as [|f fs IH]; intros w.
  - intros [= <-]. apply wrote_refl.
  - rewrite fmap_cons. cbn [concat send_frames].
    destruct (send_frame s _ _ w) as [[] w1] eqn:E; [|done]. intros E'.
    apply send_frame_true in E. eapply wrote_trans; [exact E|by apply IH].
Qed.

Lemma recv_frames_concat s fs w rest :
  Forall frame_ok fs -> is_open s w -> peer s w = concat (frame_bytes <$> fs) ++ rest ->
  exists w', recv_frames s (length fs) w = (Some fs, w') /\ unread s w w' /\ peer s w' = rest.
Proof.
  intros Hfs. revert w. induction Hfs as [|f fs Hf _ IH]; intros w Ho Es.
  - exists w. auto using unread_refl.
  - rewrite fmap_cons in Es. cbn [concat length recv_frames] in *. rewrite <- app_assoc in Es.
    destruct (recv_frame_complete s f w _ Hf Ho Es) as (w1 & -> & Ho1 & Hu1 & Es1).
    destruct (IH w1 Ho1 Es1) as (w2 & -> & Hu2 & Es2). exists w2. eauto using unread_trans.
Qed.

End net_lemmas.

(** ** A concrete network *)

(** A connection that delivers the segments of [sk_in] and whose [send] calls take the
    amounts of [sk_accept]; an empty segment, or none, is the end. *)
Record Socket : Set := mk_socket {
  sk_in : list bytes;
  sk_accept : list Z;
  sk_out : bytes;
}.

Definition closed_socket : Socket := mk_socket [] [] [].

Definition sock_recv (n : nat) (k : Socket) : option bytes * Socket :=
  match sk_in k with
  | [] => (None, k)
  | [] :: segs => (None, mk_socket segs (sk_accept k) (sk_out k))
  | seg :: segs =>
      (Some (take n seg),
       mk_socket (if (length seg <=? n)%nat then segs else drop n seg :: segs)
         (sk_accept k) (sk_out k))
  end.

Definition sock_send (data : bytes) (len : Z) (k : Socket) : Z * Socket :=
  match sk_accept k with
  | [] => (-1, k)
  | n :: ns =>
      if (n <=? 0) || (len <=? 0) then (-1, mk_socket (sk_in k) ns (sk_out k))
      else let n := Z.min n len in
           (n, mk_socket (sk_in k) ns (sk_out k ++ take (Z.to_nat n) data))
  end.

Definition sockets : Type := SOCKET -> Socket.

Definition at_socket {A} (f : Socket -> A * Socket) (s : SOCKET) (w : sockets) : A * sockets :=
  let '(a, k) := f (w s) in (a, fun s' => if s' =? s then k else w s').

#[export] Instance sockets_winsock : Winsock sockets := {
  recv s n := at_socket (sock_recv n) s;
  send s data len := at_socket (sock_send data len) s;
  close s w := fun s' => if s' =? s then closed_socket else w s';
}.

Definition open_segments (k : Socket) : Prop := Forall (fun seg => seg <> []) (sk_in k).

Lemma sock_recv_spec n k :
  open_segments k -> (0 < n)%nat ->
  open_segments (sock_recv n k).2
  /\ match (sock_recv n k).1 with
     | None => concat (sk_in k) = [] /\ concat (sk_in (sock_recv n k).2) = []
     | Some r => concat (sk_in k) = r ++ concat (sk_in (sock_recv n k).2) /\ (0 < length r <= n)%nat
     end.
Proof.
  destruct k as [[|[|b seg0] segs] acc out]; intros Ho Hn.
  - done.
  - by apply Forall_cons in Ho as [? _].
  - apply Forall_cons in Ho as [_ Ho]. unfold sock_recv, open_segments.
    cbn [sk_in sk_accept sk_out fst snd]. set (seg := b :: seg0) in *.
    assert (Hl : (0 < length seg)%nat) by (simpl; lia). clearbody seg.
    destruct (Nat.leb_spec (length seg) n) as [Hle|Hgt].
    + rewrite take_ge by done. split_and!; [done..| |]; lia.
    + split_and!; [constructor; [|done]| | |].
      * intros E. apply (f_equal length) in E. rewrite length_drop in E. cbn [length] in E. lia.
      * cbn [concat]. by rewrite app_assoc, take_drop.
      * rewrite length_take. lia.
      * rewrite length_take. lia.
Qed.

Lemma sock_recv_out n k : sk_out (sock_recv n k).2 = sk_out k.
Proof. unfold sock_recv. by repeat case_match. Qed.

Lemma sock_send_spec data len k :
  len <= Z.of_nat (length data) ->
  sk_out (sock_send data len k).2
    = sk_out k ++ take (Z.to_nat (Z.max 0 (sock_send data len k).1)) data
  /\ (sock_send data len k).1 <= Z.of_nat (length data).
Proof.
  intros Hlen. unfold sock_send. destruct (sk_accept k) as [|n ns]; simpl;
    [|destruct (Z.leb_spec n 0), (Z.leb_spec len 0); simpl].
  all: try (rewrite app_nil_r; split_and!; [done|lia]).
  rewrite Z.max_r by lia. split_and!; [done|lia].
Qed.

Lemma sock_send_in data len k : sk_in (sock_send data len k).2 = sk_in k.
Proof. unfold sock_send. by repeat case_match. Qed.

#[export] Instance sockets_laws : WinsockLaws sockets.
Proof.
  refine {| peer s w := concat (sk_in (w s)); sent s w := sk_out (w s);
            is_open s w := open_segments (w s) |}; simpl; unfold at_socket.
  - intros s n w Ho Hn. pose proof (sock_recv_spec n (w s) Ho Hn) as Hr.
    destruct (sock_recv n (w s)) as [[r|] k]; simpl in *; by rewrite !Z.eqb_refl.
  - intros s n w s'. pose proof (sock_recv_out n (w s)) as Hr.
    destruct (sock_recv n (w s)) as [r k]; simpl in *.
    by destruct (Z.eqb_spec s' s) as [->|].
  - intros s data len w _ Hlen. pose proof (sock_send_spec data len (w s) Hlen) as (Ho & Hn).
    destruct (sock_send data len (w s)) as [n k]; simpl in *. by rewrite !Z.eqb_refl.
  - intros s data len w s'. pose proof (sock_send_in data len (w s)) as Hi.
    destruct (sock_send data len (w s)) as [n k]; simpl in *. unfold open_segments.
    destruct (Z.eqb_spec s' s) as [->|]; [rewrite Hi|]; done.
  - intros s w s' Hne. by destruct (Z.eqb_spec s' s) as [->|].
Defined.
