(* ===== verification/Sockets.v ===== *)
(** Opening sockets: the set-up functions of src/net.hpp ([init], [listen_loopback],
    [connect_loopback]) over a class of Winsock calls, and what they promise: a call that
    fails leaves no socket behind, and a listener knows its port. *)
From S2P Require Import Prelude Words Bytes Protocol Net.
Open Scope Z_scope.

(** The calls, on the network [W] as this process sees it.  A port is passed and returned in
    network byte order. *)
Class SocketCalls (W : Type) := {
  WSAStartup : Z -> W -> Z * W;
  (** [socket(AF_INET, SOCK_STREAM, IPPROTO_TCP)]. *)
  socket : W -> SOCKET * W;
  (** [setsockopt] with an [int] option set to true: level, option. *)
  setsockopt : SOCKET -> Z -> Z -> W -> Z * W;
  (** [bind], [connect] to 127.0.0.1 and the port. *)
  bind : SOCKET -> Z -> W -> Z * W;
  connect : SOCKET -> Z -> W -> Z * W;
  listen : SOCKET -> Z -> W -> Z * W;
  (** The [sin_port] that [getsockname] leaves in a zeroed address. *)
  getsockname : SOCKET -> W -> Z * W;
  closesocket : SOCKET -> W -> W;
}.
#[export] Hint Mode SocketCalls ! : typeclass_instances.

(** The two bytes of a 16-bit word, exchanged. *)
Definition htons (v : Z) : Z := v mod 2 ^ 8 * 2 ^ 8 + v / 2 ^ 8.
Definition ntohs (v : Z) : Z := htons v.

Definition SOL_SOCKET : Z := 0xFFFF.
Definition SO_REUSEADDR : Z := 4.
Definition IPPROTO_TCP : Z := 6.
Definition TCP_NODELAY : Z := 1.

(** [static_cast<u_short>] of an [int]. *)
Definition u16 (v : Z) : Z := v mod 2 ^ 16.

Section setup.
Context {W : Type} `{!SocketCalls W}.
Implicit Types (s : SOCKET) (w : W).

(** [WSAStartup(MAKEWORD(2, 2), &d) == 0]. *)
Definition init w : bool * W := let '(e, w) := WSAStartup 0x202 w in (e =? 0, w).

(** The socket and [*bound_port], or [INVALID_SOCKET] with the text of [*err]. *)
Definition listen_loopback (port : Z) w : (SOCKET * Z + string) * W :=
  let '(s, w) := socket w in
  if s =? INVALID_SOCKET then (inr "socket"%string, w)
  else
    let w := (setsockopt s SOL_SOCKET SO_REUSEADDR w).2 in
    let w := (setsockopt s IPPROTO_TCP TCP_NODELAY w).2 in
    let '(e, w) := bind s (htons (u16 port)) w in
    if negb (e =? 0) then (inr "bind"%string, closesocket s w)
    else
      let '(e, w) := listen s 8 w in
      if negb (e =? 0) then (inr "listen"%string, closesocket s w)
      else
        let '(p, w) := getsockname s w in
        (inl (s, ntohs p), w).

Definition connect_loopback (port : Z) w : (SOCKET + string) * W :=
  let '(s, w) := socket w in
  if s =? INVALID_SOCKET then (inr "socket"%string, w)
  else
    let '(e, w) := connect s (htons (u16 port)) w in
    if negb (e =? 0) then (inr "connect"%string, closesocket s w)
    else
      let w := (setsockopt s IPPROTO_TCP TCP_NODELAY w).2 in
      (inl s, w).
End setup.

(** ** What Winsock promises about them *)

Class SocketLaws (W : Type) `{!Winsock W, !SocketCalls W} := {
  (** The sockets this process has open, and the port each is bound to. *)
  opened : W -> gset SOCKET;
  bound : SOCKET -> W -> option Z;
  opened_valid w : INVALID_SOCKET ∉ opened w;
  WSAStartup_law v w : opened (WSAStartup v w).2 = opened w;
  (** A new socket, or none. *)
  socket_law w :
    let '(s, w') := socket w in
    (s = INVALID_SOCKET /\ opened w' = opened w)
    \/ ((s ∉ opened w) /\ s <> INVALID_SOCKET /\ opened w' = {[s]} ∪ opened w);
  setsockopt_law s l o w :
    opened (setsockopt s l o w).2 = opened w
    /\ forall s', bound s' (setsockopt s l o w).2 = bound s' w;
  (** Port 0 asks for any free port. *)
  bind_law s p w : 0 <= p < 2 ^ 16 ->
    let '(e, w') := bind s (htons p) w in
    opened w' = opened w
    /\ (e = 0 -> exists q, bound s w' = Some q /\ 0 < q < 2 ^ 16 /\ (p <> 0 -> q = p));
  connect_law s p w : opened (connect s p w).2 = opened w;
  listen_law s n w :
    opened (listen s n w).2 = opened w /\ forall s', bound s' (listen s n w).2 = bound s' w;
  getsockname_law s w :
    let '(p, w') := getsockname s w in
    opened w' = opened w /\ (forall s', bound s' w' = bound s' w)
    /\ forall q, bound s w = Some q -> p = htons q;
  closesocket_law s w : s ∈ opened w -> opened (closesocket s w) = opened w ∖ {[s]};
  (** The calls on a connection; [close] closes it too. *)
  recv_opened s n w : opened (recv s n w).2 = opened w;
  send_opened s data n w : opened (send s data n w).2 = opened w;
  close_opened s w : s ∈ opened w -> opened (close s w) = opened w ∖ {[s]};
}.
#[export] Hint Mode SocketLaws ! - - : typeclass_instances.

Lemma htons_involutive v : 0 <= v < 2 ^ 16 -> ntohs (htons v) = v.
Proof.
  intros Hv. unfold ntohs, htons. change (2 ^ 8) with 256. change (2 ^ 16) with 65536 in Hv.
  Z.to_euclidean_division_equations. lia.
Qed.

Section setup_lemmas.
Context {W : Type} `{!Winsock W, !SocketCalls W, !SocketLaws W}.
Implicit Types (s : SOCKET) (w : W).

Lemma init_opened w : opened (init w).2 = opened w.
Proof.
  unfold init. pose proof (WSAStartup_law 0x202 w) as Hl. by destruct (WSAStartup 0x202 w).
Qed.

Lemma u16_range v : 0 <= u16 v < 2 ^ 16.
Proof. by apply Z.mod_pos_bound. Qed.

(** A function that opens a socket, or fails without opening one. *)
Definition opens_one w (s : option SOCKET) (w' : W) : Prop :=
  match s with
  | Some s => s <> INVALID_SOCKET /\ (s ∉ opened w) /\ opened w' = {[s]} ∪ opened w
  | None => opened w' = opened w
  end.

Lemma closed_again s w w1 :
  (s ∉ opened w) -> opened w1 = {[s]} ∪ opened w -> opened (closesocket s w1) = opened w.
Proof. intros Hs Ho. rewrite closesocket_law; rewrite Ho; set_solver. Qed.

Lemma listen_loopback_spec port w :
  let '(r, w') := listen_loopback port w in
  opens_one w (match r with inl (s, _) => Some s | inr _ => None end) w'
  /\ match r with
     | inl (s, p) => bound s w' = Some p /\ 0 < p < 2 ^ 16 /\ (u16 port <> 0 -> p = u16 port)
     | inr e => e = "socket"%string \/ e = "bind"%string \/ e = "listen"%string
     end.
Proof.
  unfold listen_loopback. pose proof (socket_law w) as Hs. destruct (socket w) as [s w1].
  destruct (Z.eqb_spec s INVALID_SOCKET) as [->|Hne].
  { destruct Hs as [[_ Ho]|(_ & ? & _)]; [|done]. split; [done|by left]. }
  destruct Hs as [[? _]|(Hf & _ & Ho)]; [done|].
  destruct (setsockopt_law s SOL_SOCKET SO_REUSEADDR w1) as [Ho2 _].
  set (w2 := (setsockopt s SOL_SOCKET SO_REUSEADDR w1).2) in *.
  destruct (setsockopt_law s IPPROTO_TCP TCP_NODELAY w2) as [Ho3 _].
  set (w3 := (setsockopt s IPPROTO_TCP TCP_NODELAY w2).2) in *.
  pose proof (bind_law s (u16 port) w3 (u16_range port)) as Hb. destruct (bind s _ w3) as [e w4]. destruct Hb as [Ho4 Hb].
  assert (Hw4 : opened w4 = {[s]} ∪ opened w) by congruence.
  destruct (Z.eqb_spec e 0) as [He|He]; simpl.
  2: { split; [by apply (closed_again s)|by right; left]. }
  destruct (Hb He) as (q & Hq & Hqr & Hqp). destruct (listen_law s 8 w4) as [Ho5 Hb5].
  destruct (listen s 8 w4) as [e5 w5]. simpl in Ho5, Hb5.
  assert (Hw5 : opened w5 = {[s]} ∪ opened w) by congruence.
  destruct (Z.eqb_spec e5 0) as [He5|He5]; simpl.
  2: { split; [by apply (closed_again s)|by right; right]. }
  pose proof (getsockname_law s w5) as Hg. destruct (getsockname s w5) as [p w6].
  destruct Hg as (Ho6 & Hb6 & Hg). rewrite Hb5 in Hg. rewrite (Hg _ Hq), htons_involutive by lia.
  split; [split; [done|split; [done|congruence]]|]. by rewrite Hb6, Hb5.
Qed.

Lemma connect_loopback_spec port w :
  let '(r, w') := connect_loopback port w in
  opens_one w (match r with inl s => Some s | inr _ => None end) w'
  /\ match r with inl _ => True | inr e => e = "socket"%string \/ e = "connect"%string end.
Proof.
  unfold connect_loopback. pose proof (socket_law w) as Hs. destruct (socket w) as [s w1].
  destruct (Z.eqb_spec s INVALID_SOCKET) as [->|Hne].
  { destruct Hs as [[_ Ho]|(_ & ? & _)]; [|done]. split; [done|by left]. }
  destruct Hs as [[? _]|(Hf & _ & Ho)]; [done|].
  pose proof (connect_law s (htons (u16 port)) w1) as Hc. destruct (connect s _ w1) as [e w2]. simpl in Hc.
  destruct (Z.eqb_spec e 0) as [He|He]; simpl.
  2: { split; [apply (closed_again s); [done|congruence]|by right]. }
  destruct (setsockopt_law s IPPROTO_TCP TCP_NODELAY w2) as [Ho3 _].
  split; [split; [done|split; [done|congruence]]|done].
Qed.

(** ** The connection calls keep the sockets *)

Lemma send_loop_opened s fuel data w : opened (send_loop s fuel data w).2 = opened w.
Proof.
  revert data w. induction fuel as [|fuel IH]; intros [|b data] w; try done. cbn [send_loop].
  pose proof (send_opened s (b :: data) (send_len (b :: data)) w) as Ho.
  destruct (send s (b :: data) _ w) as [n w1].
  simpl in Ho. case_match; simpl; [done|]. by rewrite IH.
Qed.

Lemma send_frame_opened s type payload w : opened (send_frame s type payload w).2 = opened w.
Proof. apply send_loop_opened. Qed.

Lemma recv_loop_opened s fuel n got w : opened (recv_loop s fuel n got w).2 = opened w.
Proof.
  revert n got w. induction fuel as [|fuel IH]; intros [|n] got w; try done. cbn [recv_loop].
  pose proof (recv_opened s (S n) w) as Ho. destruct (recv s (S n) w) as [[r|] w1]; [|done].
  by rewrite IH.
Qed.

Lemma recv_exact_opened s n w o w' : recv_exact s n w = (o, w') -> opened w' = opened w.
Proof. intros E. pose proof (recv_loop_opened s n n [] w) as Ho. unfold recv_exact in E. by rewrite E in Ho. Qed.

Lemma recv_frame_opened s w o w' : recv_frame s w = (o, w') -> opened w' = opened w.
Proof.
  unfold recv_frame. intros E.
  destruct (recv_exact s 13 w) as [[hb|] w1] eqn:E1; apply recv_exact_opened in E1; [|congruence].
  destruct (check_header hb) as [len|]; [|congruence].
  destruct (recv_exact s (Z.to_nat len) w1) as [[p|] w2] eqn:E2; apply recv_exact_opened in E2; [|congruence].
  destruct (recv_exact s 4 w2) as [[c|] w3] eqn:E3; apply recv_exact_opened in E3; congruence.
Qed.
End setup_lemmas.

(** ** A concrete host *)

(** A network with the sockets that are open and the ports they are bound to; port 80 is
    taken, and a process has at most eight sockets. *)
Record demo_host : Type := mk_host {
  dh_net : sockets;
  dh_open : list SOCKET;
  dh_port : SOCKET -> option Z;
}.

Definition dh_close (s : SOCKET) (h : demo_host) : demo_host :=
  mk_host (close s (dh_net h)) (filter (fun q => q <> s) (dh_open h)) (dh_port h).

#[export] Instance demo_host_winsock : Winsock demo_host := {
  recv s n h := let '(r, w) := recv s n (dh_net h) in (r, mk_host w (dh_open h) (dh_port h));
  send s data n h := let '(r, w) := send s data n (dh_net h) in (r, mk_host w (dh_open h) (dh_port h));
  close s h := dh_close s h;
}.

#[export] Instance demo_host_calls : SocketCalls demo_host := {
  WSAStartup _ h := (0, h);
  socket h :=
    if (8 <=? length (dh_open h))%nat then (INVALID_SOCKET, h)
    else let s := foldr Z.max 0 (dh_open h) + 1 in
         (s, mk_host (dh_net h) (s :: dh_open h) (dh_port h));
  setsockopt _ _ _ h := (0, h);
  bind s p h :=
    if ntohs p =? 80 then (-1, h)
    else let q := if ntohs p =? 0 then 49152 else ntohs p in
         (0, mk_host (dh_net h) (dh_open h) (fun s' => if s' =? s then Some q else dh_port h s'));
  connect s p h := if ntohs p =? 80 then (0, h) else (-1, h);
  listen _ _ h := (0, h);
  getsockname s h := (match dh_port h s with Some q => htons q | None => 0 end, h);
  closesocket s h := dh_close s h;
}.

#[export] Instance demo_host_laws : SocketLaws demo_host.
Proof.
  refine {| opened h := list_to_set (dh_open h) ∖ {[INVALID_SOCKET]} : gset SOCKET;
            bound s h := dh_port h s |};
    cbn [WSAStartup socket setsockopt bind connect listen getsockname closesocket demo_host_calls
         recv send close demo_host_winsock].
  - set_solver.
  - done.
  - intros w. destruct (8 <=? length (dh_open w))%nat; [by left|]. right. set (s := foldr Z.max 0 (dh_open w) + 1).
    pose proof (max_nonneg (dh_open w)). assert (s <> INVALID_SOCKET) by (unfold s, INVALID_SOCKET; lia).
    split; [|split; [done|simpl; set_solver]].
    intros [Hs%elem_of_list_to_set%max_bound _]%elem_of_difference. unfold s in Hs. lia.
  - done.
  - intros s p w Hp. rewrite htons_involutive by done. destruct (Z.eqb_spec p 80); [done|].
    split; [done|]. intros _. simpl. rewrite Z.eqb_refl. eexists. split; [done|].
    destruct (Z.eqb_spec p 0); lia.
  - intros s p w. by destruct (_ =? 80).
  - done.
  - intros s w. split; [done|]. split; [done|]. by intros q ->.
  - intros s w _. simpl. apply set_eq. intros q.
    rewrite !elem_of_difference, !elem_of_list_to_set, list_elem_of_filter, !elem_of_singleton. naive_solver.
  - intros s n w. simpl. by destruct (at_socket _ _ _).
  - intros s data n w. simpl. by destruct (at_socket _ _ _).
  - intros s w _. simpl. apply set_eq. intros q.
    rewrite !elem_of_difference, !elem_of_list_to_set, list_elem_of_filter, !elem_of_singleton. naive_solver.
Defined.

(** A host on which nothing is open, with room to send. *)
Definition idle_host : demo_host := mk_host (fun _ => mk_socket [] [4096; 4096; 4096] []) [] (fun _ => None).
