(* ===== verification/WireProps.v ===== *)
(** What the framing guarantees: an exact codec, delivery in order over any stream, and
    detection of damaged frames. *)
From S2P Require Import Prelude Words Bytes Protocol Net.
Open Scope Z_scope.

Definition demo_frame (payload : bytes) : Frame := mk_frame Msg.RELEASE payload.

Lemma demo_frame_ok payload :
  bytes_ok payload -> Z.of_nat (length payload) <= kMaxFrame -> frame_ok (demo_frame payload).
Proof. intros Hb Hl. constructor; simpl; [split; [unfold is_byte; lia|done]|done|done]. Qed.

Lemma demo_payload_ok : bytes_ok [1; 2; 3].
Proof. repeat constructor; unfold is_byte; lia. Qed.

(** C25: the codec is exact.  On a buffer of bytes, [decode] answers a frame and a
    length exactly when the buffer starts with the encoding of that frame, the frame is
    within the payload bound, and the length is that of the encoding; what follows the
    frame in the buffer does not matter. *)
Theorem frame_codec buf f n :
  bytes_ok buf ->
  decode buf = Some (f, n)
  <-> frame_ok f /\ n = frame_size f
      /\ exists rest, buf = encode (frame_type f) (frame_payload f) ++ rest.
Proof.
  intros Hb. split; [by apply decode_frame_inv|]. intros (Hf & -> & rest & ->). by apply decode_frame.
Qed.

Lemma frame_codec_witness :
  decode (encode Msg.RELEASE [1; 2; 3] ++ [7; 7]) = Some (demo_frame [1; 2; 3], 20).
Proof.
  apply frame_codec.
  - apply Forall_app. split; [|repeat constructor; unfold is_byte; lia].
    by apply (frame_bytes_ok (demo_frame [1; 2; 3])), demo_frame_ok; [apply demo_payload_ok|].
  - split_and!; [apply demo_frame_ok; [apply demo_payload_ok|done]|done|by exists [7; 7]].
Defined.

(** C26: frames arrive as they were sent.  If every [send_frame] of a sequence
    succeeds, whatever short writes the sender saw, then the bytes it handed to the
    network are such that any receiver that gets them on an open connection, cut into
    segments in any way and followed by anything, reads back exactly these frames in
    this order and is left with what follows. *)
Theorem stream_delivery {W V} `{WinsockLaws W} `{WinsockLaws V} fs s c (w w' : W) :
  Forall frame_ok fs -> send_frames s fs w = (true, w') ->
  exists out, sent s w' = sent s w ++ out
    /\ forall (v : V) rest, is_open c v -> peer c v = out ++ rest ->
       exists v', recv_frames c (length fs) v = (Some fs, v') /\ peer c v' = rest.
Proof.
  intros Hfs E. exists (concat (frame_bytes <$> fs)).
  split; [by apply send_frames_wrote in E as [? _]|]. intros v rest Ho Es.
  destruct (recv_frames_concat c fs v rest Hfs Ho Es) as (v' & ? & _ & ?). by exists v'.
Qed.

(** A sender whose calls take 1, 2, 15 and 30 bytes at most. *)
Definition demo_sender : sockets := fun _ => mk_socket [] [1; 2; 15; 30; 30; 30] [].

Lemma stream_delivery_witness :
  exists out, sent 5 (send_frames 5 [demo_frame [1; 2; 3]; demo_frame []] demo_sender).2
              = sent 5 demo_sender ++ out
    /\ forall (v : sockets) rest, is_open 6 v -> peer 6 v = out ++ rest ->
       exists v', recv_frames 6 2 v = (Some [demo_frame [1; 2; 3]; demo_frame []], v')
                  /\ peer 6 v' = rest.
Proof.
  apply (stream_delivery [demo_frame [1; 2; 3]; demo_frame []]).
  - constructor; [apply demo_frame_ok; [apply demo_payload_ok|done]|].
    constructor; [apply demo_frame_ok; [constructor|done]|constructor].
  - rewrite (surjective_pairing (send_frames _ _ _)). f_equal.
Defined.

(** The receiver takes exactly one frame.  On a connection that stays
    open, [recv_frame] answers a frame exactly when the stream starts with the encoding of
    an acceptable frame; it then has consumed just that encoding, however the stream is
    segmented, and no other connection is touched.  Otherwise it fails. *)
Theorem recv_frame_exact {W} `{WinsockLaws W} s (w : W) :
  is_open s w -> bytes_ok (peer s w) ->
  unread s w (recv_frame s w).2
  /\ match (recv_frame s w).1 with
     | Some f => frame_ok f /\ peer s w = frame_bytes f ++ peer s (recv_frame s w).2
     | None => forall f rest, frame_ok f -> peer s w <> frame_bytes f ++ rest
     end.
Proof.
  intros Ho Hb. destruct (recv_frame s w) as [o w'] eqn:E.
  destruct (recv_frame_inv _ _ _ _ Ho Hb E) as (Ho' & Hu & Hf). split; [done|].
  destruct o as [f|]; simpl; [by apply Hf|]. intros f rest Hok Es.
  destruct (recv_frame_complete s f w rest Hok Ho Es) as (w1 & E1 & _). congruence.
Qed.

(** A frame that arrives as five bytes and the rest, on connection 6. *)
Definition demo_segments : sockets := fun _ =>
  mk_socket [take 5 (encode Msg.RELEASE [1]); drop 5 (encode Msg.RELEASE [1])] [] [].

Lemma recv_frame_exact_witness :
  unread 6 demo_segments (recv_frame 6 demo_segments).2
  /\ match (recv_frame 6 demo_segments).1 with
     | Some f => frame_ok f
                 /\ peer 6 demo_segments = frame_bytes f ++ peer 6 (recv_frame 6 demo_segments).2
     | None => forall f rest, frame_ok f -> peer 6 demo_segments <> frame_bytes f ++ rest
     end.
Proof.
  apply recv_frame_exact.
  - by repeat constructor.
  - apply (frame_bytes_ok (demo_frame [1])), demo_frame_ok; [|done].
    repeat constructor; unfold is_byte; lia.
Defined.

Lemma take_differs n l1 x y (l2 : bytes) :
  (length l1 < n)%nat -> take n (l1 ++ x :: l2) = take n (l1 ++ y :: l2) -> x = y.
Proof.
  intros Hn E. apply (f_equal (fun l => l !! length l1)) in E.
  rewrite !lookup_take_lt, !list_lookup_middle in E by done. congruence.
Qed.

(** A frame that differs in one byte, outside the length field, is as long. *)
Lemma same_length_field l1 x y l2 f f' rest :
  frame_ok f -> frame_ok f' -> frame_bytes f = l1 ++ x :: l2 ->
  frame_bytes f' ++ rest = l1 ++ y :: l2 -> ~ (9 <= length l1 < 13)%nat -> rest = [].
Proof.
  intros Hf Hf' E E' Hpos.
  destruct (frame_fields f Hf) as (_ & Hl & _). destruct (frame_fields f' Hf') as (_ & Hl' & _).
  assert (Hlen : forall g, length (frame_bytes g) = (17 + length (frame_payload g))%nat)
    by (intros g; apply encode_length).
  assert (Eq : length (frame_payload f) = length (frame_payload f')).
  { pose proof (fo_size f Hf) as Hs. pose proof (fo_size f' Hf') as Hs'. unfold kMaxFrame in *.
    assert (Ep : put_u32 (Z.of_nat (length (frame_payload f)))
                 = put_u32 (Z.of_nat (length (frame_payload f')))).
    { rewrite <- Hl, <- Hl', E. rewrite <- (take_app_le (drop 9 (frame_bytes f')) rest 4)
        by (rewrite length_drop, Hlen; lia).
      rewrite <- drop_app_le by (rewrite Hlen; lia). rewrite E'.
      destruct (decide (length l1 < 9)%nat) as [Hlt|].
      - rewrite !drop_app_ge by lia.
        destruct (9 - length l1)%nat as [|n] eqn:En; [lia|]. done.
      - rewrite !drop_app_le by lia. rewrite !take_app_le by (rewrite length_drop; lia). done. }
    apply (f_equal get_le) in Ep. unfold put_u32 in Ep.
    rewrite !get_put_le in Ep by (change (256 ^ Z.of_nat 4) with (2 ^ 32); lia). lia. }
  apply nil_length_inv. apply (f_equal length) in E, E'.
  rewrite Hlen, length_app, length_cons in E. rewrite !length_app, Hlen, length_cons in E'. lia.
Qed.

(** Damage is noticed.  If one byte of a frame is changed anywhere but in
    its length field, the buffer is refused.  The length field itself is not protected
    in this sense: the checksum is looked for where the damaged length says. *)
Theorem frame_corruption l1 x y l2 f :
  frame_ok f -> frame_bytes f = l1 ++ x :: l2 -> is_byte y -> x <> y ->
  ~ (9 <= length l1 < 13)%nat -> decode (l1 ++ y :: l2) = None.
Proof.
  intros Hf E Hy Hne Hpos. destruct (decode (l1 ++ y :: l2)) as [[f' n]|] eqn:Ed; [exfalso|done].
  pose proof (frame_bytes_ok f Hf) as Hb. rewrite E in Hb.
  assert (Hb' : bytes_ok (l1 ++ y :: l2)) by (by eapply bytes_ok_update).
  destruct (decode_frame_inv _ _ _ Hb' Ed) as (Hf' & _ & rest & E').
  destruct (frame_fields f Hf) as (Hm & Hl & Hse). destruct (frame_fields f' Hf') as (Hm' & Hl' & Hse').
  rewrite E in Hm, Hl, Hse.
  assert (rest = []) as ->.
  { by apply (same_length_field l1 x y l2 f f'). }
  rewrite app_nil_r in E'. rewrite <- E' in Hm', Hse'.
  destruct (decide (length l1 < 4)%nat) as [Hlt|Hge].
  - apply Hne, (take_differs 4 l1 x y l2); [done|congruence].
  - rewrite drop_app_le in Hse, Hse' by lia. revert Hse'. apply (sealed_corrupted _ x); auto.
    rewrite <- drop_app_le by lia. by apply Forall_drop.
Qed.

(** Byte 14 of a frame, which belongs to its payload, turned from 2 to 9. *)
Lemma frame_corruption_witness :
  decode (take 14 (encode Msg.RELEASE [1; 2; 3]) ++ 9 :: drop 15 (encode Msg.RELEASE [1; 2; 3])) = None.
Proof.
  apply (frame_corruption _ 2 9 _ (demo_frame [1; 2; 3])).
  - apply demo_frame_ok; [apply demo_payload_ok|done].
  - vm_compute. reflexivity.
  - unfold is_byte. lia.
  - lia.
  - vm_compute. lia.
Defined.

(** The payload holds the checksum of an empty frame: with the length set to zero, the
    buffer decodes to that empty frame. *)
Example length_field_unprotected :
  decode (<[9%nat := 0]> (encode Msg.RELEASE (put_u32 (crc32 (frame_body Msg.RELEASE [])))))
  = Some (demo_frame [], 17).
Proof. vm_compute. reflexivity. Qed.
