(* ===== verification/Coordinator.v ===== *)
(** The coordinator process: src/coordinator/coordinator.cpp.

    One turn of the [for (;;)] loop is a function of what [WSAPoll] and [accept] reported;
    the sockets are the parameter of Net.v.  What the loop has printed is part of its state. *)
From S2P Require Import Prelude Words Ordered Text Bytes Protocol Net.
Open Scope Z_scope.

Record AllocState : Set := mk_alloc_state {
  as_id : Z;
  as_gen : Z;
  as_boot : Z;
  as_bytes : Z;
  as_current : bool;
}.

(** The local variables of [main] that live across turns, and what the loop has printed, one
    element per [printf]. *)
Record Coordinator : Set := mk_coordinator {
  co_ls : SOCKET;
  co_ctrl : SOCKET;
  co_worker : SOCKET;
  co_worker_boot : Z;
  co_alloc : omap Z AllocState;
  co_out : list string;
}.

Definition Coordinator_new (ls : SOCKET) : Coordinator :=
  mk_coordinator ls INVALID_SOCKET INVALID_SOCKET 0 [] [].

Definition co_with_ctrl (c : SOCKET) (st : Coordinator) : Coordinator :=
  mk_coordinator (co_ls st) c (co_worker st) (co_worker_boot st) (co_alloc st) (co_out st).

Definition co_with_worker (c : SOCKET) (boot : Z) (st : Coordinator) : Coordinator :=
  mk_coordinator (co_ls st) (co_ctrl st) c boot (co_alloc st) (co_out st).

Definition co_with_alloc (m : omap Z AllocState) (st : Coordinator) : Coordinator :=
  mk_coordinator (co_ls st) (co_ctrl st) (co_worker st) (co_worker_boot st) m (co_out st).

(** [printf], with the [fflush] that follows it. *)
Definition co_print (s : string) (st : Coordinator) : Coordinator :=
  mk_coordinator (co_ls st) (co_ctrl st) (co_worker st) (co_worker_boot st) (co_alloc st)
    (co_out st ++ [s]).

(** A [take_*] call whose flag is ignored: the variable keeps its initial value. *)
Definition take_or {A} (d : A) (t : Taken A) : A * bytes := (default d t.1, t.2).

(** The payload of ALLOCATE_RESULT and RELEASE_RESULT. *)
Definition result_payload (idv genv status : Z) (e : string) : bytes :=
  append_str (append_u32 (append_u64 (append_u64 [] idv) genv) status) e.

(** [for (auto& kv : g_alloc) if (kv.second.boot == worker_boot) kv.second.current = false]. *)
Definition fence (boot : Z) (m : omap Z AllocState) : omap Z AllocState :=
  (fun e => (e.1, if as_boot e.2 =? boot
                  then mk_alloc_state (as_id e.2) (as_gen e.2) (as_boot e.2) (as_bytes e.2) false
                  else e.2)) <$> m.

(** What [WSAPoll] and [accept] report: an event on the listening socket, with the socket
    [accept] returns, and an event on the controller's socket. *)
Record Poll : Set := mk_poll { ev_listen : option SOCKET; ev_ctrl : bool }.

Inductive Turn (W : Type) : Type :=
  | Running (st : Coordinator) (w : W)
  | Exited (out : list string) (w : W).
Arguments Running {W}.
Arguments Exited {W}.

Definition registered_line (name : string) (boot pid : Z) : string :=
  line ("WORKER_REGISTERED name=" +:+ c_str name +:+ " boot=" +:+ pretty boot +:+ " pid=" +:+ pretty pid).
Definition dead_line : string := line "WORKER_DEAD".
Definition shutdown_line : string := line "COORDINATOR_SHUTDOWN".

Section coordinator.
Context {W : Type} `{!Winsock W}.
Implicit Types (st : Coordinator) (w : W).

(** [shutdown_sock(c); continue;] *)
Definition refuse (c : SOCKET) st w : bool * Coordinator * W := (false, st, shutdown_sock c w).

(** The branch of a new worker: REGISTER, then PUBLISH_CAPACITY. *)
Definition register_worker (c : SOCKET) st w : bool * Coordinator * W :=
  match recv_frame c w with
  | (None, w) => refuse c st w
  | (Some reg, w) =>
      match take_str (frame_payload reg) with
      | (None, _) => refuse c st w
      | (Some name, r1) =>
          match take_u64 r1 with
          | (None, _) => refuse c st w
          | (Some boot, r2) =>
              match take_u64 r2 with
              | (None, _) => refuse c st w
              | (Some pidv, _) =>
                  match recv_frame c w with
                  | (None, w) => refuse c st w
                  | (Some cap, w) =>
                      (true, co_print (registered_line name boot pidv) (co_with_worker c boot st),
                       shutdown_sock (co_worker st) w)
                  end
              end
          end
      end
  end.

(** The flag is false when the code continues with the next turn. *)
Definition accept_connection (c : SOCKET) st w : bool * Coordinator * W :=
  if c =? INVALID_SOCKET then (true, st, w)
  else
    match recv_frame c w with
    | (None, w) => refuse c st w
    | (Some hello, w) =>
        match take_u8 (frame_payload hello) with
        | (None, _) => refuse c st w
        | (Some role, _) =>
            if role =? 2 then register_worker c st w
            else (true, co_with_ctrl c st, shutdown_sock (co_ctrl st) w)
        end
    end.

Definition reply (type : Msg.t) (payload : bytes) st w : W :=
  (send_frame (co_ctrl st) type payload w).2.

(** The answer of the worker, when it is the one expected. *)
Definition recv_result (expected : Msg.t) st w : option Frame * W :=
  match recv_frame (co_worker st) w with
  | (Some res, w) => (if decide (frame_type res = expected) then Some res else None, w)
  | (None, w) => (None, w)
  end.

(** Status and text of a result frame, after its id and generation. *)
Definition take_status (payload : bytes) : Z * string :=
  let '(_, p) := take_or 0 (take_u64 payload) in
  let '(_, p) := take_or 0 (take_u64 p) in
  let '(status, p) := take_or 0 (take_u32 p) in
  (status, (take_or "" (take_str p)).1).

(** Three consecutive words of a request. *)
Definition take_three (payload : bytes) : Z * Z * Z :=
  let '(a, p) := take_or 0 (take_u64 payload) in
  let '(b, p) := take_or 0 (take_u64 p) in
  let '(c, _) := take_or 0 (take_u64 p) in
  (a, b, c).

Definition three_words (a b c : Z) : bytes := append_u64 (append_u64 (append_u64 [] a) b) c.

Definition on_allocate (payload : bytes) st w : Coordinator * W :=
  let '(idv, genv, bytes) := take_three payload in
  if (co_worker st =? INVALID_SOCKET) || (co_worker_boot st =? 0) then
    (st, reply Msg.ALLOCATE_RESULT (result_payload idv genv 0xFFFFFFFE "no worker") st w)
  else
    let w := (send_frame (co_worker st) Msg.ALLOCATE (three_words idv genv bytes) w).2 in
    match recv_result Msg.ALLOCATE_RESULT st w with
    | (None, w) =>
        let st := co_print dead_line st in
        let w := shutdown_sock (co_worker st) w in
        let st := co_with_worker INVALID_SOCKET 0
                    (co_with_alloc (fence (co_worker_boot st) (co_alloc st)) st) in
        (st, reply Msg.ALLOCATE_RESULT (result_payload idv genv 0xFFFFFFF6 "worker dead") st w)
    | (Some res, w) =>
        let '(status, e) := take_status (frame_payload res) in
        let a := mk_alloc_state idv genv (co_worker_boot st) bytes (status =? 0) in
        let st := co_with_alloc (om_set idv a (co_alloc st)) st in
        (st, reply Msg.ALLOCATE_RESULT (result_payload idv genv status e) st w)
    end.

Definition on_release (payload : bytes) st w : Coordinator * W :=
  let '(idv, genv, bootv) := take_three payload in
  let stale :=
    match om_find idv (co_alloc st) with
    | None => true
    | Some a => negb (as_gen a =? genv) || negb (as_boot a =? co_worker_boot st)
    end in
  let '(status, e, w) :=
    if stale then (u32_of_i32 (-1), "stale or unknown", w)
    else
      let w := (send_frame (co_worker st) Msg.RELEASE (three_words idv genv bootv) w).2 in
      match recv_result Msg.RELEASE_RESULT st w with
      | (None, w) => (u32_of_i32 (-10), "worker dead", w)
      | (Some res, w) =>
          let '(st, ee) := take_status (frame_payload res) in
          (u32_of_i32 (i32_of_u32 st), ee, w)
      end in
  (st, reply Msg.RELEASE_RESULT (result_payload idv genv status e) st w).

(** The loop of QUERY: both sums wrap at 64 bits. *)
Definition count_current (m : omap Z AllocState) : Z * Z :=
  fold_left (fun acc a => if as_current a then (add64 acc.1 (as_bytes a), add64 acc.2 1) else acc)
    (om_values m) (0, 0).

Definition on_query st w : Coordinator * W :=
  let '(committed, current) := count_current (co_alloc st) in
  (st, reply Msg.QUERY_RESULT (append_u64 (append_u64 [] committed) current) st w).

(** The dispatch on the type of a controller's frame; other types are ignored. *)
Definition on_request (f : Frame) st w : Turn W :=
  let continue (r : Coordinator * W) := Running r.1 r.2 in
  match frame_type f with
  | Msg.ALLOCATE => continue (on_allocate (frame_payload f) st w)
  | Msg.RELEASE => continue (on_release (frame_payload f) st w)
  | Msg.QUERY => continue (on_query st w)
  | Msg.SHUTDOWN =>
      Exited (co_out (co_print shutdown_line st))
        (shutdown_sock (co_ls st) (shutdown_sock (co_ctrl st) (shutdown_sock (co_worker st) w)))
  | _ => Running st w
  end.

(** The second poll entry is the controller that was connected when the turn began. *)
Definition turn (p : Poll) st w : Turn W :=
  let polled_ctrl := negb (co_ctrl st =? INVALID_SOCKET) in
  let '(go_on, st, w) :=
    match ev_listen p with Some c => accept_connection c st w | None => (true, st, w) end in
  if negb go_on then Running st w
  else if negb (co_ctrl st =? INVALID_SOCKET) && polled_ctrl && ev_ctrl p then
    match recv_frame (co_ctrl st) w with
    | (None, w) => Running (co_with_ctrl INVALID_SOCKET st) (shutdown_sock (co_ctrl st) w)
    | (Some f, w) => on_request f st w
    end
  else Running st w.

End coordinator.
