(* ===== verification/CoordinatorInv.v ===== *)
(** Lemmas on the coordinator's turns: what happens to its table, and what is sent where. *)
From S2P Require Import Prelude Words Ordered Bytes Protocol Net Coordinator.
Open Scope Z_scope.

(** ** Payloads *)

Lemma take_three_words a b c :
  in_u64 a -> in_u64 b -> in_u64 c -> take_three (three_words a b c) = (a, b, c).
Proof.
  intros Ha Hb Hc. unfold three_words, append_u64. rewrite app_nil_l, <- app_assoc.
  unfold take_three. rewrite take_u64_put by done. cbn [take_or default fst snd].
  rewrite take_u64_put by done. cbn [take_or default fst snd].
  rewrite <- (app_nil_r (put_u64 c)), take_u64_put by done. reflexivity.
Qed.

Lemma take_status_result idv genv status e :
  in_u64 idv -> in_u64 genv -> 0 <= status < U32 -> str_size e <= kMaxFrame ->
  take_status (result_payload idv genv status e) = (status, e).
Proof.
  intros Hi Hg Hs He.
  assert (E : result_payload idv genv status e
              = put_u64 idv ++ put_u64 genv ++ put_u32 status ++ append_str [] e ++ []).
  { unfold result_payload, append_str, append_u32, append_u64. by rewrite !app_nil_l, app_nil_r, <- !app_assoc. }
  rewrite E. unfold take_status. rewrite take_u64_put by done. cbn [take_or default fst snd].
  rewrite take_u64_put by done. cbn [take_or default fst snd].
  rewrite take_u32_put by done. cbn [take_or default fst snd]. by rewrite take_str_put.
Qed.

Lemma i32_u32 v : 0 <= v < U32 -> u32_of_i32 (i32_of_u32 v) = v.
Proof.
  intros Hv. unfold i32_of_u32, u32_of_i32. destruct (Z.ltb_spec v (2 ^ 31)).
  - by apply Z.mod_small.
  - replace (v - U32) with (v + (-1) * U32) by lia. rewrite Z.mod_add by done. by apply Z.mod_small.
Qed.

(** ** The table *)

Lemma fence_find boot m id :
  om_find id (fence boot m)
  = (fun a => if as_boot a =? boot
              then mk_alloc_state (as_id a) (as_gen a) (as_boot a) (as_bytes a) false
              else a) <$> om_find id m.
Proof.
  unfold fence. induction m as [|[k a] m IH]; [done|]. rewrite fmap_cons. cbn [om_find fst snd].
  by case_decide.
Qed.

(** How an entry of the table after some work relates to the table before: it is an old
    entry that may only have lost its currency, or it was made under the current boot. *)
Definition table_step (st st' : Coordinator) : Prop :=
  forall id a', om_find id (co_alloc st') = Some a' ->
    (exists a, om_find id (co_alloc st) = Some a /\ as_boot a' = as_boot a
               /\ (as_current a' = true -> as_current a = true))
    \/ as_boot a' = co_worker_boot st'.

Lemma table_same (st st' : Coordinator) : co_alloc st' = co_alloc st -> table_step st st'.
Proof. intros E id a'. rewrite E. eauto. Qed.

Section turns.
Context {W : Type} `{!Winsock W}.
Implicit Types (st : Coordinator) (w : W).

Lemma accept_alloc c st w go st' w' :
  accept_connection c st w = (go, st', w') -> co_alloc st' = co_alloc st.
Proof.
  unfold accept_connection, register_worker, refuse. intros E.
  repeat (case_match; simplify_eq/=; try done).
Qed.

Lemma on_allocate_table payload st w st' w' :
  on_allocate payload st w = (st', w') -> table_step st st'.
Proof.
  unfold on_allocate. destruct (take_three payload) as [[idv genv] n].
  destruct (_ || _); [intros [= <- <-]; by apply table_same|].
  destruct (recv_result _ _ _) as [[res|] w1].
  - destruct (take_status _) as [status e]. intros [= <- <-] id a'. simpl.
    destruct (decide (id = idv)) as [->|Hne].
    + rewrite om_find_set_eq. intros [= <-]. by right.
    + rewrite om_find_set_ne by done. eauto.
  - intros [= <- <-] id a'. simpl. rewrite fence_find.
    destruct (om_find id (co_alloc st)) as [a|]; [|done]. simpl. intros [= <-]. left. exists a.
    by destruct (as_boot a =? _).
Qed.

Lemma on_release_state payload st w : (on_release payload st w).1 = st.
Proof. unfold on_release. by repeat case_match. Qed.

Lemma on_query_state st w : (on_query st w).1 = st.
Proof. unfold on_query. by case_match. Qed.

Lemma on_request_table f st w st' w' : on_request f st w = Running st' w' -> table_step st st'.
Proof.
  unfold on_request. destruct (frame_type f); intros [= <- <-]; try by apply table_same.
  - by eapply on_allocate_table, surjective_pairing.
  - rewrite on_release_state. by apply table_same.
  - rewrite on_query_state. by apply table_same.
Qed.

Lemma turn_table p st w st' w' : turn p st w = Running st' w' -> table_step st st'.
Proof.
  unfold turn.
  set (r := match ev_listen p with Some c => _ | None => _ end).
  assert (Hr : co_alloc r.1.2 = co_alloc st).
  { unfold r. destruct (ev_listen p) as [c|]; [|done].
    destruct (accept_connection c st w) as [[go st1] w1] eqn:E. by apply accept_alloc in E. }
  destruct r as [[go st1] w1]. simpl in Hr.
  destruct (negb go); [intros [= <- <-]; by apply table_same|].
  destruct (_ && _); [|intros [= <- <-]; by apply table_same].
  destruct (recv_frame _ _) as [[f|] w2]; [|intros [= <- <-]; by apply table_same].
  intros E%on_request_table id a' Hf. rewrite <- Hr. by apply E.
Qed.

(** Turns during which no worker with boot [b] is the current one. *)
Inductive turns_without (b : Z) st w : Coordinator -> W -> Prop :=
  | turns_none : turns_without b st w st w
  | turns_more st1 w1 p st2 w2 :
      turns_without b st w st1 w1 -> turn p st1 w1 = Running st2 w2 -> co_worker_boot st2 <> b ->
      turns_without b st w st2 w2.

(** Nothing that boot [b] allocated counts as current. *)
Definition fenced (b : Z) st : Prop :=
  co_worker_boot st <> b
  /\ forall id a, om_find id (co_alloc st) = Some a -> as_boot a = b -> as_current a = false.

Lemma fenced_later b st w st' w' : turns_without b st w st' w' -> fenced b st -> fenced b st'.
Proof.
  intros Ht Hb. induction Ht as [|st1 w1 p st2 w2 _ IH E Hne]; [done|].
  split; [done|]. intros id a' Hf Ha. destruct (turn_table _ _ _ _ _ E id a' Hf) as [(a & Hf0 & Hb0 & Hc)|Hb'].
  - destruct (as_current a') eqn:Ec; [|done]. rewrite <- (proj2 IH id a Hf0) by congruence. symmetry. auto.
  - congruence.
Qed.

(** The worker is given up when an ALLOCATE it was sent goes unanswered. *)
Lemma on_allocate_death payload st w st' w' :
  on_allocate payload st w = (st', w') -> co_worker st <> INVALID_SOCKET ->
  co_worker st' = INVALID_SOCKET -> fenced (co_worker_boot st) st'.
Proof.
  unfold on_allocate. destruct (take_three payload) as [[idv genv] n].
  intros E Hw Hw'. revert E. destruct (Z.eqb_spec (co_worker st) INVALID_SOCKET); [done|].
  destruct (Z.eqb_spec (co_worker_boot st) 0) as [|Hb]; cbn [orb]; [by intros [= <- <-]|].
  destruct (recv_result _ _ _) as [[res|] w1].
  - destruct (take_status _) as [status e]. by intros [= <- <-].
  - intros [= <- <-]. split; [simpl; auto|]. intros id a'. simpl. rewrite fence_find.
    destruct (om_find id (co_alloc st)) as [a|]; [|done]. simpl. intros [= <-].
    destruct (Z.eqb_spec (as_boot a) (co_worker_boot st)); done.
Qed.

(** A RELEASE the coordinator refuses by itself. *)
Definition releasable st (idv genv : Z) : Prop :=
  exists a, om_find idv (co_alloc st) = Some a /\ as_gen a = genv /\ as_boot a = co_worker_boot st.

Lemma on_release_stale payload idv genv bootv st w :
  take_three payload = (idv, genv, bootv) -> ~ releasable st idv genv ->
  on_release payload st w
  = (st, reply Msg.RELEASE_RESULT (result_payload idv genv 0xFFFFFFFF "stale or unknown") st w).
Proof.
  intros E Hn. unfold on_release. rewrite E.
  destruct (om_find idv (co_alloc st)) as [a|] eqn:Ef; [|done].
  destruct (Z.eqb_spec (as_gen a) genv) as [Eg|]; [|done].
  destruct (Z.eqb_spec (as_boot a) (co_worker_boot st)) as [Eb|]; [|done].
  destruct Hn. by exists a.
Qed.

End turns.

(** ** With the promises of Winsock *)

Section exchanges.
Context {W : Type} `{!Winsock W, !WinsockLaws W}.
Implicit Types (st : Coordinator) (w : W).

Lemma recv_result_unread expected st w o w' :
  recv_result expected st w = (o, w') -> unread (co_worker st) w w'.
Proof.
  unfold recv_result. destruct (recv_frame _ w) as [[res|] w1] eqn:E; intros [= _ <-];
    by apply recv_frame_unread in E.
Qed.

Lemma reply_wrote type payload st w :
  exists k, wrote (co_ctrl st) (take k (encode type payload)) w (reply type payload st w).
Proof. apply send_frame_wrote. Qed.

(** Between [w] and [w'] exactly one answer was sent on [c]; only a [send] that fails on [c] cuts
    it short.  Other connections may have been used. *)
Definition one_answer (c : SOCKET) (type : Msg.t) (payload : bytes) w w' : Prop :=
  delivered c (encode type payload) w w'.

Lemma one_answer_after c type payload w w1 w' :
  sent c w1 = sent c w -> one_answer c type payload w1 w' -> one_answer c type payload w w'.
Proof. apply delivered_after. Qed.

Lemma reply_one_answer type payload st w :
  one_answer (co_ctrl st) type payload w (reply type payload st w).
Proof. apply send_frame_delivered. Qed.

(** Sending to another connection, and reading from one, leave [sent c] alone. *)
Lemma sent_other c s type payload w :
  c <> s -> sent c (send_frame s type payload w).2 = sent c w.
Proof. intros Hne. destruct (send_frame_wrote s type payload w) as (k & _ & Hf). by apply Hf. Qed.

Lemma sent_result c expected st w : sent c (recv_result expected st w).2 = sent c w.
Proof.
  destruct (recv_result expected st w) as [o w'] eqn:E. apply recv_result_unread in E.
  simpl. apply (E c).
Qed.

(** A peer's answer, read back after a request was sent to it. *)
Lemma exchange st w type payload expected o rest :
  is_open (co_worker st) w -> frame_ok (mk_frame expected o) ->
  peer (co_worker st) w = frame_bytes (mk_frame expected o) ++ rest ->
  exists w', recv_result expected st (send_frame (co_worker st) type payload w).2
             = (Some (mk_frame expected o), w')
    /\ delivered (co_worker st) (encode type payload) w w'
    /\ (forall c, c <> co_worker st -> sent c w' = sent c w).
Proof.
  intros Ho Hf Hp. destruct (send_frame_wrote (co_worker st) type payload w) as (k & _ & Hs).
  set (w1 := (send_frame (co_worker st) type payload w).2) in *.
  destruct (Hs (co_worker st)) as (Hp1 & _ & Ho1).
  destruct (recv_frame_complete (co_worker st) (mk_frame expected o) w1 rest) as (w2 & E & _ & Hu & _);
    [done|auto|by rewrite Hp1|].
  exists w2. unfold recv_result. rewrite E. cbn [frame_type]. rewrite decide_True by done.
  split_and!; [done| |].
  - eapply delivered_before; [|apply send_frame_delivered]. apply (proj1 (Hu _)).
  - intros c Hne. rewrite (proj1 (Hu _)). by apply (Hs c).
Qed.

(** ** One answer per request *)

Lemma result_payload_echo idv genv status e :
  exists rest, result_payload idv genv status e = put_u64 idv ++ put_u64 genv ++ rest.
Proof.
  unfold result_payload, append_str, append_u32, append_u64. rewrite app_nil_l, <- !app_assoc. eauto.
Qed.

Lemma on_allocate_answer payload idv genv n st w :
  take_three payload = (idv, genv, n) -> co_ctrl st <> co_worker st ->
  exists status e, one_answer (co_ctrl st) Msg.ALLOCATE_RESULT (result_payload idv genv status e)
                     w (on_allocate payload st w).2.
Proof.
  intros E Hne. unfold on_allocate. rewrite E. destruct (_ || _).
  { cbn [snd]. eexists _, _. apply reply_one_answer. }
  set (w1 := (send_frame _ _ _ w).2).
  pose proof (sent_result (co_ctrl st) Msg.ALLOCATE_RESULT st w1) as Hr.
  unfold w1 in Hr at 2. rewrite sent_other in Hr by done.
  destruct (recv_result _ st w1) as [[res|] w2]; cbn [snd] in Hr.
  - destruct (take_status _) as [status e]. cbn [snd]. exists status, e. eapply one_answer_after; [exact Hr|].
    by apply (reply_one_answer _ _ (co_with_alloc _ st)).
  - cbn [snd]. eexists _, _. eapply one_answer_after;
      [|apply (reply_one_answer _ _ (co_with_worker INVALID_SOCKET 0
                 (co_with_alloc (fence (co_worker_boot st) (co_alloc st)) (co_print dead_line st))))].
    rewrite <- Hr. by apply shutdown_sock_spec.
Qed.

Lemma on_release_answer payload idv genv bootv st w :
  take_three payload = (idv, genv, bootv) -> co_ctrl st <> co_worker st ->
  exists status e, one_answer (co_ctrl st) Msg.RELEASE_RESULT (result_payload idv genv status e)
                     w (on_release payload st w).2.
Proof.
  intros E Hne. unfold on_release. rewrite E.
  destruct (match om_find idv (co_alloc st) with Some _ => _ | None => _ end); [cbn [snd]; eexists _, _; apply reply_one_answer|].
  set (w1 := (send_frame _ _ _ w).2).
  pose proof (sent_result (co_ctrl st) Msg.RELEASE_RESULT st w1) as Hr.
  unfold w1 in Hr at 2. rewrite sent_other in Hr by done.
  destruct (recv_result _ st w1) as [[res|] w2]; cbn [snd] in Hr.
  - destruct (take_status _) as [status e]. cbn [snd]. eexists _, _.
    eapply one_answer_after; [exact Hr|apply reply_one_answer].
  - cbn [snd]. eexists _, _. eapply one_answer_after; [exact Hr|apply reply_one_answer].
Qed.

End exchanges.

(** ** The accounts of QUERY *)

Lemma add64_mod a b : add64 (a mod U64) b = (a + b) mod U64.
Proof. unfold add64. by rewrite Z.add_mod_idemp_l. Qed.

Lemma count_current_spec m :
  count_current m
  = (zsum (fun a => if as_current a then as_bytes a else 0) (om_values m) mod U64,
     zsum (fun a => if as_current a then 1 else 0) (om_values m) mod U64).
Proof.
  unfold count_current. generalize (om_values m) as l. intros l.
  change (0, 0) with (0 mod U64, 0 mod U64) at 1.
  assert (Hgen : forall x y, fold_left (fun acc a => if as_current a
      then (add64 acc.1 (as_bytes a), add64 acc.2 1) else acc) l (x mod U64, y mod U64)
    = ((x + zsum (fun a => if as_current a then as_bytes a else 0) l) mod U64,
       (y + zsum (fun a => if as_current a then 1 else 0) l) mod U64)).
  { induction l as [|a l IH]; intros x y; [by rewrite !zsum_nil, !Z.add_0_r|].
    rewrite fold_left_cons, !zsum_cons. destruct (as_current a).
    - cbn [fst snd]. rewrite !add64_mod, IH. f_equal; f_equal; lia.
    - rewrite IH. f_equal; f_equal; lia. }
  by rewrite Hgen.
Qed.
