(* ===== verification/Worker.v ===== *)
(** The worker process: src/worker/worker.cpp.

    The CUDA runtime is a parameter: [cudaMalloc] and [cudaFree] on a device state.  Here is
    the loop; the start of [main] is in Startup.v. *)
From S2P Require Import Prelude Words Ordered Text Bytes Protocol Net Coordinator Cuda.
Open Scope Z_scope.

(** [(pid << 32) | (t & 0xFFFFFFFF)]. *)
Definition fresh_boot (pid t : Z) : Z := Z.lor (Z.shiftl pid 32 mod U64) (Z.land t 0xFFFFFFFF).

Record Alloc : Set := mk_alloc { al_gen : Z; al_bytes : Z; al_ptr : Z }.

(** An exit comes with what the loop has printed: nothing before its end. *)
Inductive WorkerTurn (W D : Type) : Type :=
  | Working (allocs : omap Z Alloc) (w : W) (d : D)
  | WorkerExit (out : list string) (w : W) (d : D).
Arguments Working {W D}.
Arguments WorkerExit {W D}.

Section worker.
Context {D : Type} `{!Cuda D}.
Implicit Types (allocs : omap Z Alloc) (d : D).

(** The branch of ALLOCATE, up to the payload of the answer. *)
Definition worker_allocate (payload : bytes) allocs d : omap Z Alloc * D * bytes :=
  let '(id, gen, bytes) := take_three payload in
  match cudaMalloc bytes d with
  | (inr e, d) => (allocs, d, result_payload id gen (u32_of_i32 (-1)) e)
  | (inl ptr, d) => (om_set id (mk_alloc gen bytes ptr) allocs, d, result_payload id gen 0 "")
  end.

Definition worker_release (payload : bytes) allocs d : omap Z Alloc * D * bytes :=
  let '(id, gen, bootv) := take_three payload in
  match om_find id allocs with
  | Some a =>
      if negb (al_gen a =? gen)
      then (allocs, d, result_payload id gen (u32_of_i32 (-1)) "stale or unknown")
      else (om_erase id allocs, cudaFree (al_ptr a) d, result_payload id gen 0 "")
  | None => (allocs, d, result_payload id gen (u32_of_i32 (-1)) "stale or unknown")
  end.

(** The branch of SHUTDOWN. *)
Definition free_all allocs d : D := fold_left (fun d a => cudaFree (al_ptr a) d) (om_values allocs) d.

Section sockets.
Context {W : Type} `{!Winsock W}.
Implicit Types (s : SOCKET) (w : W).

(** HELLO, REGISTER and PUBLISH_CAPACITY. *)
Definition worker_register s (name : string) (boot pid freeb totalb : Z) (dev : string) w : W :=
  let w := (send_frame s Msg.HELLO (pack_u8 2) w).2 in
  let w := (send_frame s Msg.REGISTER (append_u64 (append_u64 (append_str [] name) boot) pid) w).2 in
  (send_frame s Msg.PUBLISH_CAPACITY (append_str (append_u64 (append_u64 [] freeb) totalb) dev) w).2.

Definition worker_request s (f : Frame) allocs w d : WorkerTurn W D :=
  match frame_type f with
  | Msg.ALLOCATE =>
      let '(allocs, d, o) := worker_allocate (frame_payload f) allocs d in
      Working allocs (send_frame s Msg.ALLOCATE_RESULT o w).2 d
  | Msg.RELEASE =>
      let '(allocs, d, o) := worker_release (frame_payload f) allocs d in
      Working allocs (send_frame s Msg.RELEASE_RESULT o w).2 d
  | Msg.SHUTDOWN => WorkerExit [] w (free_all allocs d)
  | _ => Working allocs w d
  end.

Definition worker_turn s allocs w d : WorkerTurn W D :=
  match recv_frame s w with
  | (None, w) => WorkerExit [line "WORKER_DISCONNECT"] w d
  | (Some f, w) => worker_request s f allocs w d
  end.

End sockets.
End worker.

(** ** Its device memory *)

Section worker_lemmas.
Context {D : Type} `{!Cuda D, !CudaLaws D}.
Implicit Types (allocs : omap Z Alloc) (d : D).

(** A pointer that may be passed to [cudaFree]. *)
Definition freeable d (p : Z) : Prop := p = 0 \/ p ∈ device d.

(** A sequence of [cudaFree] calls each of which gets such a pointer. *)
Fixpoint frees_ok (ps : list Z) d : Prop :=
  match ps with [] => True | p :: ps' => freeable d p /\ frees_ok ps' (cudaFree p d) end.

Definition ptrs allocs : list Z := al_ptr <$> om_values allocs.

(** Two entries never hold the same pointer, null apart. *)
Definition distinct (ps : list Z) : Prop := NoDup (filter (fun p => p <> 0) ps).

(** The table owns its pointers. *)
Record worker_inv allocs d : Prop := {
  wi_ok : om_ok allocs;
  wi_held : Forall (freeable d) (ptrs allocs);
  wi_once : distinct (ptrs allocs);
}.

Lemma distinct_cons p ps : distinct (p :: ps) <-> (p = 0 \/ p ∉ ps) /\ distinct ps.
Proof.
  unfold distinct. rewrite filter_cons. destruct (decide (p <> 0)) as [Hp|Hp].
  - rewrite NoDup_cons, list_elem_of_filter. naive_solver.
  - split; [|naive_solver]. intros H. split; [left; lia|done].
Qed.

Lemma frees_all_ok ps d : Forall (freeable d) ps -> distinct ps -> frees_ok ps d.
Proof.
  revert d. induction ps as [|p ps IH]; intros d Hf Hd; [done|]. simpl.
  apply Forall_cons in Hf as [Hp Hf]. apply distinct_cons in Hd as [Hn Hd]. split; [done|].
  apply IH; [|done]. rewrite Forall_forall in Hf |- *. intros q Hq. specialize (Hf q Hq).
  unfold freeable. rewrite cudaFree_law by done.
  destruct Hf as [->|Hf]; [by left|]. destruct Hn as [->|Hn].
  - pose proof (device_nonnull d). set_solver.
  - set_solver.
Qed.

Lemma distinct_perm ps qs : ps ≡ₚ qs -> distinct ps -> distinct qs.
Proof. unfold distinct. intros E. by rewrite E. Qed.

Lemma ptrs_found allocs id a :
  om_find id allocs = Some a -> ptrs allocs ≡ₚ al_ptr a :: ptrs (om_erase id allocs).
Proof. intros E%om_erase_perm. unfold ptrs, om_values. by rewrite E at 1. Qed.

Lemma ptrs_set allocs id a :
  om_ok allocs -> ptrs (om_set id a allocs) ≡ₚ al_ptr a :: ptrs (om_erase id allocs).
Proof. intros Ho. unfold ptrs, om_values. by rewrite om_set_perm. Qed.

Lemma worker_inv_erase allocs d id : worker_inv allocs d -> worker_inv (om_erase id allocs) d.
Proof.
  intros [Ho Hh Hd]. destruct (om_find id allocs) as [a|] eqn:E; [|by rewrite om_erase_absent].
  pose proof (ptrs_found _ _ _ E) as Ep. rewrite Ep in Hh. apply Forall_cons in Hh as [_ Hh].
  apply (distinct_perm _ _ Ep), distinct_cons in Hd as [_ Hd].
  constructor; [by apply om_ok_erase|done|done].
Qed.

(** Two worlds with the same device contents. *)
Lemma worker_inv_device allocs d d' : device d' = device d -> worker_inv allocs d -> worker_inv allocs d'.
Proof. intros E [Ho Hh Hd]. constructor; try done. unfold freeable in *. by rewrite E. Qed.

Lemma worker_allocate_inv payload allocs d allocs' d' o :
  worker_inv allocs d -> worker_allocate payload allocs d = (allocs', d', o) -> worker_inv allocs' d'.
Proof.
  intros Hi. unfold worker_allocate. destruct (take_three payload) as [[id gen] n].
  pose proof (cudaMalloc_law n d) as Hm. destruct (cudaMalloc n d) as [[p|e] d1]; intros [= <- <- <-].
  - pose proof (worker_inv_erase _ _ id Hi) as [Ho Hh Hd].
    pose proof (ptrs_set allocs id (mk_alloc gen n p) (wi_ok _ _ Hi)) as Ep. simpl in Ep.
    constructor; [apply om_ok_set, Hi|rewrite Ep|apply (distinct_perm _ _ (Permutation_sym Ep)), distinct_cons].
    + unfold freeable. constructor; [set_solver|]. eapply Forall_impl; [exact Hh|].
      unfold freeable. set_solver.
    + split; [|done]. destruct Hm as [[-> _]|[Hp _]]; [by left|].
      destruct (decide (p = 0)) as [|Hp0]; [by left|]. right. intros Hin.
      rewrite Forall_forall in Hh. by destruct (Hh p Hin).
  - by eapply worker_inv_device.
Qed.

Lemma worker_release_inv payload allocs d allocs' d' o :
  worker_inv allocs d -> worker_release payload allocs d = (allocs', d', o) -> worker_inv allocs' d'.
Proof.
  intros Hi. unfold worker_release. destruct (take_three payload) as [[id gen] n].
  destruct (om_find id allocs) as [a|] eqn:E; [destruct (negb _)|]; intros [= <- <- <-]; try done.
  pose proof (worker_inv_erase _ _ id Hi) as [Ho Hh Hd]. destruct Hi as [Ho0 Hh0 Hd0].
  pose proof (ptrs_found _ _ _ E) as Ep. rewrite Ep in Hh0. apply Forall_cons in Hh0 as [Hp _].
  apply (distinct_perm _ _ Ep), distinct_cons in Hd0 as [Hn _].
  constructor; [done| |done]. rewrite Forall_forall in Hh |- *. intros q Hq. specialize (Hh q Hq).
  unfold freeable in *. rewrite cudaFree_law by done.
  destruct Hh as [->|Hin]; [by left|]. right. apply elem_of_difference. split; [done|].
  rewrite not_elem_of_singleton. intros ->. destruct Hn as [Hz|Hn]; [|done].
  rewrite Hz in Hin. by apply device_nonnull in Hin.
Qed.

(** The device once every entry has been freed. *)
Lemma free_all_device allocs d :
  frees_ok (ptrs allocs) d -> device (free_all allocs d) = device d ∖ list_to_set (ptrs allocs).
Proof.
  unfold free_all, ptrs. generalize (om_values allocs) as l. intros l. revert d.
  induction l as [|a l IH]; intros d; simpl; [set_solver|]. intros [Hp Hf].
  rewrite IH, cudaFree_law by done. set_solver.
Qed.

(** The worker holds exactly what was added to the device since [d0]. *)
Record owns (d0 : D) allocs d : Prop := {
  ow_inv : worker_inv allocs d;
  ow_device p : p ∈ device d <-> p ∈ device d0 \/ (p <> 0 /\ p ∈ ptrs allocs);
  ow_apart p : p ∈ ptrs allocs -> p ∉ device d0;
}.

Lemma owns_start d0 : owns d0 [] d0.
Proof. constructor; [constructor; constructor| |]; set_solver. Qed.

Lemma worker_allocate_owns d0 payload allocs d allocs' d' o :
  owns d0 allocs d -> om_find (take_three payload).1.1 allocs = None ->
  worker_allocate payload allocs d = (allocs', d', o) -> owns d0 allocs' d'.
Proof.
  intros [Hi Hd Ha] Hf E. pose proof (worker_allocate_inv _ _ _ _ _ _ Hi E) as Hi'. revert E Hf.
  unfold worker_allocate. destruct (take_three payload) as [[id gen] n]. simpl.
  pose proof (cudaMalloc_law n d) as Hm.
  destruct (cudaMalloc n d) as [[p|e] d1]; intros [= <- <- <-] Hf;
    [|by constructor; [done|intros q; rewrite Hm; apply Hd|]].
  pose proof (ptrs_set allocs id (mk_alloc gen n p) (wi_ok _ _ Hi)) as Ep.
  rewrite om_erase_absent in Ep by done. simpl in Ep.
  assert (Hin : forall q, q ∈ ptrs (om_set id (mk_alloc gen n p) allocs) <-> q = p \/ q ∈ ptrs allocs)
    by (intros q; rewrite Ep; apply elem_of_cons).
  constructor; [done|intros q; rewrite Hin|intros q; rewrite Hin].
  - destruct Hm as [[-> ->]|[Hp Ed]]; [rewrite Hd; naive_solver|].
    assert (p <> 0) by (intros ->; apply (device_nonnull d1); set_solver).
    rewrite Ed, elem_of_union, elem_of_singleton, Hd. naive_solver.
  - destruct Hm as [[-> _]|[Hp _]]; intros [->|Hq]; auto.
    + intros H0. by apply device_nonnull in H0.
    + intros H0. apply Hp, Hd. by left.
Qed.

Lemma worker_release_owns d0 payload allocs d allocs' d' o :
  owns d0 allocs d -> worker_release payload allocs d = (allocs', d', o) -> owns d0 allocs' d'.
Proof.
  intros [Hi Hd Ha] E. pose proof (worker_release_inv _ _ _ _ _ _ Hi E) as Hi'. revert E.
  unfold worker_release. destruct (take_three payload) as [[id gen] n].
  destruct (om_find id allocs) as [a|] eqn:E; [destruct (negb _)|]; intros [= <- <- <-];
    try by constructor.
  pose proof (ptrs_found _ _ _ E) as Ep. destruct Hi as [Ho Hh Hn].
  rewrite Ep in Hh. apply Forall_cons in Hh as [Hp _].
  apply (distinct_perm _ _ Ep), distinct_cons in Hn as [Hn _].
  assert (Hin : forall q, q ∈ ptrs allocs <-> q = al_ptr a \/ q ∈ ptrs (om_erase id allocs))
    by (intros q; rewrite Ep at 1; apply elem_of_cons).
  constructor; [done| |intros q Hq; apply Ha, Hin; by right].
  intros q. rewrite cudaFree_law, elem_of_difference, elem_of_singleton, Hd, Hin by done.
  assert (al_ptr a ∉ device d0) by (apply Ha, Hin; by left). naive_solver.
Qed.

(** Shutting down gives everything back. *)
Lemma free_all_owns d0 allocs d : owns d0 allocs d -> device (free_all allocs d) = device d0.
Proof.
  intros [Hi Hd Ha]. rewrite free_all_device by (apply frees_all_ok; apply Hi).
  apply set_eq. intros q. rewrite elem_of_difference, elem_of_list_to_set, Hd. split; [naive_solver|].
  intros Hq. split; [by left|]. intros Hin. by apply (Ha q).
Qed.

(** ** Executions *)

Section runs.
Context {W : Type} `{!Winsock W} (s : SOCKET) (d0 : D).

(** The worker after some turns, started on the device [d0].  In a clean run no ALLOCATE
    names an id that the worker still holds. *)
Inductive worker_reach (clean : bool) : omap Z Alloc -> W -> D -> Prop :=
  | worker_reach_start w : worker_reach clean [] w d0
  | worker_reach_turn allocs w d f w1 allocs' w' d' :
      worker_reach clean allocs w d ->
      recv_frame s w = (Some f, w1) ->
      (clean = true -> frame_type f = Msg.ALLOCATE ->
       om_find (take_three (frame_payload f)).1.1 allocs = None) ->
      worker_request s f allocs w1 d = Working allocs' w' d' ->
      worker_reach clean allocs' w' d'.

(** One request, as the table and the device see it. *)
Lemma worker_request_cases f allocs (w : W) d allocs' w' d' :
  worker_request s f allocs w d = Working allocs' w' d' ->
  (frame_type f = Msg.ALLOCATE /\ exists o, worker_allocate (frame_payload f) allocs d = (allocs', d', o))
  \/ (exists o, worker_release (frame_payload f) allocs d = (allocs', d', o))
  \/ (allocs' = allocs /\ d' = d).
Proof.
  unfold worker_request. destruct (frame_type f); try (intros [= <- <- <-]; by right; right).
  - destruct (worker_allocate (frame_payload f) allocs d) as [[a1 d1] o]. intros [= <- _ <-]. eauto.
  - destruct (worker_release (frame_payload f) allocs d) as [[a1 d1] o]. intros [= <- _ <-]. eauto.
Qed.

Lemma worker_reach_inv clean allocs w d : worker_reach clean allocs w d -> worker_inv allocs d.
Proof.
  induction 1 as [|allocs w d f w1 allocs' w' d' _ IH _ _ E]; [constructor; constructor|].
  apply worker_request_cases in E as [[_ [o E]]|[[o E]|[-> ->]]];
    eauto using worker_allocate_inv, worker_release_inv.
Qed.

Lemma worker_reach_owns allocs w d : worker_reach true allocs w d -> owns d0 allocs d.
Proof.
  induction 1 as [|allocs w d f w1 allocs' w' d' _ IH _ Hc E]; [apply owns_start|].
  apply worker_request_cases in E as [[Ht [o E]]|[[o E]|[-> ->]]];
    eauto using worker_allocate_owns, worker_release_owns.
Qed.

End runs.
End worker_lemmas.
