(* ===== verification/WorkerDeathTest.v ===== *)
(** The process test of the repository, run on the model: tests/test_worker_death.cpp.

    The coordinator and the worker of the model run together: the network of the coordinator
    contains the worker process, which takes a turn of its loop whenever the coordinator waits
    for it.  The test is the controller: it connects, allocates, kills the worker, lets a
    second one register, releases, and shuts down.  That the processes are spawned is assumed;
    the port is not modelled. *)
From S2P Require Import Prelude Words Ordered Text Bytes Protocol UnitTests Net Coordinator Cuda.
From S2P Require Import Worker.
Open Scope list_scope.
Open Scope Z_scope.

(** ** A device and a network with a worker in it *)

(** A device of 1 GiB per allocation, with the pointers it has given out. *)
Record Device : Set := mk_device { dv_ptrs : list Z }.

#[export] Instance device_cuda : Cuda Device := {
  cudaMalloc n d :=
    if n >? 2 ^ 30 then (inr "out of memory"%string, d)
    else let p := foldr Z.max 0 (dv_ptrs d) + 1 in (inl p, mk_device (p :: dv_ptrs d));
  cudaFree p d := mk_device (filter (fun q => q <> p) (dv_ptrs d));
}.

(** A running worker: the coordinator's end of its connection, its table and its device. *)
Record Process : Set := mk_process { pr_conn : SOCKET; pr_allocs : omap Z Alloc; pr_device : Device }.

Record Network : Type := mk_network { nw_net : sockets; nw_worker : option Process }.

Definition set_socket (s : SOCKET) (k : Socket) (w : sockets) : sockets := fun s' => if s' =? s then k else w s'.

(** A connection with these bytes on the way, and room for a few frames. *)
Definition connection (bs : bytes) : Socket := mk_socket [bs] [65536; 65536; 65536; 65536; 65536; 65536] [].

(** The worker takes a turn when the coordinator waits for it: it gets what it was sent, and what
    it sends is on the way back. *)
Definition let_worker_run (s : SOCKET) (w : Network) : Network :=
  match nw_worker w, sk_in (nw_net w s) with
  | Some p, [] =>
      if pr_conn p =? s then
        let own : sockets := fun _ => connection (sk_out (nw_net w s)) in
        match worker_turn 1 (pr_allocs p) own (pr_device p) with
        | Working allocs own d =>
            mk_network (set_socket s (connection (sk_out (own 1))) (nw_net w)) (Some (mk_process s allocs d))
        | WorkerExit _ _ _ => mk_network (nw_net w) None
        end
      else w
  | _, _ => w
  end.

#[export] Instance network_winsock : Winsock Network := {
  recv s n w :=
    let w := let_worker_run s w in
    let '(r, net) := recv s n (nw_net w) in (r, mk_network net (nw_worker w));
  send s data n w := let '(r, net) := send s data n (nw_net w) in (r, mk_network net (nw_worker w));
  close s w := mk_network (close s (nw_net w)) (nw_worker w);
}.

(** ** The test *)

Record Bench : Type := mk_bench { bn_co : Coordinator; bn_net : Network }.

(** A turn of the coordinator; [inl] is its output when it ends. *)
Definition co_turn (p : Poll) (b : Bench) : list string + Bench :=
  match turn p (bn_co b) (bn_net b) with
  | Running st w => inr (mk_bench st w)
  | Exited out _ => inl out
  end.

Definition with_socket (s : SOCKET) (k : Socket) (w : Network) : Network :=
  mk_network (set_socket s k (nw_net w)) (nw_worker w).

(** A worker process connects as [c] of the coordinator and registers. *)
Definition spawn_worker (c : SOCKET) (name : string) (pid : Z) (b : Bench) : list string + Bench :=
  let own : sockets := worker_register 1 name (fresh_boot pid 0) pid 0 0 "gpu" (fun _ => connection []) in
  let net := with_socket c (connection (sk_out (own 1))) (bn_net b) in
  co_turn (mk_poll (Some c) false)
    (mk_bench (bn_co b) (mk_network (nw_net net) (Some (mk_process c [] (mk_device []))))).

(** [TerminateProcess]. *)
Definition kill_worker (b : Bench) : Bench := mk_bench (bn_co b) (mk_network (nw_net (bn_net b)) None).

Definition ctl : SOCKET := 10.

(** The controller connects and says hello. *)
Definition connect_controller (b : Bench) : list string + Bench :=
  co_turn (mk_poll (Some ctl) false)
    (mk_bench (bn_co b) (with_socket ctl (connection (encode Msg.HELLO (pack_u8 1))) (bn_net b))).

(** A frame to the coordinator, and its answer. *)
Definition ask (type : Msg.t) (payload : bytes) (b : Bench) : option Frame * (list string + Bench) :=
  match co_turn (mk_poll None true)
          (mk_bench (bn_co b) (with_socket ctl (connection (encode type payload)) (bn_net b))) with
  | inl out => (None, inl out)
  | inr b => (fst <$> Protocol.decode (sk_out (nw_net (bn_net b) ctl)), inr b)
  end.

(** The lambdas [allocate] and [release]: the status, -999 without the expected answer. *)
Definition status_of (expected : Msg.t) (f : option Frame) : bool * Z :=
  match f with
  | Some r => if decide (frame_type r = expected) then (true, i32_of_u32 (take_status (frame_payload r)).1)
              else (false, -999)
  | None => (false, -999)
  end.

Definition ctl_allocate (id gen n : Z) (b : Bench) : option (bool * Z * Bench) :=
  match ask Msg.ALLOCATE (three_words id gen n) b with
  | (f, inr b) => Some (status_of Msg.ALLOCATE_RESULT f, b)
  | (_, inl _) => None
  end.

Definition ctl_release (id gen : Z) (b : Bench) : option (bool * Z * Bench) :=
  match ask Msg.RELEASE (three_words id gen 0) b with
  | (f, inr b) => Some (status_of Msg.RELEASE_RESULT f, b)
  | (_, inl _) => None
  end.

(** The lambda [query]: committed bytes and current allocations. *)
Definition ctl_query (b : Bench) : option (bool * (Z * Z) * Bench) :=
  match ask Msg.QUERY (pack_u8 0) b with
  | (Some r, inr b) =>
      if decide (frame_type r = Msg.QUERY_RESULT) then
        let '(c, p) := take_or 0 (take_u64 (frame_payload r)) in
        Some (true, (c, (take_or 0 (take_u64 p)).1), b)
      else Some (false, (0, 0), b)
  | (None, inr b) => Some (false, (0, 0), b)
  | (_, inl _) => None
  end.

Definition running (r : list string + Bench) : option Bench := match r with inr b => Some b | inl _ => None end.

(** The failed checks, and what the coordinator has printed in its loop. *)
Definition worker_death_test : option (list string * list string) :=
  let b := mk_bench (Coordinator_new 3) (mk_network (fun _ => closed_socket) None) in
  b ← running (spawn_worker 11 "A" 100 b);
  b ← running (connect_controller b);
  '(q, _, b) ← ctl_query b;
  '(f1, st1, b) ← ctl_allocate 1 1 (2 ^ 20) b;
  '(_, (committed1, _), b) ← ctl_query b;
  let b := kill_worker b in
  '(f2, st2, b) ← ctl_allocate 2 1 (2 ^ 20) b;
  '(_, (_, current2), b) ← ctl_query b;
  b ← running (spawn_worker 12 "B" 101 b);
  '(f3, st3, b) ← ctl_allocate 3 1 (2 ^ 20) b;
  '(f4, st4, b) ← ctl_release 3 1 b;
  match ask Msg.SHUTDOWN (pack_u8 0) b with
  | (_, inl out) =>
      Some (check q "controller handshake QUERY"
            ++ check f1 "allocate1 frame" ++ check (st1 =? 0) "allocate1 under worker A"
            ++ check (committed1 >=? 2 ^ 20) "committed reflects worker A allocation"
            ++ check f2 "allocate2 frame after death"
            ++ check (st2 =? -10) "allocate after worker death rejects (fenced)"
            ++ check (current2 =? 0) "worker-death fenced all allocations"
            ++ check f3 "allocate3 frame" ++ check (st3 =? 0) "allocate3 succeeds under worker B"
            ++ check (f4 && (st4 =? 0)) "release under worker B succeeds", out)
  | (_, inr _) => None
  end.

(** All checks pass, and the coordinator reports what happened. *)
Lemma worker_death_test_passes :
  worker_death_test
  = Some ([], [registered_line "A" (fresh_boot 100 0) 100; dead_line;
               registered_line "B" (fresh_boot 101 0) 101; shutdown_line]).
Proof. vm_compute. reflexivity. Qed.
