(* ===== verification/Startup.v ===== *)
(** How the two processes start: the first lines of [main] in coordinator/coordinator.cpp and
    worker/worker.cpp, and what a process holds of the machine from then on. *)
From Stdlib Require Import Ascii.
From S2P Require Import Prelude Words Ordered Bytes Protocol Net Sockets Text Coordinator.
From S2P Require Import Cuda Worker.
Open Scope Z_scope.

(** ** The coordinator *)

Section coordinator_start.
Context {W : Type} `{!SocketCalls W}.
Implicit Types (w : W).

(** Up to the loop: what is printed, and the exit code or the variables of the loop.  [argv1] is
    the port on the command line; [pid], from [GetCurrentProcessId], is the epoch. *)
Definition coordinator_start (argv1 : option string) (pid : Z) w :
    option (string * (Z + Coordinator) * W) :=
  let w := (init w).2 in
  port ← match argv1 with Some a => atoi a | None => Some 0 end;
  Some
    match listen_loopback port w with
    | (inr err, w) => (line ("coordinator: listen failed " +:+ err), inl 1, w)
    | (inl (ls, bound), w) =>
        (line ("COORDINATOR_READY port=" +:+ pretty bound +:+ " epoch=" +:+ pretty pid),
         inr (Coordinator_new ls), w)
    end.
End coordinator_start.

(** ** The worker *)

(** What [cudaMemGetInfo] and [cudaGetDeviceProperties] leave in their variables. *)
Record DeviceInfo : Set := mk_info { di_free : Z; di_total : Z; di_name : string }.

Section worker_start.
Context {W D : Type} `{!Winsock W, !SocketCalls W, !Cuda D}.
Implicit Types (w : W) (d : D).

(** [void* warm = nullptr; cudaMalloc(&warm, 1024); if (warm) cudaFree(warm);] *)
Definition warm_up d : D :=
  match cudaMalloc 1024 d with
  | (inl warm, d) => if negb (warm =? 0) then cudaFree warm d else d
  | (inr _, d) => d
  end.

(** Up to the loop: what is printed, and the exit code or the socket.  [args] are the
    arguments after the program's name; [pid] and [t] are from [GetCurrentProcessId] and
    [GetTickCount64]. *)
Definition worker_start (args : list string) (pid t : Z) (info : DeviceInfo) w d :
    option (string * (Z + SOCKET) * W * D) :=
  match args with
  | _host :: port :: rest =>
      let w := (init w).2 in
      port ← atoi port;
      let name := match rest with name :: _ => name | [] => "worker"%string end in
      let boot := fresh_boot pid t in
      let d := warm_up d in
      Some
        match connect_loopback port w with
        | (inr _, w) => (line "worker: connect failed", inl 1, w, d)
        | (inl s, w) =>
            let w := worker_register s name boot pid (di_free info) (di_total info) (di_name info) w in
            (line ("WORKER_PUBLISH boot=" +:+ pretty boot +:+ " free=" +:+ pretty (di_free info)
                   +:+ " total=" +:+ pretty (di_total info) +:+ " dev=" +:+ di_name info),
             inr s, w, d)
        end
  | _ => Some (line "usage: worker <host> <port> <name>", inl 1, w, d)
  end.
End worker_start.

(** ** Boots *)

(** A boot identifies a process: it is a word, not zero for a real process, and two boots are
    equal only for the same process id and, up to 2^32 ms, the same start. *)
Lemma fresh_boot_parts pid t : 0 <= pid < 2 ^ 32 -> fresh_boot pid t = pid * 2 ^ 32 + t mod 2 ^ 32.
Proof.
  intros Hp. unfold fresh_boot. change 0xFFFFFFFF with (Z.ones 32). rewrite Z.land_ones by lia.
  rewrite (Z.mod_small (Z.shiftl pid 32)) by (rewrite Z.shiftl_mul_pow2 by lia; unfold U64; lia).
  rewrite Z.lor_comm, lor_disjoint by (try apply Z.mod_pos_bound; lia). lia.
Qed.

Lemma fresh_boot_range pid t :
  0 < pid < 2 ^ 32 -> in_u64 (fresh_boot pid t) /\ fresh_boot pid t <> 0.
Proof.
  intros Hp. rewrite fresh_boot_parts by lia. pose proof (Z.mod_pos_bound t (2 ^ 32) ltac:(lia)).
  unfold in_u64, U64. lia.
Qed.

Lemma fresh_boot_inj pid t pid' t' :
  0 <= pid < 2 ^ 32 -> 0 <= pid' < 2 ^ 32 ->
  fresh_boot pid t = fresh_boot pid' t' <-> pid = pid' /\ t mod 2 ^ 32 = t' mod 2 ^ 32.
Proof.
  intros Hp Hp'. rewrite !fresh_boot_parts by done. pose proof (Z.mod_pos_bound t (2 ^ 32) ltac:(lia)).
  pose proof (Z.mod_pos_bound t' (2 ^ 32) ltac:(lia)). lia.
Qed.

(** ** What starting takes *)

Section start_lemmas.
Context {W : Type} `{!Winsock W, !SocketCalls W, !SocketLaws W}.
Implicit Types (w : W).

Lemma coordinator_start_spec argv1 pid w out r w' :
  coordinator_start argv1 pid w = Some (out, r, w') ->
  match r with
  | inl code => code = 1 /\ opened w' = opened w
  | inr st =>
      st = Coordinator_new (co_ls st) /\ opens_one w (Some (co_ls st)) w'
      /\ exists p, bound (co_ls st) w' = Some p /\ 0 < p < 2 ^ 16
           /\ out = line ("COORDINATOR_READY port=" +:+ pretty p +:+ " epoch=" +:+ pretty pid)
  end.
Proof.
  unfold coordinator_start. pose proof (init_opened w) as Hi.
  destruct (match argv1 with Some a => atoi a | None => Some 0 end) as [port|]; [|done].
  simpl. set (w1 := (init w).2) in *. pose proof (listen_loopback_spec port w1) as Hl. unfold opens_one in *.
  destruct (listen_loopback port w1) as [[[ls p]|e] w2]; intros [= <- <- <-]; rewrite Hi in Hl; [|by destruct Hl].
  destruct Hl as [Ho (Hb & Hp & _)]. split; [done|]. split; [done|]. by exists p.
Qed.

Section worker.
Context {D : Type} `{!Cuda D, !CudaLaws D}.
Implicit Types (d : D).

Lemma warm_up_device d : device (warm_up d) = device d.
Proof.
  unfold warm_up. pose proof (cudaMalloc_law 1024 d) as Hm. destruct (cudaMalloc 1024 d) as [[p|e] d1]; [|done].
  destruct (Z.eqb_spec p 0) as [->|Hp]; simpl.
  - destruct Hm as [[_ ?]|[_ Hd]]; [done|]. exfalso. apply (device_nonnull d1). set_solver.
  - destruct Hm as [[? _]|[Hn Hd]]; [done|]. rewrite cudaFree_law by (right; set_solver). set_solver.
Qed.

Lemma worker_register_opened s name boot pid freeb totalb dev w :
  opened (worker_register s name boot pid freeb totalb dev w) = opened w.
Proof. unfold worker_register. by rewrite !send_frame_opened. Qed.

Lemma worker_start_spec args pid t info w d out r w' d' :
  worker_start args pid t info w d = Some (out, r, w', d') ->
  device d' = device d
  /\ match r with
     | inl code => code = 1 /\ opened w' = opened w
     | inr s => opens_one w (Some s) w'
     end.
Proof.
  unfold worker_start. destruct args as [|host [|port rest]]; [by intros [= <- <- <- <-]..|].
  pose proof (init_opened w) as Hi. destruct (atoi port) as [n|]; [|done]. simpl.
  set (w1 := (init w).2) in *. pose proof (connect_loopback_spec n w1) as Hc. unfold opens_one in *.
  destruct (connect_loopback n w1) as [[s|e] w2]; intros [= <- <- <- <-]; rewrite warm_up_device;
    (split; [done|]); rewrite Hi in Hc; [|by destruct Hc]. rewrite worker_register_opened. apply Hc.
Qed.
End worker.
End start_lemmas.
