(* ===== verification/CoordinatorSockets.v ===== *)
(** The sockets of the coordinator: from its start on, exactly the sockets its variables hold
    are open, and none is left when it ends. *)
From S2P Require Import Prelude Words Ordered Bytes Protocol Net Sockets Coordinator Startup.
Open Scope Z_scope.

(** ** The sockets of its variables *)

Definition sock_set (s : SOCKET) : gset SOCKET := if s =? INVALID_SOCKET then ∅ else {[s]}.

(** The sockets the variables of [main] hold. *)
Definition held_sockets (st : Coordinator) : gset SOCKET :=
  sock_set (co_ls st) ∪ sock_set (co_ctrl st) ∪ sock_set (co_worker st).

Section sockets.
Context {W : Type} `{!Winsock W, !SocketCalls W, !SocketLaws W}.
Implicit Types (w : W) (st : Coordinator).

(** Since [w0], exactly these have been opened, and none is in two variables. *)
Record holds_sockets w0 st w : Prop := {
  hs_opened : opened w = held_sockets st ∪ opened w0;
  hs_fresh : held_sockets st ## opened w0;
  hs_ctrl : sock_set (co_ls st) ## sock_set (co_ctrl st);
  hs_worker : sock_set (co_ls st) ## sock_set (co_worker st);
  hs_apart : sock_set (co_ctrl st) ## sock_set (co_worker st);
}.

Lemma shutdown_opened s w :
  sock_set s ⊆ opened w -> opened (shutdown_sock s w) = opened w ∖ sock_set s.
Proof.
  unfold shutdown_sock, sock_set. destruct (s =? INVALID_SOCKET); [set_solver|].
  intros Hs. rewrite close_opened; set_solver.
Qed.

(** A new connection [c] next to the sockets of [st]. *)
Record accepted w0 st (c : SOCKET) w : Prop := {
  ac_valid : c <> INVALID_SOCKET;
  ac_opened : opened w = {[c]} ∪ held_sockets st ∪ opened w0;
  ac_new : c ∉ held_sockets st ∪ opened w0;
  ac_holds w' : opened w' = held_sockets st ∪ opened w0 -> holds_sockets w0 st w';
}.

Lemma accepted_same w0 st c w w' : opened w' = opened w -> accepted w0 st c w -> accepted w0 st c w'.
Proof. intros E []. constructor; try done. by rewrite E. Qed.

Lemma accepted_refuse w0 st c w : accepted w0 st c w -> holds_sockets w0 st (shutdown_sock c w).
Proof.
  intros [Hv Ho Hn Hh]. apply Hh. rewrite shutdown_opened; unfold sock_set;
    rewrite (proj2 (Z.eqb_neq _ _) Hv); rewrite Ho; set_solver.
Qed.

(** One set of three is closed and [c] takes its place. *)
Lemma replace_set (c a b d o : gset SOCKET) :
  c ## b -> a ## b -> b ## d -> b ## o -> (c ∪ (a ∪ b ∪ d) ∪ o) ∖ b = a ∪ c ∪ d ∪ o.
Proof. intros. apply set_eq. intros x. set_unfold. naive_solver. Qed.

Lemma replace_last (c a b d o : gset SOCKET) :
  c ## d -> a ## d -> b ## d -> d ## o -> (c ∪ (a ∪ b ∪ d) ∪ o) ∖ d = a ∪ b ∪ c ∪ o.
Proof. intros. apply set_eq. intros x. set_unfold. naive_solver. Qed.

Lemma accepted_parts w0 st c w :
  accepted w0 st c w ->
  sock_set c = {[c]}
  /\ opened w = sock_set c ∪ (sock_set (co_ls st) ∪ sock_set (co_ctrl st) ∪ sock_set (co_worker st)) ∪ opened w0
  /\ (sock_set c ## sock_set (co_ls st)) /\ (sock_set c ## sock_set (co_ctrl st))
  /\ (sock_set c ## sock_set (co_worker st)) /\ (sock_set c ## opened w0)
  /\ (sock_set (co_ls st) ## opened w0) /\ (sock_set (co_ctrl st) ## opened w0)
  /\ (sock_set (co_worker st) ## opened w0)
  /\ (sock_set (co_ls st) ## sock_set (co_ctrl st)) /\ (sock_set (co_ls st) ## sock_set (co_worker st))
  /\ (sock_set (co_ctrl st) ## sock_set (co_worker st)).
Proof.
  intros Ha. pose proof (accepted_refuse _ _ _ _ Ha) as [_ Hf H1 H2 H3]. destruct Ha as [Hv Ho Hn _].
  unfold held_sockets in *. assert (Hc : sock_set c = {[c]}) by
    (unfold sock_set; by rewrite (proj2 (Z.eqb_neq _ _) Hv)).
  rewrite Hc. clear Hv Hc. repeat (split; [first [done|clear - Hn; set_solver|clear - Hf; set_solver]|]). done.
Qed.

(** It takes the place of the controller, or of the worker. *)
Lemma accepted_ctrl w0 st c w :
  accepted w0 st c w -> holds_sockets w0 (co_with_ctrl c st) (shutdown_sock (co_ctrl st) w).
Proof.
  intros (_ & Ho & Hcl & Hcc & Hcw & Hco & Hl & Hc & Hw & Hlc & Hlw & Hcw')%accepted_parts.
  constructor; unfold held_sockets; simpl; try done.
  - rewrite shutdown_opened, Ho by (rewrite Ho; clear; set_solver). by apply replace_set.
  - clear - Hl Hw Hco. set_solver.
Qed.

Lemma accepted_worker w0 st c boot w :
  accepted w0 st c w -> holds_sockets w0 (co_with_worker c boot st) (shutdown_sock (co_worker st) w).
Proof.
  intros (_ & Ho & Hcl & Hcc & Hcw & Hco & Hl & Hc & Hw & Hlc & Hlw & Hcw')%accepted_parts.
  constructor; unfold held_sockets; simpl; try done.
  - rewrite shutdown_opened, Ho by (rewrite Ho; clear; set_solver).
    by apply replace_last.
  - clear - Hl Hc Hco. set_solver.
Qed.

(** ** Through a turn *)

Lemma holds_same w0 st st' w w' :
  co_ls st' = co_ls st -> co_ctrl st' = co_ctrl st -> co_worker st' = co_worker st ->
  opened w' = opened w -> holds_sockets w0 st w -> holds_sockets w0 st' w'.
Proof.
  intros E1 E2 E3 Eo [Ho Hf H1 H2 H3].
  constructor; unfold held_sockets in *; rewrite ?E1, ?E2, ?E3, ?Eo; done.
Qed.

(** Closing one of three. *)
Lemma drop_last (a b d o : gset SOCKET) :
  a ## d -> b ## d -> d ## o -> (a ∪ b ∪ d ∪ o) ∖ d = a ∪ b ∪ ∅ ∪ o.
Proof. intros. apply set_eq. intros x. set_unfold. naive_solver. Qed.

Lemma drop_middle (a b d o : gset SOCKET) :
  a ## b -> b ## d -> b ## o -> (a ∪ b ∪ d ∪ o) ∖ b = a ∪ ∅ ∪ d ∪ o.
Proof. intros. apply set_eq. intros x. set_unfold. naive_solver. Qed.

Lemma drop_worker w0 st w :
  holds_sockets w0 st w ->
  holds_sockets w0 (co_with_worker INVALID_SOCKET 0 st) (shutdown_sock (co_worker st) w).
Proof.
  intros [Ho Hf H1 H2 H3]. unfold held_sockets in *.
  assert (Hd : sock_set (co_worker st) ## opened w0) by (clear - Hf; set_solver).
  constructor; unfold held_sockets; simpl; try done; try (clear; set_solver).
  - rewrite shutdown_opened, Ho by (rewrite Ho; clear; set_solver). by apply drop_last.
  - clear - Hf. set_solver.
Qed.

Lemma drop_ctrl w0 st w :
  holds_sockets w0 st w ->
  holds_sockets w0 (co_with_ctrl INVALID_SOCKET st) (shutdown_sock (co_ctrl st) w).
Proof.
  intros [Ho Hf H1 H2 H3]. unfold held_sockets in *.
  assert (Hd : sock_set (co_ctrl st) ## opened w0) by (clear - Hf; set_solver).
  constructor; unfold held_sockets; simpl; try done; try (clear; set_solver).
  - rewrite shutdown_opened, Ho by (rewrite Ho; clear; set_solver). by apply drop_middle.
  - clear - Hf. set_solver.
Qed.

(** SHUTDOWN closes the three. *)
Lemma drop_all w0 st w :
  holds_sockets w0 st w ->
  opened (shutdown_sock (co_ls st) (shutdown_sock (co_ctrl st) (shutdown_sock (co_worker st) w)))
  = opened w0.
Proof.
  intros [Ho Hf H1 H2 H3]. unfold held_sockets in *.
  assert (E1 : opened (shutdown_sock (co_worker st) w)
               = sock_set (co_ls st) ∪ sock_set (co_ctrl st) ∪ opened w0).
  { rewrite shutdown_opened, Ho by (rewrite Ho; clear; set_solver). clear - H2 H3 Hf.
    apply set_eq. intros x. set_unfold. naive_solver. }
  assert (E2 : opened (shutdown_sock (co_ctrl st) (shutdown_sock (co_worker st) w))
               = sock_set (co_ls st) ∪ opened w0).
  { rewrite shutdown_opened, E1 by (rewrite E1; clear; set_solver). clear - H1 Hf.
    apply set_eq. intros x. set_unfold. naive_solver. }
  rewrite shutdown_opened, E2 by (rewrite E2; clear; set_solver). clear - Hf.
  apply set_eq. intros x. set_unfold. naive_solver.
Qed.

Lemma reply_opened type payload st w : opened (reply type payload st w) = opened w.
Proof. apply send_frame_opened. Qed.

Lemma recv_result_opened expected st w o w' :
  recv_result expected st w = (o, w') -> opened w' = opened w.
Proof.
  unfold recv_result. destruct (recv_frame (co_worker st) w) as [[res|] w1] eqn:E;
    apply recv_frame_opened in E; intros [= _ <-]; done.
Qed.

Lemma on_allocate_sockets w0 payload st w :
  holds_sockets w0 st w -> holds_sockets w0 (on_allocate payload st w).1 (on_allocate payload st w).2.
Proof.
  intros Hs. unfold on_allocate. destruct (take_three payload) as [[idv genv] n].
  destruct (_ || _); simpl; [by apply (holds_same w0 st st w); [done..|apply reply_opened|]|].
  set (w1 := (send_frame (co_worker st) Msg.ALLOCATE _ w).2).
  assert (H1 : opened w1 = opened w) by apply send_frame_opened.
  destruct (recv_result Msg.ALLOCATE_RESULT st w1) as [[res|] w2] eqn:E; apply recv_result_opened in E.
  - destruct (take_status (frame_payload res)) as [status e]. simpl.
    apply (holds_same w0 st _ w); [done..|rewrite reply_opened; congruence|done].
  - simpl. assert (H2 : holds_sockets w0 st w2) by (apply (holds_same w0 st st w); [done..|congruence|done]).
    eapply holds_same; [| | |apply reply_opened|apply (drop_worker _ _ _ H2)]; done.
Qed.

Lemma on_release_sockets w0 payload st w :
  holds_sockets w0 st w -> holds_sockets w0 (on_release payload st w).1 (on_release payload st w).2.
Proof.
  intros Hs. unfold on_release. destruct (take_three payload) as [[idv genv] bootv].
  destruct (match om_find idv (co_alloc st) with Some a => _ | None => true end); simpl.
  { apply (holds_same w0 st st w); [done..|apply reply_opened|done]. }
  set (w1 := (send_frame (co_worker st) Msg.RELEASE _ w).2).
  assert (H1 : opened w1 = opened w) by apply send_frame_opened.
  destruct (recv_result Msg.RELEASE_RESULT st w1) as [[res|] w2] eqn:E; apply recv_result_opened in E;
    [destruct (take_status (frame_payload res)) as [status e]|]; simpl;
    (apply (holds_same w0 st st w); [done..|rewrite reply_opened; congruence|done]).
Qed.

Lemma on_request_sockets w0 f st w :
  holds_sockets w0 st w ->
  match on_request f st w with
  | Running st' w' => holds_sockets w0 st' w'
  | Exited _ w' => opened w' = opened w0
  end.
Proof.
  intros Hs. unfold on_request. destruct (frame_type f); try done.
  - by apply on_allocate_sockets.
  - by apply on_release_sockets.
  - unfold on_query. destruct (count_current _) as [c n]. simpl.
    apply (holds_same w0 st st w); [done..|apply reply_opened|done].
  - by apply drop_all.
Qed.

Lemma register_worker_sockets w0 c st w go st' w' :
  accepted w0 st c w -> register_worker c st w = (go, st', w') -> holds_sockets w0 st' w'.
Proof.
  intros Ha. unfold register_worker, refuse.
  destruct (recv_frame c w) as [[reg|] w1] eqn:E1; apply recv_frame_opened in E1;
    pose proof (accepted_same _ _ _ _ _ E1 Ha) as Ha1; [|intros [= <- <- <-]; by apply accepted_refuse].
  destruct (take_str (frame_payload reg)) as [[name|] r1]; [|intros [= <- <- <-]; by apply accepted_refuse].
  destruct (take_u64 r1) as [[boot|] r2]; [|intros [= <- <- <-]; by apply accepted_refuse].
  destruct (take_u64 r2) as [[pidv|] r3]; [|intros [= <- <- <-]; by apply accepted_refuse].
  destruct (recv_frame c w1) as [[cap|] w2] eqn:E2; apply recv_frame_opened in E2;
    pose proof (accepted_same _ _ _ _ _ E2 Ha1) as Ha2; intros [= <- <- <-];
    [|by apply accepted_refuse].
  apply (holds_same w0 (co_with_worker c boot st) _ (shutdown_sock (co_worker st) w2)); [done..|].
  by apply accepted_worker.
Qed.

Lemma accept_connection_sockets w0 c st w go st' w' :
  accepted w0 st c w -> accept_connection c st w = (go, st', w') -> holds_sockets w0 st' w'.
Proof.
  intros Ha. unfold accept_connection, refuse. rewrite (proj2 (Z.eqb_neq _ _) (ac_valid _ _ _ _ Ha)).
  destruct (recv_frame c w) as [[hello|] w1] eqn:E1; apply recv_frame_opened in E1;
    pose proof (accepted_same _ _ _ _ _ E1 Ha) as Ha1; [|intros [= <- <- <-]; by apply accepted_refuse].
  destruct (take_u8 (frame_payload hello)) as [[role|] r]; [|intros [= <- <- <-]; by apply accepted_refuse].
  destruct (role =? 2); [by apply register_worker_sockets|].
  intros [= <- <- <-]. by apply accepted_ctrl.
Qed.

(** What [WSAPoll] and [accept] do to the sockets: an accepted connection is a new one. *)
Definition polled (p : Poll) w w1 : Prop :=
  match ev_listen p with
  | Some c =>
      if c =? INVALID_SOCKET then opened w1 = opened w
      else (c ∉ opened w) /\ opened w1 = {[c]} ∪ opened w
  | None => opened w1 = opened w
  end.

Lemma turn_sockets w0 p st w w1 :
  holds_sockets w0 st w -> polled p w w1 ->
  match turn p st w1 with
  | Running st' w' => holds_sockets w0 st' w'
  | Exited _ w' => opened w' = opened w0
  end.
Proof.
  intros Hs Hp. unfold turn. set (r := match ev_listen p with Some c => _ | None => _ end).
  assert (Hr : holds_sockets w0 r.1.2 r.2).
  { unfold r, polled in *. destruct (ev_listen p) as [c|]; [|by apply (holds_same w0 st st w)].
    destruct (c =? INVALID_SOCKET) eqn:Ec.
    { unfold accept_connection. rewrite Ec. by apply (holds_same w0 st st w). }
    destruct Hp as [Hn Ho]. destruct (accept_connection c st w1) as [[go st'] w'] eqn:Ea. simpl.
    eapply accept_connection_sockets; [|exact Ea]. apply Z.eqb_neq in Ec as Hc. destruct Hs as [Ho0 ????].
    constructor; [done|by rewrite Ho, Ho0, (assoc_L (∪))|by rewrite <- Ho0|].
    intros w'' Ho''. by constructor. }
  clearbody r. destruct r as [[go st1] w2]. simpl in Hr. destruct go; [|done]. cbn [negb].
  destruct (_ && _ && _); [|done].
  destruct (recv_frame (co_ctrl st1) w2) as [[f|] w3] eqn:E; apply recv_frame_opened in E.
  - apply on_request_sockets. by apply (holds_same w0 st1 st1 w2).
  - apply drop_ctrl. by apply (holds_same w0 st1 st1 w2).
Qed.

(** ** Executions *)

(** The coordinator from its start: turns of the loop, with what [WSAPoll] reports. *)
Inductive co_run (w0 : W) : Coordinator -> W -> Prop :=
  | co_run_start argv1 pid out st w :
      coordinator_start argv1 pid w0 = Some (out, inr st, w) -> co_run w0 st w
  | co_run_turn st w p w1 st' w' :
      co_run w0 st w -> polled p w w1 -> turn p st w1 = Running st' w' -> co_run w0 st' w'.

Lemma new_holds_sockets w0 ls w :
  opens_one w0 (Some ls) w -> holds_sockets w0 (Coordinator_new ls) w.
Proof.
  intros (Hv & Hn & Ho). assert (Hc : sock_set ls = {[ls]}) by
    (unfold sock_set; by rewrite (proj2 (Z.eqb_neq _ _) Hv)).
  constructor; unfold held_sockets; simpl; rewrite ?Hc, ?Ho; clear - Hn; set_solver.
Qed.

Lemma co_run_sockets w0 st w : co_run w0 st w -> holds_sockets w0 st w.
Proof.
  induction 1 as [argv1 pid out st w E|st w p w1 st' w' _ IH Hp E].
  - destruct (coordinator_start_spec _ _ _ _ _ _ E) as (-> & Ho & _). by apply new_holds_sockets.
  - pose proof (turn_sockets w0 p st w w1 IH Hp) as Ht. by rewrite E in Ht.
Qed.
End sockets.
