(* ===== verification/CoordinatorLog.v ===== *)
(** What the coordinator prints: its output tells whether a worker is registered, and under
    which boot. *)
From S2P Require Import Prelude Words Ordered Text Bytes Protocol Net Sockets Coordinator.
From S2P Require Import CoordinatorInv Startup CoordinatorSockets.
Open Scope list_scope.
Open Scope Z_scope.

(** The lines printed so far, and the boot of the worker they announce: a registration
    announces one, in place of an earlier one if there is one; only an announced worker is
    reported dead. *)
Inductive announces : list string -> option Z -> Prop :=
  | announces_nothing : announces [] None
  | announces_worker out o name boot pid :
      announces out o -> announces (out ++ [registered_line name boot pid]) (Some boot)
  | announces_death out boot : announces out (Some boot) -> announces (out ++ [dead_line]) None.

(** The boot of the current worker. *)
Definition current_boot (st : Coordinator) : option Z :=
  if co_worker st =? INVALID_SOCKET then None else Some (co_worker_boot st).

Definition log_ok (st : Coordinator) : Prop := announces (co_out st) (current_boot st).

Lemma log_same st st' :
  co_out st' = co_out st -> co_worker st' = co_worker st -> co_worker_boot st' = co_worker_boot st ->
  log_ok st -> log_ok st'.
Proof. unfold log_ok, current_boot. by intros -> -> ->. Qed.

Section log.
Context {W : Type} `{!Winsock W}.
Implicit Types (w : W) (st : Coordinator).

Lemma accept_connection_log c st w go st' w' :
  log_ok st -> accept_connection c st w = (go, st', w') -> log_ok st'.
Proof.
  intros Hl. unfold accept_connection, register_worker, refuse. destruct (Z.eqb_spec c INVALID_SOCKET) as [|Hc].
  { by intros [= <- <- <-]. }
  intros E. repeat (case_match; simplify_eq/=; try done); try by eapply log_same.
  unfold log_ok, current_boot. simpl. rewrite (proj2 (Z.eqb_neq c _)) by done.
  eapply announces_worker, Hl.
Qed.

Lemma on_allocate_log payload st w : log_ok st -> log_ok (on_allocate payload st w).1.
Proof.
  intros Hl. unfold on_allocate. destruct (take_three payload) as [[idv genv] n].
  destruct (co_worker st =? INVALID_SOCKET) eqn:Ew; [done|]. destruct (_ || _); [done|].
  destruct (recv_result _ _ _) as [[res|] w1]; [by destruct (take_status _)|].
  unfold log_ok, current_boot in *. rewrite Ew in Hl. by eapply announces_death.
Qed.

Lemma on_request_log f st w :
  log_ok st ->
  match on_request f st w with
  | Running st' _ => log_ok st'
  | Exited out _ => out = co_out st ++ [shutdown_line]
  end.
Proof.
  intros Hl. unfold on_request. destruct (frame_type f); try done.
  - by apply on_allocate_log.
  - by rewrite on_release_state.
  - by rewrite on_query_state.
Qed.

Lemma turn_log p st w :
  log_ok st ->
  match turn p st w with
  | Running st' _ => log_ok st'
  | Exited out _ => exists out' o, announces out' o /\ out = out' ++ [shutdown_line]
  end.
Proof.
  intros Hl. unfold turn. set (r := match ev_listen p with Some c => _ | None => _ end).
  assert (Hr : log_ok r.1.2).
  { unfold r. destruct (ev_listen p) as [c|]; [|done].
    destruct (accept_connection c st w) as [[go st'] w'] eqn:E. by eapply accept_connection_log. }
  clearbody r. destruct r as [[go st1] w1]. simpl in Hr. destruct go; [|done]. cbn [negb].
  destruct (_ && _ && _); [|done]. destruct (recv_frame (co_ctrl st1) w1) as [[f|] w2]; [|by eapply log_same].
  pose proof (on_request_log f st1 w2 Hr) as Hf. destruct (on_request f st1 w2); [done|]. eauto.
Qed.

(** The output of the coordinator is a faithful log.  At every moment between two turns, what the
    loop has printed announces exactly the current worker: a worker is connected exactly when
    the last line is a registration, under the boot of that line, and none is when nothing
    has been printed or the last line says that the worker is dead; no worker is reported dead
    that has not been announced.  The loop ends with the line of the shutdown. *)
Theorem coordinator_log `{!SocketCalls W, !SocketLaws W} (w0 : W) st w :
  co_run w0 st w ->
  announces (co_out st) (current_boot st)
  /\ forall p out w1 w2, turn p st w1 = Exited out w2 ->
       exists out' o, announces out' o /\ out = out' ++ [shutdown_line].
Proof.
  intros Hr. assert (Hl : log_ok st).
  { induction Hr as [argv1 pid out st w E|st w p w1 st' w' _ IH Hp E].
    - destruct (coordinator_start_spec _ _ _ _ _ _ E) as (-> & _). constructor.
    - pose proof (turn_log p st w1 IH) as Ht. by rewrite E in Ht. }
  split; [done|]. intros p out w1 w2 E. pose proof (turn_log p st w1 Hl) as Ht. by rewrite E in Ht.
Qed.
End log.
