(* ===== verification/StartProps.v ===== *)
(** What holds of the two processes from their start on: ports, boots and sockets. *)
From S2P Require Import Prelude Words Ordered Bytes Protocol Net Sockets Text Coordinator Cuda Worker.
From S2P Require Import Startup CoordinatorSockets.
Open Scope Z_scope.

(** C33: starting a process leaks nothing.  The coordinator either prints the port its new
    listening socket is bound to and enters its loop with empty tables, or exits with code 1
    and no socket opened; the worker either has one new connection or exits with code 1 and
    none, and its warm-up allocation has been given back either way.  The boot of a worker is
    a word other than 0, and two processes have the same one only with the same process id
    and the same start up to 2^32 milliseconds. *)
Theorem processes_start {W D} `{SocketLaws W} `{CudaLaws D} (w : W) (d : D) argv1 args pid t info :
  0 < pid < 2 ^ 32 ->
  (forall out r w', coordinator_start argv1 pid w = Some (out, r, w') ->
     match r with
     | inl code => code = 1 /\ opened w' = opened w
     | inr st => st = Coordinator_new (co_ls st) /\ opens_one w (Some (co_ls st)) w'
         /\ exists p, bound (co_ls st) w' = Some p /\ 0 < p < 2 ^ 16
              /\ out = line ("COORDINATOR_READY port=" +:+ pretty p +:+ " epoch=" +:+ pretty pid)
     end)
  /\ (forall out r w' d', worker_start args pid t info w d = Some (out, r, w', d') ->
       device d' = device d
       /\ match r with
          | inl code => code = 1 /\ opened w' = opened w
          | inr s => opens_one w (Some s) w'
          end)
  /\ in_u64 (fresh_boot pid t) /\ fresh_boot pid t <> 0
  /\ forall pid' t', 0 <= pid' < 2 ^ 32 ->
       fresh_boot pid t = fresh_boot pid' t' <-> pid = pid' /\ t mod 2 ^ 32 = t' mod 2 ^ 32.
Proof.
  intros Hp. split; [|split; [|split; [|split]]].
  - intros out r w'. apply coordinator_start_spec.
  - intros out r w' d'. apply worker_start_spec.
  - by apply fresh_boot_range.
  - by apply fresh_boot_range.
  - intros pid' t' Hp'. apply fresh_boot_inj; [lia|done].
Qed.

(** [coordinator 5000] and [worker 127.0.0.1 80 w1] on an idle host. *)
Definition demo_start : option (string * (Z + Coordinator) * demo_host) :=
  coordinator_start (Some "5000"%string) 77 idle_host.

Lemma processes_start_witness :
  (exists st w', demo_start = Some (line "COORDINATOR_READY port=5000 epoch=77", inr st, w')
     /\ opens_one idle_host (Some (co_ls st)) w')
  /\ fresh_boot 77 5 <> 0.
Proof.
  destruct (processes_start idle_host ([] : demo_device) (Some "5000"%string) ["127.0.0.1"; "80"]%string 77 5
    (mk_info 0 0 "") ltac:(lia)) as (Hc & _ & _ & Hb & _).
  split; [|exact Hb]. unfold demo_start in *.
  destruct (coordinator_start (Some "5000"%string) 77 idle_host) as [[[out [code|st]] w']|] eqn:E;
    [vm_compute in E; discriminate E| |vm_compute in E; discriminate E].
  destruct (Hc out (inr st) w' eq_refl) as (_ & Ho & _). exists st, w'. split; [|exact Ho].
  f_equal. f_equal. f_equal. vm_compute in E. injection E as <- _ _. vm_compute. reflexivity.
Defined.

(** C32: the coordinator leaks no socket.  At every moment between two turns of its loop,
    whatever was accepted, refused, replaced or lost in between, the sockets open beyond those
    before its start are exactly the listener, the controller and the worker that its variables
    hold, all different, and when it exits none is left. *)
Theorem coordinator_sockets {W} `{SocketLaws W} (w0 : W) st w :
  co_run w0 st w ->
  opened w = held_sockets st ∪ opened w0
  /\ held_sockets st ## opened w0
  /\ (co_ctrl st <> INVALID_SOCKET -> co_ctrl st <> co_ls st /\ co_ctrl st <> co_worker st)
  /\ (co_worker st <> INVALID_SOCKET -> co_worker st <> co_ls st)
  /\ forall p out w1 w2, polled p w w1 -> turn p st w1 = Exited out w2 -> opened w2 = opened w0.
Proof.
  intros Hr. pose proof (co_run_sockets w0 st w Hr) as Hs. pose proof Hs as [Ho Hf H1 H2 H3].
  split; [done|]. split; [done|]. unfold sock_set in H1, H2, H3. split; [|split].
  - intros Hn. rewrite (proj2 (Z.eqb_neq _ _) Hn) in H1, H3. split; intros E; rewrite E in *.
    + rewrite (proj2 (Z.eqb_neq _ _) Hn) in H1. set_solver.
    + rewrite (proj2 (Z.eqb_neq _ _) Hn) in H3. set_solver.
  - intros Hn E. rewrite E in *. rewrite (proj2 (Z.eqb_neq _ _) Hn) in H2. set_solver.
  - intros p out w1 w2 Hp E. pose proof (turn_sockets w0 p st w w1 Hs Hp) as Ht. by rewrite E in Ht.
Qed.

(** After the start, a controller that connects and sends SHUTDOWN. *)
Definition started : Coordinator := Coordinator_new 1.

Lemma coordinator_sockets_witness :
  exists w, co_run idle_host started w /\ opened w = {[1]}
    /\ forall p out w1 w2, polled p w w1 -> turn p started w1 = Exited out w2 -> opened w2 = ∅.
Proof.
  destruct demo_start as [[[out [code|st]] w]|] eqn:E;
    [vm_compute in E; discriminate E| |vm_compute in E; discriminate E].
  assert (Hr : co_run idle_host st w) by (exact (co_run_start idle_host (Some "5000"%string) 77 out st w E)).
  assert (Est : st = started) by (vm_compute in E; injection E as _ <- _; reflexivity). subst st.
  destruct (coordinator_sockets idle_host started w Hr) as (Ho & _ & _ & _ & Hx).
  assert (E0 : opened idle_host = (∅ : gset SOCKET)) by (vm_compute; reflexivity).
  exists w. split; [exact Hr|]. split; [rewrite Ho, E0; vm_compute; reflexivity|].
  intros p o w1 w2 Hp Et. rewrite (Hx p o w1 w2 Hp Et). exact E0.
Defined.
