(* ===== verification/ProcessSpec.v ===== *)
(** The coordinator and the worker together: a request that travels from one to the other
    and back, and the registration of a worker. *)
From S2P Require Import Prelude Words Ordered Bytes Protocol Net Coordinator CoordinatorInv.
From S2P Require Import Cuda Worker.
Open Scope Z_scope.

(** ** Frames the two processes exchange *)

Lemma put_str_length s : Z.of_nat (length (append_str [] s)) = 4 + str_size s.
Proof.
  unfold append_str, append_u32. rewrite app_nil_l, length_app, Nat2Z.inj_add, bytes_of_string_length.
  unfold put_u32. rewrite put_le_from_length. lia.
Qed.

Lemma append_str_split b s : append_str b s = b ++ append_str [] s.
Proof. unfold append_str, append_u32. by rewrite app_nil_l, <- app_assoc. Qed.

Lemma append_str_ok b s : bytes_ok b -> bytes_ok (append_str b s).
Proof.
  intros Hb. rewrite append_str_split. apply Forall_app. split; [done|].
  unfold append_str, append_u32. rewrite app_nil_l.
  apply Forall_app. split; [apply put_le_from_ok|apply bytes_of_string_ok].
Qed.

Lemma append_u32_ok b v : bytes_ok b -> bytes_ok (append_u32 b v).
Proof. intros Hb. apply Forall_app. split; [done|apply put_le_from_ok]. Qed.

Lemma append_u64_ok b v : bytes_ok b -> bytes_ok (append_u64 b v).
Proof. intros Hb. apply Forall_app. split; [done|apply put_le_from_ok]. Qed.

Lemma append_u64_length b v : length (append_u64 b v) = (8 + length b)%nat.
Proof. unfold append_u64, put_u64. rewrite length_app, put_le_from_length. lia. Qed.

(** A named message type and a short payload of bytes. *)
Lemma plain_frame_ok type payload :
  Msg.of_u8 (Msg.to_u8 type) = type -> is_byte (Msg.to_u8 type) -> bytes_ok payload ->
  Z.of_nat (length payload) <= kMaxFrame -> frame_ok (mk_frame type payload).
Proof. by constructor. Qed.

(** The messages of strings that leave room for the other fields. *)
Definition short (s : string) : Prop := str_size s <= 2 ^ 19.

Lemma result_payload_ok idv genv status e : bytes_ok (result_payload idv genv status e).
Proof.
  unfold result_payload. apply append_str_ok, append_u32_ok, append_u64_ok, append_u64_ok. constructor.
Qed.

Lemma result_payload_short idv genv status e :
  short e -> Z.of_nat (length (result_payload idv genv status e)) <= kMaxFrame.
Proof.
  intros He. unfold result_payload. rewrite append_str_split, length_app, Nat2Z.inj_add, put_str_length.
  unfold append_u32, put_u32. rewrite length_app, put_le_from_length, !append_u64_length.
  unfold short, kMaxFrame in *. simpl length. lia.
Qed.

Lemma result_frame_ok type idv genv status e :
  type = Msg.ALLOCATE_RESULT \/ type = Msg.RELEASE_RESULT -> short e ->
  frame_ok (mk_frame type (result_payload idv genv status e)).
Proof.
  intros Ht He. apply plain_frame_ok; [| |apply result_payload_ok|by apply result_payload_short];
    destruct Ht as [->| ->]; done || (unfold is_byte; simpl; lia).
Qed.

(** ** A relayed request *)

Section relay.
Context {W : Type} `{!Winsock W, !WinsockLaws W}.
Context {D : Type} `{!Cuda D}.
Implicit Types (st : Coordinator) (w : W) (allocs : omap Z Alloc) (d : D).

(** A connected worker, apart from the controller. *)
Record serving st w : Prop := {
  sv_worker : co_worker st <> INVALID_SOCKET;
  sv_boot : co_worker_boot st <> 0;
  sv_apart : co_ctrl st <> co_worker st;
  sv_open : is_open (co_worker st) w;
}.

(** The worker was sent this request and nothing else; only a [send] that fails cuts it short. *)
Definition asked (s : SOCKET) (type : Msg.t) (payload : bytes) w w' : Prop :=
  delivered s (encode type payload) w w'.

Lemma asked_reply st st' type payload type' payload' w w1 :
  co_ctrl st' <> co_worker st ->
  asked (co_worker st) type payload w w1 ->
  asked (co_worker st) type payload w (reply type' payload' st' w1).
Proof.
  intros Hne. apply delivered_before. unfold reply. by rewrite sent_other.
Qed.

Lemma worker_allocate_payload idv genv n allocs d allocs' d' o :
  in_u64 idv -> in_u64 genv -> in_u64 n ->
  (forall e, (cudaMalloc n d).1 = inr e -> short e) ->
  worker_allocate (three_words idv genv n) allocs d = (allocs', d', o) ->
  exists status e, o = result_payload idv genv status e /\ 0 <= status < U32 /\ short e
    /\ (status = 0 <-> exists p, (cudaMalloc n d).1 = inl p)
    /\ (status = 0 -> exists p, om_find idv allocs' = Some (mk_alloc genv n p)).
Proof.
  intros Hi Hg Hn Hs. unfold worker_allocate. rewrite take_three_words by done.
  destruct (cudaMalloc n d) as [[p|e] d1]; intros [= <- <- <-]; simpl in *.
  - exists 0, ""%string. split; [done|]. split; [unfold U32; lia|].
    split; [unfold short, str_size; simpl; lia|]. split; [split; eauto|].
    intros _. exists p. apply om_find_set_eq.
  - exists (u32_of_i32 (-1)), e. split; [done|]. split; [by vm_compute|]. split; [by apply Hs|].
    split; [split; [done|by intros [p ?]]|done].
Qed.

Lemma relay_allocate st w idv genv n status e rest :
  in_u64 idv -> in_u64 genv -> in_u64 n -> serving st w -> 0 <= status < U32 -> short e ->
  peer (co_worker st) w
    = frame_bytes (mk_frame Msg.ALLOCATE_RESULT (result_payload idv genv status e)) ++ rest ->
  exists st' w', on_allocate (three_words idv genv n) st w = (st', w')
    /\ st' = co_with_alloc (om_set idv (mk_alloc_state idv genv (co_worker_boot st) n (status =? 0))
                              (co_alloc st)) st
    /\ asked (co_worker st) Msg.ALLOCATE (three_words idv genv n) w w'
    /\ one_answer (co_ctrl st) Msg.ALLOCATE_RESULT (result_payload idv genv status e) w w'.
Proof.
  intros Hi Hg Hn [Hw Hb Hne Ho] Hs He Hp. unfold on_allocate. rewrite take_three_words by done.
  destruct (Z.eqb_spec (co_worker st) INVALID_SOCKET); [done|].
  destruct (Z.eqb_spec (co_worker_boot st) 0); [done|]. cbn [orb].
  destruct (exchange st w Msg.ALLOCATE (three_words idv genv n) Msg.ALLOCATE_RESULT
              (result_payload idv genv status e) rest) as (w1 & -> & Hk & Hc); [done| |done|].
  { apply result_frame_ok; auto. }
  cbn [frame_payload]. rewrite take_status_result; [|done..|unfold short, kMaxFrame in *; lia].
  eexists _, _. split_and!; [done..| |].
  - by apply asked_reply.
  - eapply one_answer_after; [by apply Hc|]. by apply (reply_one_answer _ _ (co_with_alloc _ st)).
Qed.

Lemma worker_release_payload idv genv bootv allocs d allocs' d' o :
  in_u64 idv -> in_u64 genv -> in_u64 bootv -> om_ok allocs ->
  worker_release (three_words idv genv bootv) allocs d = (allocs', d', o) ->
  exists status e, o = result_payload idv genv status e /\ 0 <= status < U32 /\ short e
    /\ (status = 0 <-> exists a, om_find idv allocs = Some a /\ al_gen a = genv)
    /\ (status = 0 -> om_find idv allocs' = None).
Proof.
  intros Hi Hg Hb Ho. unfold worker_release. rewrite take_three_words by done.
  destruct (om_find idv allocs) as [a|]; [destruct (Z.eqb_spec (al_gen a) genv) as [Eg|Eg]; simpl|];
    intros [= <- <- <-].
  1: exists 0, ""%string.
  2, 3: exists (u32_of_i32 (-1)), "stale or unknown"%string.
  all: split; [done|]; split; [by vm_compute|]; split; [by vm_compute|].
  - split; [split; eauto|]. intros _. by apply om_find_erase_eq.
  - split; [|done]. split; [done|]. intros (a' & [= ->] & ?). done.
  - split; [|done]. split; [done|]. by intros (a' & ? & ?).
Qed.

Lemma relay_release st w idv genv bootv status e rest :
  in_u64 idv -> in_u64 genv -> in_u64 bootv -> serving st w -> 0 <= status < U32 -> short e ->
  releasable st idv genv ->
  peer (co_worker st) w
    = frame_bytes (mk_frame Msg.RELEASE_RESULT (result_payload idv genv status e)) ++ rest ->
  exists w', on_release (three_words idv genv bootv) st w = (st, w')
    /\ asked (co_worker st) Msg.RELEASE (three_words idv genv bootv) w w'
    /\ one_answer (co_ctrl st) Msg.RELEASE_RESULT (result_payload idv genv status e) w w'.
Proof.
  intros Hi Hg Hb [Hw _ Hne Ho] Hs He (a & Ef & Eg & Eb) Hp. unfold on_release.
  rewrite take_three_words by done. rewrite Ef, Eg, Eb, !Z.eqb_refl. cbn [negb orb].
  destruct (exchange st w Msg.RELEASE (three_words idv genv bootv) Msg.RELEASE_RESULT
              (result_payload idv genv status e) rest) as (w1 & -> & Hk & Hc); [done| |done|].
  { apply result_frame_ok; auto. }
  cbn [frame_payload]. rewrite take_status_result; [|done..|unfold short, kMaxFrame in *; lia].
  rewrite i32_u32 by done. eexists. split; [done|]. split.
  - by apply asked_reply.
  - eapply one_answer_after; [by apply Hc|]. apply reply_one_answer.
Qed.

End relay.

(** ** Registration *)

(** What a worker sends first. *)
Definition registration (name : string) (boot pid freeb totalb : Z) (dev : string) : list Frame :=
  [mk_frame Msg.HELLO (pack_u8 2);
   mk_frame Msg.REGISTER (append_u64 (append_u64 (append_str [] name) boot) pid);
   mk_frame Msg.PUBLISH_CAPACITY (append_str (append_u64 (append_u64 [] freeb) totalb) dev)].

Lemma worker_register_frames {W} `{!Winsock W} s name boot pid freeb totalb dev (w w' : W) :
  send_frames s (registration name boot pid freeb totalb dev) w = (true, w') ->
  worker_register s name boot pid freeb totalb dev w = w'.
Proof.
  unfold worker_register. cbn [registration send_frames frame_type frame_payload].
  destruct (send_frame s Msg.HELLO _ w) as [[] w1]; [|done]. cbn [snd].
  destruct (send_frame s Msg.REGISTER _ w1) as [[] w2]; [|done]. cbn [snd].
  destruct (send_frame s Msg.PUBLISH_CAPACITY _ w2) as [[] w3]; [|done]. by intros [= <-].
Qed.

Lemma registration_ok name boot pid freeb totalb dev :
  short name -> short dev -> Forall frame_ok (registration name boot pid freeb totalb dev).
Proof.
  intros Hn Hd. unfold short in *.
  constructor; [|constructor; [|constructor; [|constructor]]]; apply plain_frame_ok;
    try done; try (unfold is_byte; simpl; lia).
  - repeat constructor; unfold is_byte; lia.
  - apply append_u64_ok, append_u64_ok, append_str_ok. constructor.
  - pose proof (put_str_length name). rewrite !append_u64_length. unfold kMaxFrame. lia.
  - apply append_str_ok, append_u64_ok, append_u64_ok. constructor.
  - rewrite append_str_split, length_app, Nat2Z.inj_add, put_str_length, !append_u64_length.
    unfold kMaxFrame. simpl length. lia.
Qed.

Section register.
Context {W : Type} `{!Winsock W, !WinsockLaws W}.
Implicit Types (st : Coordinator) (w : W).

Lemma accept_registration c st w name boot pid freeb totalb dev rest :
  c <> INVALID_SOCKET -> c <> co_worker st -> is_open c w ->
  short name -> short dev -> in_u64 boot -> in_u64 pid ->
  peer c w = concat (frame_bytes <$> registration name boot pid freeb totalb dev) ++ rest ->
  exists w', accept_connection c st w
             = (true, co_print (registered_line name boot pid) (co_with_worker c boot st), w')
    /\ is_open c w' /\ peer c w' = rest.
Proof.
  intros Hc Hcw Ho Hn Hd Hb Hpid Hp.
  pose proof (registration_ok name boot pid freeb totalb dev Hn Hd) as Hok.
  unfold registration in Hok. rewrite !Forall_cons in Hok. destruct Hok as (Hok1 & Hok2 & Hok3 & _).
  unfold registration in Hp. rewrite !fmap_cons in Hp. cbn [concat fmap list_fmap] in Hp.
  rewrite app_nil_r, <- !app_assoc in Hp.
  destruct (recv_frame_complete c _ w _ Hok1 Ho Hp) as (w1 & E1 & Ho1 & _ & Hp1).
  destruct (recv_frame_complete c _ w1 _ Hok2 Ho1 Hp1) as (w2 & E2 & Ho2 & _ & Hp2).
  destruct (recv_frame_complete c _ w2 _ Hok3 Ho2 Hp2) as (w3 & E3 & Ho3 & _ & Hp3).
  exists (shutdown_sock (co_worker st) w3).
  destruct (shutdown_sock_spec (co_worker st) w3 c Hcw) as (-> & _ & Hoc). split_and!; [|auto|done].
  unfold accept_connection. destruct (Z.eqb_spec c INVALID_SOCKET); [done|]. rewrite E1.
  cbn [frame_payload pack_u8 append_u8 put_u8 app take_u8 fst Z.eqb Pos.eqb].
  unfold register_worker. rewrite E2. cbn [frame_payload].
  unfold append_u64. rewrite <- app_assoc, take_str_put by (unfold short, kMaxFrame in *; lia).
  rewrite take_u64_put by done. rewrite <- (app_nil_r (put_u64 pid)), take_u64_put by done.
  by rewrite E3.
Qed.
End register.
