(* ===== verification/Service.v ===== *)
(** Coordinator and worker as one service: what the coordinator's books say about the worker's
    table while requests are served, and how a refused request can part the two. *)
From S2P Require Import Prelude Words Ordered Bytes Protocol Net Coordinator CoordinatorInv.
From S2P Require Import Cuda Worker ProcessSpec.
Open Scope Z_scope.

Section service.
Context {W : Type} `{!Winsock W, !WinsockLaws W}.
Context {D : Type} `{!Cuda D}.
Implicit Types (st : Coordinator) (w : W) (allocs : omap Z Alloc) (d : D).

(** A worker of boot [boot] joins: nothing is booked under its boot yet.  Then requests are
    relayed, served and answered one after the other; the network between two requests is
    whatever it may be.  In a clean run no ALLOCATE names an id that the worker holds. *)
Inductive served (clean : bool) (boot : Z) : Coordinator -> omap Z Alloc -> D -> Prop :=
  | served_start st d :
      co_worker_boot st = boot -> om_ok (co_alloc st) ->
      (forall id e, om_find id (co_alloc st) = Some e -> 0 <= as_bytes e) ->
      served clean boot st [] d
  | served_allocate st allocs d w idv genv n allocs' d' o rest st' w' :
      served clean boot st allocs d -> serving st w -> in_u64 idv -> in_u64 genv -> in_u64 n ->
      (clean = true -> om_find idv allocs = None) ->
      (forall e, (cudaMalloc n d).1 = inr e -> short e) ->
      worker_allocate (three_words idv genv n) allocs d = (allocs', d', o) ->
      peer (co_worker st) w = frame_bytes (mk_frame Msg.ALLOCATE_RESULT o) ++ rest ->
      on_allocate (three_words idv genv n) st w = (st', w') ->
      served clean boot st' allocs' d'
  | served_release st allocs d w idv genv bootv allocs' d' o rest st' w' :
      served clean boot st allocs d -> serving st w -> in_u64 idv -> in_u64 genv -> in_u64 bootv ->
      releasable st idv genv ->
      worker_release (three_words idv genv bootv) allocs d = (allocs', d', o) ->
      peer (co_worker st) w = frame_bytes (mk_frame Msg.RELEASE_RESULT o) ++ rest ->
      on_release (three_words idv genv bootv) st w = (st', w') ->
      served clean boot st' allocs' d'
  | served_refused st allocs d w idv genv bootv st' w' :
      served clean boot st allocs d -> serving st w -> in_u64 idv -> in_u64 genv -> in_u64 bootv ->
      ~ releasable st idv genv ->
      on_release (three_words idv genv bootv) st w = (st', w') ->
      served clean boot st' allocs d.

(** The entry that books [a] under [id]. *)
Definition booked (boot : Z) st (id : Z) (a : Alloc) : Prop :=
  om_find id (co_alloc st) = Some (mk_alloc_state id (al_gen a) boot (al_bytes a) true).

Record agrees (boot : Z) st allocs : Prop := {
  ag_boot : co_worker_boot st = boot;
  ag_books : om_ok (co_alloc st);
  ag_allocs : om_ok allocs;
  ag_bytes id e : om_find id (co_alloc st) = Some e -> 0 <= as_bytes e;
  ag_booked id a : om_find id allocs = Some a -> booked boot st id a;
}.

Lemma worker_release_sub idv genv bootv allocs d allocs' d' o :
  om_ok allocs -> worker_release (three_words idv genv bootv) allocs d = (allocs', d', o) ->
  om_ok allocs' /\ forall id a, om_find id allocs' = Some a -> om_find id allocs = Some a.
Proof.
  intros Ho. unfold worker_release. destruct (take_three _) as [[i g] b].
  destruct (om_find i allocs) as [a|]; [destruct (negb _)|]; intros [= <- _ _]; try done.
  split; [by apply om_ok_erase|]. intros id a'. destruct (decide (id = i)) as [->|Hne].
  - by rewrite om_find_erase_eq.
  - by rewrite om_find_erase_ne.
Qed.

Lemma served_agrees boot st allocs d : served true boot st allocs d -> agrees boot st allocs.
Proof.
  induction 1 as [st d Hb Ho Hby|st allocs d w idv genv n allocs' d' o rest st' w' _ IH Hs Hi Hg Hn Hc He Ew Hp E
    |st allocs d w idv genv bootv allocs' d' o rest st' w' _ IH Hs Hi Hg Hb _ Ew _ E
    |st allocs d w idv genv bootv st' w' _ IH Hs Hi Hg Hb _ E].
  - constructor; try done. constructor.
  - destruct (worker_allocate_payload _ _ _ _ _ _ _ _ Hi Hg Hn He Ew)
      as (status & e & -> & Hst & Hsh & Hok & _).
    destruct (relay_allocate st w idv genv n status e rest) as (st1 & w1 & E1 & -> & _); try done.
    rewrite E in E1. injection E1 as -> _. destruct IH as [Hbt Hbk Hal Hby Hall]. specialize (Hc eq_refl).
    assert (Hby' : forall id e, om_find id (om_set idv (mk_alloc_state idv genv (co_worker_boot st) n (status =? 0))
      (co_alloc st)) = Some e -> 0 <= as_bytes e).
    { intros id e0. destruct (decide (id = idv)) as [->|Hne].
      - rewrite om_find_set_eq. intros [= <-]. apply Hn.
      - rewrite om_find_set_ne by done. apply Hby. }
    unfold worker_allocate in Ew. rewrite take_three_words in Ew by done.
    destruct (cudaMalloc n d) as [[p|e'] d1]; injection Ew as <- <- Eo.
    + assert (status = 0) as -> by (apply Hok; by exists p). simpl.
      constructor; [done|by apply om_ok_set|by apply om_ok_set|exact Hby'|]. intros id a. unfold booked. simpl.
      destruct (decide (id = idv)) as [->|Hne].
      * rewrite !om_find_set_eq. intros [= <-]. by rewrite Hbt.
      * rewrite !om_find_set_ne by done. apply Hall.
    + constructor; [done|by apply om_ok_set|done|exact Hby'|]. intros id a Hf. unfold booked. simpl.
      rewrite om_find_set_ne by congruence. by apply Hall.
  - pose proof (on_release_state (three_words idv genv bootv) st w) as Es. rewrite E in Es. simpl in Es.
    subst st'. destruct IH as [? ? Hal ? Hall].
    destruct (worker_release_sub _ _ _ _ _ _ _ _ Hal Ew) as [? Hsub]. constructor; try done. eauto.
  - pose proof (on_release_state (three_words idv genv bootv) st w) as Es. rewrite E in Es. simpl in Es.
    by subst st'.
Qed.

(** The bytes of the worker's table, and of the coordinator's current entries. *)
Definition worker_bytes allocs : Z := zsum al_bytes (om_values allocs).
Definition booked_bytes (m : omap Z AllocState) : Z :=
  zsum (fun a => if as_current a then as_bytes a else 0) (om_values m).

Lemma booked_bytes_found m id e :
  om_find id m = Some e ->
  booked_bytes m = (if as_current e then as_bytes e else 0) + booked_bytes (om_erase id m).
Proof. intros E%om_erase_perm. unfold booked_bytes, om_values. by rewrite E at 1. Qed.

Lemma worker_bytes_booked boot st allocs : agrees boot st allocs -> worker_bytes allocs <= booked_bytes (co_alloc st).
Proof.
  intros [_ Hm Ha Hby Hb]. unfold booked in Hb. revert Hm Hby Hb. generalize (co_alloc st) as m.
  induction allocs as [|[id a] allocs IH]; intros m Hm Hby Hb.
  - unfold worker_bytes, booked_bytes. simpl. apply zsum_nonneg. intros e He.
    unfold om_values in He. apply list_elem_of_fmap in He as ([id e'] & -> & He). simpl.
    destruct (as_current e'); [|done]. apply (Hby id). by apply om_find_elem.
  - apply om_ok_cons in Ha as [Hgt Ha].
    assert (Hf : om_find id m = Some (mk_alloc_state id (al_gen a) boot (al_bytes a) true)).
    { apply Hb. cbn [om_find]. by rewrite decide_True. }
    rewrite (booked_bytes_found m id _ Hf). cbn [as_current as_bytes].
    assert (Hne : forall id' a', om_find id' allocs = Some a' -> id' <> id).
    { intros id' a' Hf' ->. apply om_find_elem in Hf'; [|done].
      apply (proj1 (Forall_forall _ _) Hgt) in Hf'. by apply klt_irrefl in Hf'. }
    specialize (IH Ha (om_erase id m)). change (worker_bytes ((id, a) :: allocs)) with (al_bytes a + worker_bytes allocs).
    enough (worker_bytes allocs <= booked_bytes (om_erase id m)) by lia. apply IH.
    + by apply om_ok_erase.
    + intros id' e. destruct (decide (id' = id)) as [->|?]; [by rewrite om_find_erase_eq|].
      rewrite om_find_erase_ne by done. apply Hby.
    + intros id' a' Hf'. pose proof (Hne _ _ Hf'). rewrite om_find_erase_ne by done. apply Hb.
      cbn [om_find]. by rewrite decide_False.
Qed.

(** ** A refused request for an id that is held *)

Lemma refused_allocate st w idv genv n e allocs d allocs' d' o rest st' w' :
  serving st w -> in_u64 idv -> in_u64 genv -> in_u64 n -> (cudaMalloc n d).1 = inr e -> short e ->
  worker_allocate (three_words idv genv n) allocs d = (allocs', d', o) ->
  peer (co_worker st) w = frame_bytes (mk_frame Msg.ALLOCATE_RESULT o) ++ rest ->
  on_allocate (three_words idv genv n) st w = (st', w') ->
  allocs' = allocs /\ co_worker_boot st' = co_worker_boot st
  /\ om_find idv (co_alloc st') = Some (mk_alloc_state idv genv (co_worker_boot st) n false).
Proof.
  intros Hs Hi Hg Hn Hm He Ew Hp E.
  assert (He' : forall e', (cudaMalloc n d).1 = inr e' -> short e') by (intros e' E'; congruence).
  destruct (worker_allocate_payload _ _ _ _ _ _ _ _ Hi Hg Hn He' Ew)
    as (status & e' & -> & Hst & Hsh & Hok & _).
  destruct (relay_allocate st w idv genv n status e' rest) as (st1 & w1 & E1 & -> & _); try done.
  rewrite E in E1. injection E1 as -> _. split; [|split; [done|]].
  - unfold worker_allocate in Ew. rewrite take_three_words in Ew by done.
    destruct (cudaMalloc n d) as [[p|e0] d1]; [done|]. by injection Ew as <- _ _.
  - simpl. rewrite om_find_set_eq. destruct (Z.eqb_spec status 0) as [Es|]; [|done].
    apply Hok in Es as [p Hpp]. congruence.
Qed.

End service.
