(* ===== verification/ProcessProps.v ===== *)
(** What the coordinator and the worker guarantee: fencing, one answer per request, the
    path of a request through both, registration, and the worker's device memory. *)
From S2P Require Import Prelude Words Ordered Bytes Protocol Net Coordinator CoordinatorInv.
From S2P Require Import Cuda Worker ProcessSpec.
Open Scope Z_scope.

(** ** A concrete state *)

(** A coordinator with controller 10 and worker 11 of boot 7, and an allocation of theirs. *)
Definition demo_coordinator : Coordinator :=
  mk_coordinator 3 10 11 7 [(1, mk_alloc_state 1 1 7 100 true)] [].

Definition demo_net (worker_in : list bytes) : sockets :=
  fun s => if s =? 11 then mk_socket worker_in [4096; 4096] [] else mk_socket [] [4096; 4096] [].

Lemma demo_serving l : Forall (fun seg => seg <> []) l -> serving demo_coordinator (demo_net l).
Proof. by constructor. Qed.

(** ** Fencing *)

(** C27: a dead worker's allocations are fenced for good.  When an ALLOCATE
    finds the worker dead, then in every later state in which no worker with the same boot
    has registered, no allocation of that boot counts as current, and a RELEASE that names
    one is answered "stale or unknown" without a byte being sent to any worker. *)
Theorem dead_worker_fenced {W} `{Winsock W} payload st (w : W) st1 w1 st2 w2 id a bootv :
  on_allocate payload st w = (st1, w1) -> co_worker st <> INVALID_SOCKET ->
  co_worker st1 = INVALID_SOCKET -> turns_without (co_worker_boot st) st1 w1 st2 w2 ->
  om_find id (co_alloc st2) = Some a -> as_boot a = co_worker_boot st ->
  in_u64 id -> in_u64 (as_gen a) -> in_u64 bootv ->
  as_current a = false
  /\ on_release (three_words id (as_gen a) bootv) st2 w2
     = (st2, reply Msg.RELEASE_RESULT
               (result_payload id (as_gen a) 0xFFFFFFFF "stale or unknown") st2 w2).
Proof.
  intros E Hw Hw1 Ht Hf Hb Hi Hg Hbv.
  pose proof (on_allocate_death _ _ _ _ _ E Hw Hw1) as Hd.
  destruct (fenced_later _ _ _ _ _ Ht Hd) as [Hne Hc]. split; [by eapply Hc|].
  apply (on_release_stale _ id (as_gen a) bootv); [by apply take_three_words|].
  intros (a' & Ef & _ & Eb). congruence.
Qed.

(** The worker's connection ends before it answers; a second worker takes over. *)
Definition demo_dead : Coordinator :=
  (on_allocate (three_words 2 1 64) demo_coordinator (demo_net [])).1.
Definition demo_dead_net : sockets :=
  (on_allocate (three_words 2 1 64) demo_coordinator (demo_net [])).2.

Lemma dead_worker_fenced_witness :
  as_current (mk_alloc_state 1 1 7 100 false) = false
  /\ on_release (three_words 1 1 7) demo_dead demo_dead_net
     = (demo_dead, reply Msg.RELEASE_RESULT (result_payload 1 1 0xFFFFFFFF "stale or unknown")
                     demo_dead demo_dead_net).
Proof.
  apply (dead_worker_fenced (three_words 2 1 64) demo_coordinator (demo_net [])
           demo_dead demo_dead_net demo_dead demo_dead_net 1 (mk_alloc_state 1 1 7 100 false) 7).
  - apply surjective_pairing.
  - done.
  - vm_compute. reflexivity.
  - apply turns_none.
  - vm_compute. reflexivity.
  - done.
  - unfold in_u64, U64. lia.
  - unfold in_u64, U64. simpl. lia.
  - unfold in_u64, U64. lia.
Defined.

(** ** Answers *)

(** What the answer to a request says: the ids of the request are echoed, a query gets
    the sums over the current allocations. *)
Definition answers (f : Frame) st (payload : bytes) : Prop :=
  let '(idv, genv, _) := take_three (frame_payload f) in
  match frame_type f with
  | Msg.QUERY =>
      payload
      = put_u64 (zsum (fun a => if as_current a then as_bytes a else 0) (om_values (co_alloc st)) mod U64)
        ++ put_u64 (zsum (fun a => if as_current a then 1 else 0) (om_values (co_alloc st)) mod U64)
  | _ => exists status e, payload = result_payload idv genv status e
  end.

Definition answer_type (m : Msg.t) : option Msg.t :=
  match m with
  | Msg.ALLOCATE => Some Msg.ALLOCATE_RESULT
  | Msg.RELEASE => Some Msg.RELEASE_RESULT
  | Msg.QUERY => Some Msg.QUERY_RESULT
  | _ => None
  end.

(** C28: every request is answered, once.  Whatever the state, as long as controller and worker are
    two connections, and whatever the worker does, handling an ALLOCATE, RELEASE or QUERY keeps
    the coordinator running and sends the controller one frame and nothing else, of the matching
    type, that echoes the id and generation of the request, or for a query carries the bytes of
    the current allocations and their number, both modulo 2^64.  The frame is sent whole, or up
    to a [send] on the controller's connection that fails; where none fails it is sent whole. *)
Theorem request_answered {W} `{WinsockLaws W} f type st (w : W) :
  co_ctrl st <> co_worker st -> answer_type (frame_type f) = Some type ->
  exists st' w' payload, on_request f st w = Running st' w'
    /\ answers f st payload /\ one_answer (co_ctrl st) type payload w w'
    /\ (accepts (W := W) (co_ctrl st) (encode type payload) ->
        sent (co_ctrl st) w' = sent (co_ctrl st) w ++ encode type payload).
Proof.
  intros Hne Ht.
  enough (exists st' w' payload, on_request f st w = Running st' w'
    /\ answers f st payload /\ one_answer (co_ctrl st) type payload w w') as (st' & w' & payload & E & Ha & Ho).
  { exists st', w', payload. split_and!; [done..|]. by apply delivered_whole. }
  unfold on_request, answers.
  destruct (take_three (frame_payload f)) as [[idv genv] n] eqn:E3.
  destruct (frame_type f); try done; injection Ht as <-.
  - destruct (on_allocate_answer _ _ _ _ st w E3 Hne) as (status & e & Ha).
    eexists _, _, (result_payload idv genv status e). split_and!; eauto.
  - destruct (on_release_answer _ _ _ _ st w E3 Hne) as (status & e & Ha).
    eexists _, _, (result_payload idv genv status e). split_and!; eauto.
  - unfold on_query. rewrite count_current_spec. eexists _, _, _. split_and!; [done..|].
    unfold append_u64. rewrite app_nil_l. apply reply_one_answer.
Qed.

Lemma request_answered_witness :
  exists st' w' payload,
    on_request (mk_frame Msg.QUERY []) demo_coordinator (demo_net []) = Running st' w'
    /\ answers (mk_frame Msg.QUERY []) demo_coordinator payload
    /\ one_answer 10 Msg.QUERY_RESULT payload (demo_net []) w'
    /\ (accepts (W := sockets) 10 (encode Msg.QUERY_RESULT payload) ->
        sent 10 w' = sent 10 (demo_net []) ++ encode Msg.QUERY_RESULT payload).
Proof. apply (request_answered (mk_frame Msg.QUERY []) _ demo_coordinator); done. Defined.

(** ** A request through both processes *)

(** C29: coordinator and worker agree on an allocation.  When the worker
    [allocs, d] serves the ALLOCATE that the coordinator relays and its answer comes back (with an
    error text of at most 2^19 bytes), the worker was sent exactly the words of the request and the
    controller the worker's answer, unchanged: each frame whole where no [send] of it fails,
    otherwise up to the [send] that failed.  The coordinator records the allocation under the worker's
    boot, as current exactly when [cudaMalloc] succeeded, and then the worker holds it
    with the same generation and size. *)
Theorem allocate_end_to_end {W D} `{WinsockLaws W} `{Cuda D} st (w : W) idv genv n allocs (d : D)
    allocs' d' o rest :
  in_u64 idv -> in_u64 genv -> in_u64 n -> serving st w ->
  (forall e, (cudaMalloc n d).1 = inr e -> short e) ->
  worker_allocate (three_words idv genv n) allocs d = (allocs', d', o) ->
  peer (co_worker st) w = frame_bytes (mk_frame Msg.ALLOCATE_RESULT o) ++ rest ->
  exists st' w' granted, on_allocate (three_words idv genv n) st w = (st', w')
    /\ asked (co_worker st) Msg.ALLOCATE (three_words idv genv n) w w'
    /\ one_answer (co_ctrl st) Msg.ALLOCATE_RESULT o w w'
    /\ (accepts (W := W) (co_worker st) (encode Msg.ALLOCATE (three_words idv genv n)) ->
        sent (co_worker st) w' = sent (co_worker st) w ++ encode Msg.ALLOCATE (three_words idv genv n))
    /\ (accepts (W := W) (co_ctrl st) (encode Msg.ALLOCATE_RESULT o) ->
        sent (co_ctrl st) w' = sent (co_ctrl st) w ++ encode Msg.ALLOCATE_RESULT o)
    /\ om_find idv (co_alloc st') = Some (mk_alloc_state idv genv (co_worker_boot st) n granted)
    /\ (granted = true <-> exists p, (cudaMalloc n d).1 = inl p)
    /\ (granted = true -> exists p, om_find idv allocs' = Some (mk_alloc genv n p)).
Proof.
  intros Hi Hg Hn Hs He Ew Hp.
  destruct (worker_allocate_payload _ _ _ _ _ _ _ _ Hi Hg Hn He Ew)
    as (status & e & -> & Hst & Hsh & Hok & Hheld).
  destruct (relay_allocate st w idv genv n status e rest) as (st' & w' & E & Est & Ha & Hr); try done.
  exists st', w', (status =? 0). rewrite Z.eqb_eq.
  do 3 (split; [done|]). do 2 (split; [by apply delivered_whole|]). split; [|done]. rewrite Est. apply om_find_set_eq.
Qed.

Definition granted_reply : bytes := result_payload 5 1 0 "".

Lemma allocate_end_to_end_witness :
  exists st' w' granted,
    on_allocate (three_words 5 1 256) demo_coordinator
      (demo_net [frame_bytes (mk_frame Msg.ALLOCATE_RESULT granted_reply)]) = (st', w')
    /\ asked 11 Msg.ALLOCATE (three_words 5 1 256)
         (demo_net [frame_bytes (mk_frame Msg.ALLOCATE_RESULT granted_reply)]) w'
    /\ one_answer 10 Msg.ALLOCATE_RESULT granted_reply
         (demo_net [frame_bytes (mk_frame Msg.ALLOCATE_RESULT granted_reply)]) w'
    /\ (accepts (W := sockets) 11 (encode Msg.ALLOCATE (three_words 5 1 256)) ->
        sent 11 w' = sent 11 (demo_net [frame_bytes (mk_frame Msg.ALLOCATE_RESULT granted_reply)])
                     ++ encode Msg.ALLOCATE (three_words 5 1 256))
    /\ (accepts (W := sockets) 10 (encode Msg.ALLOCATE_RESULT granted_reply) ->
        sent 10 w' = sent 10 (demo_net [frame_bytes (mk_frame Msg.ALLOCATE_RESULT granted_reply)])
                     ++ encode Msg.ALLOCATE_RESULT granted_reply)
    /\ om_find 5 (co_alloc st') = Some (mk_alloc_state 5 1 7 256 granted)
    /\ (granted = true <-> exists p, (cudaMalloc 256 ([] : demo_device)).1 = inl p)
    /\ (granted = true -> exists p, om_find 5 [(5, mk_alloc 1 256 1)] = Some (mk_alloc 1 256 p)).
Proof.
  apply (allocate_end_to_end demo_coordinator
           (demo_net [frame_bytes (mk_frame Msg.ALLOCATE_RESULT granted_reply)]) 5 1 256 []
           ([] : demo_device) [(5, mk_alloc 1 256 1)] [1] granted_reply []).
  - unfold in_u64, U64. lia.
  - unfold in_u64, U64. lia.
  - unfold in_u64, U64. lia.
  - apply demo_serving. constructor; [by vm_compute|constructor].
  - intros e He. discriminate He.
  - vm_compute. reflexivity.
  - vm_compute. reflexivity.
Defined.

(** C30: a released allocation stays on the coordinator's books.  A RELEASE
    is relayed only for an entry of that generation that the current worker made (otherwise
    the worker is not asked); the controller gets the worker's answer unchanged.  But even
    when the worker has dropped the allocation, the coordinator's table is untouched: the
    entry is still current and queries still count its bytes. *)
Theorem release_end_to_end {W D} `{WinsockLaws W} `{Cuda D} st (w : W) idv genv bootv allocs (d : D)
    allocs' d' o rest :
  in_u64 idv -> in_u64 genv -> in_u64 bootv -> serving st w -> om_ok allocs ->
  worker_release (three_words idv genv bootv) allocs d = (allocs', d', o) ->
  peer (co_worker st) w = frame_bytes (mk_frame Msg.RELEASE_RESULT o) ++ rest ->
  exists w', on_release (three_words idv genv bootv) st w = (st, w')
    /\ (releasable st idv genv ->
        asked (co_worker st) Msg.RELEASE (three_words idv genv bootv) w w'
        /\ one_answer (co_ctrl st) Msg.RELEASE_RESULT o w w'
        /\ forall a, om_find idv allocs = Some a -> al_gen a = genv -> om_find idv allocs' = None)
    /\ (~ releasable st idv genv -> sent (co_worker st) w' = sent (co_worker st) w).
Proof.
  intros Hi Hg Hb Hs Ho Ew Hp.
  destruct (worker_release_payload _ _ _ _ _ _ _ _ Hi Hg Hb Ho Ew)
    as (status & e & -> & Hst & Hsh & Hok & Hgone).
  destruct (on_release (three_words idv genv bootv) st w) as [st' w'] eqn:E.
  pose proof (on_release_state (three_words idv genv bootv) st w) as Es. rewrite E in Es. simpl in Es.
  subst st'. exists w'. split; [done|]. split.
  - intros Hrel. destruct (relay_release st w idv genv bootv status e rest) as (w1 & E1 & Ha & Hr); try done.
    rewrite E in E1. injection E1 as <-. split_and!; [done..|]. intros a Hf Ha'.
    apply Hgone, Hok. eauto.
  - intros Hn. rewrite (on_release_stale _ idv genv bootv) in E by (by try apply take_three_words).
    injection E as <-. apply sent_other. intros Heq. by apply (sv_apart _ _ Hs).
Qed.

Definition released_net : sockets :=
  demo_net [frame_bytes (mk_frame Msg.RELEASE_RESULT (result_payload 1 1 0 ""))].

Lemma release_end_to_end_witness :
  exists w', on_release (three_words 1 1 7) demo_coordinator released_net = (demo_coordinator, w')
    /\ (releasable demo_coordinator 1 1 ->
        asked 11 Msg.RELEASE (three_words 1 1 7) released_net w'
        /\ one_answer 10 Msg.RELEASE_RESULT (result_payload 1 1 0 "") released_net w'
        /\ forall a, om_find 1 [(1, mk_alloc 1 100 1)] = Some a -> al_gen a = 1 ->
           om_find 1 ([] : omap Z Alloc) = None)
    /\ (~ releasable demo_coordinator 1 1 -> sent 11 w' = sent 11 released_net).
Proof.
  apply (release_end_to_end demo_coordinator released_net 1 1 7 [(1, mk_alloc 1 100 1)]
           ([1] : demo_device) [] [] (result_payload 1 1 0 "") []).
  - unfold in_u64, U64. lia.
  - unfold in_u64, U64. lia.
  - unfold in_u64, U64. lia.
  - apply demo_serving. constructor; [by vm_compute|constructor].
  - repeat constructor.
  - vm_compute. reflexivity.
  - vm_compute. reflexivity.
Defined.

(** A worker that introduces itself is registered with its boot.  If the
    three frames of [worker_register] are sent in full and reach the coordinator on a new
    connection, however segmented, accepting that connection makes it the current worker
    with exactly that boot, consumes exactly these frames, prints its name, boot and process,
    and changes nothing else of the state; in particular no allocation of the previous worker is fenced. *)
Theorem worker_registration {W V} `{WinsockLaws W} `{WinsockLaws V} st (w : W) (v v' : V) s c
    name boot pid freeb totalb dev :
  c <> INVALID_SOCKET -> c <> co_worker st -> is_open c w ->
  short name -> short dev -> in_u64 boot -> in_u64 pid ->
  send_frames s (registration name boot pid freeb totalb dev) v = (true, v') ->
  exists out, worker_register s name boot pid freeb totalb dev v = v' /\ sent s v' = sent s v ++ out
    /\ forall rest, peer c w = out ++ rest ->
       exists w', accept_connection c st w
                  = (true, co_print (registered_line name boot pid) (co_with_worker c boot st), w')
                  /\ peer c w' = rest.
Proof.
  intros Hc Hcw Ho Hn Hd Hb Hp E. exists (concat (frame_bytes <$> registration name boot pid freeb totalb dev)).
  split_and!; [by apply worker_register_frames|by apply send_frames_wrote in E as [? _]|].
  intros rest Hpeer.
  destruct (accept_registration c st w name boot pid freeb totalb dev rest) as (w' & ? & _ & ?); try done.
  by exists w'.
Qed.

(** A worker on connection 4 of its own network; its frames on connection 12 here. *)
Definition demo_registration : list Frame := registration "w0" (fresh_boot 77 1000) 77 100 200 "gpu".
Definition worker_net : sockets := fun _ => mk_socket [] [4096; 4096; 4096] [].
Definition arriving_net : sockets := fun s =>
  if s =? 12 then mk_socket [concat (frame_bytes <$> demo_registration)] [] [] else closed_socket.

Lemma worker_registration_witness :
  exists w', accept_connection 12 demo_coordinator arriving_net
             = (true, co_print (registered_line "w0" (fresh_boot 77 1000) 77)
                        (co_with_worker 12 (fresh_boot 77 1000) demo_coordinator), w')
             /\ peer 12 w' = [].
Proof.
  destruct (worker_registration demo_coordinator arriving_net worker_net
    (send_frames 4 demo_registration worker_net).2 4 12 "w0" (fresh_boot 77 1000) 77 100 200 "gpu")
    as (out & _ & Eo & H).
  - done.
  - done.
  - constructor; [by vm_compute|constructor].
  - by vm_compute.
  - by vm_compute.
  - vm_compute. split; [discriminate|reflexivity].
  - unfold in_u64, U64. lia.
  - vm_compute. reflexivity.
  - apply (H []). rewrite app_nil_r. vm_compute in Eo. rewrite <- Eo. vm_compute. reflexivity.
Defined.

(** ** The worker's memory *)

(** C35: the worker never frees a pointer twice and leaks nothing it can name.
    After any sequence of requests, each pointer its table holds is allocated on the
    device (or null) and held once, so that a RELEASE and the loop of SHUTDOWN only free
    allocated pointers.  If no ALLOCATE reused an id still in use, then SHUTDOWN leaves
    the device with exactly what was allocated before the worker started. *)
Theorem worker_memory_safe {W D} `{Winsock W} `{CudaLaws D} s (d0 : D) clean allocs (w : W) d :
  worker_reach s d0 clean allocs w d ->
  (forall id a, om_find id allocs = Some a -> freeable d (al_ptr a))
  /\ distinct (ptrs allocs)
  /\ frees_ok (ptrs allocs) d
  /\ (clean = true -> device (free_all allocs d) = device d0).
Proof.
  intros Hr. pose proof (worker_reach_inv _ _ _ _ _ _ Hr) as [Ho Hh Hd]. split_and!; [|done| |].
  - intros id a (l1 & l2 & ->)%om_find_split. unfold ptrs, om_values in Hh.
    rewrite !fmap_app, !fmap_cons in Hh. by apply Forall_app in Hh as [_ [? _]%Forall_cons].
  - by apply frees_all_ok.
  - intros ->. by eapply free_all_owns, worker_reach_owns.
Qed.

(** The worker that served one ALLOCATE on connection 12. *)
Definition serving_net : sockets := fun s =>
  if s =? 12 then mk_socket [frame_bytes (mk_frame Msg.ALLOCATE (three_words 5 1 256))] [4096] []
  else closed_socket.

Lemma worker_memory_safe_witness :
  (forall id a, om_find id [(5, mk_alloc 1 256 1)] = Some a -> freeable ([1] : demo_device) (al_ptr a))
  /\ distinct (ptrs [(5, mk_alloc 1 256 1)])
  /\ frees_ok (ptrs [(5, mk_alloc 1 256 1)]) ([1] : demo_device)
  /\ (true = true ->
      device (free_all [(5, mk_alloc 1 256 1)] ([1] : demo_device)) = device ([] : demo_device)).
Proof.
  apply (worker_memory_safe 12 ([] : demo_device) true [(5, mk_alloc 1 256 1)]
    (send_frame 12 Msg.ALLOCATE_RESULT granted_reply (recv_frame 12 serving_net).2).2).
  apply (worker_reach_turn 12 _ true [] serving_net [] (mk_frame Msg.ALLOCATE (three_words 5 1 256))
           (recv_frame 12 serving_net).2).
  - apply worker_reach_start.
  - rewrite (surjective_pairing (recv_frame 12 serving_net)). f_equal.
  - done.
  - vm_compute. reflexivity.
Defined.
