(* ===== verification/ServiceProps.v ===== *)
(** What holds of coordinator and worker together over a whole run, and what a refused request
    breaks. *)
From S2P Require Import Prelude Words Ordered Bytes Protocol Net Coordinator CoordinatorInv.
From S2P Require Import Cuda Worker ProcessSpec Service ProcessProps.
Open Scope Z_scope.

(** C31: the books cover what the worker holds, as long as no ALLOCATE names an id that it still holds.
    From the moment a worker with an empty table has joined, over any run of such ALLOCATEs and of
    RELEASEs whose answers from the worker arrive (with error texts of at most 2^19 bytes; a QUERY
    changes nothing), every allocation in the worker's table is booked by the coordinator with the
    same generation and size, as current and under that boot, so that a RELEASE of it is
    relayed; and the bytes the worker holds are at most those that a QUERY sums up. *)
Theorem service_agrees {W D} `{WinsockLaws W} `{Cuda D} boot st allocs (d : D) :
  served (W := W) true boot st allocs d ->
  (forall id a, om_find id allocs = Some a ->
     om_find id (co_alloc st) = Some (mk_alloc_state id (al_gen a) boot (al_bytes a) true)
     /\ releasable st id (al_gen a))
  /\ worker_bytes allocs
     <= zsum (fun a => if as_current a then as_bytes a else 0) (om_values (co_alloc st)).
Proof.
  intros Hr. apply served_agrees in Hr as Ha. split; [|exact (worker_bytes_booked _ _ _ Ha)].
  intros id a Hf. pose proof (ag_booked _ _ _ Ha id a Hf) as Hb. split; [exact Hb|].
  eexists. split; [exact Hb|]. split; [done|]. by rewrite (ag_boot _ _ _ Ha).
Qed.

(** An ALLOCATE served after the worker of boot 7 has joined. *)
Definition joined : Coordinator := mk_coordinator 3 10 11 7 [] [].
Definition granted_net : sockets :=
  demo_net [frame_bytes (mk_frame Msg.ALLOCATE_RESULT granted_reply)].
Definition joined_served : Coordinator := (on_allocate (three_words 5 1 256) joined granted_net).1.

Lemma joined_serving l : Forall (fun seg => seg <> []) l -> serving joined (demo_net l).
Proof. by constructor. Qed.

Lemma joined_run :
  served (W := sockets) true 7 joined_served [(5, mk_alloc 1 256 1)] ([1] : demo_device).
Proof.
  apply (served_allocate true 7 joined [] [] granted_net 5 1 256 _ _ granted_reply [] _
           (on_allocate (three_words 5 1 256) joined granted_net).2).
  - apply served_start; [reflexivity|constructor|intros id e Hf; discriminate Hf].
  - apply joined_serving. constructor; [by vm_compute|constructor].
  - unfold in_u64, U64. lia.
  - unfold in_u64, U64. lia.
  - unfold in_u64, U64. lia.
  - reflexivity.
  - intros e He. discriminate He.
  - vm_compute. reflexivity.
  - vm_compute. reflexivity.
  - apply surjective_pairing.
Qed.

Lemma service_agrees_witness :
  om_find 5 (co_alloc joined_served) = Some (mk_alloc_state 5 1 7 256 true) /\ releasable joined_served 5 1.
Proof.
  destruct (service_agrees 7 joined_served [(5, mk_alloc 1 256 1)] ([1] : demo_device) joined_run) as [Hb _].
  exact (Hb 5 (mk_alloc 1 256 1) eq_refl).
Defined.

(** A refused request strands the allocation it names.  When the worker holds an
    allocation and an ALLOCATE of the same id under another generation fails for lack of device
    memory, the coordinator overwrites the entry: from then on a RELEASE with the generation
    the worker holds is refused by the coordinator, and one that the coordinator relays is
    refused by the worker, so that no RELEASE frees the memory. *)
Theorem failed_allocate_strands {W D} `{WinsockLaws W} `{Cuda D} st (w : W) idv genv n e a
    allocs (d : D) allocs' d' o rest st' w' :
  serving st w -> in_u64 idv -> in_u64 genv -> in_u64 n -> om_find idv allocs = Some a ->
  al_gen a <> genv -> (cudaMalloc n d).1 = inr e -> short e ->
  worker_allocate (three_words idv genv n) allocs d = (allocs', d', o) ->
  peer (co_worker st) w = frame_bytes (mk_frame Msg.ALLOCATE_RESULT o) ++ rest ->
  on_allocate (three_words idv genv n) st w = (st', w') ->
  om_find idv allocs' = Some a
  /\ ~ releasable st' idv (al_gen a)
  /\ forall gen bootv, in_u64 gen -> in_u64 bootv -> releasable st' idv gen ->
       exists o', worker_release (three_words idv gen bootv) allocs' d' = (allocs', d', o').
Proof.
  intros Hs Hi Hg Hn Hf Hne Hm He Ew Hp E.
  destruct (refused_allocate st w idv genv n e allocs d allocs' d' o rest st' w') as (-> & Hb & Hfs); try done.
  split; [done|]. split.
  - intros (x & Hx & Egx & _). rewrite Hfs in Hx. injection Hx as <-. by apply Hne.
  - intros gen bootv Hgen Hbv (x & Hx & Egx & _). rewrite Hfs in Hx. injection Hx as <-.
    simpl in Egx. subst gen. eexists. unfold worker_release. rewrite take_three_words by done.
    rewrite Hf. destruct (Z.eqb_spec (al_gen a) genv); [done|]. simpl. reflexivity.
Qed.

(** The worker holds allocation 5 of generation 1; 5000 bytes for generation 2 are refused. *)
Definition refused_reply : bytes := result_payload 5 2 (u32_of_i32 (-1)) "out of memory".
Definition refused_net : sockets :=
  demo_net [frame_bytes (mk_frame Msg.ALLOCATE_RESULT refused_reply)].
Definition holding : Coordinator := mk_coordinator 3 10 11 7 [(5, mk_alloc_state 5 1 7 256 true)] [].
Definition stranded : Coordinator := (on_allocate (three_words 5 2 5000) holding refused_net).1.

Lemma joined_served_holding : joined_served = holding.
Proof. vm_compute. reflexivity. Qed.

Lemma holding_serving l : Forall (fun seg => seg <> []) l -> serving holding (demo_net l).
Proof. by constructor. Qed.

Lemma failed_allocate_strands_witness : ~ releasable stranded 5 1.
Proof.
  destruct (failed_allocate_strands holding refused_net 5 2 5000 "out of memory" (mk_alloc 1 256 1)
    [(5, mk_alloc 1 256 1)] ([1] : demo_device) [(5, mk_alloc 1 256 1)] [1] refused_reply []
    stranded (on_allocate (three_words 5 2 5000) holding refused_net).2) as (_ & Hr & _).
  - apply holding_serving. constructor; [by vm_compute|constructor].
  - unfold in_u64, U64. lia.
  - unfold in_u64, U64. lia.
  - unfold in_u64, U64. lia.
  - reflexivity.
  - simpl. lia.
  - reflexivity.
  - unfold short. vm_compute. discriminate.
  - vm_compute. reflexivity.
  - vm_compute. reflexivity.
  - apply surjective_pairing.
  - exact Hr.
Defined.
