(* ===== verification/Divergences.v ===== *)
(** Where the code and its comments part, and where it does what it can hardly mean: small
    concrete runs.  (The larger ones are theorems of the components; the header lists them.) *)
From S2P Require Import Prelude Words Ordered Types Streams Floats Region Pressure Request Bytes.
From S2P Require Import Persist PersistInv Governor Text Cli RegionInv RegionAlloc RegionFree.
From S2P Require Import RegionReloc RegionQuery RegionSpec RegionProps PersistSound PersistProps.
From S2P Require Import PolicyProps Protocol Net Coordinator Cuda Worker CoordinatorInv ProcessSpec.
From S2P Require Import ProcessProps GovernorInv GovernorOps GovernorSpec GovernorProps.
Open Scope list_scope.
Open Scope Z_scope.

(** ** The arena *)

(** Two regions with MemoryRegionId 1: the constructor does not use the id up. *)
Example region_ids_repeat :
  (fun r => ri_region_id r) <$> om_values (ra_regions (RegionAllocator_new 4096)) = [mk_id 1]
  /\ (fun r => ri_region_id r) <$> om_values (ra_regions demo1) = [mk_id 1; mk_id 2]
  /\ ri_region_id (demo_region 1 demo1) = mk_id 1.
Proof. vm_compute. split_and!; reflexivity. Qed.

(** An arena without a byte has a region that is not in the slot index. *)
Example empty_arena_inconsistent : verify (RegionAllocator_new 0) = line "free-slot index drift".
Proof. vm_compute. reflexivity. Qed.

(** FIRST_FIT does not take the first of two holes that fit. *)
Definition two_holes : RegionAllocator :=
  fold_left (fun a op => demo_step op a)
    [OpAllocate (demo_req 1 512 64); OpAllocate (demo_req 2 64 64); OpAllocate (demo_req 3 128 64);
     OpAllocate (demo_req 4 64 64); OpFree (mk_id 1) (mk_gen 1); OpFree (mk_id 3) (mk_gen 1)]
    (set_strategy AllocationStrategy.FIRST_FIT demo0).

Example strategy_ignored :
  ra_strategy two_holes = AllocationStrategy.FIRST_FIT
  /\ exists a r, allocate (demo_req 5 128 64) two_holes = Some (a, Ok r) /\ ri_offset r = 576.
Proof. split; [vm_compute; reflexivity|]. eexists _, _. vm_compute. split; reflexivity. Qed.

(** ** Requests and snapshots *)

Example unknown_reclaimability_accepted :
  failure_ok (validate_request (demo_request 100 64 Reclaimability.UNKNOWN) 4096) = true.
Proof. vm_compute. reflexivity. Qed.

(** A pressure state that is no enumerator, and a counter that would give an id a second time. *)
Definition incoherent_snapshot : PersistSnapshot :=
  mk_snapshot Persist.kMagic Persist.kVersion
    (mk_domain (mk_id 1) (mk_gen 1) (mk_id 2) (mk_gen 1) 8192 8192 4096 4096 128 0 128 0 128 0
       d_zero (PressureState.RAW 200) DeviceHealth.HEALTHY WatermarkConfig_default Provenance.REPORTED)
    [demo_record 3 0 128] [] 1 1.

Example incoherent_snapshot_decoded :
  Persist.decode (Persist.encode incoherent_snapshot) = Some (Ok incoherent_snapshot)
  /\ ps_next_alloc_id incoherent_snapshot <= id_value (mk_id (tag := AllocationIdTag) 3).
Proof. split; [vm_compute; reflexivity|simpl; lia]. Qed.

(** The stream flushes when it is destroyed, after [write_file] has made its result: a disk that is
    full by then leaves a file cut short, the save is reported as done, and no one can load it. *)
Example saved_but_cut :
  (save (CloseFails 64) "gms.bin" ∅ gov3).2 = Ok tt
  /\ load true "gms.bin" (save (CloseFails 64) "gms.bin" ∅ gov3).1 gov1
     = Some (gov1, internal "malformed domain").
Proof. vm_compute. split; reflexivity. Qed.

(** A restore sets the counter of ids back to that of the snapshot, so that ids given out since are
    given out again: the handle of an allocation that the restore has dropped frees the memory of
    another one. *)
Example restored_id_reused :
  let before := gov_run [GInitialize] in
  let first := gov_run [GInitialize; GRequest (gov_req 100 64 false)] in
  let second := gov_run [GInitialize; GRequest (gov_req 100 64 false); GRestore (snapshot before);
                         GInitialize; GRequest (gov_req 512 64 false)] in
  om_find (mk_id 1) (gov_records first) <> om_find (mk_id 1) (gov_records second)
  /\ exists h g rec,
       request (gov_req 100 64 false) before = Some (first, Ok h)
       /\ release (h_id h) (h_generation h) second = (g, Ok rec) /\ rec_requested_bytes rec = 512.
Proof.
  intros before first second. split; [vm_compute; discriminate|].
  exists (mk_handle (mk_id 1) (mk_gen 1) 0 128 64), (release (mk_id 1) (mk_gen 1) second).1.
  eexists. split_and!; [vm_compute; reflexivity..|]. vm_compute. reflexivity.
Qed.

(** ** The command line *)

Example suffix_wraps : parse_cap "17179869184G" = 0.
Proof. vm_compute. reflexivity. Qed.

(** ** The processes *)

(** A payload above the limit is encoded, into a frame that no one decodes. *)
Lemma oversized_payload type payload :
  is_byte (Msg.to_u8 type) -> kMaxFrame < Z.of_nat (length payload) < U32 ->
  encode type payload <> [] /\ decode (encode type payload) = None.
Proof.
  intros Ht Hl. split.
  - intros E. pose proof (encode_length type payload) as El. by rewrite E in El.
  - rewrite encode_shape. unfold frame_body, put_u8. rewrite <- !app_assoc. cbn [app].
    rewrite Z.mod_small by lia. rewrite decode_header by (done || lia).
    by rewrite (proj2 (Z.gtb_lt _ _)) by lia.
Qed.

(** A worker that answers an ALLOCATE with an empty payload is taken to have granted it. *)
Example empty_answer_granted :
  om_find 5 (co_alloc (on_allocate (three_words 5 1 256) demo_coordinator
    (demo_net [frame_bytes (mk_frame Msg.ALLOCATE_RESULT [])])).1)
  = Some (mk_alloc_state 5 1 7 256 true).
Proof. vm_compute. reflexivity. Qed.

(** A worker that does not answer a RELEASE is reported dead and kept; one that is replaced
    leaves its allocations current. *)
Example silent_worker_kept :
  on_release (three_words 1 1 7) demo_coordinator (demo_net [])
  = (demo_coordinator, (on_release (three_words 1 1 7) demo_coordinator (demo_net [])).2)
  /\ drop 13 (sk_out ((on_release (three_words 1 1 7) demo_coordinator (demo_net [])).2 10))
     = result_payload 1 1 (u32_of_i32 (-10)) "worker dead"
       ++ put_u32 (crc32 (frame_body Msg.RELEASE_RESULT (result_payload 1 1 (u32_of_i32 (-10)) "worker dead"))).
Proof. split; [|vm_compute; reflexivity]. rewrite (surjective_pairing (on_release _ _ _)) at 1. by rewrite on_release_state. Qed.

Example replaced_worker_current :
  let st := (accept_connection 12 demo_coordinator arriving_net).1.2 in
  co_worker_boot st = fresh_boot 77 1000 /\ count_current (co_alloc st) = (100, 1).
Proof. vm_compute. split; reflexivity. Qed.

(** The second ALLOCATE of an id loses the pointer of the first. *)
Definition twice_allocated : omap Z Alloc * demo_device :=
  let '(allocs, d, _) := worker_allocate (three_words 5 1 256) [] ([] : demo_device) in
  let '(allocs, d, _) := worker_allocate (three_words 5 2 256) allocs d in (allocs, d).

Example pointer_lost : device twice_allocated.2 = {[1; 2]} /\ ptrs twice_allocated.1 = [2].
Proof. split; [apply (bool_decide_unpack _)|]; vm_compute; [exact I|reflexivity]. Qed.
